(* ===== verification/_CoqProject ===== *)
-Q . S2P
Prelude.v
Logging.v
Float64.v
Encoding.v
Identity.v
Format.v
Sha1.v
Election.v
Db.v
Crypto.v
Types.v
Quorum.v
Forest.v
BlockChain.v
Pacemaker.v
Mempool.v
Chained.v
Safety.v
HotStuff.v
HotStuffProps.v
HotStuffLive.v
HotStuffLead.v
Careful.v
System.v
Agreement.v
Tchs.v
TchsProps.v
TchsAgreement.v
Fhs.v
Streamlet.v
Lbft.v
StreamletProps.v
Replica.v
ReplicaProps.v
Transport.v
Utils.v
Socket.v
Node.v
Wire.v
Protocols.v
Timed.v
TimedProps.v
Config.v
TimeCal.v
Stat.v
Bench.v
Client.v
Server.v
