(* ===== verification/Prelude.v ===== *)
(** * Bamboo: a verification library

    Bamboo (the Go program under [src/]) is a framework for Byzantine
    fault-tolerant replication with chained protocols, here put on top of the
    ordering service Phalanx.  This library models the program in Rocq, file by
    file, and proves what makes its parts correct; where the code does not do what
    it means to, the theorem says what it does instead.

    ** The program

    A server ([src/server]) starts replicas.  A replica ([src/replica]) owns a
    node, which receives messages from a socket and calls the handlers registered
    for their types ([src/node], [src/socket], [src/transport]); a pool of
    transactions ([src/mempool]); a pacemaker ([src/pacemaker]), which announces
    views on a channel; and one of five protocols behind the interface [Safety]
    ([src/replica/safety.go]): HotStuff, two-chain HotStuff, Fast-HotStuff,
    Streamlet or LBFT.  A protocol keeps blocks and votes in a block store
    ([src/blockchain]), a forest by levels together with the collector of votes,
    finds leaders with [src/election], signs and verifies with [src/crypto], and
    sends committed and forked blocks back to the replica on two channels, which
    hands the batches of committed blocks to Phalanx.  Clients ([src/client.go],
    [src/benchmark]) talk to the nodes over HTTP.

    ** The files

    - [Prelude] (this file): machine integers, outcomes of Go calls, the monads of
      fallible and stateful code, loops, iteration over maps, and the lemmas,
      tactics ([unfold_ints], [preserve]) and the hint database [go] they share.
    - [Logging], [Float64], [Encoding]: [src/log]; binary64 arithmetic, used by the
      statistics; [src/types/encoding].
    - [Identity], [Format], [Sha1], [Election], [Db], [Crypto]: [src/identity], the
      printing of floats, the hash used by [src/election], [src/election], [src/db],
      [src/crypto].
    - [Types], [Quorum], [Forest], [BlockChain]: the data and the block store of
      [src/blockchain], with the messages of [src/message] and the timeout messages
      of [src/pacemaker/model.go].
    - [Pacemaker], [Mempool]: [src/pacemaker], [src/mempool].
    - [Chained], [Safety]: the state that three of the protocols have in common, and
      the interface of a protocol with the laws that the replica relies on.
    - [HotStuff] with [HotStuffProps], [HotStuffLive], [HotStuffLead], [System] and
      [Agreement]: [src/hotstuff/hotstuff.go]; properties of all runs of a replica,
      progress of followers and of the leader on a certified chain, a cluster of
      replicas, and when its replicas agree.
    - [Careful]: what the agreement of the chained protocols has in common: votes and
      chains of certificates, a network that makes the checks the code leaves out, and
      the class of protocols whose replicas keep the invariant of a voter.
    - [Tchs] with [TchsProps] and [TchsAgreement], and [Fhs]: [src/tchs/tchs.go] and
      [src/fasthostuff/fhs.go]; properties of all runs, when replicas agree, and when
      they stop.  The two Go files have the same code up to names, so the methods of
      [Fhs] are those of [Tchs].
    - [Streamlet] with [StreamletProps], and [Lbft]: [src/streamlet/streamlet.go] and
      [src/lbft/lbft.go], which likewise have the same code up to names.
    - [Replica], [ReplicaProps], [Protocols]: [src/replica/replica.go]; its
      properties for every protocol that keeps the laws of [Safety]; and the proofs
      that the five protocols keep them.
    - [Timed], [TimedProps]: the replica together with its clock, the timer of the view,
      the durations and the report to clients, as a refinement of [Replica].
    - [Transport], [Utils], [Socket], [Node], [Wire]: [src/transport] within a process,
      [src/utils], [src/socket], [src/node], and [src/transport] over TCP and UDP.
    - [Config], [TimeCal], [Stat], [Bench], [Client], [Server]: [src/config],
      [src/timecal], [src/benchmark], [src/client.go], [src/server].

    One definition stands for one Go function or method and has its name; where two
    methods have the same name, the file or the module tells them apart.  Loop
    bodies and long branches have definitions of their own.

    ** How code is modelled

    An [int] or a view is a [Z] with the wrap-around of its width written out
    ([int64], [uint64]).  A call returns an [outcome]: a value, or the fault that
    stops the goroutine; errors that the code returns are values of [result].  A
    method is a program over the state of its object ([prog]).  Objects that are
    shared and written through pointers live in a store: quorum certificates (file
    [Types]) and the vertex containers of the forest.  Other pointers are values.
    Iteration over a map goes through the class [GoRange], an arbitrary order.

    A call of a method is one step.  The methods of the pool and of the timeout controller
    and the view change of the pacemaker hold a lock.  The methods of a protocol and of its
    block store hold none (but for the highest certificate), and although the main loop of
    the replica makes most of the calls, the listener of local events calls
    [ProcessLocalTmo] itself (replica.go, line 291): theorems about runs of a protocol or
    of a replica are about runs in which these calls do not overlap.  The same holds of
    the calls of a socket.  Up to that, interleavings are explicit: runs of a replica are
    lists of events (messages, timer, proposals), runs of the goroutines of a replica are
    lists of actions, and the transports, the sockets with their timers and the benchmark
    have steps of their own.  Times are given with the actions, and the zero value of a
    time is [None].

    The channels that a protocol and its pacemaker write to are logs of all that was put
    on them, with the number of values read kept by the replica.  In the source they hold
    100 values, and a send on a full one waits, the pacemaker's while it holds its lock;
    the waiting is not modelled, and the theorems on progress state that the logs stay
    within the capacities ([newViewChan_capacity], [committedBlocks_capacity]).  The
    channels of a node, of capacity [ChanBufferSize], and the messages handed to a
    transport by a socket are lists without a bound.  The transports themselves
    ([Transport], [Wire]) keep the capacity of their channels.

    The states of the protocols have one field the code has not: [deeds], which records
    every vote, timeout message, notarization and commit with what caused it and with a
    [snapshot], the state just before it.  No operation reads it; the theorems on the
    rules of voting and committing are stated over these recorded states.

    Code that is not in the repository is a parameter with its documented behaviour:
    SHA-3 and ECDSA (classes [Sha3], [Ecdsa]), JSON and gob encoding ([CryptoEnv],
    [ConfigJSON], [Codec], [Gob]), the bit set ([BitSet]), the URL parser
    ([URLParser]), random numbers, the results of dialling, the HTTP library, the
    clock, and the answers of Phalanx.

    ** Bounds

    The loop of [CommitBlock] follows stored parents and has a bound [cf]; on a
    forest whose blocks point downwards it stops within the level of the block
    ([CommitBlock_total]).  The recursion of [ProcessBlock] on buffered blocks has a
    bound [fuel]; it is at most as deep as the buffer ([ProcessBlock_depth]).
    Progress ([hotstuff_chain_commits]) holds for all bounds above the length of the
    chain.  The random picks of [Utils] end within a bound whenever the source
    returns every number again and again; [Retry] ends by the number of attempts.
    Running out of a bound is a fault of its own, never a result.

    ** What is proved

    - Agreement and its limits: two certificates share an honest voter; a HotStuff
      replica commits only by the three-chain rule and votes only by the voting rule, in
      the very states in which it does so; the same for the two-chain rule and for the
      rule of Streamlet, whose notarized blocks have certificates built from verified
      votes of more than two thirds; a replica executes what its protocol commits, in
      order.  The certificate of a HotStuff commit is one whose signatures verify or whose
      [Leader] field, which nobody signs, names the replica.  With a Byzantine leader two
      HotStuff replicas can commit different blocks ([hotstuff_disagreement]), since
      the last voted view is never set; a Streamlet replica can commit a fork; and
      two-chain HotStuff commits on unverified certificates.  HotStuff replicas agree if
      messages pass the checks that the code leaves out, every replica votes in
      increasing views, and views change by certificates only ([hotstuff_agreement]);
      with timeouts they need not ([hotstuff_timeout_disagreement]).  Two-chain
      HotStuff agrees under the same conditions also with timeouts ([tchs_agreement]).
    - Progress, as far as the channels have room: a follower that gets a certified chain of
      at most 100 blocks in any order votes for all of it and commits all but the last three blocks; a leader that gets the votes for the
      last block of such a chain extends it ([hotstuff_leader_extends]).  Two-chain HotStuff stops: after a
      view without a certified block no replica votes for an honest leader's proposal
      ([tchs_gap_no_vote]), and what is committed has no gaps ([tchs_commits_gapless]).
    - Time: forgetting the clock gives a run of the replica ([timed_refines_replica]); a
      view times out no sooner than it should if the timer's channel was empty
      ([timeout_not_early]), and otherwise possibly at once ([stale_timeout]); what the
      report says of rounds and requests ([timed_report]).
    - The block store: the forest is well formed in every reachable state and
      implements a map from identifiers to blocks; pruning forgets exactly what lies below
      the level and reports the blocks of the levels that the way down does not pass, so
      not a fork on a passed level ([PruneUpToLevel_sibling_unreported]); on a forest
      linked downwards commits end and never repeat.
    - View synchronisation, leader election, the pool, signatures, and the replica as
      a refinement of its protocol when the calls of it do not overlap.
    - The network: channels and TCP connections are first-in-first-out (over TCP and UDP
      a message arrives in its wire form), UDP delivers what fits into its buffer,
      broadcasts reach all peers, a drop lasts as long as asked for unless another call
      or timer ends it, and the node dispatches messages to the handlers.
    - Clients: when the comparison of histories says yes, when request numbers are
      distinct, the rate of the limiter, how a benchmark run ends, and that the
      statistics of a sample are in range and in order.

    ** Not modelled

    The HTTP server and the parsing of flags (I/O), with the wrappers of them that start
    a replica; the text of log lines and of the history file, whose values are kept; the
    interface of a node that only wraps the logger; the getter of the name of a key's
    algorithm; commented-out code.  Goroutines are interleaved by whole iterations, so
    the race of the listener's [ProcessLocalTmo] with the main loop and races on single
    fields, such as those of the statistics of a replica, are not modelled; nor is the
    waiting of a sender on a full channel outside of the transports.
    Streamlet and LBFT have no theorem of agreement, since one replica alone can commit a
    fork ([streamlet_commits_fork]).  The progress of HotStuff is stated for the follower
    and for the leader of a view; that votes and blocks arrive before the timers fire is
    a matter of the network. *)
From stdpp Require Export prelude gmap strings list fin_maps.
From Stdlib Require Export ZArith Lia.

Local Open Scope Z_scope.

(** ** Machine integers

    Go's [int], [int64] and [types.View] are 64-bit two's complement; [uint]
    and [uint64] are 64-bit unsigned.  A value of either type is a [Z]; every
    arithmetic operation of the source is followed by the wrap of its type. *)

Definition int64 (z : Z) : Z :=
  (z + 9223372036854775808) mod 18446744073709551616 - 9223372036854775808.

Definition uint64 (z : Z) : Z := z mod 18446744073709551616.

Definition max_int64 : Z := 9223372036854775807.
Definition min_int64 : Z := -9223372036854775808.

Definition is_int64 (z : Z) : Prop := min_int64 ≤ z ≤ max_int64.
Definition is_uint64 (z : Z) : Prop := 0 ≤ z < 18446744073709551616.

#[global] Instance is_int64_dec z : Decision (is_int64 z).
Proof. unfold is_int64. apply _. Defined.
#[global] Instance is_uint64_dec z : Decision (is_uint64 z).
Proof. unfold is_uint64. apply _. Defined.

(** [unfold_ints] exposes the bounds to [lia]. *)
Ltac unfold_ints :=
  unfold is_int64, is_uint64, max_int64, min_int64 in *.

Lemma int64_range z : is_int64 (int64 z).
Proof.
  unfold int64. unfold_ints.
  pose proof (Z.mod_pos_bound (z + 9223372036854775808) 18446744073709551616). lia.
Qed.

Lemma int64_id z : is_int64 z → int64 z = z.
Proof. unfold int64. unfold_ints. intros. rewrite Z.mod_small; lia. Qed.

Lemma uint64_range z : is_uint64 (uint64 z).
Proof. unfold uint64. unfold_ints. apply Z.mod_pos_bound. lia. Qed.

Lemma uint64_id z : is_uint64 z → uint64 z = z.
Proof. unfold uint64. unfold_ints. intros. apply Z.mod_small. lia. Qed.

Lemma uint64_of_view z : 0 ≤ z ≤ max_int64 → uint64 z = z.
Proof. intros. apply uint64_id. unfold_ints. lia. Qed.

Lemma int64_succ z : is_int64 z → z < max_int64 → int64 (z + 1) = z + 1.
Proof. intros. apply int64_id. unfold_ints. lia. Qed.

Lemma int64_succ_le z : is_int64 z → int64 (z + 1) ≤ z + 1.
Proof.
  intros Hz. destruct (decide (z < max_int64)).
  - rewrite int64_succ; [lia | done | done].
  - assert (z = max_int64) as -> by (unfold_ints; lia).
    unfold int64, max_int64. by vm_compute.
Qed.

Lemma int64_add_l a b : int64 (int64 a + b) = int64 (a + b).
Proof.
  unfold int64.
  replace ((a + 9223372036854775808) mod 18446744073709551616 - 9223372036854775808 + b
           + 9223372036854775808)
    with ((a + 9223372036854775808) mod 18446744073709551616 + b) by lia.
  rewrite Zplus_mod_idemp_l. do 2 f_equal. lia.
Qed.

(** The conversions [uint64(v)] and [int(v)] of Go round-trip on [int]. *)
Lemma int64_uint64 z : is_int64 z → int64 (uint64 z) = z.
Proof.
  unfold int64, uint64. unfold_ints. intros Hz.
  rewrite Zplus_mod_idemp_l, Z.mod_small; lia.
Qed.

(** ** Outcomes

    A Go call returns, or the goroutine panics, or [log.Fatal] exits the
    process, or it waits for ever on a channel ([Blocked]).  A loop that the model
    bounds with fuel has one more outcome, [FuelExhausted]: the loop did not stop
    within the fuel; a bounded recursion has [DepthExhausted]. *)

Inductive fault :=
  | NilDereference
  | IndexOutOfRange
  | DivideByZero
  | MakeCapOutOfRange
  | ExplicitPanic
  | FatalExit
  | Blocked
  | FuelExhausted
  | DepthExhausted.

#[global] Instance fault_eq_dec : EqDecision fault.
Proof. solve_decision. Defined.

Inductive outcome (A : Type) :=
  | Ok (a : A)
  | Fault (f : fault).
Arguments Ok {A} a.
Arguments Fault {A} f.

#[global] Instance outcome_ret : MRet outcome := fun A => Ok.
#[global] Instance outcome_bind : MBind outcome :=
  fun A B k o => match o with Ok a => k a | Fault f => Fault f end.

Definition returns {A} (o : outcome A) : Prop := ∃ a, o = Ok a.

Definition of_option {A} (f : fault) (o : option A) : outcome A :=
  match o with Some a => Ok a | None => Fault f end.

Lemma outcome_bind_ok {A B} (o : outcome A) (k : A → outcome B) b :
  o ≫= k = Ok b ↔ ∃ a, o = Ok a ∧ k a = Ok b.
Proof. destruct o as [a|f]; naive_solver. Qed.

Lemma of_option_ok {A} f (o : option A) a : of_option f o = Ok a ↔ o = Some a.
Proof. destruct o; naive_solver. Qed.

(** A Go pair [(value, error)]: a value when the error is [nil], else the error. *)
Inductive result (A : Type) :=
  | Val (a : A)
  | Err (msg : string).
Arguments Val {A} a.
Arguments Err {A} msg.

#[global] Instance result_eq_dec `{EqDecision A} : EqDecision (result A).
Proof. solve_decision. Defined.

(** A Go slice index [l[i]]: panics outside [0 <= i < len(l)]. *)
Definition index {A} (l : list A) (i : Z) : outcome A :=
  if decide (0 ≤ i) then of_option IndexOutOfRange (l !! Z.to_nat i)
  else Fault IndexOutOfRange.

Lemma index_ok {A} (l : list A) i a :
  index l i = Ok a ↔ 0 ≤ i ∧ l !! Z.to_nat i = Some a.
Proof.
  unfold index. case_decide; [rewrite of_option_ok|]; naive_solver.
Qed.

Lemma index_returns {A} (l : list A) i :
  0 ≤ i < Z.of_nat (length l) → returns (index l i).
Proof.
  intros Hi. destruct (lookup_lt_is_Some_2 l (Z.to_nat i)) as [a Ha]; [lia|].
  exists a. apply index_ok. split; [lia|done].
Qed.

(** ** Programs over a state

    A method of a Go object is a [prog S A]: it reads and writes the object's
    state [S] and returns an [A], or ends in a fault. *)

Definition prog (S A : Type) : Type := S → outcome (S * A).

#[global] Instance prog_ret S : MRet (prog S) := fun A a s => Ok (s, a).
#[global] Instance prog_bind S : MBind (prog S) :=
  fun A B k m s => match m s with Ok (s', a) => k a s' | Fault f => Fault f end.

Definition gets {S A} (f : S → A) : prog S A := fun s => Ok (s, f s).
Definition modify {S} (f : S → S) : prog S () := fun s => Ok (f s, ()).
Definition lift {S A} (o : outcome A) : prog S A :=
  fun s => match o with Ok a => Ok (s, a) | Fault f => Fault f end.

(** Run an operation of a part [T] of the state. *)
Definition zoom {S T A} (get : S → T) (put : T → S → S) (m : prog T A) : prog S A :=
  fun s => match m (get s) with Ok (t, a) => Ok (put t s, a) | Fault f => Fault f end.

Lemma prog_bind_ok {S A B} (m : prog S A) (k : A → prog S B) s s'' b :
  (m ≫= k) s = Ok (s'', b) ↔ ∃ s' a, m s = Ok (s', a) ∧ k a s' = Ok (s'', b).
Proof.
  unfold mbind, prog_bind. destruct (m s) as [[s' a]|f]; naive_solver.
Qed.

Lemma prog_bind_run {S A B} (m : prog S A) (k : A → prog S B) s s' a :
  m s = Ok (s', a) → (m ≫= k) s = k a s'.
Proof. unfold mbind, prog_bind. by intros ->. Qed.

Lemma lift_ok {S A} (o : outcome A) (s s' : S) a :
  lift o s = Ok (s', a) ↔ s' = s ∧ o = Ok a.
Proof. unfold lift. destruct o; naive_solver. Qed.

Lemma gets_ok {S A} (f : S → A) s s' a :
  gets f s = Ok (s', a) ↔ s' = s ∧ a = f s.
Proof. unfold gets. naive_solver. Qed.

Lemma modify_ok {S} (f : S → S) s s' u :
  modify f s = Ok (s', u) ↔ s' = f s.
Proof. unfold modify. destruct u. naive_solver. Qed.

Lemma ret_ok {S A} (a b : A) (s s' : S) :
  (mret a : prog S A) s = Ok (s', b) ↔ s' = s ∧ b = a.
Proof. unfold mret, prog_ret. naive_solver. Qed.

Lemma zoom_ok {S T A} (get : S → T) put (m : prog T A) s s' a :
  zoom get put m s = Ok (s', a) ↔ ∃ t, m (get s) = Ok (t, a) ∧ s' = put t s.
Proof. unfold zoom. destruct (m (get s)) as [[t b]|f]; naive_solver. Qed.

(** [invert_prog] takes a returning run apart into the runs of its parts. *)
Ltac invert_prog :=
  repeat match goal with
  | H : (_ ≫= _) _ = Ok (_, _) |- _ => apply prog_bind_ok in H as (? & ? & ? & ?)
  | H : lift _ _ = Ok (_, _) |- _ => apply lift_ok in H as [-> ?]
  | H : gets _ _ = Ok (_, _) |- _ => apply gets_ok in H as [-> ->]
  | H : modify _ _ = Ok (_, _) |- _ => apply modify_ok in H as ->
  | H : mret _ _ = Ok (_, _) |- _ => apply ret_ok in H as [-> ->]
  | H : Ok _ = Ok _ |- _ => injection H as ?; subst
  | H : Fault _ = Ok _ |- _ => discriminate H
  | H : zoom _ _ _ _ = Ok (_, _) |- _ => apply zoom_ok in H as (? & ? & ->)
  end.

(** Two continuations that agree on what the first part returns. *)
Lemma prog_bind_ext {S A B} (m : prog S A) (k1 k2 : A → prog S B) s :
  (∀ s' a, m s = Ok (s', a) → k1 a s' = k2 a s') → (m ≫= k1) s = (m ≫= k2) s.
Proof. intros Hk. unfold mbind, prog_bind. destruct (m s) as [[s' a]|f]; auto. Qed.

(** A loop over a list: [for _, a := range l { f(a) }]. *)
Fixpoint for_each {S A} (l : list A) (f : A → prog S ()) : prog S () :=
  match l with
  | [] => mret ()
  | a :: l => f a ;; for_each l f
  end.

(** *** Invariants and guarantees

    [preserves I R Φ m]: from a state with the invariant [I], every returning run
    of [m] ends in a state with [I], relates the first to the last state by [R],
    and returns a value with [Φ].  With [R] a preorder the rule for [mbind] makes
    this compositional, so the invariant and the monotonicity of a handler follow
    from those of the operations it calls. *)

Definition preserves {S A} (I : S → Prop) (R : S → S → Prop) (Φ : A → Prop) (m : prog S A) : Prop :=
  ∀ s s' a, I s → m s = Ok (s', a) → I s' ∧ R s s' ∧ Φ a.

Definition anything {A} (a : A) : Prop := True.

Section preserves.
Context {S : Type} (I : S → Prop) (R : S → S → Prop) `{!PreOrder R}.

Lemma preserves_ret {A} (Φ : A → Prop) (a : A) : Φ a → preserves I R Φ (mret a).
Proof. intros Ha s s' b HI [-> ->]%ret_ok. split_and!; [done|reflexivity|done]. Qed.
Lemma preserves_gets {A} (Φ : A → Prop) (f : S → A) :
  (∀ s, I s → Φ (f s)) → preserves I R Φ (gets f).
Proof. intros Hf s s' b HI [-> ->]%gets_ok. split_and!; [done|reflexivity|auto]. Qed.
Lemma preserves_lift {A} (Φ : A → Prop) (o : outcome A) :
  (∀ a, o = Ok a → Φ a) → preserves I R Φ (lift o).
Proof. intros Ho s s' b HI [-> Hb]%lift_ok. split_and!; [done|reflexivity|auto]. Qed.
Lemma preserves_modify f :
  (∀ s, I s → I (f s) ∧ R s (f s)) → preserves I R anything (modify f).
Proof. intros Hf s s' b HI ->%modify_ok. destruct (Hf s HI). done. Qed.
Lemma preserves_bind {A B} (Φ : A → Prop) (Ψ : B → Prop) (m : prog S A) (k : A → prog S B) :
  preserves I R Φ m → (∀ a, Φ a → preserves I R Ψ (k a)) → preserves I R Ψ (m ≫= k).
Proof.
  intros Hm Hk s s'' b HI (s' & a & H1 & H2)%prog_bind_ok.
  destruct (Hm s s' a HI H1) as (HI' & HR & Ha).
  destruct (Hk a Ha s' s'' b HI' H2) as (HI'' & HR' & Hb).
  split_and!; [done|by transitivity s'|done].
Qed.
Lemma preserves_weaken {A} (Φ Ψ : A → Prop) (m : prog S A) :
  (∀ a, Φ a → Ψ a) → preserves I R Φ m → preserves I R Ψ m.
Proof. intros HΦ Hm s s' a HI Hs. destruct (Hm s s' a HI Hs) as (? & ? & ?). auto. Qed.
Lemma preserves_any {A} (Φ : A → Prop) (m : prog S A) :
  preserves I R Φ m → preserves I R anything m.
Proof. by apply preserves_weaken. Qed.
End preserves.

Create HintDb go discriminated.
#[export] Hint Extern 0 (anything _) => exact Logic.I : go.
#[export] Hint Extern 1 (preserves _ _ _ (mret _)) => apply preserves_ret : go.

(** [preserve] walks a handler: conditionals, matches, and binds whose first part
    the hint database [go] knows; it leaves the rest. *)
Ltac preserve_step :=
  match goal with
  | |- preserves _ _ _ _ => assumption
  | |- preserves _ _ _ (if ?b then _ else _) => destruct b
  | |- preserves _ _ _ (match ?x with _ => _ end) => destruct x
  | |- preserves _ _ _ (mret _) => apply preserves_ret; [typeclasses eauto|solve [eauto with go]]
  | |- preserves _ _ anything (gets _) => apply preserves_gets; [typeclasses eauto|solve [eauto with go]]
  | |- preserves _ _ anything (lift _) => apply preserves_lift; [typeclasses eauto|solve [eauto with go]]
  | |- preserves _ _ _ (_ ≫= _) =>
      eapply preserves_bind; [typeclasses eauto|solve [eauto with go]|intros ? ?]
  | |- preserves _ _ _ (_ ≫= _) =>
      apply preserves_bind with (Φ := anything); [typeclasses eauto| |intros ? ?]
  | |- preserves _ _ _ _ => solve [eauto with go]
  end.
Ltac preserve := intros; repeat preserve_step.

(** ** Iteration over a Go map

    [for k, v := range m] visits every entry once in an order the language
    leaves open.  The order is a parameter: any function that lists the
    entries of the map. *)

Class GoRange := {
  range : ∀ {K V} `{Countable K}, gmap K V → list (K * V);
  range_perm : ∀ {K V} `{Countable K} (m : gmap K V), range m ≡ₚ map_to_list m
}.

(** The order in which [map_to_list] lists the entries is one such order. *)
Definition canonical_range : GoRange :=
  {| range := fun K V _ _ m => map_to_list m;
     range_perm := fun K V _ _ m => reflexivity _ |}.

Lemma elem_of_range `{GoRange} {K V} `{Countable K} (m : gmap K V) k v :
  (k, v) ∈ range m ↔ m !! k = Some v.
Proof. by rewrite range_perm, elem_of_map_to_list. Qed.

Lemma length_range `{GoRange} {K V} `{Countable K} (m : gmap K V) :
  length (range m) = size m.
Proof. by rewrite range_perm, length_map_to_list. Qed.

Lemma NoDup_fst_range `{GoRange} {K V} `{Countable K} (m : gmap K V) :
  NoDup (range m).*1.
Proof. rewrite range_perm. apply NoDup_fst_map_to_list. Qed.
