(* ===== verification/Logging.v ===== *)
(** * Logging ([src/log/log.go])

    The severities and the flag that sets the threshold, the four loggers and where
    they write, and the functions that the other packages call.  A message is the
    string that [fmt] has made of the arguments.  The standard loggers are the list
    of the lines written, each with its prefix and its destination; the time and the
    place in the source that they add are left out.  [strings.ToUpper] is that of
    ASCII letters. *)
From S2P Require Import Prelude.
From Stdlib Require Import Ascii.

Local Open Scope Z_scope.

(** ** Severities (lines 15-49) *)

Definition DEBUG : Z := 0.
Definition INFO : Z := 1.
Definition WARNING : Z := 2.
Definition ERROR : Z := 3.

Definition names : list string := ["DEBUG"; "INFO"; "WARNING"; "ERROR"].

Definition upper_ascii (a : ascii) : ascii :=
  let n := nat_of_ascii a in
  if decide (97 ≤ n ≤ 122)%nat then ascii_of_nat (n - 32) else a.
Fixpoint ToUpper (s : string) : string :=
  match s with EmptyString => EmptyString | String a s => String (upper_ascii a) (ToUpper s) end.

(** Lines 38-42, from the index [i]: a later match replaces an earlier one. *)
Fixpoint find_name (names : list string) (i : Z) (value : string) (threshold : Z) : Z :=
  match names with
  | [] => threshold
  | name :: names => find_name names (i + 1) value (if decide (name = value) then i else threshold)
  end.

(** Lines 35-45: never an error. *)
Definition severity_Set (value : string) : Z * result () :=
  (find_name names 0 (ToUpper value) INFO, Val ()).

Definition severity_Get (s : Z) : Z := s.

(** Lines 47-49. *)
Definition severity_String (s : Z) : outcome string := index names s.

(** ** The logger (lines 51-126) *)

Inductive sink := Stdout | Stderr | File (name : string).

(** A standard logger: its prefix and where it writes. *)
Record stdlogger := MkStdLogger { sl_prefix : string; sl_out : list sink }.

(** [lg_buffer] is the list of free buffers, [lg_lines] what the standard loggers
    have written. *)
Record logger := MkLogger {
  lg_buffer : list string;
  lg_debug : stdlogger;
  lg_info : stdlogger;
  lg_warning : stdlogger;
  lg_err : stdlogger;
  lg_severity : Z;
  lg_dir : string;
  lg_lines : list (sink * string * string)
}.

(** Lines 100-111; the flags are parsed later and have their zero values. *)
Definition log_init : logger :=
  MkLogger [] (MkStdLogger "[DEBUG] " [Stdout]) (MkStdLogger "[INFO] " [Stdout])
    (MkStdLogger "[WARNING] " [Stderr]) (MkStdLogger "[ERROR] " [Stderr]) DEBUG "" [].

Definition set_buffer (b : list string) (l : logger) : logger :=
  MkLogger b (lg_debug l) (lg_info l) (lg_warning l) (lg_err l) (lg_severity l) (lg_dir l) (lg_lines l).
Definition set_lines (x : list (sink * string * string)) (l : logger) : logger :=
  MkLogger (lg_buffer l) (lg_debug l) (lg_info l) (lg_warning l) (lg_err l) (lg_severity l) (lg_dir l) x.

(** The flags [log_dir] and [log_level] of lines 103-104. *)
Definition set_flags (dir level : string) (l : logger) : logger :=
  MkLogger (lg_buffer l) (lg_debug l) (lg_info l) (lg_warning l) (lg_err l) (severity_Set level).1 dir (lg_lines l).

(** Lines 70-84: a free buffer, emptied, or a new one. *)
Definition getBuffer : prog logger string := λ l,
  Ok (set_buffer (tail (lg_buffer l)) l, "").

(** Lines 86-97: nothing reads the buffers.  [print] looks at the last byte. *)
Definition last_byte (s : string) : option ascii := String.get (String.length s - 1) s.
Definition print (msg : string) : prog logger string :=
  b ← getBuffer;
  let b := (b ++ msg)%string in
  if decide (b = "") then lift (Fault IndexOutOfRange)
  else if decide (last_byte b = Some (ascii_of_nat 10)) then mret b
  else mret (b ++ String (ascii_of_nat 10) "")%string.
Definition printf (msg : string) : prog logger string := b ← getBuffer; mret (b ++ msg)%string.

(** Lines 114-126: [created] is whether the file of the process can be created, [path]
    its path in the directory of the flag; [stdlog.Fatal] exits. *)
Definition Setup (created : bool) (path : string) : prog logger () :=
  if created then
    modify (λ l, MkLogger (lg_buffer l) (MkStdLogger "[DEBUG] " [File path]) (MkStdLogger "[INFO] " [File path])
      (MkStdLogger "[WARNING] " [File path; Stderr]) (MkStdLogger "[ERROR] " [File path; Stderr])
      (lg_severity l) (lg_dir l) (lg_lines l))
  else lift (Fault FatalExit).

(** [Logger.Output]. *)
Definition Output (sl : logger → stdlogger) (msg : string) : prog logger () :=
  modify (λ l, set_lines (lg_lines l ++ ((λ out, (out, sl_prefix (sl l), msg)) <$> sl_out (sl l))) l).

(** ** The functions of the package (lines 128-180) *)

Definition when (p : logger → bool) (m : prog logger ()) : prog logger () :=
  b ← gets p; if b : bool then m else mret ().

Definition Debug (msg : string) : prog logger () := when (λ l, bool_decide (lg_severity l = DEBUG)) (Output lg_debug msg).
Definition Info (msg : string) : prog logger () := when (λ l, bool_decide (lg_severity l ≤ INFO)) (Output lg_info msg).
Definition Warning (msg : string) : prog logger () := when (λ l, bool_decide (lg_severity l ≤ WARNING)) (Output lg_warning msg).
Definition Error (msg : string) : prog logger () := Output lg_err msg.
(** The standard logger of the process writes the line once more, to the standard
    error, and exits. *)
Definition Fatal (msg : string) : prog logger () := Output lg_err msg;; lift (Fault FatalExit).

(** The same with a format. *)
Definition Debugf (msg : string) : prog logger () := when (λ l, bool_decide (lg_severity l = DEBUG)) (Output lg_debug msg).
Definition Infof (msg : string) : prog logger () := when (λ l, bool_decide (lg_severity l ≤ INFO)) (Output lg_info msg).
Definition Warningf (msg : string) : prog logger () := when (λ l, bool_decide (lg_severity l ≤ WARNING)) (Output lg_warning msg).
Definition Errorf (msg : string) : prog logger () := Output lg_err msg.
Definition Fatalf (msg : string) : prog logger () := Output lg_err msg;; lift (Fault FatalExit).

(** ** Properties *)

(** The threshold is a severity. *)
Definition severity (s : Z) : Prop := DEBUG ≤ s ≤ ERROR.

Lemma severity_cases s : severity s → s = DEBUG ∨ s = INFO ∨ s = WARNING ∨ s = ERROR.
Proof. unfold severity, DEBUG, INFO, WARNING, ERROR. lia. Qed.

(** Any value of the flag gives a severity, [INFO] if it is the name of none, and the
    name of a severity in any case gives that severity. *)
Lemma severity_Set_range value : severity (severity_Set value).1.
Proof. simpl. repeat case_decide; vm_compute; split; congruence. Qed.

Lemma severity_String_Set s : severity s → severity_Set <$> (match severity_String s with Ok n => Some n | Fault _ => None end)
  = Some (s, Val ()).
Proof. intros [->|[->|[->| ->]]]%severity_cases; vm_compute; done. Qed.

Lemma severity_Set_unknown value : ToUpper value ∉ names → (severity_Set value).1 = INFO.
Proof.
  simpl. intros Hn. unfold names in Hn. rewrite !not_elem_of_cons in Hn. destruct Hn as (? & ? & ? & ? & _).
  by rewrite !decide_False by congruence.
Qed.

(** The calls of the other packages, by level. *)
Inductive log_call := CDebug (msg : string) | CInfo (msg : string) | CWarning (msg : string) | CError (msg : string).

Definition level_of_call (c : log_call) : Z :=
  match c with CDebug _ => DEBUG | CInfo _ => INFO | CWarning _ => WARNING | CError _ => ERROR end.
Definition call (c : log_call) : prog logger () :=
  match c with CDebug m => Debug m | CInfo m => Info m | CWarning m => Warning m | CError m => Error m end.
Definition line_of (l : logger) (c : log_call) : list (sink * string * string) :=
  let '(sl, msg) := match c with CDebug m => (lg_debug l, m) | CInfo m => (lg_info l, m)
                    | CWarning m => (lg_warning l, m) | CError m => (lg_err l, m) end in
  (λ out, (out, sl_prefix sl, msg)) <$> sl_out sl.

Lemma call_writes l c :
  severity (lg_severity l) →
  call c l = Ok (set_lines (lg_lines l ++ if decide (lg_severity l ≤ level_of_call c) then line_of l c else []) l, ()).
Proof.
  intros Hs. assert (set_lines (lg_lines l ++ []) l = l) as Hid by (destruct l; unfold set_lines; simpl; by rewrite app_nil_r).
  destruct c as [m|m|m|m]; simpl; unfold Debug, Info, Warning, Error, when, Output, line_of; simpl;
    unfold mbind, prog_bind, gets; simpl; repeat case_bool_decide; repeat case_decide; try done;
    unfold severity, DEBUG, INFO, WARNING, ERROR in *; try lia; by rewrite Hid.
Qed.

(** A sequence of calls writes the lines of those at or above the threshold, in
    order, and changes nothing else. *)
Theorem log_threshold l cs :
  severity (lg_severity l) →
  for_each cs call l
  = Ok (set_lines (lg_lines l ++ concat (line_of l <$> filter (λ c, lg_severity l ≤ level_of_call c) cs)) l, ()).
Proof.
  revert l. induction cs as [|c cs IH]; intros l Hs.
  - simpl. destruct l; unfold set_lines; simpl. by rewrite app_nil_r.
  - change (for_each (c :: cs) call l) with ((call c;; for_each cs call) l).
    unfold mbind at 1, prog_bind at 1. rewrite (call_writes l c Hs). simpl. rewrite IH by done. simpl.
    rewrite filter_cons. destruct (decide (lg_severity l ≤ level_of_call c)); simpl; by rewrite <- app_assoc.
Qed.

(** No buffer is ever put back, so the list of free buffers stays empty and every
    call of [print] or [printf] makes a new one; an empty message panics. *)
Lemma print_new msg l :
  lg_buffer l = [] →
  (∀ l' b, print msg l = Ok (l', b) → l' = l) ∧ (print "" l = Fault IndexOutOfRange).
Proof.
  intros Hb. assert (getBuffer l = Ok (l, "")) as Hg by (unfold getBuffer; rewrite Hb; by destruct l; simpl in *; subst).
  split; unfold print, mbind, prog_bind; rewrite Hg; [|done]. intros l' b. simpl.
  repeat case_decide; [done|by intros [= <- _]..].
Qed.
