(* ===== verification/Float64.v ===== *)
(** * The type [float64] of Go

    Binary64 arithmetic with rounding to nearest even, by the specification of the
    Standard Library ([SpecFloat]).  The statistics of the program convert integers,
    add, multiply and divide, and truncate.  The lemma [f64_mul_frac] says how far a
    product of a fraction and an integer can be from the exact value; from it
    [f64_index] and [f64_index_mono] follow, for the indices of percentiles. *)
From S2P Require Import Prelude.
From Stdlib Require Import SpecFloat.

Local Open Scope Z_scope.

Abbreviation f64 := spec_float.

Definition f64_prec : Z := 53.
Definition f64_emax : Z := 1024.

(** [float64(z)] for an integer, and the operators. *)
Definition f64_of_Z (z : Z) : f64 := binary_normalize f64_prec f64_emax z 0 false.
Definition f64_add : f64 → f64 → f64 := SFadd f64_prec f64_emax.
Definition f64_sub : f64 → f64 → f64 := SFsub f64_prec f64_emax.
Definition f64_mul : f64 → f64 → f64 := SFmul f64_prec f64_emax.
Definition f64_div : f64 → f64 → f64 := SFdiv f64_prec f64_emax.
Definition f64_leb : f64 → f64 → bool := SFleb.
Definition f64_ltb : f64 → f64 → bool := SFltb.

#[global] Arguments f64_of_Z : simpl never.
#[global] Arguments f64_add : simpl never.
#[global] Arguments f64_sub : simpl never.
#[global] Arguments f64_mul : simpl never.
#[global] Arguments f64_div : simpl never.

#[global] Instance f64_eq_dec : EqDecision f64.
Proof. solve_decision. Defined.

(** [int(f)] for a float that is in range: truncation towards zero. *)
Definition f64_to_int (f : f64) : Z :=
  match f with
  | S754_finite s m e => let z := Z.shiftl (Zpos m) e in if s then - z else z
  | _ => 0
  end.

(** ** Shifts and digits *)

Lemma shr_1_m mrs : 0 ≤ shr_m mrs → shr_m (shr_1 mrs) = shr_m mrs / 2.
Proof.
  destruct mrs as [m r s]. simpl. intros Hm. destruct m as [|[p|p|]|p]; cbn [shr_m]; try done.
  - by apply (Z.div_unique_pos _ _ _ 1).
  - by apply (Z.div_unique_pos _ _ _ 0).
Qed.

Lemma iter_shr_m p mrs : 0 ≤ shr_m mrs → shr_m (iter_pos shr_1 p mrs) = shr_m mrs / 2 ^ Zpos p.
Proof.
  revert mrs. induction p as [p IH|p IH|]; intros mrs Hm; cbn [iter_pos].
  - assert (0 < 2 ^ Zpos p) by (apply Z.pow_pos_nonneg; lia).
    assert (0 ≤ shr_m (shr_1 mrs)) as H1 by (rewrite shr_1_m by done; by apply Z.div_pos).
    assert (0 ≤ shr_m (iter_pos shr_1 p (shr_1 mrs))) as H2 by (rewrite IH by done; apply Z.div_pos; lia).
    rewrite IH, IH, shr_1_m by done. rewrite !Z.div_div by lia. f_equal.
    change 2 with (2 ^ 1) at 1. rewrite <- !Z.pow_add_r by lia. f_equal. lia.
  - assert (0 < 2 ^ Zpos p) by (apply Z.pow_pos_nonneg; lia).
    assert (0 ≤ shr_m (iter_pos shr_1 p mrs)) as H2 by (rewrite IH by done; apply Z.div_pos; lia).
    rewrite IH, IH by done. rewrite Z.div_div by lia. f_equal. rewrite <- Z.pow_add_r by lia. f_equal. lia.
  - rewrite shr_1_m by done. by rewrite Z.pow_1_r.
Qed.

Lemma digits_bounds p : 2 ^ (Zpos (digits2_pos p) - 1) ≤ Zpos p < 2 ^ Zpos (digits2_pos p).
Proof.
  assert (∀ d, 0 < d → 2 ^ (Z.succ d - 1) = 2 * 2 ^ (d - 1) ∧ 2 ^ Z.succ d = 2 * 2 ^ d) as Hpow.
  { intros d Hd. split; [|by apply Z.pow_succ_r; lia]. rewrite <- Z.pow_succ_r by lia. f_equal. lia. }
  induction p as [p IH|p IH|]; simpl digits2_pos; [..|done];
    rewrite Pos2Z.inj_succ; destruct (Hpow (Zpos (digits2_pos p))) as [-> ->]; lia.
Qed.

Lemma digits_unique p d : 0 < d → 2 ^ (d - 1) ≤ Zpos p < 2 ^ d → Zpos (digits2_pos p) = d.
Proof.
  intros Hd [H1 H2]. destruct (digits_bounds p) as [H3 H4].
  destruct (Z.lt_trichotomy (Zpos (digits2_pos p)) d) as [Hlt|[?|Hgt]]; [|done|].
  - assert (2 ^ Zpos (digits2_pos p) ≤ 2 ^ (d - 1)) by (apply Z.pow_le_mono_r; lia). lia.
  - assert (2 ^ d ≤ 2 ^ (Zpos (digits2_pos p) - 1)) by (apply Z.pow_le_mono_r; lia). lia.
Qed.

Lemma shr_exact m e n : 0 ≤ m → 0 ≤ n → let r := shr (shr_record_of_loc m loc_Exact) e n in shr_m r.1 = m / 2 ^ n ∧ r.2 = e + n.
Proof.
  intros Hm Hn. destruct n as [|n|n]; simpl; [|split; [|done]|lia].
  - rewrite Z.div_1_r. split; [done|lia].
  - by apply (iter_shr_m n {| shr_m := m; shr_r := false; shr_s := false |}).
Qed.

Lemma round_near_bound q l : q ≤ round_nearest_even q l ≤ q + 1.
Proof. destruct l as [|[]]; simpl; try lia. destruct (Z.even q); lia. Qed.

(** Rounding a number of at least 53 digits with a normal exponent. *)
Lemma round_aux_normal m e d :
  Zpos (digits2_pos m) = d → 53 ≤ d → -1074 ≤ d + e - 53 → d + e ≤ 1000 →
  ∃ r, Zpos m / 2 ^ (d - 53) ≤ r ≤ Zpos m / 2 ^ (d - 53) + 1
    ∧ f64_to_int (binary_round_aux f64_prec f64_emax false (Zpos m) e loc_Exact) = Z.shiftl r (e + d - 53).
Proof.
  intros Hd Hge Hlo Hhi. unfold binary_round_aux, shr_fexp. simpl Zdigits2. rewrite Hd.
  assert (fexp f64_prec f64_emax (d + e) = d + e - 53) as -> by (unfold fexp, emin, f64_prec, f64_emax; lia).
  replace (d + e - 53 - e) with (d - 53) by lia.
  destruct (shr_exact (Zpos m) e (d - 53)) as [E1 E2]; [lia..|].
  destruct (shr (shr_record_of_loc (Zpos m) loc_Exact) e (d - 53)) as [mrs e1]. simpl in E1, E2. subst e1.
  set (q := Zpos m / 2 ^ (d - 53)) in *. pose proof (round_near_bound q (loc_of_shr_record mrs)) as Hr. rewrite E1.
  set (r := round_nearest_even q (loc_of_shr_record mrs)) in *. exists r. split; [done|].
  assert (2 ^ 52 ≤ q < 2 ^ 53) as Hq.
  { destruct (digits_bounds m) as [B1 B2]. rewrite Hd in B1, B2. split.
    - apply Z.div_le_lower_bound; [apply Z.pow_pos_nonneg; lia|]. rewrite <- Z.pow_add_r by lia.
      by replace (d - 53 + 52) with (d - 1) by lia.
    - apply Z.div_lt_upper_bound; [apply Z.pow_pos_nonneg; lia|]. rewrite <- Z.pow_add_r by lia.
      by replace (d - 53 + 53) with d by lia. }
  destruct r as [|r|r]; [lia| |lia]. simpl Zdigits2. destruct (decide (Zpos r = 2 ^ 53)) as [Er|Hne].
  - rewrite (digits_unique r 54) by lia.
    assert (fexp f64_prec f64_emax (54 + (e + (d - 53))) = e + (d - 53) + 1) as -> by (unfold fexp, emin, f64_prec, f64_emax; lia).
    replace (e + (d - 53) + 1 - (e + (d - 53))) with 1 by lia.
    destruct (shr_exact (Zpos r) (e + (d - 53)) 1) as [F1 F2]; [lia..|].
    destruct (shr _ _ 1) as [mrs2 e2]. simpl in F1, F2. subst e2. rewrite F1, Er. change (2 ^ 53 / 2 ^ 1) with (2 ^ 52).
    change (match 2 ^ 52 with Z0 => S754_zero false | Zpos m0 => _ m0 | Zneg _ => S754_nan end) with
      (if (e + (d - 53) + 1 <=? f64_emax - f64_prec) then S754_finite false (2 ^ 52) (e + (d - 53) + 1) else S754_infinity false).
    rewrite (proj2 (Z.leb_le _ _)) by (unfold f64_emax, f64_prec; lia). unfold f64_to_int.
    change (Zpos (2 ^ 52)) with (2 ^ 52). replace (2 ^ 53) with (Z.shiftl (2 ^ 52) 1) by done.
    rewrite Z.shiftl_shiftl by lia. f_equal. lia.
  - rewrite (digits_unique r 53) by lia.
    assert (fexp f64_prec f64_emax (53 + (e + (d - 53))) = e + (d - 53)) as -> by (unfold fexp, emin, f64_prec, f64_emax; lia).
    rewrite Z.sub_diag. simpl. rewrite (proj2 (Z.leb_le _ _)) by (unfold f64_emax, f64_prec; lia). simpl. f_equal. lia.
Qed.

Lemma iter_xO p k : Zpos (Pos.iter xO p k) = Zpos p * 2 ^ Zpos k.
Proof.
  induction k as [|k IH] using Pos.peano_ind; [simpl; lia|].
  rewrite Pos.iter_succ, Pos2Z.inj_xO, IH, Pos2Z.inj_succ, Z.pow_succ_r by lia. lia.
Qed.

(** A number of 53 digits is not rounded. *)
Lemma round_aux_exact m e :
  Zpos (digits2_pos m) = 53 → -1074 ≤ e → e ≤ 900 →
  binary_round_aux f64_prec f64_emax false (Zpos m) e loc_Exact = S754_finite false m e.
Proof.
  intros Hd Hlo Hhi. unfold binary_round_aux, shr_fexp. simpl Zdigits2. rewrite Hd.
  assert (fexp f64_prec f64_emax (53 + e) = e) as -> by (unfold fexp, emin, f64_prec, f64_emax; lia).
  rewrite Z.sub_diag. simpl. rewrite Hd.
  assert (fexp f64_prec f64_emax (53 + e) = e) as -> by (unfold fexp, emin, f64_prec, f64_emax; lia).
  rewrite Z.sub_diag. simpl. by rewrite (proj2 (Z.leb_le _ _)) by (unfold f64_emax, f64_prec; lia).
Qed.

(** Integers below [2^53] are floats. *)
Lemma f64_of_Z_exact z :
  0 < z < 2 ^ 53 →
  ∃ m e, f64_of_Z z = S754_finite false m e ∧ Zpos (digits2_pos m) = 53 ∧ Zpos m = z * 2 ^ (- e) ∧ -52 ≤ e ≤ 0.
Proof.
  intros [Hpos Hlt]. destruct z as [|p|p]; [lia| |lia]. destruct (digits_bounds p) as [B1 B2].
  set (d := Zpos (digits2_pos p)) in *.
  assert (d ≤ 53) as Hd.
  { destruct (decide (d ≤ 53)); [done|]. assert (2 ^ 53 ≤ 2 ^ (d - 1)) by (apply Z.pow_le_mono_r; lia). lia. }
  assert (1 ≤ d) as Hd1 by (unfold d; lia).
  unfold f64_of_Z, binary_normalize, binary_round. fold d.
  assert (fexp f64_prec f64_emax (d + 0) = d - 53) as -> by (unfold fexp, emin, f64_prec, f64_emax; lia).
  unfold shl_align. rewrite Z.sub_0_r. destruct (d - 53) as [|k|k] eqn:Ek; [|lia|].
  - exists p, 0. rewrite round_aux_exact; [|fold d; lia|lia|lia]. split_and!; [done|fold d; lia|lia|lia|lia].
  - assert (Zpos (digits2_pos (Pos.iter xO p k)) = 53) as Hdig.
    { apply digits_unique; [lia|]. rewrite iter_xO. assert (53 = d + Zpos k) as -> by lia.
      replace (d + Zpos k - 1) with (d - 1 + Zpos k) by lia. rewrite !Z.pow_add_r by lia.
      assert (0 < 2 ^ Zpos k) by (apply Z.pow_pos_nonneg; lia). nia. }
    exists (Pos.iter xO p k), (Zneg k). rewrite round_aux_exact by (done || lia).
    split_and!; [done|done|by rewrite iter_xO|lia|lia].
Qed.

(** The product of a fraction [mp / 2^53] and an integer, as the code truncates it. *)
Lemma f64_mul_frac mp z :
  Zpos (digits2_pos mp) = 53 → 0 < z < 2 ^ 53 →
  ∃ r k, f64_to_int (f64_mul (S754_finite false mp (-53)) (f64_of_Z z)) = r / 2 ^ k ∧ 0 ≤ k ∧ 0 ≤ r
    ∧ Zpos mp * z * 2 ^ k * (2 ^ 52 - 1) ≤ r * 2 ^ 105 ≤ Zpos mp * z * 2 ^ k * (2 ^ 52 + 1).
Proof.
  intros Hmp Hz. destruct (f64_of_Z_exact z Hz) as (ms & es & -> & Hms & Ems & Hes). unfold f64_mul. simpl.
  set (m := (mp * ms)%positive). destruct (digits_bounds mp) as [P1 P2], (digits_bounds ms) as [S1 S2].
  rewrite Hmp in P1, P2. rewrite Hms in S1, S2. destruct (digits_bounds m) as [B1 B2].
  assert (Zpos m = Zpos mp * Zpos ms) as Em by (unfold m; lia).
  set (d := Zpos (digits2_pos m)) in *.
  assert (105 ≤ d ≤ 106) as Hd.
  { assert (2 ^ 104 ≤ Zpos m < 2 ^ 106) as [M1 M2] by (rewrite Em; change (2 ^ 104) with (2 ^ 52 * 2 ^ 52);
      change (2 ^ 106) with (2 ^ 53 * 2 ^ 53); split; nia).
    split.
    - destruct (decide (105 ≤ d)); [done|]. assert (2 ^ d ≤ 2 ^ 104) by (apply Z.pow_le_mono_r; lia). lia.
    - destruct (decide (d ≤ 106)); [done|]. assert (2 ^ 106 ≤ 2 ^ (d - 1)) by (apply Z.pow_le_mono_r; lia). lia. }
  destruct (round_aux_normal m (-53 + es) d) as (r & Hr & Hto); [done|lia..|].
  exists r, (106 - es - d). fold m. rewrite Hto. set (n := d - 53) in *. set (q := Zpos m / 2 ^ n) in *.
  assert (0 < 2 ^ n) as Hn by (apply Z.pow_pos_nonneg; lia).
  pose proof (Z.mul_div_le (Zpos m) (2 ^ n) Hn) as Q1. pose proof (Z.mul_succ_div_gt (Zpos m) (2 ^ n) Hn) as Q2. fold q in Q1, Q2.
  assert (2 ^ n * 2 ^ 52 ≤ Zpos m) as Q3 by (rewrite <- Z.pow_add_r by lia; by replace (n + 52) with (d - 1) by lia).
  assert (0 ≤ q) by (apply Z.div_pos; lia).
  assert (Zpos m - 2 ^ n ≤ r * 2 ^ n ≤ Zpos m + 2 ^ n) as [R1 R2].
  { assert (q * 2 ^ n ≤ r * 2 ^ n) by (apply Z.mul_le_mono_nonneg_r; lia).
    assert (r * 2 ^ n ≤ (q + 1) * 2 ^ n) by (apply Z.mul_le_mono_nonneg_r; lia). lia. }
  assert (∀ c, Zpos mp * z * 2 ^ (106 - es - d) * c = Zpos m * c * 2 ^ (53 - n)) as Hc.
  { intros c. rewrite Em, Ems. replace (106 - es - d) with (- es + (53 - n)) by lia. rewrite Z.pow_add_r by lia. lia. }
  assert (r * 2 ^ 105 = r * 2 ^ n * 2 ^ 52 * 2 ^ (53 - n)) as ->.
  { rewrite <- !Z.mul_assoc, <- !Z.pow_add_r by lia. do 2 f_equal. lia. }
  assert (0 < 2 ^ (53 - n)) by (apply Z.pow_pos_nonneg; lia).
  replace (-53 + es + d - 53) with (- (106 - es - d)) by lia. rewrite !Hc. split_and!; [|lia|lia|..].
  - rewrite Z.shiftl_opp_r, Z.shiftr_div_pow2 by lia. done.
  - apply Z.mul_le_mono_nonneg_r; [lia|]. revert R1 R2 Q3. generalize (r * 2 ^ n), (2 ^ n), (Zpos m). intros. lia.
  - apply Z.mul_le_mono_nonneg_r; [lia|]. revert R1 R2 Q3. generalize (r * 2 ^ n), (2 ^ n), (Zpos m). intros. lia.
Qed.

(** The index of a percentile: it is in range, and indices are in the order of the
    fractions unless these are next to each other. *)
Lemma f64_index mp z :
  Zpos (digits2_pos mp) = 53 → 0 < z < 2 ^ 53 → Zpos mp < 2 ^ 53 - 1 →
  0 ≤ f64_to_int (f64_mul (S754_finite false mp (-53)) (f64_of_Z z)) < z.
Proof.
  intros Hmp Hz Hlt. destruct (f64_mul_frac mp z Hmp Hz) as (r & k & -> & Hk & Hr & _ & Hle).
  assert (0 < 2 ^ k) as Hp by (apply Z.pow_pos_nonneg; lia). split; [by apply Z.div_pos; lia|].
  apply Z.div_lt_upper_bound; [lia|]. apply (Z.mul_lt_mono_pos_r (2 ^ 105)); [done|].
  eapply Z.le_lt_trans; [exact Hle|]. assert (0 < z * 2 ^ k) as Hzk by (apply Z.mul_pos_pos; lia).
  replace (Zpos mp * z * 2 ^ k * (2 ^ 52 + 1)) with (z * 2 ^ k * (Zpos mp * (2 ^ 52 + 1))) by lia.
  rewrite (Z.mul_comm (2 ^ k) z). apply Z.mul_lt_mono_pos_l; [done|]. lia.
Qed.

Lemma f64_index_mono mp1 mp2 z :
  Zpos (digits2_pos mp1) = 53 → Zpos (digits2_pos mp2) = 53 → 0 < z < 2 ^ 53 →
  Zpos mp1 * (2 ^ 52 + 1) ≤ Zpos mp2 * (2 ^ 52 - 1) →
  f64_to_int (f64_mul (S754_finite false mp1 (-53)) (f64_of_Z z))
  ≤ f64_to_int (f64_mul (S754_finite false mp2 (-53)) (f64_of_Z z)).
Proof.
  intros H1 H2 Hz Hle. destruct (f64_mul_frac mp1 z H1 Hz) as (r1 & k1 & -> & Hk1 & Hr1 & _ & U1).
  destruct (f64_mul_frac mp2 z H2 Hz) as (r2 & k2 & -> & Hk2 & Hr2 & L2 & _).
  assert (0 < 2 ^ k1) as P1 by (apply Z.pow_pos_nonneg; lia). assert (0 < 2 ^ k2) as P2 by (apply Z.pow_pos_nonneg; lia).
  assert (r1 * 2 ^ k2 ≤ r2 * 2 ^ k1) as Hr.
  { apply (Z.mul_le_mono_pos_r _ _ (2 ^ 105)); [done|].
    apply (Z.mul_le_mono_nonneg_r _ _ (2 ^ k2)) in U1; [|lia]. apply (Z.mul_le_mono_nonneg_r _ _ (2 ^ k1)) in L2; [|lia].
    apply (Z.mul_le_mono_nonneg_r _ _ (z * 2 ^ k1 * 2 ^ k2)) in Hle; [|by apply Z.mul_nonneg_nonneg; [apply Z.mul_nonneg_nonneg|]; lia].
    lia. }
  apply Z.div_le_lower_bound; [done|].
  pose proof (Z.mul_div_le r1 (2 ^ k1) P1) as D1. apply (Z.mul_le_mono_pos_r _ _ (2 ^ k1)); [done|].
  apply (Z.mul_le_mono_nonneg_r _ _ (2 ^ k2)) in D1; [|lia]. lia.
Qed.

(** ** The order of [sort.Float64s]: a NaN comes first *)

Definition is_nan (f : f64) : bool := match f with S754_nan => true | _ => false end.
Definition f64_less (x y : f64) : bool := f64_ltb x y || is_nan x && negb (is_nan y).
Definition f64_le (x y : f64) : Prop := f64_less y x = false.
#[global] Instance f64_le_dec : RelDecision f64_le := λ x y, decide (f64_less y x = false).

(** The place of a float in the order. *)
Definition f64_key (f : f64) : Z * Z * Z :=
  match f with
  | S754_nan => (0, 0, 0)
  | S754_infinity true => (1, 0, 0)
  | S754_finite true m e => (2, - e, - Zpos m)
  | S754_zero _ => (3, 0, 0)
  | S754_finite false m e => (4, e, Zpos m)
  | S754_infinity false => (5, 0, 0)
  end.

Definition key_lt (x y : Z * Z * Z) : Prop :=
  x.1.1 < y.1.1 ∨ x.1.1 = y.1.1 ∧ (x.1.2 < y.1.2 ∨ x.1.2 = y.1.2 ∧ x.2 < y.2).

Lemma f64_less_key x y : f64_less x y = true ↔ key_lt (f64_key x) (f64_key y).
Proof.
  unfold f64_less, f64_ltb, SFltb, key_lt.
  destruct x as [[]|[]| |[] m e], y as [[]|[]| |[] m' e']; simpl; try (split; [done|lia]); try (split; [lia|done]);
    rewrite orb_false_r; destruct (Z.compare_spec e e'); try (split; [done|lia]); try (split; [lia|done]);
    change (Pos.compare_cont Eq m m') with (Pos.compare m m');
    destruct (Pos.compare_spec m m'); simpl; (split; [done|lia]) || (split; [lia|done]).
Qed.

Lemma f64_le_key x y : f64_le x y ↔ ¬ key_lt (f64_key y) (f64_key x).
Proof. unfold f64_le. rewrite <- f64_less_key. by destruct (f64_less y x). Qed.

#[global] Instance f64_le_total : Total f64_le.
Proof. intros x y. rewrite !f64_le_key. unfold key_lt. lia. Qed.
#[global] Instance f64_le_trans : Transitive f64_le.
Proof. intros x y z. rewrite !f64_le_key. unfold key_lt. lia. Qed.

(** ** Durations of package [time], in nanoseconds *)

Definition Seconds (d : Z) : f64 :=
  f64_add (f64_of_Z (Z.quot d 1000000000)) (f64_div (f64_of_Z (Z.rem d 1000000000)) (f64_of_Z 1000000000)).
Definition Milliseconds (d : Z) : Z := Z.quot d 1000000.
