(* ===== verification/Encoding.v ===== *)
(** * Encoders ([src/types/encoding])

    The interface [Encoder] and its two implementations, which wrap [encoding/json]
    and the RLP package of go-ethereum.  The wrapped package is a parameter: a value
    of a type [V] is encoded to bytes and decoded, each possibly with an error. *)
From S2P Require Import Prelude.

Local Open Scope Z_scope.

(** The wrapped package, for values of one type. *)
Class Codec (V : Type) := {
  codec_Marshal : V → result (list Z);
  codec_Unmarshal : list Z → result V
}.

(** codec.go, lines 8-28. *)
Class Encoder (V : Type) := {
  enc_Encode : V → result (list Z);
  enc_Decode : list Z → result V;
  enc_MustEncode : V → outcome (list Z);
  enc_MustDecode : list Z → outcome V
}.

(** An error is a panic. *)
Definition must {A} (r : result A) : outcome A := match r with Val a => Ok a | Err _ => Fault ExplicitPanic end.

Module Json.
Section json.
Context {V : Type} `{Codec V}.
Definition Encode (val : V) : result (list Z) := codec_Marshal val.
Definition Decode (b : list Z) : result V := codec_Unmarshal b.
Definition MustEncode (val : V) : outcome (list Z) := must (Encode val).
Definition MustDecode (b : list Z) : outcome V := must (Decode b).
Definition NewEncoder : Encoder V :=
  {| enc_Encode := Encode; enc_Decode := Decode; enc_MustEncode := MustEncode; enc_MustDecode := MustDecode |}.
End json.
End Json.

Module Rlp.
Section rlp.
Context {V : Type} `{Codec V}.
Definition Encode (val : V) : result (list Z) := codec_Marshal val.
Definition Decode (b : list Z) : result V := codec_Unmarshal b.
Definition MustEncode (val : V) : outcome (list Z) := must (Encode val).
Definition MustDecode (b : list Z) : outcome V := must (Decode b).
Definition NewEncoder : Encoder V :=
  {| enc_Encode := Encode; enc_Decode := Decode; enc_MustEncode := MustEncode; enc_MustDecode := MustDecode |}.
End rlp.
End Rlp.

(** codec.go, line 31. *)
Definition DefaultEncoder {V : Type} `{Codec V} : Encoder V := Json.NewEncoder.

(** What the interface promises: the [Must] versions panic exactly on an error, and a
    value that was encoded without a panic is decoded again. *)
Lemma DefaultEncoder_roundtrip {V : Type} `{Codec V} (val : V) :
  (∀ v b, codec_Marshal v = Val b → codec_Unmarshal b = Val v) →
  (∀ e, enc_MustEncode (Encoder := DefaultEncoder) val = Fault e ↔
        e = ExplicitPanic ∧ ∃ m, enc_Encode (Encoder := DefaultEncoder) val = Err m)
  ∧ ∀ b, enc_MustEncode (Encoder := DefaultEncoder) val = Ok b → enc_MustDecode (Encoder := DefaultEncoder) b = Ok val.
Proof.
  intros Hc. simpl. unfold Json.MustEncode, Json.MustDecode, Json.Encode, Json.Decode, must. split.
  - intros e. destruct (codec_Marshal val); naive_solver.
  - intros b. destruct (codec_Marshal val) as [b'|] eqn:E; [|done]. intros [= <-]. by rewrite (Hc _ _ E).
Qed.
