(* ===== verification/Identity.v ===== *)
(** * Node identifiers ([src/identity/identity.go])

    A [NodeID] is a Go string.  [NewNodeID] prints a number in decimal and
    [NodeID.Node] parses it back with [strconv.ParseUint]; the file models the
    two [strconv] functions and proves the round trip the whole system relies
    on when it uses node numbers and node identifiers interchangeably. *)
From S2P Require Import Prelude.
From Stdlib Require Import Ascii DecimalString DecimalN DecimalFacts.

Local Open Scope Z_scope.

Abbreviation NodeID := string (only parsing).

(** ** [strconv] *)

(** [strconv.Itoa]: decimal digits, a minus sign for a negative number, no
    leading zeros. *)
Definition Itoa (z : Z) : string :=
  match z with
  | Z0 => "0"
  | Zpos p => NilZero.string_of_uint (N.to_uint (Npos p))
  | Zneg p => String "-"%char (NilZero.string_of_uint (N.to_uint (Npos p)))
  end.

(** [strconv.ParseUint(s, 10, 64)]: a non-empty string of decimal digits whose
    value fits in 64 bits; anything else is an error. *)
Definition ParseUint (s : string) : option Z :=
  match NilZero.uint_of_string s with
  | None => None
  | Some d =>
      let v := Z.of_N (N.of_uint d) in
      if decide (v < 18446744073709551616) then Some v else None
  end.

(** [strconv.ParseInt(s, 10, 64)], which is also what [strconv.Atoi] does: a sign
    may come first, and the value must fit in 64 bits with its sign. *)
Definition split_sign (s : string) : bool * string :=
  match s with
  | String c s' =>
      if decide (c = "+"%char) then (false, s')
      else if decide (c = "-"%char) then (true, s') else (false, s)
  | EmptyString => (false, s)
  end.

Definition ParseInt (s : string) : option Z :=
  let '(neg, digits) := split_sign s in
  un ← ParseUint digits;
  if (neg : bool) then if decide (un ≤ 9223372036854775808) then Some (- un) else None
  else if decide (un < 9223372036854775808) then Some un else None.

(** ** [NodeID] *)

(** Lines 13-19: the sign is dropped first; [-node] wraps at the least [int]. *)
Definition NewNodeID (node : Z) : NodeID :=
  let node := if decide (node < 0) then int64 (- node) else node in
  Itoa node.

(** Lines 37-46: a string that does not parse gives 0 (and an error in the
    log); the [uint64] is converted to [int]. *)
Definition Node (i : NodeID) : Z :=
  match ParseUint i with
  | None => 0
  | Some node => int64 node
  end.

(** Lines 48-51: the methods of [IDs] that [sort] needs.  [Swap] panics when an
    index is out of range. *)
Definition IDs_Len (a : list NodeID) : Z := Z.of_nat (length a).

Definition IDs_Swap (a : list NodeID) (i j : Z) : outcome (list NodeID) :=
  ai ← index a i;
  aj ← index a j;
  mret (<[Z.to_nat j := ai]> (<[Z.to_nat i := aj]> a)).

(** ** Round trips *)

Lemma to_uint_nonnil p : N.to_uint (Npos p) ≠ Decimal.Nil.
Proof.
  intros H. pose proof (DecimalN.Unsigned.to_of (N.to_uint (Npos p))) as E.
  rewrite DecimalN.Unsigned.of_to in E. rewrite H in E at 1.
  symmetry in E. by apply unorm_nonnil in E.
Qed.

Lemma uint_of_string_of_pos p :
  NilZero.uint_of_string (NilZero.string_of_uint (N.to_uint (Npos p)))
  = Some (N.to_uint (Npos p)).
Proof. apply NilZero.usu, to_uint_nonnil. Qed.

Lemma ParseUint_Itoa z : 0 ≤ z < 18446744073709551616 → ParseUint (Itoa z) = Some z.
Proof.
  intros Hz. destruct z as [|p|p]; [done| |lia].
  unfold ParseUint, Itoa. rewrite uint_of_string_of_pos, DecimalN.Unsigned.of_to.
  case_decide; [done|lia].
Qed.

(** The decimal digits of a number do not start with a sign. *)
Lemma split_sign_digits d : split_sign (NilZero.string_of_uint d) = (false, NilZero.string_of_uint d).
Proof. by destruct d. Qed.

Lemma ParseInt_Itoa z : is_int64 z → ParseInt (Itoa z) = Some z.
Proof.
  unfold_ints. intros Hz.
  assert (ParseUint (Itoa (Z.abs z)) = Some (Z.abs z)) as E by (apply ParseUint_Itoa; lia).
  unfold ParseInt. destruct z as [|p|p]; [done| |].
  - change (Z.abs _) with (Zpos p) in E. unfold Itoa in *. rewrite split_sign_digits, E. simpl. by rewrite decide_True by lia.
  - change (Z.abs _) with (Zpos p) in E. unfold Itoa in *. cbn [split_sign]. rewrite decide_False, decide_True by done.
    rewrite E. simpl. by rewrite decide_True by lia.
Qed.

Lemma Itoa_inj_nonneg a b : is_uint64 a → is_uint64 b → Itoa a = Itoa b → a = b.
Proof.
  intros Ha Hb E. apply (f_equal ParseUint) in E.
  rewrite !ParseUint_Itoa in E by done. congruence.
Qed.

Lemma Node_NewNodeID n : 0 ≤ n ≤ max_int64 → Node (NewNodeID n) = n.
Proof.
  intros Hn. unfold Node, NewNodeID. case_decide; [lia|].
  rewrite ParseUint_Itoa by (unfold_ints; lia).
  apply int64_id. unfold_ints. lia.
Qed.

Lemma NewNodeID_inj a b :
  0 ≤ a ≤ max_int64 → 0 ≤ b ≤ max_int64 → NewNodeID a = NewNodeID b → a = b.
Proof.
  intros Ha Hb E. apply (f_equal Node) in E. by rewrite !Node_NewNodeID in E.
Qed.

(** A node number is never negative unless the parsed number exceeds [int]. *)
Lemma Node_is_int64 i : is_int64 (Node i).
Proof. unfold Node. case_match; [apply int64_range|]. unfold_ints. lia. Qed.

#[export] Hint Resolve Node_is_int64 : go.

(** [NewNodeID] followed by [Node] is the absolute value, on every [int]
    but the least one. *)
Theorem NewNodeID_Node_roundtrip n :
  is_int64 n → Node (NewNodeID n) = if decide (n = min_int64) then 0 else Z.abs n.
Proof.
  intros Hn. destruct (decide (n = min_int64)) as [->|Hne]; [by vm_compute|].
  destruct (decide (n < 0)) as [Hneg|Hpos].
  - rewrite <- (Node_NewNodeID (Z.abs n)) by (unfold_ints; lia).
    unfold NewNodeID. rewrite decide_True by done.
    rewrite decide_False by lia. rewrite int64_id by (unfold_ints; lia).
    by rewrite Z.abs_neq by lia.
  - rewrite Z.abs_eq by lia. apply Node_NewNodeID. unfold_ints. lia.
Qed.

Lemma NewNodeID_Node_roundtrip_witness :
  is_int64 (-7) ∧ Node (NewNodeID (-7)) = 7.
Proof.
  split; [by vm_compute|].
  apply (NewNodeID_Node_roundtrip (-7)). by vm_compute.
Defined.
