(* ===== verification/Format.v ===== *)
(** * Floats in strings (package [fmt])

    The statistics of the program are printed with the verbs [%f], six decimals,
    and [%v], the shortest digits that determine the float.  Both are functions of
    the exact value [m * 2 ^ e] of a float; rounding is to nearest, ties to even. *)
From S2P Require Import Prelude Float64 Identity.
From Stdlib Require Import SpecFloat.

Local Open Scope Z_scope.

#[local] Instance comparison_eq_dec : EqDecision comparison.
Proof. solve_decision. Defined.

(** A positive rational as numerator and denominator: [m * 2 ^ e * 10 ^ k]. *)
Definition scaled (m e k : Z) : Z * Z :=
  (m * 2 ^ Z.max e 0 * 10 ^ Z.max k 0, 2 ^ Z.max (- e) 0 * 10 ^ Z.max (- k) 0).

Definition round_half_even (q : Z * Z) : Z :=
  let d := q.1 / q.2 in
  let r := 2 * (q.1 mod q.2) in
  if decide (r < q.2 ∨ r = q.2 ∧ d mod 2 = 0) then d else d + 1.

(** The last [n] decimal digits of a number, leading zeros included. *)
Fixpoint digits (n : nat) (z : Z) : string :=
  match n with O => "" | S n => (digits n (z / 10) ++ Itoa (z mod 10))%string end.

(** The line feed. *)
Definition nl : string := String (Ascii.ascii_of_nat 10) EmptyString.

Definition sign (s : bool) : string := if s then "-" else "".

(** [%f]. *)
Definition fmt_f (f : f64) : string :=
  match f with
  | S754_nan => "NaN"
  | S754_infinity s => (if s then "-" else "+") ++ "Inf"
  | S754_zero s => sign s ++ "0.000000"
  | S754_finite s m e =>
      let z := round_half_even (scaled (Zpos m) e 6) in
      sign s ++ Itoa (z / 1000000) ++ "." ++ digits 6 (z mod 1000000)
  end%string.

(** The position of the decimal point: [dp] with [10 ^ (dp - 1) <= v < 10 ^ dp],
    searched upwards from an estimate: the decimal logarithm of two is between 0.30
    and 0.31, and binary exponents are between -1074 and 1023. *)
Fixpoint point (fuel : nat) (m e dp : Z) : Z :=
  match fuel with
  | O => dp
  | S fuel =>
      let q := scaled m e (- dp) in
      if decide (q.1 < q.2) then dp else point fuel m e (dp + 1)
  end.
Definition decimal_point (m e : Z) : Z :=
  let l := Z.log2 m + e in point 16 m e (Z.min (3 * l / 10) (31 * l / 100)).

(** The numbers half way to the neighbouring floats; below a power of two the
    floats are twice as dense. *)
Definition half_below (m e : Z) : Z * Z :=
  if decide (m = 4503599627370496 ∧ -1074 < e) then (4 * m - 1, e - 2) else (2 * m - 1, e - 1).
Definition half_above (m e : Z) : Z * Z := (2 * m + 1, e - 1).

(** [d * 10 ^ (- k)] against [m * 2 ^ e]. *)
Definition decimal_compare (d k : Z) (x : Z * Z) : comparison :=
  let q := scaled x.1 x.2 k in d * q.2 ?= q.1.

(** The shortest number of digits for which the value rounded down or rounded up
    lies between the halves; if both do, the nearer one. *)
Fixpoint shortest (fuel : nat) (m e dp n : Z) : Z * Z :=
  let q := scaled m e (n - dp) in
  let d := q.1 / q.2 in
  let inside (c : comparison) (strict : comparison) : bool :=
    bool_decide (c = strict ∨ c = Eq ∧ m mod 2 = 0) in
  let down := inside (decimal_compare d (n - dp) (half_below m e)) Gt in
  let up := inside (decimal_compare (d + 1) (n - dp) (half_above m e)) Lt in
  match fuel with
  | O => (round_half_even q, n)
  | S fuel =>
      if down && up then (round_half_even q, n)
      else if down then (d, n)
      else if up then (d + 1, n)
      else shortest fuel m e dp (n + 1)
  end.

Fixpoint strip_zeros (fuel : nat) (d n : Z) : Z * Z :=
  match fuel with
  | O => (d, n)
  | S fuel => if decide (d mod 10 = 0) then strip_zeros fuel (d / 10) (n - 1) else (d, n)
  end.

(** The digits [d], [n] of them, with the decimal point after [dp] of them: as
    [%e], and as [%f] with as many decimals as it needs. *)
Definition layout_e (d n dp : Z) : string :=
  let x := dp - 1 in
  let tail := if decide (n = 1) then ""%string else ("." ++ digits (Z.to_nat (n - 1)) (d mod 10 ^ (n - 1)))%string in
  let mark := if decide (x < 0) then "e-" else "e+" in
  let pad := if decide (Z.abs x < 10) then "0" else "" in
  (Itoa (d / 10 ^ (n - 1)) ++ tail ++ mark ++ pad ++ Itoa (Z.abs x))%string.
Definition layout_f (d n dp : Z) : string :=
  if decide (n ≤ dp) then Itoa (d * 10 ^ (dp - n))
  else (Itoa (d / 10 ^ (n - dp)) ++ "." ++ digits (Z.to_nat (n - dp)) (d mod 10 ^ (n - dp)))%string.

(** [%v], that is [%g] with the shortest digits: an exponent for large and small
    numbers.  Rounding up to a power of ten moves the decimal point. *)
Definition format_shortest (m e : Z) : string :=
  let dp := decimal_point m e in
  let '(d, n) := shortest 17 m e dp 1 in
  let '(n, dp) := if decide (d = 10 ^ n) then (n + 1, dp + 1) else (n, dp) in
  let '(d, n) := strip_zeros 18 d n in
  if decide (dp - 1 < -4 ∨ 6 ≤ dp - 1) then layout_e d n dp else layout_f d n dp.
Definition fmt_v (f : f64) : string :=
  match f with
  | S754_nan => "NaN"
  | S754_infinity s => (if s then "-" else "+") ++ "Inf"
  | S754_zero s => sign s ++ "0"
  | S754_finite s m e => sign s ++ format_shortest (Zpos m) e
  end%string.

(** Examples. *)
Example fmt_f_examples :
  fmt_f <$> [f64_of_Z 0; f64_div (f64_of_Z 1) (f64_of_Z 3); f64_div (f64_of_Z (-5)) (f64_of_Z 2);
             f64_div (f64_of_Z 0) (f64_of_Z 0); f64_div (f64_of_Z 1) (f64_of_Z 0)]
  = ["0.000000"; "0.333333"; "-2.500000"; "NaN"; "+Inf"].
Proof. vm_compute. reflexivity. Qed.
Example fmt_v_examples :
  fmt_v <$> [f64_of_Z 0; f64_div (f64_of_Z 1) (f64_of_Z 10); f64_div (f64_of_Z 1) (f64_of_Z 3);
             f64_of_Z 1234567; f64_of_Z 100; f64_div (f64_of_Z 25) (f64_of_Z 10000000);
             f64_div (f64_of_Z 45) (f64_of_Z (-2)); f64_add (f64_of_Z 9007199254740993) (f64_of_Z 1)]
  = ["0"; "0.1"; "0.3333333333333333"; "1.234567e+06"; "100"; "2.5e-06"; "-22.5"; "9.007199254740992e+15"].
Proof. vm_compute. reflexivity. Qed.
