(* ===== verification/Sha1.v ===== *)
(** * SHA-1 and big-endian reads (the parts of Go's [crypto/sha1] and
    [encoding/binary] that [src/election/rotation.go] uses)

    Words are [Z] kept below [2^32]; a byte slice is a list of [Z].  The three
    test vectors at the end are the FIPS 180 ones and the hash behind the
    leader that [src/election/election_test.go] expects in view 4. *)
From S2P Require Import Prelude.
From Stdlib Require Import Ascii.

Local Open Scope Z_scope.

Definition bytes_of_string (s : string) : list Z :=
  (λ a, Z.of_N (N_of_ascii a)) <$> String.list_ascii_of_string s.

Definition word32 (z : Z) : Z := z mod 4294967296.

Definition rotl32 (x n : Z) : Z :=
  word32 (Z.lor (Z.shiftl x n) (Z.shiftr x (32 - n))).

(** Big-endian value of a byte slice, and its inverse on [n] bytes. *)
Definition be_value (bs : list Z) : Z := foldl (λ acc b, acc * 256 + b) 0 bs.

Fixpoint be_bytes (n : nat) (z : Z) : list Z :=
  match n with
  | O => []
  | S n => be_bytes n (z / 256) ++ [z mod 256]
  end.

(** [binary.BigEndian.Uint64(bs)]: panics on fewer than eight bytes. *)
Definition BigEndian_Uint64 (bs : list Z) : outcome Z :=
  if decide (8 ≤ length bs)%nat then Ok (uint64 (be_value (take 8 bs)))
  else Fault IndexOutOfRange.

Definition sha1_pad (msg : list Z) : list Z :=
  let len := Z.of_nat (length msg) in
  let zeros := Z.to_nat ((55 - len) mod 64) in
  msg ++ [128] ++ replicate zeros 0 ++ be_bytes 8 (len * 8).

Fixpoint chunks (fuel k : nat) (l : list Z) : list (list Z) :=
  match fuel, l with
  | O, _ | _, [] => []
  | S fuel, _ => take k l :: chunks fuel k (drop k l)
  end.

(** The message schedule, built backwards: the head is the last word. *)
Fixpoint sha1_schedule (n : nat) (w : list Z) : list Z :=
  match n with
  | O => w
  | S n =>
      let x := Z.lxor (Z.lxor (nth 2 w 0) (nth 7 w 0)) (Z.lxor (nth 13 w 0) (nth 15 w 0)) in
      sha1_schedule n (rotl32 x 1 :: w)
  end.

Record sha1_state := Sha1State { sa : Z; sb : Z; sc : Z; sd : Z; se : Z }.

Definition sha1_round (i : nat) (w : Z) (st : sha1_state) : sha1_state :=
  let '(Sha1State a b c d e) := st in
  let '(f, k) :=
    if decide (i < 20)%nat then (Z.lor (Z.land b c) (Z.land (4294967295 - b) d), 1518500249)
    else if decide (i < 40)%nat then (Z.lxor b (Z.lxor c d), 1859775393)
    else if decide (i < 60)%nat then
      (Z.lor (Z.land b c) (Z.lor (Z.land b d) (Z.land c d)), 2400959708)
    else (Z.lxor b (Z.lxor c d), 3395469782) in
  Sha1State (word32 (rotl32 a 5 + f + e + k + w)) a (rotl32 b 30) c d.

Definition sha1_block (st : sha1_state) (block : list Z) : sha1_state :=
  let w := reverse (sha1_schedule 64 (reverse (be_value <$> chunks 16 4 block))) in
  let st' := foldl (λ s iw, sha1_round iw.1 iw.2 s) st (zip (seq 0 80) w) in
  Sha1State (word32 (sa st + sa st')) (word32 (sb st + sb st')) (word32 (sc st + sc st'))
    (word32 (sd st + sd st')) (word32 (se st + se st')).

Definition sha1_init : sha1_state :=
  Sha1State 1732584193 4023233417 2562383102 271733878 3285377520.

(** [h := sha1.New(); h.Write(msg); h.Sum(nil)] *)
Definition sha1 (msg : list Z) : list Z :=
  let p := sha1_pad msg in
  let st := foldl sha1_block sha1_init (chunks (length p) 64 p) in
  be_bytes 4 (sa st) ++ be_bytes 4 (sb st) ++ be_bytes 4 (sc st)
    ++ be_bytes 4 (sd st) ++ be_bytes 4 (se st).

Lemma length_be_bytes n z : length (be_bytes n z) = n.
Proof. revert z. induction n as [|n IH]; intros z; [done|]. simpl. rewrite length_app, IH. simpl. lia. Qed.

Lemma length_sha1 msg : length (sha1 msg) = 20%nat.
Proof. unfold sha1. cbv zeta. by rewrite !length_app, !length_be_bytes. Qed.

Lemma Uint64_sha1 msg : ∃ v, BigEndian_Uint64 (sha1 msg) = Ok v ∧ is_uint64 v.
Proof.
  unfold BigEndian_Uint64. rewrite length_sha1, decide_True by lia.
  eexists. split; [done|apply uint64_range].
Qed.

Example sha1_abc : be_value (sha1 (bytes_of_string "abc"))
  = 968236873715988614170569073515315707566766479517.
Proof. vm_compute. reflexivity. Qed.

Example sha1_empty : be_value (sha1 []) = 1245845410931227995499360226027473197403882391305.
Proof. vm_compute. reflexivity. Qed.

Example sha1_two_blocks :
  be_value (sha1 (bytes_of_string "abcdbcdecdefdefgefghfghighijhijkijkljklmklmnlmnomnopnopq"))
  = 756981919157381189150916787291668349464288325873.
Proof. vm_compute. reflexivity. Qed.
