(* ===== verification/Election.v ===== *)
(** * Leader election ([src/election])

    The Go interface [Election] is a class; [Rotation] and [Static] are its two
    implementations, and [ElectionLaws] states what the protocols rely on: the
    leader found for a view is a leader of that view.  [Rotation] hashes the
    view with SHA-1 (file [Sha1]). *)
From S2P Require Import Prelude Identity Sha1.

Local Open Scope Z_scope.

(** ** The interface (election.go, lines 8-11) *)

Class Election := {
  IsLeader : NodeID → Z → outcome bool;
  FindLeaderFor : Z → outcome NodeID
}.

(** What a client of the interface may assume for the views it asks about. *)
Class ElectionLaws (E : Election) := {
  leader_is_leader : ∀ view id,
    is_int64 view → FindLeaderFor view = Ok id → IsLeader id view = Ok true;
  leader_total : ∀ view id,
    is_int64 view → returns (FindLeaderFor view) ∧ returns (IsLeader id view)
}.

(** ** Rotation (rotation.go) *)
Module Rotation.

Record Rotation := NewRotation { peerNo : Z }.

(** Lines 29-32 and 40-43: the first eight bytes of SHA-1 of the decimal view. *)
Definition view_hash (v : Z) : outcome Z :=
  BigEndian_Uint64 (sha1 (bytes_of_string (Itoa v))).

(** [data % uint64(r.peerNo)]: a division by zero panics. *)
Definition rem_peers (r : Rotation) (data : Z) : outcome Z :=
  if decide (uint64 (peerNo r) = 0) then Fault DivideByZero
  else Ok (data mod uint64 (peerNo r)).

Definition IsLeader (r : Rotation) (id : NodeID) (view : Z) : outcome bool :=
  if decide (view ≤ 3) then
    if decide (Node id < peerNo r) then mret false else mret true
  else
    data ← view_hash (int64 (view + 1));
    m ← rem_peers r data;
    mret (bool_decide (m = uint64 (int64 (Node id - 1)))).

Definition FindLeaderFor (r : Rotation) (view : Z) : outcome NodeID :=
  if decide (view ≤ 3) then mret (NewNodeID (peerNo r))
  else
    data ← view_hash (int64 (view + 1));
    m ← rem_peers r data;
    let id := uint64 (m + 1) in
    mret (NewNodeID (int64 id)).

Definition rotation_election (r : Rotation) : Election :=
  {| Election.IsLeader := IsLeader r; Election.FindLeaderFor := FindLeaderFor r |}.

Section rotation.
Context (r : Rotation) (Hpeers : 1 ≤ peerNo r ≤ max_int64).

Lemma peers_uint64 : uint64 (peerNo r) = peerNo r.
Proof. apply uint64_of_view. lia. Qed.

(** The number the hash of a view selects, between 0 and [peerNo - 1]. *)
Lemma view_rem v : ∃ m,
  (data ← view_hash v; rem_peers r data) = Ok m ∧ 0 ≤ m < peerNo r.
Proof.
  unfold view_hash. destruct (Uint64_sha1 (bytes_of_string (Itoa v))) as (d & -> & Hd).
  exists (d mod peerNo r). unfold rem_peers. simpl.
  rewrite peers_uint64, decide_False by lia. split; [done|].
  apply Z.mod_pos_bound. lia.
Qed.

(** Both functions in terms of the leader's number. *)
Lemma rotation_number view :
  ∃ k, 1 ≤ k ≤ peerNo r
    ∧ FindLeaderFor r view = Ok (NewNodeID k)
    ∧ ∀ id, 1 ≤ Node id ≤ peerNo r → IsLeader r id view = Ok (bool_decide (Node id = k)).
Proof.
  unfold FindLeaderFor, IsLeader. destruct (decide (view ≤ 3)).
  - exists (peerNo r). split; [lia|]. split; [done|]. intros id Hid.
    case_decide.
    + rewrite bool_decide_false by lia. done.
    + rewrite bool_decide_true by lia. done.
  - destruct (view_rem (int64 (view + 1))) as (m & Hm & Hr).
    apply outcome_bind_ok in Hm as (d & Hd & Hm).
    exists (m + 1). split; [lia|]. rewrite Hd. simpl. rewrite Hm. simpl.
    rewrite (uint64_of_view (m + 1)) by lia.
    rewrite int64_id by (unfold_ints; lia). split; [done|].
    intros id Hid. rewrite (int64_id (Node id - 1)) by (unfold_ints; lia).
    rewrite uint64_of_view by lia. simpl.
    f_equal. apply bool_decide_ext. lia.
Qed.
End rotation.

(** With at least one peer, every view has exactly one leader among the
    nodes 1..peerNo: [FindLeaderFor] returns one of them, and [IsLeader] accepts
    a node of that range exactly when it is that node. *)
Theorem rotation_unique_leader (r : Rotation) (view : Z)
    (Hpeers : 1 ≤ peerNo r ≤ max_int64) :
  ∃ leader, FindLeaderFor r view = Ok leader
    ∧ 1 ≤ Node leader ≤ peerNo r
    ∧ IsLeader r leader view = Ok true
    ∧ ∀ id, 1 ≤ Node id ≤ peerNo r →
        (IsLeader r id view = Ok true ↔ Node id = Node leader).
Proof.
  destruct (rotation_number r Hpeers view) as (k & Hk & Hf & Hi).
  assert (Node (NewNodeID k) = k) as Hkk by (apply Node_NewNodeID; lia).
  exists (NewNodeID k). rewrite Hkk. split_and!; [done|lia|lia| |].
  - rewrite Hi by lia. by rewrite Hkk, bool_decide_true.
  - intros id Hid. rewrite Hi by done.
    destruct (decide (Node id = k)); [by rewrite bool_decide_true|].
    rewrite bool_decide_false by done. naive_solver.
Qed.

(** The four-node network of election_test.go: "3" leads view 4 (and, by the
    rule for the first views, "4" leads view 2). *)
Lemma rotation_unique_leader_witness :
  1 ≤ peerNo (NewRotation 4) ≤ max_int64
  ∧ FindLeaderFor (NewRotation 4) 4 = Ok "3"
  ∧ ∃ leader, FindLeaderFor (NewRotation 4) 4 = Ok leader
      ∧ IsLeader (NewRotation 4) leader 4 = Ok true.
Proof.
  assert (1 ≤ peerNo (NewRotation 4) ≤ max_int64) as H by (by vm_compute).
  split; [exact H|]. split; [by vm_compute|].
  destruct (rotation_unique_leader (NewRotation 4) 4 H) as (l & H1 & H2 & H3 & H4).
  exists l. split; [exact H1|exact H3].
Defined.

Lemma rotation_laws (r : Rotation) :
  1 ≤ peerNo r ≤ max_int64 → ElectionLaws (rotation_election r).
Proof.
  intros Hpeers. split.
  - intros view id _ Hf. destruct (rotation_number r Hpeers view) as (k & Hk & Hf' & Hi).
    simpl in *. rewrite Hf' in Hf. injection Hf as <-.
    assert (Node (NewNodeID k) = k) as Hkk by (apply Node_NewNodeID; lia).
    rewrite Hi by lia. by rewrite Hkk, bool_decide_true.
  - intros view id _. simpl. destruct (rotation_number r Hpeers view) as (k & Hk & Hf & _).
    split; [by exists (NewNodeID k)|]. unfold returns, IsLeader.
    repeat case_decide; [eauto..|].
    destruct (view_rem r Hpeers (int64 (view + 1))) as (m & Hm & _).
    apply outcome_bind_ok in Hm as (d & -> & Hm). simpl. rewrite Hm. simpl. eauto.
Qed.

End Rotation.

(** ** Static (static.go) *)
Module Static.

Record Static := NewStatic { master : NodeID }.

Definition IsLeader (st : Static) (id : NodeID) (view : Z) : outcome bool :=
  mret (bool_decide (id = master st)).

Definition FindLeaderFor (st : Static) (view : Z) : outcome NodeID := mret (master st).

Definition static_election (st : Static) : Election :=
  {| Election.IsLeader := IsLeader st; Election.FindLeaderFor := FindLeaderFor st |}.

#[export] Instance static_laws (st : Static) : ElectionLaws (static_election st).
Proof.
  split.
  - intros view id _ [= <-]. simpl. unfold IsLeader. by rewrite bool_decide_true.
  - intros view id _. split; eexists; reflexivity.
Qed.

End Static.
