(* ===== verification/Db.v ===== *)
(** * The key-value state machine ([src/db/db.go])

    [Command]s, the multi-version [database], and the conflict tests.  A Go
    [Value] is a byte slice that may be [nil]: [option (list Z)].  The database
    never stores [nil], so the model's maps hold byte lists and a missing key
    reads as [None], which is what Go's [d.data[k]] gives.  The read-write lock
    makes every operation atomic; an operation is one state transformer. *)
From S2P Require Import Prelude Identity.

Local Open Scope Z_scope.

Abbreviation Key := Z (only parsing).
Abbreviation Value := (option (list Z)) (only parsing).

Record Command := MkCommand {
  cmd_Key : Key;
  cmd_Value : Value;
  cmd_ClientID : NodeID;
  cmd_CommandID : Z
}.

#[global] Instance Command_eq_dec : EqDecision Command.
Proof. solve_decision. Defined.

(** Lines 26-43.  [bytes.Equal] does not distinguish [nil] from the empty slice. *)
Definition Empty (c : Command) : bool :=
  bool_decide (cmd_Key c = 0) && bool_decide (cmd_Value c = None)
  && bool_decide (cmd_ClientID c = "") && bool_decide (cmd_CommandID c = 0).

Definition IsRead (c : Command) : bool := bool_decide (cmd_Value c = None).
Definition IsWrite (c : Command) : bool := bool_decide (cmd_Value c ≠ None).

Definition bytes_Equal (a b : Value) : bool := bool_decide (default [] a = default [] b).

Definition Equal (c a : Command) : bool :=
  bool_decide (cmd_Key c = cmd_Key a) && bytes_Equal (cmd_Value c) (cmd_Value a)
  && bool_decide (cmd_ClientID c = cmd_ClientID a)
  && bool_decide (cmd_CommandID c = cmd_CommandID a).

Record database := MkDatabase {
  data : gmap Key (list Z);
  version : Z;
  multiversion : bool;
  history : gmap Key (list (list Z))
}.

(** Lines 71-78: the flag is [config.Configuration.MultiVersion]. *)
Definition NewDatabase (MultiVersion : bool) : database := MkDatabase ∅ 0 MultiVersion ∅.

(** Lines 124-135: a [nil] value writes nothing. *)
Definition put (d : database) (k : Key) (v : Value) : database :=
  match v with
  | None => d
  | Some v =>
      {| data := <[k := v]> (data d);
         version := int64 (version d + 1);
         multiversion := multiversion d;
         history := if multiversion d
                    then <[k := default [] (history d !! k) ++ [v]]> (history d)
                    else history d |}
  end.

(** Lines 104-115: the previous value is returned. *)
Definition Execute (d : database) (c : Command) : database * Value :=
  let v := data d !! cmd_Key c in
  (put d (cmd_Key c) (cmd_Value c), v).

Definition Get (d : database) (k : Key) : Value := data d !! k.
Definition Put (d : database) (k : Key) (v : Value) : database := put d k v.
Definition Version (d : database) (k : Key) : Z := version d.
Definition History (d : database) (k : Key) : list (list Z) := default [] (history d !! k).

(** Lines 166-173 and 176-185. *)
Definition Conflict (gamma delta : Command) : bool :=
  if decide (cmd_Key gamma = cmd_Key delta) then
    if negb (IsRead gamma) || negb (IsRead delta) then true else false
  else false.

Fixpoint conflict_with (c : Command) (batch2 : list Command) : bool :=
  match batch2 with
  | [] => false
  | d :: batch2 => if Conflict c d then true else conflict_with c batch2
  end.

Fixpoint ConflictBatch (batch1 batch2 : list Command) : bool :=
  match batch1 with
  | [] => false
  | c :: batch1 => if conflict_with c batch2 then true else ConflictBatch batch1 batch2
  end.

(** A batch executed command after command. *)
Definition exec_batch (d : database) (cs : list Command) : database :=
  foldl (λ d c, (Execute d c).1) d cs.

(** ** Conflict-freedom is commutation *)

Lemma put_comm d k1 v1 k2 v2 :
  (k1 ≠ k2 ∨ (v1 = None ∧ v2 = None)) → put (put d k1 v1) k2 v2 = put (put d k2 v2) k1 v1.
Proof.
  intros [Hne|[-> ->]]; [|done].
  destruct v1 as [v1|], v2 as [v2|]; [|done..].
  unfold put; simpl. f_equal.
  - by apply insert_insert_ne.
  - destruct (multiversion d); [|done].
    rewrite !lookup_insert_ne by done. by apply insert_insert_ne.
Qed.

Lemma Conflict_false_keys a b :
  Conflict a b = false → cmd_Key a ≠ cmd_Key b ∨ (cmd_Value a = None ∧ cmd_Value b = None).
Proof.
  unfold Conflict, IsRead. case_decide; [|by left].
  repeat case_bool_decide; simpl; naive_solver.
Qed.

Lemma put_lookup_other d k v k' :
  k ≠ k' ∨ v = None → data (put d k v) !! k' = data d !! k'.
Proof.
  intros H. destruct v as [v|]; [|done]. simpl.
  destruct H as [H|H]; [by rewrite lookup_insert_ne|done].
Qed.

Lemma conflict_with_false c cs :
  conflict_with c cs = false ↔ ∀ d, d ∈ cs → Conflict c d = false.
Proof.
  induction cs as [|d cs IH]; simpl; [set_solver|].
  setoid_rewrite elem_of_cons. destruct (Conflict c d) eqn:E; naive_solver.
Qed.

Lemma ConflictBatch_false b1 b2 :
  ConflictBatch b1 b2 = false ↔ ∀ c d, c ∈ b1 → d ∈ b2 → Conflict c d = false.
Proof.
  induction b1 as [|c b1 IH]; simpl; [set_solver|].
  setoid_rewrite elem_of_cons. destruct (conflict_with c b2) eqn:E.
  - split; [done|]. intros H. assert (conflict_with c b2 = false); [|congruence].
    apply conflict_with_false. naive_solver.
  - rewrite IH. pose proof (proj1 (conflict_with_false c b2) E). naive_solver.
Qed.

Lemma exec_swap d c1 c2 :
  Conflict c1 c2 = false →
  (Execute (Execute d c1).1 c2).1 = (Execute (Execute d c2).1 c1).1.
Proof. intros H%Conflict_false_keys. by apply put_comm. Qed.

Lemma exec_batch_swap1 d c cs :
  (∀ e, e ∈ cs → Conflict c e = false) →
  exec_batch (Execute d c).1 cs = (Execute (exec_batch d cs) c).1.
Proof.
  revert d. induction cs as [|e cs IH]; intros d H; [done|].
  change (exec_batch (Execute (Execute d c).1 e).1 cs
          = (Execute (exec_batch (Execute d e).1 cs) c).1).
  rewrite exec_swap by (apply H; set_solver).
  apply IH. intros e' He'. apply H. set_solver.
Qed.

(** Commands that [Conflict] declares non-conflicting commute: the final
    database and the value each command returns do not depend on the order. *)
Theorem Conflict_false_commute d a b :
  Conflict a b = false →
  let '(d1, va) := Execute d a in
  let '(d12, vb) := Execute d1 b in
  let '(d2, vb') := Execute d b in
  let '(d21, va') := Execute d2 a in
  d12 = d21 ∧ va = va' ∧ vb = vb'.
Proof.
  intros H%Conflict_false_keys. simpl. split_and!.
  - by apply put_comm.
  - rewrite put_lookup_other; naive_solver.
  - rewrite put_lookup_other; naive_solver.
Qed.

Lemma Conflict_false_commute_witness :
  let a := MkCommand 1 (Some [7]) "1" 0 in
  let b := MkCommand 2 (Some [8]) "1" 1 in
  Conflict a b = false
  ∧ (Execute (Execute (NewDatabase true) a).1 b).1 = (Execute (Execute (NewDatabase true) b).1 a).1.
Proof.
  split; [by vm_compute|].
  apply (Conflict_false_commute (NewDatabase true)
           (MkCommand 1 (Some [7]) "1" 0) (MkCommand 2 (Some [8]) "1" 1)).
  by vm_compute.
Defined.

(** Two batches that [ConflictBatch] declares non-conflicting may be
    executed in either order with the same final database. *)
Theorem ConflictBatch_false_commute d b1 b2 :
  ConflictBatch b1 b2 = false →
  exec_batch (exec_batch d b1) b2 = exec_batch (exec_batch d b2) b1.
Proof.
  rewrite ConflictBatch_false. revert d. induction b1 as [|c b1 IH]; intros d H; [done|].
  change (exec_batch d (c :: b1)) with (exec_batch (Execute d c).1 b1).
  change (exec_batch (exec_batch d b2) (c :: b1))
    with (exec_batch (Execute (exec_batch d b2) c).1 b1).
  rewrite IH by (intros; apply H; set_solver).
  by rewrite exec_batch_swap1 by (intros; apply H; set_solver).
Qed.

Lemma ConflictBatch_false_commute_witness :
  let b1 := [MkCommand 1 (Some [7]) "1" 0; MkCommand 3 None "1" 1] in
  let b2 := [MkCommand 2 (Some [8]) "2" 0; MkCommand 3 None "2" 1] in
  ConflictBatch b1 b2 = false
  ∧ exec_batch (exec_batch (NewDatabase true) b1) b2
    = exec_batch (exec_batch (NewDatabase true) b2) b1.
Proof.
  split; [by vm_compute|].
  apply (ConflictBatch_false_commute (NewDatabase true)). by vm_compute.
Defined.

(** ** The multi-version invariant *)

(** With [multiversion] on, a key's value is the last entry of its history. *)
Definition history_ok (d : database) : Prop :=
  multiversion d = true → ∀ k, data d !! k = last (History d k).

Lemma put_history_ok d k v : history_ok d → history_ok (put d k v).
Proof.
  intros H. destruct v as [v|]; [|done]. intros Hm k'. simpl in *.
  unfold History. simpl. rewrite Hm.
  destruct (decide (k = k')) as [->|Hne].
  - rewrite !lookup_insert_eq. simpl. by rewrite last_snoc.
  - rewrite !lookup_insert_ne by done. by apply H.
Qed.

(** In a multi-version database reached by any sequence of commands, every
    key reads as the last version of its history, and [Execute] returns that
    version before it writes. *)
Theorem history_last_reachable cs c k :
  let d := exec_batch (NewDatabase true) cs in
  Get d k = last (History d k) ∧ (Execute d c).2 = last (History d (cmd_Key c)).
Proof.
  intros d.
  assert (history_ok d ∧ multiversion d = true) as [H Hm].
  { subst d. assert (history_ok (NewDatabase true) ∧ multiversion (NewDatabase true) = true) as H
      by (split; done).
    revert H. generalize (NewDatabase true). induction cs as [|e cs IH]; [done|].
    intros d [H Hm]. apply IH. split; [by apply put_history_ok|].
    simpl. unfold put. by destruct (cmd_Value e). }
  split; by apply H.
Qed.
