(* ===== verification/Crypto.v ===== *)
(** * Hashing, keys and signatures ([src/crypto])

    Identifiers ([id.go]), the SHA-3 hashers ([hash.go], [sha3.go]) and the
    signature functions ([sign.go], [ecdsa.go], [signature.go]).  The sponge of
    [golang.org/x/crypto/sha3] and the elliptic-curve arithmetic of
    [crypto/ecdsa] are parameters, the classes [Sha3] and [Ecdsa], with the
    documented behaviour the code relies on as their laws. *)
From S2P Require Import Prelude Identity Sha1.
From Stdlib Require Import DecimalString DecimalN.

Local Open Scope Z_scope.

(** ** Identifiers (id.go)

    An [Identifier] is an array of 32 bytes, compared by value and used as a
    map key: its big-endian number. *)

Abbreviation Identifier := N (only parsing).

(** Lines 17-21: [copy] into a zeroed array of 32 bytes. *)
Definition HashToID (hash : list Z) : Identifier :=
  Z.to_N (be_value (take 32 (hash ++ replicate 32 0))).

Definition IDToByte (id : Identifier) : list Z := be_bytes 32 (Z.of_N id).

Definition is_byte (b : Z) : Prop := 0 ≤ b < 256.

Lemma be_value_snoc l b : be_value (l ++ [b]) = be_value l * 256 + b.
Proof. unfold be_value. by rewrite foldl_app. Qed.

Lemma be_value_nonneg l : Forall is_byte l → 0 ≤ be_value l.
Proof.
  induction l as [|b l IH] using rev_ind; [done|].
  rewrite Forall_app, Forall_singleton. intros [Hl Hb].
  rewrite be_value_snoc. specialize (IH Hl). unfold is_byte in Hb. lia.
Qed.

Lemma be_bytes_value l : Forall is_byte l → be_bytes (length l) (be_value l) = l.
Proof.
  induction l as [|b l IH] using rev_ind; [done|].
  rewrite Forall_app, Forall_singleton. intros [Hl Hb]. unfold is_byte in Hb.
  rewrite be_value_snoc, length_app, Nat.add_comm. simpl.
  rewrite (Z.div_add_l _ 256 b) by lia. rewrite Z.div_small, Z.add_0_r by lia.
  rewrite IH by done. f_equal. f_equal.
  rewrite Z.add_comm, Z.mod_add by lia. apply Z.mod_small. lia.
Qed.

(** The bytes of the identifier made from a hash are the hash, cut to 32
    bytes or padded with zeros to 32. *)
Theorem IDToByte_HashToID hash :
  Forall is_byte hash → IDToByte (HashToID hash) = take 32 (hash ++ replicate 32 0).
Proof.
  intros H. unfold IDToByte, HashToID.
  assert (Forall is_byte (take 32 (hash ++ replicate 32 0))) as Hb.
  { apply Forall_take, Forall_app. split; [done|].
    apply Forall_replicate. unfold is_byte. lia. }
  rewrite Z2N.id by (by apply be_value_nonneg).
  rewrite <- (be_bytes_value _ Hb) at 2. f_equal.
  rewrite length_take, length_app, length_replicate. lia.
Qed.

Lemma IDToByte_HashToID_witness :
  Forall is_byte [171; 0; 205]
  ∧ IDToByte (HashToID [171; 0; 205]) = [171; 0; 205] ++ replicate 29 0.
Proof.
  split; [by repeat constructor|].
  apply (IDToByte_HashToID [171; 0; 205]). by repeat constructor.
Defined.

(** ** SHA-3 hashers (hash.go, sha3.go) *)

(** The four sponges, as functions of the bytes written since the last reset;
    the standard fixes the length of their output. *)
Class Sha3 := {
  sha3_224 : list Z → list Z;
  sha3_256 : list Z → list Z;
  sha3_384 : list Z → list Z;
  sha3_512 : list Z → list Z;
  length_sha3_224 : ∀ m, length (sha3_224 m) = 28%nat;
  length_sha3_256 : ∀ m, length (sha3_256 m) = 32%nat;
  length_sha3_384 : ∀ m, length (sha3_384 m) = 48%nat;
  length_sha3_512 : ∀ m, length (sha3_512 m) = 64%nat
}.

Inductive hashAlgo := SHA3_224 | SHA3_256 | SHA3_384 | SHA3_512.

(** hash.go, lines 20-30 and 52-65: a hash is a slice of bytes. *)
Abbreviation Hash := (list Z) (only parsing).

Definition Hash_Equal (h input : Hash) : bool := bool_decide (h = input).

(** Lower-case hexadecimal digits. *)
Definition hex_digit (d : Z) : string :=
  default "" (["0"; "1"; "2"; "3"; "4"; "5"; "6"; "7"; "8"; "9"; "a"; "b"; "c"; "d"; "e"; "f"]%string
    !! Z.to_nat d).
Definition hex (l : list Z) : string :=
  foldr (λ b s, hex_digit (b / 16) ++ hex_digit (b mod 16) ++ s)%string "" l.
Definition Hex (h : Hash) : string := hex h.

(** Copies: the new slice has the same bytes. *)
Definition BytesToHash (b : list Z) : Hash := b.
Definition HashesToBytes (hashes : list Hash) : list (list Z) := hashes.

(** A hasher: its algorithm, [commonHasher.outputSize], and what the embedded
    [hash.Hash] has absorbed. *)
Record Hasher := MkHasher { algo : hashAlgo; outputSize : Z; absorbed : list Z }.

(** sha3.go, lines 9-14: all four lengths are 32. *)
Definition HashLen (a : hashAlgo) : nat := 32%nat.

(** sha3.go, lines 41-70. *)
Definition NewSHA3 (a : hashAlgo) : Hasher := MkHasher a (Z.of_nat (HashLen a)) [].

(** hash.go, lines 70-82. *)
Definition NewHasher (hashType : string) : result Hasher :=
  if decide (hashType = "sha3_224") then Val (NewSHA3 SHA3_224)
  else if decide (hashType = "sha3_256") then Val (NewSHA3 SHA3_256)
  else if decide (hashType = "sha3_384") then Val (NewSHA3 SHA3_384)
  else if decide (hashType = "sha3_512") then Val (NewSHA3 SHA3_512)
  else Err "Invalid hasher type!".

Section sha3.
Context `{Sha3}.

Definition digest (a : hashAlgo) : list Z → list Z :=
  match a with
  | SHA3_224 => sha3_224 | SHA3_256 => sha3_256
  | SHA3_384 => sha3_384 | SHA3_512 => sha3_512
  end.

Definition Reset (h : Hasher) : Hasher := MkHasher (algo h) (outputSize h) [].
Definition Write (h : Hasher) (p : list Z) : Hasher :=
  MkHasher (algo h) (outputSize h) (absorbed h ++ p).

(** [hash.Hash.Sum(b)] appends the digest to [b] and leaves the state. *)
Definition Sum (h : Hasher) (b : list Z) : list Z := b ++ digest (algo h) (absorbed h).

(** sha3.go, lines 73-102: reset, write, and append to an empty slice. *)
Definition ComputeHash (h : Hasher) (data : list Z) : Hasher * list Z :=
  let h := Reset h in
  let h := Write h data in
  (h, Sum h []).

(** Go's [append(s[:0], d...)] on a slice [s]: what [s] itself reads
    afterwards.  When [d] fits the capacity of [s] it is written into the
    array of [s]; otherwise [append] allocates and [s] keeps its bytes. *)
Definition append_in_place (s d : list Z) : list Z :=
  if decide (length d ≤ length s)%nat then d ++ drop (length d) s else s.

(** sha3.go, lines 105-134: [digest := make(Hash, 32)], then
    [s.Sum(digest[:0])], whose result is dropped. *)
Definition SumHash (h : Hasher) : Hasher * list Z :=
  let dst := replicate (HashLen (algo h)) 0 in
  (Reset h, append_in_place dst (digest (algo h) (absorbed h))).

(** What [SumHash] returns by the length of the digest. *)
Lemma SumHash_fits a data n :
  length (digest a data) = n → (n ≤ 32)%nat →
  (SumHash (Write (NewSHA3 a) data)).2 = digest a data ++ replicate (32 - n) 0.
Proof.
  intros Hn Hle. unfold SumHash, append_in_place. simpl algo. simpl absorbed.
  rewrite length_replicate. unfold HashLen. rewrite decide_True by lia.
  by rewrite Hn, drop_replicate.
Qed.

Lemma SumHash_overflows a data :
  (32 < length (digest a data))%nat →
  (SumHash (Write (NewSHA3 a) data)).2 = replicate 32 0.
Proof.
  intros Hlt. unfold SumHash, append_in_place. simpl algo. simpl absorbed.
  rewrite length_replicate. unfold HashLen. by rewrite decide_False by lia.
Qed.

(** [ComputeHash] and [Write] then [SumHash] agree for SHA3-256 only:
    [SumHash] pads SHA3-224 with four zero bytes, and for SHA3-384 and
    SHA3-512, whose digests do not fit the 32 bytes, it returns 32 zero bytes
    whatever was written. *)
Theorem SumHash_spec a data :
  (SumHash (Write (NewSHA3 a) data)).2 =
  match a with
  | SHA3_224 => (ComputeHash (NewSHA3 a) data).2 ++ [0; 0; 0; 0]
  | SHA3_256 => (ComputeHash (NewSHA3 a) data).2
  | SHA3_384 | SHA3_512 => replicate 32 0
  end.
Proof.
  destruct a.
  - by rewrite (SumHash_fits _ _ 28) by (apply length_sha3_224 || lia).
  - rewrite (SumHash_fits _ _ 32) by (apply length_sha3_256 || lia). apply app_nil_r.
  - apply SumHash_overflows. simpl. rewrite length_sha3_384. lia.
  - apply SumHash_overflows. simpl. rewrite length_sha3_512. lia.
Qed.
End sha3.

(** A concrete family of functions with the lengths of the four digests: the
    input cut or padded. *)
Definition sample_sha3 : Sha3 :=
  {| sha3_224 := resize 28 0; sha3_256 := resize 32 0;
     sha3_384 := resize 48 0; sha3_512 := resize 64 0;
     length_sha3_224 := fun m => length_resize m 28 0;
     length_sha3_256 := fun m => length_resize m 32 0;
     length_sha3_384 := fun m => length_resize m 48 0;
     length_sha3_512 := fun m => length_resize m 64 0 |}.

Lemma SumHash_spec_witness :
  (@SumHash sample_sha3 (Write (NewSHA3 SHA3_512) [1; 2; 3])).2 = replicate 32 0
  ∧ (@ComputeHash sample_sha3 (NewSHA3 SHA3_512) [1; 2; 3]).2 ≠ replicate 32 0.
Proof. split; [exact (@SumHash_spec sample_sha3 SHA3_512 [1; 2; 3])|by vm_compute]. Defined.

(** ** Keys and signatures (sign.go, ecdsa.go, signature.go) *)

(** A [Signature] is a slice of byte slices: the decimal [r] and [s] of ECDSA. *)
Abbreviation Signature := (list string) (only parsing).
Abbreviation AggSig := (list (list string)) (only parsing).

(** Go's [crypto/ecdsa] on P-256.  [ecdsa_GenerateKey] is a function of the bytes
    it reads, [key_bytes] of them, from the reader it is given; [ecdsa_Sign]
    gives [r] and [s], its nonces being drawn from [rand.Reader].  A signature
    verifies under the key's public key.  [unparsed] is what [SetString] leaves in a
    [big.Int] when the string is not a number: its documentation calls the value
    undefined. *)
Class Ecdsa := {
  PrivateKey : Type;
  PublicKey : Type;
  key_bytes : nat;
  ecdsa_GenerateKey : list Z → result PrivateKey;
  ecdsa_Public : PrivateKey → PublicKey;
  ecdsa_Sign : PrivateKey → list Z → result (Z * Z);
  ecdsa_Verify : PublicKey → list Z → Z → Z → bool;
  unparsed : string → Z;
  ecdsa_Sign_Verify : ∀ k m r s,
    ecdsa_Sign k m = Val (r, s) → ecdsa_Verify (ecdsa_Public k) m r s = true
}.

(** [z.SetString(s, 10)] of package [math/big]: a sign may come first. *)
Definition SetString (s : string) : option Z :=
  let '(neg, digits) := split_sign s in
  d ← NilZero.uint_of_string digits;
  let v := Z.of_N (N.of_uint d) in
  Some (if (neg : bool) then - v else v).

Lemma SetString_Itoa z : SetString (Itoa z) = Some z.
Proof.
  destruct z as [|p|p]; [done|..]; unfold SetString, Itoa.
  - rewrite split_sign_digits, uint_of_string_of_pos.
    change (Some (Z.of_N (N.of_uint (N.to_uint (Npos p)))) = Some (Zpos p)). by rewrite DecimalN.Unsigned.of_to.
  - cbn [split_sign]. rewrite decide_False, decide_True by done.
    rewrite uint_of_string_of_pos.
    change (Some (- Z.of_N (N.of_uint (N.to_uint (Npos p)))) = Some (Zneg p)). by rewrite DecimalN.Unsigned.of_to.
Qed.

(** sign.go, lines 61-63: the reader reports [Node()] bytes read and writes
    nothing into [x]. *)
Definition StaticRand_Read (id : NodeID) (x : list Z) : list Z * Z := (x, Node id).

(** [io.ReadFull(r, buf)] with the reader above: read until [len(buf)] bytes are
    reported. *)
Fixpoint ReadFull (fuel : nat) (id : NodeID) (buf : list Z) (n : Z) : outcome (list Z) :=
  if decide (n < Z.of_nat (length buf)) then
    match fuel with
    | O => Fault FuelExhausted
    | S fuel =>
        let '(tl, nn) := StaticRand_Read id (drop (Z.to_nat n) buf) in
        ReadFull fuel id (take (Z.to_nat n) buf ++ tl) (int64 (n + nn))
    end
  else Ok buf.

Lemma ReadFull_unchanged fuel id buf n :
  1 ≤ Node id → 0 ≤ n → Z.of_nat (length buf) ≤ 4096 → Node id ≤ 4611686018427387904 →
  Z.of_nat (length buf) - n ≤ Z.of_nat fuel → ReadFull fuel id buf n = Ok buf.
Proof.
  intros Hid. revert n. induction fuel as [|fuel IH]; intros n Hn Hlen Hbig Hfuel; simpl.
  - case_decide; [lia|done].
  - case_decide; [|done]. rewrite take_drop. apply IH; [|lia|lia|].
    all: rewrite int64_id by (unfold_ints; lia); lia.
Qed.

Section keys.
Context `{Ecdsa}.

(** sign.go, lines 79-96: the two other schemes return a nil key. *)
Definition GenerateKey (signer : string) (id : NodeID) : outcome (result (option PrivateKey)) :=
  if decide (signer = "ECDSA_P256") then
    bs ← ReadFull key_bytes id (replicate key_bytes 0) 0;
    mret (match ecdsa_GenerateKey bs with
          | Val k => Val (Some k)
          | Err e => Err e
          end)
  else if decide (signer = "ECDSA_SECp256k1") then mret (Val None)
  else if decide (signer = "BLS_BLS12381") then mret (Val None)
  else mret (Err "Invalid signature scheme!").

(** The package variables [keys] and [pubKeys] after [SetKeys], lines 65-77,
    for [N] nodes: the loop from [i]. *)
Fixpoint SetKeys (signer : string) (N i : nat) : outcome (result (list (PrivateKey * PublicKey))) :=
  match N with
  | O => mret (Val [])
  | S N =>
      r ← GenerateKey signer (NewNodeID (Z.of_nat i + 1));
      match r with
      | Err e => mret (Err e)
      | Val None => Fault NilDereference
      | Val (Some k) =>
          r ← SetKeys signer N (S i);
          mret (match r with
                | Val ks => Val ((k, ecdsa_Public k) :: ks)
                | Err e => Err e
                end)
      end
  end.

(** The key pairs of the nodes, node [i] at index [i-1]. *)
Context (keys : list (PrivateKey * PublicKey)).

(** [keys[nodeID.Node()-1]] *)
Definition key_of (nodeID : NodeID) : outcome (PrivateKey * PublicKey) :=
  index keys (int64 (Node nodeID - 1)).

(** ecdsa.go, lines 37-55, with [hasher = nil] as every caller passes: the two
    numbers in decimal. *)
Definition Sign (k : PrivateKey) (msg : list Z) : result Signature :=
  match ecdsa_Sign k msg with
  | Val (r, s) => Val [Itoa r; Itoa s]
  | Err e => Err e
  end.

(** signature.go, lines 8-22: the two components are indexed without a check, and
    whether they are numbers is not looked at. *)
Record ECDSASignature := MkECDSASignature { sig_r : Z; sig_s : Z }.
Definition big_int (s : string) : Z := default (unparsed s) (SetString s).
Definition ToECDSA (sig : Signature) : outcome ECDSASignature :=
  r ← index sig 0;
  s ← index sig 1;
  mret (MkECDSASignature (big_int r) (big_int s)).

(** ecdsa.go, lines 61-65: the error is always nil. *)
Definition Verify (pub : PublicKey) (sig : Signature) (hash : list Z) : outcome bool :=
  ecdsaSig ← ToECDSA sig;
  mret (ecdsa_Verify pub hash (sig_r ecdsaSig) (sig_s ecdsaSig)).

Definition PrivSign (data : list Z) (nodeID : NodeID) : outcome (result Signature) :=
  k ← key_of nodeID;
  mret (Sign k.1 data).

Definition PubVerify (sig : Signature) (data : list Z) (nodeID : NodeID) : outcome bool :=
  k ← key_of nodeID;
  Verify k.2 sig data.

(** Lines 108-121, the loop from index [i]. *)
Fixpoint verify_signers (aggregatedSigs : AggSig) (blockID : Identifier)
    (i : Z) (aggSigners : list NodeID) : outcome bool :=
  match aggSigners with
  | [] => mret true
  | signer :: aggSigners =>
      sig ← index aggregatedSigs i;
      sigIsCorrect ← PubVerify sig (IDToByte blockID) signer;
      if (sigIsCorrect : bool) then verify_signers aggregatedSigs blockID (i + 1) aggSigners
      else mret false
  end.

Definition VerifyQuorumSignature (aggregatedSigs : AggSig) (blockID : Identifier)
    (aggSigners : list NodeID) : outcome bool :=
  verify_signers aggregatedSigs blockID 0 aggSigners.
End keys.

Section key_lemmas.
Context `{Ecdsa}.

Lemma GenerateKey_P256 i :
  (key_bytes ≤ 4096)%nat → 0 ≤ i ≤ 1000000 →
  GenerateKey "ECDSA_P256" (NewNodeID (i + 1))
  = Ok (match ecdsa_GenerateKey (replicate key_bytes 0) with
        | Val k => Val (Some k) | Err e => Err e end).
Proof.
  intros Hk Hi. assert (Node (NewNodeID (i + 1)) = i + 1) as Hn
    by (apply Node_NewNodeID; unfold_ints; lia).
  unfold GenerateKey. rewrite decide_True by done.
  rewrite ReadFull_unchanged; [done|rewrite ?length_replicate; lia..].
Qed.

Lemma SetKeys_length signer N i ks : SetKeys signer N i = Ok (Val ks) → length ks = N.
Proof.
  revert i ks. induction N as [|N IH]; intros i ks Hs; [by injection Hs as <-|].
  simpl in Hs. apply outcome_bind_ok in Hs as ([[k|]|e] & _ & Hs); [|done..].
  apply outcome_bind_ok in Hs as ([ks'|e] & Hs & [= <-]). simpl. f_equal. by eapply IH.
Qed.

(** All key pairs of [SetKeys] are the pair derived from the zero buffer. *)
Lemma SetKeys_replicate N i ks :
  (key_bytes ≤ 4096)%nat → Z.of_nat (i + N) ≤ 1000000 →
  SetKeys "ECDSA_P256" N i = Ok (Val ks) →
  length ks = N ∧ ∀ kp, kp ∈ ks →
    ecdsa_GenerateKey (replicate key_bytes 0) = Val kp.1 ∧ kp.2 = ecdsa_Public kp.1.
Proof.
  intros Hk. revert i ks. induction N as [|N IH]; intros i ks Hi Hs.
  { injection Hs as <-. set_solver. }
  simpl in Hs. rewrite GenerateKey_P256 in Hs by lia. simpl in Hs.
  destruct (ecdsa_GenerateKey _) as [k|e] eqn:Hgen; [|done].
  apply outcome_bind_ok in Hs as ([ks'|e] & Hs & [=<-]).
  destruct (IH (S i) ks') as [IH1 IH2]; [lia|done|]. split; [simpl; lia|].
  intros kp [->|Hin]%elem_of_cons; [done|]. by apply IH2.
Qed.

Lemma PubVerify_ok keys sig data id b :
  PubVerify keys sig data id = Ok b ↔
  ∃ kp r s, key_of keys id = Ok kp ∧ sig !! 0%nat = Some r ∧ sig !! 1%nat = Some s
    ∧ b = ecdsa_Verify kp.2 data (big_int r) (big_int s).
Proof.
  unfold PubVerify, Verify, ToECDSA. split.
  - intros (kp & Hkp & (e & (r & [_ Hr]%index_ok & Hs)%outcome_bind_ok & [= <-])%outcome_bind_ok)%outcome_bind_ok.
    apply outcome_bind_ok in Hs as (s & [_ Hs]%index_ok & [=<-]). eauto 10.
  - intros (kp & r & s & -> & Hr & Hs & ->). simpl.
    assert (index sig 0 = Ok r) as -> by (by apply index_ok).
    simpl. assert (index sig 1 = Ok s) as -> by (by apply index_ok). done.
Qed.

Lemma Sign_shape k data sig :
  Sign k data = Val sig → ∃ r s, ecdsa_Sign k data = Val (r, s) ∧ sig = [Itoa r; Itoa s].
Proof. unfold Sign. destruct (ecdsa_Sign k data) as [[r s]|]; intros [=<-]; eauto. Qed.

Lemma big_int_Itoa z : big_int (Itoa z) = z.
Proof. unfold big_int. by rewrite SetString_Itoa. Qed.

Lemma PrivSign_ok keys data id sig :
  PrivSign keys data id = Ok (Val sig) ↔ ∃ kp, key_of keys id = Ok kp ∧ Sign kp.1 data = Val sig.
Proof.
  unfold PrivSign. rewrite outcome_bind_ok. split; intros (kp & Hk & Hs); exists kp.
  - injection Hs as Hs. done.
  - rewrite Hs. done.
Qed.

Lemma key_of_in keys id kp : key_of keys id = Ok kp → kp ∈ keys.
Proof. intros [_ Hk]%index_ok. apply list_elem_of_lookup. eauto. Qed.

Lemma key_of_range keys id :
  1 ≤ Node id ≤ Z.of_nat (length keys) → Z.of_nat (length keys) ≤ max_int64 →
  returns (key_of keys id).
Proof.
  intros Hid Hlen. apply index_returns. rewrite int64_id by (unfold_ints; lia). lia.
Qed.

(** [C22]: Signing and verifying round-trip: with the public keys derived from
    the private ones, what [PrivSign] makes for a node [PubVerify] accepts for
    that node; on the way the two numbers of the signature are printed in decimal
    and parsed. *)
Theorem PrivSign_PubVerify keys data id sig :
  (∀ kp, kp ∈ keys → kp.2 = ecdsa_Public kp.1) →
  PrivSign keys data id = Ok (Val sig) → PubVerify keys sig data id = Ok true.
Proof.
  intros Hpub (kp & Hkp & (r & s & Hrs & ->)%Sign_shape)%PrivSign_ok.
  apply PubVerify_ok. exists kp, (Itoa r), (Itoa s). split_and!; [done..|]. rewrite !big_int_Itoa.
  rewrite (Hpub kp) by (by eapply key_of_in).
  symmetry. by apply ecdsa_Sign_Verify.
Qed.

(** The loop of [VerifyQuorumSignature] from an index. *)
Lemma verify_signers_true keys sigs blockID signers (o : nat) :
  verify_signers keys sigs blockID (Z.of_nat o) signers = Ok true ↔
  ∀ (i : nat) signer, signers !! i = Some signer →
    ∃ sig, sigs !! (o + i)%nat = Some sig
      ∧ PubVerify keys sig (IDToByte blockID) signer = Ok true.
Proof.
  revert o. induction signers as [|a signers IH]; intros o; simpl; [naive_solver|].
  replace (Z.of_nat o + 1) with (Z.of_nat (S o)) by lia. split.
  - intros (sig & [_ Hsig]%index_ok & (b & Hv & Hr)%outcome_bind_ok)%outcome_bind_ok.
    rewrite Nat2Z.id in Hsig. destruct b; [|done]. rewrite IH in Hr.
    intros [|i] signer; simpl.
    + intros [= <-]. exists sig. by rewrite Nat.add_0_r.
    + intros Hi. destruct (Hr i signer Hi) as (sig' & Hs' & Hv').
      exists sig'. split; [|done]. by rewrite <- Nat.add_succ_comm.
  - intros Hall. destruct (Hall 0%nat a eq_refl) as (sig & Hsig & Hv).
    rewrite Nat.add_0_r in Hsig. apply outcome_bind_ok. exists sig. split.
    { apply index_ok. rewrite Nat2Z.id. split; [lia|done]. }
    rewrite Hv. simpl. apply IH. intros i signer Hi.
    destruct (Hall (S i) signer Hi) as (sig' & Hs' & Hv').
    exists sig'. split; [|done]. by rewrite Nat.add_succ_comm.
Qed.

(** [VerifyQuorumSignature] accepts exactly when every signer has a
    signature at its index that verifies for that signer.  In particular it
    accepts an empty list of signers; it counts nothing. *)
Theorem VerifyQuorumSignature_true keys sigs blockID signers :
  VerifyQuorumSignature keys sigs blockID signers = Ok true ↔
  ∀ (i : nat) signer, signers !! i = Some signer →
    ∃ sig, sigs !! i = Some sig ∧ PubVerify keys sig (IDToByte blockID) signer = Ok true.
Proof. apply (verify_signers_true keys sigs blockID signers 0). Qed.

(** [C40] The keys of [SetKeys] do not separate the nodes: [StaticRand] leaves
    the buffer of [GenerateKey] at zero for every node, so, for up to a million nodes and
    a key generator that reads at most 4096 bytes, a signature made by
    one node verifies as the signature of every other node. *)
Theorem SetKeys_forgeable (N : nat) keys data (a b : NodeID) sig :
  (key_bytes ≤ 4096)%nat → Z.of_nat N ≤ 1000000 →
  SetKeys "ECDSA_P256" N 0 = Ok (Val keys) →
  PrivSign keys data a = Ok (Val sig) → 1 ≤ Node b ≤ Z.of_nat N →
  PubVerify keys sig data b = Ok true.
Proof.
  intros Hk HN Hset (kp & Hkp & (r & s & Hrs & ->)%Sign_shape)%PrivSign_ok Hb.
  destruct (SetKeys_replicate N 0 keys Hk ltac:(lia) Hset) as [Hlen Hall].
  destruct (key_of_range keys b) as [kb Hkb]; [lia|unfold_ints; lia|].
  apply PubVerify_ok. exists kb, (Itoa r), (Itoa s). split_and!; [done..|]. rewrite !big_int_Itoa.
  destruct (Hall kp (key_of_in _ _ _ Hkp)) as [Ga _].
  destruct (Hall kb (key_of_in _ _ _ Hkb)) as [Gb ->].
  replace kb.1 with kp.1 by congruence. symmetry. by apply ecdsa_Sign_Verify.
Qed.
End key_lemmas.

(** A concrete signature scheme with the laws of [Ecdsa]: the key is the sum of
    the bytes read, and a signature is the pair of the key and the message
    length. *)
Definition sample_ecdsa : Ecdsa :=
  {| PrivateKey := Z; PublicKey := Z; key_bytes := 40;
     ecdsa_GenerateKey := fun bs => Val (foldl Z.add 1 bs);
     ecdsa_Public := fun k => k;
     ecdsa_Sign := fun k m => Val (k, Z.of_nat (length m));
     ecdsa_Verify := fun p m r s =>
       bool_decide (r = p) && bool_decide (s = Z.of_nat (length m));
     unparsed := fun _ => 0;
     ecdsa_Sign_Verify := fun k m r s H =>
       match H in _ = v return
         match v with Val (r, s) => bool_decide (r = k)
           && bool_decide (s = Z.of_nat (length m)) = true | Err _ => True end
       with eq_refl => andb_true_intro (conj (bool_decide_eq_true_2 _ eq_refl)
                                             (bool_decide_eq_true_2 _ eq_refl)) end |}.

(** The key pairs [SetKeys] makes for a network of four nodes. *)
Definition sample_keys : list (Z * Z) := replicate 4 (1, 1).

Lemma SetKeys_forgeable_witness :
  @SetKeys sample_ecdsa "ECDSA_P256" 4 0 = Ok (Val sample_keys)
  ∧ @PrivSign sample_ecdsa sample_keys [1; 2] "1" = Ok (Val ["1"; "2"])
  ∧ @PubVerify sample_ecdsa sample_keys ["1"; "2"] [1; 2] "3" = Ok true.
Proof.
  split; [by vm_compute|]. split; [by vm_compute|].
  apply (@SetKeys_forgeable sample_ecdsa 4 sample_keys [1; 2] "1" "3" ["1"; "2"]);
    [simpl; lia | simpl; lia | by vm_compute ..].
Defined.

Lemma PrivSign_PubVerify_witness :
  @PrivSign sample_ecdsa sample_keys [1; 2] "2" = Ok (Val ["1"; "2"])
  ∧ @PubVerify sample_ecdsa sample_keys ["1"; "2"] [1; 2] "2" = Ok true.
Proof.
  split; [by vm_compute|].
  apply (@PrivSign_PubVerify sample_ecdsa sample_keys).
  - intros kp Hkp. unfold sample_keys in Hkp.
    apply elem_of_replicate in Hkp as [-> _]. reflexivity.
  - by vm_compute.
Defined.
