(* ===== verification/Types.v ===== *)
(** * Messages, votes, certificates and blocks

    [src/message/message.go] (transactions), [src/blockchain/quorum.go] (votes
    and quorum certificates), [src/blockchain/block.go] (blocks),
    [src/blockchain/container.go] (the vertex of a block) and
    [src/pacemaker/model.go] (timeout messages and certificates).

    A Go [*QC] is shared: the same certificate is the replica's [highQC], the
    [QC] of a stored block and an entry of a buffer, and the proposing rules of
    some protocols overwrite its [View].  Certificates therefore live in a
    store, a list indexed by addresses, and a [*QC] is an optional address.
    Blocks, votes and transactions are never written after they are built and
    are modelled by value. *)
From S2P Require Import Prelude Identity Sha1 Db Crypto.

Local Open Scope Z_scope.

(** ** Transactions (message.go, lines 29-36; the reply channel is not data) *)

Record Transaction := MkTransaction {
  tx_Command : Command;
  tx_Properties : gmap string string;
  tx_Timestamp : Z;
  tx_NodeID : NodeID;
  tx_ID : string
}.

#[global] Instance Transaction_eq_dec : EqDecision Transaction.
Proof. solve_decision. Defined.

(** ** Votes and certificates (quorum.go, lines 12-26) *)

Record Vote := MkVote {
  vote_View : Z;
  vote_Voter : NodeID;
  vote_BlockID : Identifier;
  vote_Signature : Signature
}.

Record QC := MkQC {
  qc_Leader : NodeID;
  qc_View : Z;
  qc_BlockID : Identifier;
  qc_Signers : list NodeID;
  qc_AggSig : AggSig;
  qc_Signature : Signature
}.

#[global] Instance Vote_eq_dec : EqDecision Vote.
Proof. solve_decision. Defined.
#[global] Instance QC_eq_dec : EqDecision QC.
Proof. solve_decision. Defined.

(** [&blockchain.QC{View: v}] and [&blockchain.QC{View: v, BlockID: id}] *)
Definition qc_of_view (v : Z) : QC := MkQC "" v 0%N [] [] [].
Definition qc_of (v : Z) (id : Identifier) : QC := MkQC "" v id [] [] [].

(** Assignments to a field of a certificate. *)
Definition qc_with_View (v : Z) (qc : QC) : QC :=
  MkQC (qc_Leader qc) v (qc_BlockID qc) (qc_Signers qc) (qc_AggSig qc) (qc_Signature qc).
Definition qc_with_Leader (l : NodeID) (qc : QC) : QC :=
  MkQC l (qc_View qc) (qc_BlockID qc) (qc_Signers qc) (qc_AggSig qc) (qc_Signature qc).

(** The store of certificates. *)
Abbreviation QCStore := (list QC) (only parsing).
Abbreviation QCptr := nat (only parsing).

Definition qc_alloc (st : QCStore) (qc : QC) : QCStore * QCptr := (st ++ [qc], length st).

(** [*p], a panic on nil. *)
Definition qc_deref (st : QCStore) (p : option QCptr) : outcome QC :=
  of_option NilDereference (p ≫= λ a, st !! a).

Lemma qc_deref_ok st p qc :
  qc_deref st p = Ok qc ↔ ∃ a, p = Some a ∧ st !! a = Some qc.
Proof.
  unfold qc_deref. rewrite of_option_ok. destruct p as [a|]; simpl; naive_solver.
Qed.

(** Allocation does not disturb the certificates already stored. *)
Lemma qc_deref_alloc st qc p qc' :
  qc_deref st p = Ok qc' → qc_deref (st ++ [qc]) p = Ok qc'.
Proof.
  rewrite !qc_deref_ok. intros (a & -> & Ha). exists a. split; [done|].
  rewrite lookup_app_l; [done|]. by eapply lookup_lt_Some.
Qed.

Lemma qc_alloc_new st qc : qc_deref (st ++ [qc]) (Some (length st)) = Ok qc.
Proof. apply qc_deref_ok. exists (length st). split; [done|]. by rewrite list_lookup_middle. Qed.

(** ** Blocks (block.go) *)

(** A [*PartialOrderBatch] of the Phalanx library is a pointer that the program
    passes on: its address. *)
Record Block := MkBlock {
  b_View : Z;
  b_QC : option QCptr;
  b_Proposer : NodeID;
  b_Timestamp : Z;
  b_Payload : list Transaction;
  b_PrevID : Identifier;
  b_Sig : Signature;
  b_ID : Identifier;
  b_PBatch : option N
}.

#[global] Instance Block_eq_dec : EqDecision Block.
Proof. solve_decision. Defined.

(** Lines 26-44: what is hashed into the identifier.  The certificate is
    serialised by value. *)
Record rawBlock := MkRawBlock {
  raw_View : Z;
  raw_QC : option QC;
  raw_Proposer : NodeID;
  raw_Payload : list string;
  raw_PrevID : Identifier;
  raw_Sig : Signature;
  raw_ID : Identifier
}.

Record rawPBlock := MkRawPBlock {
  rawp_View : Z;
  rawp_QC : option QC;
  rawp_Proposer : NodeID;
  rawp_Payload : option N;
  rawp_PrevID : Identifier;
  rawp_Sig : Signature;
  rawp_ID : Identifier
}.

(** The arguments [crypto.MakeID] is called with. *)
Inductive body :=
  | BodyBlock (raw : rawBlock)
  | BodyPBlock (raw : rawPBlock)
  | BodyString (s : string).

(** The cryptographic environment of a replica: the hash and signature
    primitives, the key pairs [SetKeys] has installed, and [json.Marshal] on the
    three kinds of bodies. *)
Class CryptoEnv := {
  env_sha3 :: Sha3;
  env_ecdsa :: Ecdsa;
  env_keys : list (PrivateKey * PublicKey);
  json_Marshal : body → list Z
}.

Section make.
Context `{CryptoEnv}.

(** id.go, lines 10-15. *)
Definition MakeID (b : body) : Identifier :=
  let data := json_Marshal b in
  let hasher := NewSHA3 SHA3_256 in
  HashToID (ComputeHash hasher data).2.

(** The signature of an identifier; [makeID] and [makePID] drop the error. *)
Definition sign_id (id : Identifier) (nodeID : NodeID) : outcome Signature :=
  r ← PrivSign env_keys (IDToByte id) nodeID;
  mret (match r with Val sig => sig | Err _ => [] end).

(** Lines 70-85. *)
Definition makeID (st : QCStore) (b : Block) (nodeID : NodeID) : outcome Block :=
  let raw := MkRawBlock (b_View b) (b_QC b ≫= λ a, st !! a) (b_Proposer b)
               (tx_ID <$> b_Payload b) (b_PrevID b) [] 0%N in
  let ID := MakeID (BodyBlock raw) in
  sig ← sign_id ID nodeID;
  mret (MkBlock (b_View b) (b_QC b) (b_Proposer b) (b_Timestamp b) (b_Payload b)
          (b_PrevID b) sig ID (b_PBatch b)).

(** Lines 47-56. *)
Definition MakeBlock (st : QCStore) (view : Z) (qc : option QCptr) (prevID : Identifier)
    (payload : list Transaction) (proposer : NodeID) : outcome Block :=
  makeID st (MkBlock view qc proposer 0 payload prevID [] 0%N None) proposer.

(** Lines 87-98. *)
Definition makePID (st : QCStore) (b : Block) (nodeID : NodeID) : outcome Block :=
  let raw := MkRawPBlock (b_View b) (b_QC b ≫= λ a, st !! a) (b_Proposer b)
               (b_PBatch b) (b_PrevID b) [] 0%N in
  let ID := MakeID (BodyPBlock raw) in
  sig ← sign_id ID nodeID;
  mret (MkBlock (b_View b) (b_QC b) (b_Proposer b) (b_Timestamp b) (b_Payload b)
          (b_PrevID b) sig ID (b_PBatch b)).

(** Lines 59-68. *)
Definition MakePBlock (st : QCStore) (view : Z) (qc : option QCptr) (prevID : Identifier)
    (pBatch : option N) (proposer : NodeID) : outcome Block :=
  makePID st (MkBlock view qc proposer 0 [] prevID [] 0%N pBatch) proposer.

(** quorum.go, lines 33-46: an error of the signature is fatal. *)
Definition MakeVote (view : Z) (voter : NodeID) (id : Identifier) : outcome Vote :=
  r ← PrivSign env_keys (IDToByte id) voter;
  match r with
  | Val sig => mret (MkVote view voter id sig)
  | Err _ => Fault FatalExit
  end.
End make.

(** ** Vertices (container.go): the block of a [BlockContainer] *)

Definition VertexID (v : Block) : Identifier := b_ID v.
Definition Level (v : Block) : Z := uint64 (b_View v).
Definition Parent (st : QCStore) (v : Block) : outcome (Identifier * Z) :=
  qc ← qc_deref st (b_QC v);
  mret (b_PrevID v, uint64 (qc_View qc)).
Definition GetBlock (v : Block) : Block := v.

Lemma Parent_ok st v id l :
  Parent st v = Ok (id, l) ↔
  ∃ qc, qc_deref st (b_QC v) = Ok qc ∧ id = b_PrevID v ∧ l = uint64 (qc_View qc).
Proof.
  unfold Parent. rewrite outcome_bind_ok. split.
  - intros (qc & Hqc & Heq). injection Heq as <- <-. eauto.
  - intros (qc & Hqc & -> & ->). eauto.
Qed.

(** ** Timeouts (pacemaker/model.go) *)

Record TMO := MkTMO { tmo_View : Z; tmo_NodeID : NodeID; tmo_HighQC : option QCptr }.
Record TC := MkTC { tc_View : Z; tc_AggSig : AggSig; tc_Signature : Signature }.

#[global] Instance TMO_eq_dec : EqDecision TMO.
Proof. solve_decision. Defined.

(** Lines 22-25: no signature is put into the certificate. *)
Definition NewTC (view : Z) (requesters : gmap NodeID TMO) : TC := MkTC view [] [].

(** ** What a made block and a made vote are *)

Section make_lemmas.
Context `{CryptoEnv}.

Lemma MakeVote_ok view voter id v :
  MakeVote view voter id = Ok v →
  vote_View v = view ∧ vote_Voter v = voter ∧ vote_BlockID v = id
  ∧ PrivSign env_keys (IDToByte id) voter = Ok (Val (vote_Signature v)).
Proof.
  unfold MakeVote. intros ([sig|e] & Hs & Hv)%outcome_bind_ok; [|done].
  injection Hv as <-. done.
Qed.

Lemma MakeBlock_ok st view qc prevID payload proposer b :
  MakeBlock st view qc prevID payload proposer = Ok b →
  b_View b = view ∧ b_QC b = qc ∧ b_PrevID b = prevID ∧ b_Payload b = payload
  ∧ b_Proposer b = proposer ∧ b_PBatch b = None
  ∧ b_ID b = MakeID (BodyBlock (MkRawBlock view (qc ≫= λ a, st !! a) proposer
                                 (tx_ID <$> payload) prevID [] 0%N))
  ∧ sign_id (b_ID b) proposer = Ok (b_Sig b).
Proof. intros (sig & Hs & [=<-])%outcome_bind_ok. done. Qed.

Lemma MakePBlock_ok st view qc prevID pBatch proposer b :
  MakePBlock st view qc prevID pBatch proposer = Ok b →
  b_View b = view ∧ b_QC b = qc ∧ b_PrevID b = prevID ∧ b_Payload b = []
  ∧ b_Proposer b = proposer ∧ b_PBatch b = pBatch
  ∧ sign_id (b_ID b) proposer = Ok (b_Sig b).
Proof. intros (sig & Hs & [=<-])%outcome_bind_ok. done. Qed.
End make_lemmas.

(** A concrete cryptographic environment for four nodes, on which the handlers
    can be run: bodies are serialised to their view and proposer. *)
Definition sample_marshal (b : body) : list Z :=
  match b with
  | BodyBlock raw => [raw_View raw; Node (raw_Proposer raw)]
  | BodyPBlock raw => [rawp_View raw; Node (rawp_Proposer raw); 1]
  | BodyString s => bytes_of_string s
  end.

Definition sample_crypto : CryptoEnv :=
  {| env_sha3 := sample_sha3; env_ecdsa := sample_ecdsa;
     env_keys := sample_keys; json_Marshal := sample_marshal |}.
