(* ===== verification/Quorum.v ===== *)
(** * Vote collection ([src/blockchain/quorum.go])

    [Quorum.Add] collects votes per block and voter and builds a certificate
    when more than two thirds of the nodes have voted.  The theorems say when a
    certificate is built, what it contains, that it verifies, and that two
    certificates share an honest signer. *)
From S2P Require Import Prelude Identity Sha1 Db Crypto Types.

Local Open Scope Z_scope.

(** ** The code *)

Record Quorum := MkQuorum {
  total : Z;
  votes : gmap Identifier (gmap NodeID Vote)
}.

Definition NewQuorum (total : Z) : Quorum := MkQuorum total ∅.

(** The votes of a block: Go reads a missing key as a nil map. *)
Definition votes_of (q : Quorum) (blockID : Identifier) : gmap NodeID Vote :=
  default ∅ (votes q !! blockID).

(** Lines 88-90 and 83-85: [int] division truncates. *)
Definition size (q : Quorum) (blockID : Identifier) : Z :=
  Z.of_nat (base.size (votes_of q blockID)).

Definition threshold (total : Z) : Z := Z.quot (int64 (total * 2)) 3.

Definition superMajority (q : Quorum) (blockID : Identifier) : bool :=
  bool_decide (threshold (total q) < size q blockID).

Section quorum.
Context `{GoRange}.

(** Lines 92-105: the signatures and the signers in one iteration order. *)
Definition getSigs (q : Quorum) (blockID : Identifier) : result (AggSig * list NodeID) :=
  match votes q !! blockID with
  | None => Err "sigs does not exist"
  | Some m => let l := range m in
              Val ((λ kv, vote_Signature kv.2) <$> l, (λ kv, vote_Voter kv.2) <$> l)
  end.

(** Lines 56-80.  The error of [getSigs] is only logged. *)
Definition Add (q : Quorum) (vote : Vote) : Quorum * (bool * option QC) :=
  if superMajority q (vote_BlockID vote) then (q, (false, None))
  else
    let m := <[vote_Voter vote := vote]> (votes_of q (vote_BlockID vote)) in
    let q := MkQuorum (total q) (<[vote_BlockID vote := m]> (votes q)) in
    if superMajority q (vote_BlockID vote) then
      let '(aggSig, signers) :=
        match getSigs q (vote_BlockID vote) with Val p => p | Err _ => ([], []) end in
      (q, (true, Some (MkQC "" (vote_View vote) (vote_BlockID vote) signers aggSig [])))
    else (q, (false, None)).

(** Votes added one after the other. *)
Definition add_votes (q : Quorum) (vs : list Vote) : Quorum :=
  foldl (λ q v, (Add q v).1) q vs.
End quorum.

(** ** What is stored *)

(** Every stored vote is filed under its block and its voter. *)
Definition filed (q : Quorum) : Prop :=
  ∀ id voter v, votes_of q id !! voter = Some v → vote_BlockID v = id ∧ vote_Voter v = voter.

(** The voters for a block in a sequence of votes. *)
Definition voters (id : Identifier) (vs : list Vote) : gset NodeID :=
  list_to_set (vote_Voter <$> filter (λ v, vote_BlockID v = id) vs).

Lemma voters_snoc id vs v :
  voters id (vs ++ [v]) = if decide (vote_BlockID v = id) then {[vote_Voter v]} ∪ voters id vs
                          else voters id vs.
Proof.
  unfold voters. rewrite filter_app, fmap_app, list_to_set_app_L.
  rewrite filter_cons, filter_nil. case_decide; simpl; set_solver.
Qed.

(** A further voter adds at most one. *)
Lemma size_add_voter (x : NodeID) (X : gset NodeID) :
  (base.size X ≤ base.size ({[x]} ∪ X) ≤ S (base.size X))%nat.
Proof.
  split; [apply subseteq_size; set_solver|].
  pose proof (size_union_alt {[x]} X) as Hs. rewrite size_singleton in Hs.
  assert (base.size (X ∖ {[x]}) ≤ base.size X)%nat by (apply subseteq_size; set_solver). lia.
Qed.

Lemma size_dom (q : Quorum) id : size q id = Z.of_nat (base.size (dom (votes_of q id))).
Proof. unfold size. by rewrite size_dom. Qed.

Section add.
Context `{GoRange}.

Lemma votes_of_insert t (vv : gmap Identifier (gmap NodeID Vote)) id m id' :
  votes_of (MkQuorum t (<[id := m]> vv)) id' =
  if decide (id = id') then m else votes_of (MkQuorum t vv) id'.
Proof.
  unfold votes_of. simpl. destruct (decide (id = id')) as [->|].
  - by rewrite lookup_insert_eq.
  - by rewrite lookup_insert_ne.
Qed.

(** The two ways through [Add]. *)
Lemma Add_full q v : superMajority q (vote_BlockID v) = true → Add q v = (q, (false, None)).
Proof. unfold Add. by intros ->. Qed.

Definition stored (q : Quorum) (v : Vote) : Quorum :=
  MkQuorum (total q) (<[vote_BlockID v := <[vote_Voter v := v]> (votes_of q (vote_BlockID v))]>
                        (votes q)).

Lemma Add_stores q v :
  superMajority q (vote_BlockID v) = false →
  (Add q v).1 = stored q v ∧
  (Add q v).2 = if superMajority (stored q v) (vote_BlockID v) then
    let l := range (<[vote_Voter v := v]> (votes_of q (vote_BlockID v))) in
    (true, Some (MkQC "" (vote_View v) (vote_BlockID v)
      ((λ kv, vote_Voter kv.2) <$> l) ((λ kv, vote_Signature kv.2) <$> l) []))
    else (false, None).
Proof.
  intros Hsm. unfold Add. rewrite Hsm. fold (stored q v).
  destruct (superMajority (stored q v) (vote_BlockID v)) eqn:E; [|done].
  unfold getSigs. simpl. by rewrite lookup_insert_eq.
Qed.

Lemma votes_of_stored q v id :
  votes_of (stored q v) id =
  if decide (vote_BlockID v = id) then <[vote_Voter v := v]> (votes_of q (vote_BlockID v))
  else votes_of q id.
Proof.
  unfold stored. rewrite votes_of_insert. case_decide; [done|]. done.
Qed.

Lemma filed_stored q v : filed q → filed (stored q v).
Proof.
  intros Hf id voter w. rewrite votes_of_stored. case_decide as Hid; [|apply Hf].
  destruct (decide (vote_Voter v = voter)) as [<-|Hne].
  - rewrite lookup_insert_eq. intros [= <-]. done.
  - rewrite lookup_insert_ne by done. intros Hw. subst id. by apply Hf.
Qed.

Lemma total_Add q v : total (Add q v).1 = total q.
Proof.
  destruct (superMajority q (vote_BlockID v)) eqn:E.
  - by rewrite Add_full.
  - by destruct (Add_stores q v E) as [-> _].
Qed.

Lemma filed_Add q v : filed q → filed (Add q v).1.
Proof.
  intros Hf. destruct (superMajority q (vote_BlockID v)) eqn:E.
  - by rewrite Add_full.
  - destruct (Add_stores q v E) as [-> _]. by apply filed_stored.
Qed.

(** [add_votes] by its last vote, and the induction it gives. *)
Lemma add_votes_snoc q vs v : add_votes q (vs ++ [v]) = (Add (add_votes q vs) v).1.
Proof. unfold add_votes. by rewrite foldl_app. Qed.

Lemma add_votes_ind (P : Quorum → list Vote → Prop) t :
  P (NewQuorum t) [] →
  (∀ vs v, P (add_votes (NewQuorum t) vs) vs →
           P (Add (add_votes (NewQuorum t) vs) v).1 (vs ++ [v])) →
  ∀ vs, P (add_votes (NewQuorum t) vs) vs.
Proof.
  intros H0 HS vs. induction vs as [|v vs IH] using rev_ind; [done|].
  rewrite add_votes_snoc. by apply HS.
Qed.

Lemma total_add_votes t vs : total (add_votes (NewQuorum t) vs) = t.
Proof. apply (add_votes_ind (λ q _, total q = t)); [done|]. intros ? v. by rewrite total_Add. Qed.

Lemma filed_add_votes t vs : filed (add_votes (NewQuorum t) vs).
Proof. apply (add_votes_ind (λ q _, filed q)); [done|]. intros ? v. apply filed_Add. Qed.

(** Every stored vote is one of the votes added. *)
Lemma stored_in t vs id voter v :
  votes_of (add_votes (NewQuorum t) vs) id !! voter = Some v → v ∈ vs.
Proof.
  revert id voter v. apply (add_votes_ind (λ q vs, ∀ id voter v,
    votes_of q id !! voter = Some v → v ∈ vs)); [done|].
  intros vs' w IH id voter v.
  destruct (superMajority (add_votes (NewQuorum t) vs') (vote_BlockID w)) eqn:E.
  - rewrite Add_full by done. simpl. intros Hv. apply elem_of_app. left. by eapply IH.
  - destruct (Add_stores _ w E) as [-> _]. rewrite votes_of_stored.
    case_decide; [|intros Hv; apply elem_of_app; left; by eapply IH].
    rewrite lookup_insert. case_decide; [intros [= <-]; set_solver|].
    intros Hv. apply elem_of_app. left. by eapply IH.
Qed.

(** The voters recorded for a block: all of them until the certificate is
    built, and one more than the threshold afterwards. *)
Definition recorded (t : Z) (id : Identifier) (q : Quorum) (vs : list Vote) : Prop :=
  (Z.of_nat (base.size (voters id vs)) ≤ threshold t → dom (votes_of q id) = voters id vs)
  ∧ (threshold t < Z.of_nat (base.size (voters id vs)) → size q id = threshold t + 1).

(** The test of [superMajority] read off the votes added so far. *)
Lemma recorded_superMajority t id q vs :
  total q = t → recorded t id q vs →
  superMajority q id = bool_decide (threshold t < Z.of_nat (base.size (voters id vs))).
Proof.
  intros Hq [H1 H2]. unfold superMajority. rewrite Hq. apply bool_decide_ext.
  destruct (decide (threshold t < Z.of_nat (base.size (voters id vs)))) as [Hgt|Hle].
  - rewrite H2 by done. lia.
  - rewrite size_dom, H1 by lia. done.
Qed.

Lemma recorded_Add t id q vs v :
  total q = t → recorded t (vote_BlockID v) q vs → recorded t id q vs →
  recorded t id (Add q v).1 (vs ++ [v]).
Proof.
  intros Hq Hrv Hr. pose proof (recorded_superMajority _ _ _ _ Hq Hrv) as Hsm.
  unfold recorded. rewrite voters_snoc. destruct (decide (vote_BlockID v = id)) as [<-|Hid].
  - pose proof (size_add_voter (vote_Voter v) (voters (vote_BlockID v) vs)) as Hone.
    case_bool_decide as Hgt.
    + rewrite Add_full by done. simpl. split; [lia|]. intros _. by apply Hrv.
    + destruct (Add_stores q v Hsm) as [-> _].
      assert (dom (votes_of (stored q v) (vote_BlockID v))
              = {[vote_Voter v]} ∪ voters (vote_BlockID v) vs) as Hdom.
      { rewrite votes_of_stored, decide_True, dom_insert_L by done.
        by rewrite (proj1 Hrv) by lia. }
      split; [done|]. intros Hgt'. rewrite size_dom, Hdom. lia.
  - assert (votes_of (Add q v).1 id = votes_of q id) as Hsame.
    { destruct (superMajority q (vote_BlockID v)) eqn:E; [by rewrite Add_full|].
      destruct (Add_stores q v E) as [-> _]. by rewrite votes_of_stored, decide_False. }
    unfold size. rewrite Hsame. exact Hr.
Qed.

Lemma recorded_add_votes t id vs :
  0 ≤ threshold t → recorded t id (add_votes (NewQuorum t) vs) vs.
Proof.
  intros Ht. revert id.
  apply (add_votes_ind (λ q vs, ∀ id, recorded t id q vs)).
  - intros id. split; [intros _; unfold votes_of; simpl; rewrite lookup_empty; apply dom_empty_L|].
    change (voters id []) with (∅ : gset NodeID). rewrite size_empty. lia.
  - intros vs' v IH id. apply recorded_Add; [apply total_add_votes|apply IH..].
Qed.
End add.

(** ** The certificate *)

Lemma threshold_small n : 0 ≤ n ≤ 4611686018427387903 → threshold n = n * 2 / 3.
Proof.
  intros Hn. unfold threshold. rewrite int64_id by (unfold_ints; lia).
  apply Z.quot_div_nonneg; lia.
Qed.

Lemma list_to_set_voters (m : gmap NodeID Vote) `{GoRange} :
  (∀ k v, m !! k = Some v → vote_Voter v = k) →
  (λ kv : NodeID * Vote, vote_Voter kv.2) <$> range m = (range m).*1.
Proof.
  intros Hm. apply list_fmap_ext. intros i [k v] Hi. simpl.
  apply Hm, elem_of_range, list_elem_of_lookup. eauto.
Qed.

(** Two sets of more than two thirds of the nodes meet outside any set of fewer
    than a third. *)
Lemma quorums_share_honest (nodes byz S1 S2 : gset NodeID) :
  S1 ⊆ nodes → S2 ⊆ nodes → 3 * Z.of_nat (base.size byz) < Z.of_nat (base.size nodes) →
  Z.of_nat (base.size nodes) * 2 / 3 < Z.of_nat (base.size S1) →
  Z.of_nat (base.size nodes) * 2 / 3 < Z.of_nat (base.size S2) →
  ∃ h, h ∈ nodes ∧ (h ∉ byz) ∧ h ∈ S1 ∧ h ∈ S2.
Proof.
  intros H1 H2 Hb Hs1 Hs2.
  assert (base.size (S1 ∪ S2) ≤ base.size nodes)%nat as Hu by (apply subseteq_size; set_solver).
  pose proof (size_union_alt S1 S2) as HU.
  assert (base.size S2 = base.size (S2 ∩ S1) + base.size (S2 ∖ S1))%nat as HD.
  { rewrite <- size_union by set_solver. f_equal. apply set_eq. intros x.
    destruct (decide (x ∈ S1)); set_solver. }
  destruct (decide (S2 ∩ S1 ⊆ byz)) as [Hsub|Hns].
  { apply subseteq_size in Hsub.
    pose proof (Z.div_mod (Z.of_nat (base.size nodes) * 2) 3 ltac:(lia)).
    pose proof (Z.mod_pos_bound (Z.of_nat (base.size nodes) * 2) 3 ltac:(lia)). lia. }
  destruct (set_choose_L ((S2 ∩ S1) ∖ byz)) as [h Hh].
  { intros He. apply Hns. intros x Hx. destruct (decide (x ∈ byz)); [done|].
    assert (x ∈ (∅ : gset NodeID)); [|set_solver]. rewrite <- He. set_solver. }
  exists h. set_solver.
Qed.

Section certificate.
Context `{GoRange}.

Lemma Add_qc_inv q v qc :
  (Add q v).2 = (true, Some qc) →
  superMajority q (vote_BlockID v) = false
  ∧ superMajority (stored q v) (vote_BlockID v) = true
  ∧ (Add q v).1 = stored q v
  ∧ let l := range (votes_of (stored q v) (vote_BlockID v)) in
    qc = MkQC "" (vote_View v) (vote_BlockID v)
           ((λ kv, vote_Voter kv.2) <$> l) ((λ kv, vote_Signature kv.2) <$> l) [].
Proof.
  intros Hadd. destruct (superMajority q (vote_BlockID v)) eqn:E.
  { by rewrite Add_full in Hadd. }
  destruct (Add_stores q v E) as [E1 E2]. rewrite E2 in Hadd.
  destruct (superMajority (stored q v) (vote_BlockID v)) eqn:E3; [|done].
  injection Hadd as <-. split_and!; [done..|].
  by rewrite votes_of_stored, decide_True.
Qed.

(** [Add] builds a certificate exactly when the vote takes the number of
    distinct voters for its block over two thirds of the nodes: not before, and
    never a second time, whatever votes are repeated or arrive late. *)
Theorem Add_builds_at_threshold t vs v :
  0 ≤ threshold t →
  (∃ qc, (Add (add_votes (NewQuorum t) vs) v).2 = (true, Some qc)) ↔
  Z.of_nat (base.size (voters (vote_BlockID v) vs)) ≤ threshold t
    < Z.of_nat (base.size (voters (vote_BlockID v) (vs ++ [v]))).
Proof.
  intros Ht. set (q := add_votes (NewQuorum t) vs).
  assert (total q = t) as Hq by apply total_add_votes.
  pose proof (recorded_add_votes t (vote_BlockID v) vs Ht) as Hr. fold q in Hr.
  pose proof (recorded_superMajority _ _ _ _ Hq Hr) as H1.
  pose proof (recorded_Add t _ q vs v Hq Hr Hr) as Hr'.
  destruct (superMajority q (vote_BlockID v)) eqn:E.
  - rewrite Add_full by done. symmetry in H1. apply bool_decide_eq_true in H1.
    split; [intros (? & ?); done|lia].
  - destruct (Add_stores q v E) as [E1 E2]. rewrite E1 in Hr'. rewrite E2.
    pose proof (recorded_superMajority t _ (stored q v) _ Hq Hr') as H2. rewrite H2.
    symmetry in H1. apply bool_decide_eq_false in H1.
    case_bool_decide as Hgt; split; [intros _; lia|by eauto|intros (? & ?); done|lia].
Qed.

(** What a certificate contains. *)
Lemma certificate_spec t vs v qc :
  0 ≤ threshold t →
  (Add (add_votes (NewQuorum t) vs) v).2 = (true, Some qc) →
  qc_BlockID qc = vote_BlockID v ∧ NoDup (qc_Signers qc)
  ∧ Z.of_nat (length (qc_Signers qc)) = threshold t + 1
  ∧ vote_Voter v ∈ qc_Signers qc
  ∧ length (qc_AggSig qc) = length (qc_Signers qc)
  ∧ ∀ (i : nat) s, qc_Signers qc !! i = Some s →
      ∃ w, w ∈ vs ++ [v] ∧ vote_Voter w = s ∧ vote_BlockID w = vote_BlockID v
        ∧ qc_AggSig qc !! i = Some (vote_Signature w).
Proof.
  intros Ht Hadd. set (q := add_votes (NewQuorum t) vs) in *.
  destruct (Add_qc_inv q v qc Hadd) as (H1 & H2 & H3 & ->).
  assert (stored q v = add_votes (NewQuorum t) (vs ++ [v])) as Hst
    by (rewrite add_votes_snoc; done).
  set (m := votes_of (stored q v) (vote_BlockID v)).
  assert (∀ k w, m !! k = Some w → vote_BlockID w = vote_BlockID v ∧ vote_Voter w = k) as Hf.
  { intros k w. subst m. rewrite Hst. apply filed_add_votes. }
  simpl. rewrite list_to_set_voters by (intros k w Hw; by apply Hf).
  assert (m !! vote_Voter v = Some v) as Hv.
  { subst m. rewrite votes_of_stored, decide_True by done. apply lookup_insert_eq. }
  split_and!; [done|apply NoDup_fst_range| | | |].
  - rewrite length_fmap, length_range. change (size (stored q v) (vote_BlockID v) = threshold t + 1).
    rewrite Hst. apply recorded_add_votes; [done|].
    pose proof (recorded_add_votes t (vote_BlockID v) (vs ++ [v]) Ht) as Hr.
    rewrite Hst in H2.
    rewrite (recorded_superMajority t _ _ _ (total_add_votes _ _) Hr) in H2.
    by apply bool_decide_eq_true in H2.
  - apply list_elem_of_fmap. exists (vote_Voter v, v). split; [done|]. by apply elem_of_range.
  - by rewrite !length_fmap.
  - intros i s Hs. apply list_lookup_fmap_Some in Hs as ([k w] & -> & Hi). simpl in *.
    assert (m !! k = Some w) as Hw by (apply elem_of_range, list_elem_of_lookup; eauto).
    exists w. destruct (Hf k w Hw) as [Hb Hk]. split_and!; [|done|done|].
    + subst m. rewrite Hst in Hw. by eapply stored_in.
    + by rewrite list_lookup_fmap, Hi.
Qed.
(** A certificate lists more than two thirds of the nodes, each once, the
    last voter among them; it names the block voted for and carries, at each
    signer's index, the signature of a vote that signer cast for the block. *)
Theorem Add_certificate t vs v qc :
  0 ≤ threshold t →
  (Add (add_votes (NewQuorum t) vs) v).2 = (true, Some qc) →
  qc_BlockID qc = vote_BlockID v ∧ NoDup (qc_Signers qc)
  ∧ Z.of_nat (length (qc_Signers qc)) = threshold t + 1
  ∧ vote_Voter v ∈ qc_Signers qc
  ∧ length (qc_AggSig qc) = length (qc_Signers qc)
  ∧ ∀ (i : nat) s, qc_Signers qc !! i = Some s →
      ∃ w, w ∈ vs ++ [v] ∧ vote_Voter w = s ∧ vote_BlockID w = vote_BlockID v
        ∧ qc_AggSig qc !! i = Some (vote_Signature w).
Proof. apply certificate_spec. Qed.

(** [C19]: A certificate built from votes whose signatures verify is accepted by
    [VerifyQuorumSignature]. *)
Theorem Add_certificate_verifies `{CryptoEnv} t vs v qc :
  0 ≤ threshold t →
  (Add (add_votes (NewQuorum t) vs) v).2 = (true, Some qc) →
  (∀ w, w ∈ vs ++ [v] →
    PubVerify env_keys (vote_Signature w) (IDToByte (vote_BlockID w)) (vote_Voter w) = Ok true) →
  VerifyQuorumSignature env_keys (qc_AggSig qc) (qc_BlockID qc) (qc_Signers qc) = Ok true.
Proof.
  intros Ht Hadd Hall.
  destruct (certificate_spec t vs v qc Ht Hadd) as (Hid & _ & _ & _ & _ & Hsig).
  apply (verify_signers_true env_keys _ _ _ 0). intros i s Hs.
  destruct (Hsig i s Hs) as (w & Hw & <- & Hb & Ha).
  exists (vote_Signature w). split; [done|]. rewrite Hid, <- Hb. by apply Hall.
Qed.

(** [C4]: Quorum intersection.  With fewer than a third of the [n] nodes
    Byzantine, two certificates built from votes of these nodes have an honest
    voter in common: it cast a vote for the block of each. *)
Theorem certificates_share_honest_voter (nodes byz : gset NodeID) n vs1 v1 qc1 vs2 v2 qc2 :
  Z.of_nat (base.size nodes) = n → n ≤ 4611686018427387903 →
  3 * Z.of_nat (base.size byz) < n →
  (∀ w, w ∈ (vs1 ++ [v1]) ++ vs2 ++ [v2] → vote_Voter w ∈ nodes) →
  (Add (add_votes (NewQuorum n) vs1) v1).2 = (true, Some qc1) →
  (Add (add_votes (NewQuorum n) vs2) v2).2 = (true, Some qc2) →
  ∃ h w1 w2, h ∈ nodes ∧ (h ∉ byz)
    ∧ w1 ∈ vs1 ++ [v1] ∧ vote_Voter w1 = h ∧ vote_BlockID w1 = qc_BlockID qc1
    ∧ w2 ∈ vs2 ++ [v2] ∧ vote_Voter w2 = h ∧ vote_BlockID w2 = qc_BlockID qc2.
Proof.
  intros Hn Hmax Hbyz Hin H1 H2.
  assert (0 ≤ threshold n) as Ht
    by (rewrite threshold_small by lia; apply Z.div_pos; lia).
  destruct (certificate_spec n vs1 v1 qc1 Ht H1) as (I1 & D1 & L1 & _ & _ & S1).
  destruct (certificate_spec n vs2 v2 qc2 Ht H2) as (I2 & D2 & L2 & _ & _ & S2).
  rewrite threshold_small in L1, L2 by lia.
  destruct (quorums_share_honest nodes byz (list_to_set (qc_Signers qc1))
              (list_to_set (qc_Signers qc2))) as (h & Hh & Hb & [i Hi]%elem_of_list_to_set%list_elem_of_lookup
        & [j Hj]%elem_of_list_to_set%list_elem_of_lookup).
  - intros h [i Hi]%elem_of_list_to_set%list_elem_of_lookup.
    destruct (S1 i h Hi) as (w & Hw & <- & _). apply Hin. set_solver.
  - intros h [i Hi]%elem_of_list_to_set%list_elem_of_lookup.
    destruct (S2 i h Hi) as (w & Hw & <- & _). apply Hin. set_solver.
  - lia.
  - rewrite size_list_to_set, Hn by done. lia.
  - rewrite size_list_to_set, Hn by done. lia.
  - destruct (S1 i h Hi) as (w1 & ? & ? & ? & _), (S2 j h Hj) as (w2 & ? & ? & ? & _).
    exists h, w1, w2. split_and!; congruence.
Qed.
End certificate.

(** ** A run: four nodes, three votes for block 7 *)

Definition sample_vote (n : Z) : Vote := MkVote 5 (NewNodeID n) 7%N ["1"; "32"].
Definition sample_votes : list Vote := [sample_vote 1; sample_vote 2; sample_vote 2].
Definition sample_qc : QC :=
  default (qc_of_view 0)
    ((@Add canonical_range (@add_votes canonical_range (NewQuorum 4) sample_votes)
        (sample_vote 3)).2).2.

Lemma sample_built :
  (@Add canonical_range (@add_votes canonical_range (NewQuorum 4) sample_votes)
     (sample_vote 3)).2 = (true, Some sample_qc).
Proof. vm_compute. reflexivity. Defined.

Lemma Add_builds_at_threshold_witness :
  0 ≤ threshold 4
  ∧ Z.of_nat (base.size (voters 7%N sample_votes)) ≤ threshold 4
      < Z.of_nat (base.size (voters 7%N (sample_votes ++ [sample_vote 3]))).
Proof.
  split; [by vm_compute|].
  apply (@Add_builds_at_threshold canonical_range 4 sample_votes (sample_vote 3)).
  - by vm_compute.
  - exists sample_qc. apply sample_built.
Defined.

Lemma Add_certificate_witness :
  0 ≤ threshold 4 ∧ NoDup (qc_Signers sample_qc)
  ∧ Z.of_nat (length (qc_Signers sample_qc)) = 3.
Proof.
  assert (0 ≤ threshold 4) as Ht by (by vm_compute).
  destruct (@Add_certificate canonical_range 4 sample_votes (sample_vote 3) sample_qc
              Ht sample_built) as (_ & H1 & H2 & _).
  split; [exact Ht|]. split; [exact H1|exact H2].
Defined.

Lemma Add_certificate_verifies_witness :
  VerifyQuorumSignature (H := @env_ecdsa sample_crypto) (@env_keys sample_crypto)
    (qc_AggSig sample_qc) (qc_BlockID sample_qc) (qc_Signers sample_qc) = Ok true.
Proof.
  apply (@Add_certificate_verifies canonical_range sample_crypto 4 sample_votes
           (sample_vote 3) sample_qc).
  - by vm_compute.
  - apply sample_built.
  - intros w Hw. repeat (apply elem_of_cons in Hw as [->|Hw]; [by vm_compute|]).
    by apply elem_of_nil in Hw.
Defined.

Definition sample_nodes : gset NodeID := list_to_set ["1"; "2"; "3"; "4"].

(** A second certificate, for block 8, from the votes of nodes 2, 3 and 4. *)
Definition sample_vote' (n : Z) : Vote := MkVote 5 (NewNodeID n) 8%N ["1"; "32"].
Definition sample_qc' : QC :=
  default (qc_of_view 0)
    ((@Add canonical_range
        (@add_votes canonical_range (NewQuorum 4) [sample_vote' 2; sample_vote' 3])
        (sample_vote' 4)).2).2.

Lemma certificates_share_honest_voter_witness :
  (@Add canonical_range
     (@add_votes canonical_range (NewQuorum 4) [sample_vote' 2; sample_vote' 3])
     (sample_vote' 4)).2 = (true, Some sample_qc')
  ∧ ∃ h w1 w2, h ∈ sample_nodes ∧ (h ∉ ({["3"]} : gset NodeID))
      ∧ w1 ∈ sample_votes ++ [sample_vote 3] ∧ vote_Voter w1 = h ∧ vote_BlockID w1 = 7%N
      ∧ w2 ∈ [sample_vote' 2; sample_vote' 3; sample_vote' 4]
      ∧ vote_Voter w2 = h ∧ vote_BlockID w2 = 8%N.
Proof.
  split; [vm_compute; reflexivity|].
  apply (@certificates_share_honest_voter canonical_range sample_nodes {["3"]} 4
           sample_votes (sample_vote 3) sample_qc
           [sample_vote' 2; sample_vote' 3] (sample_vote' 4) sample_qc').
  - by vm_compute.
  - by vm_compute.
  - by vm_compute.
  - intros w Hw. unfold sample_nodes.
    repeat (apply elem_of_cons in Hw as [->|Hw];
            [apply elem_of_list_to_set; vm_compute; set_solver|]).
    by apply elem_of_nil in Hw.
  - apply sample_built.
  - vm_compute. reflexivity.
Defined.
