(* ===== verification/Forest.v ===== *)
(** * The block forest ([src/blockchain/leveled_forrest.go], [vertex.go])

    A [LevelledForest] keeps vertex containers reachable in three ways: by
    identifier, by level, and as children of other containers.  Containers are
    shared Go objects that are filled after they are linked, so they live in a
    heap, a list indexed by addresses; the maps and the child lists hold
    addresses.

    The first half is the code; the second half is the invariant of the forest,
    its preservation, and what each operation does to the map from identifiers
    to blocks that the forest represents. *)
From S2P Require Import Prelude Identity Sha1 Db Crypto Types.

Local Open Scope Z_scope.

Abbreviation ptr := nat (only parsing).

(** ** Data (lines 17-40) *)

Record vertexContainer := MkContainer {
  vc_id : Identifier;
  vc_level : Z;
  vc_children : list ptr;
  vc_vertex : option Block
}.

Record LevelledForest := MkForest {
  containers : list vertexContainer;
  vertices : gmap Identifier ptr;
  verticesAtLevel : gmap Z (list ptr);
  LowestLevel : Z
}.

Definition NewLevelledForest : LevelledForest := MkForest [] ∅ ∅ 0.

(** [f.verticesAtLevel[l]]: a nil slice for a missing level. *)
Definition at_level (f : LevelledForest) (l : Z) : list ptr :=
  default [] (verticesAtLevel f !! l).

Definition container (f : LevelledForest) (p : ptr) : outcome vertexContainer :=
  of_option NilDereference (containers f !! p).

(** Assignments through a container pointer. *)
Definition upd_container (g : vertexContainer → vertexContainer) (p : ptr) (f : LevelledForest)
  : LevelledForest :=
  MkForest (alter g p (containers f)) (vertices f) (verticesAtLevel f) (LowestLevel f).

Definition set_vertex (v : Block) (c : vertexContainer) : vertexContainer :=
  MkContainer (vc_id c) (vc_level c) (vc_children c) (Some v).
Definition add_child (p : ptr) (c : vertexContainer) : vertexContainer :=
  MkContainer (vc_id c) (vc_level c) (vc_children c ++ [p]) (vc_vertex c).

(** ** Lookup (lines 89-108) *)

Definition isEmptyContainer (c : vertexContainer) : bool := bool_decide (vc_vertex c = None).

Definition HasVertex (f : LevelledForest) (id : Identifier) : bool :=
  match vertices f !! id ≫= λ p, containers f !! p with
  | Some c => negb (isEmptyContainer c)
  | None => false
  end.

Definition GetVertex (f : LevelledForest) (id : Identifier) : option Block :=
  match vertices f !! id ≫= λ p, containers f !! p with
  | Some c => if isEmptyContainer c then None else vc_vertex c
  | None => None
  end.

(** ** Iterators (vertex.go, lines 21-57)

    An iterator holds the list of containers, an index and the vertex it will
    return next; [preLoad] skips the empty containers. *)

Record VertexIterator := MkIterator { it_data : list ptr; it_idx : nat; it_next : option Block }.

Definition vertex_at (f : LevelledForest) (p : ptr) : option Block :=
  containers f !! p ≫= vc_vertex.

Fixpoint preLoad_from (f : LevelledForest) (rest : list ptr) (idx : nat) : nat * option Block :=
  match rest with
  | [] => (idx, None)
  | p :: rest =>
      match vertex_at f p with
      | Some v => (S idx, Some v)
      | None => preLoad_from f rest (S idx)
      end
  end.

Definition preLoad (f : LevelledForest) (it : VertexIterator) : VertexIterator :=
  let '(idx, next) := preLoad_from f (drop (it_idx it) (it_data it)) (it_idx it) in
  MkIterator (it_data it) idx next.

Definition newVertexIterator (f : LevelledForest) (vertexList : list ptr) : VertexIterator :=
  preLoad f (MkIterator vertexList 0 None).

Definition NextVertex (f : LevelledForest) (it : VertexIterator) : VertexIterator * option Block :=
  (preLoad f it, it_next it).

Definition HasNext (it : VertexIterator) : bool := bool_decide (it_next it ≠ None).

(** ** Children and levels (lines 112-145)

    For an unknown identifier the map gives a nil pointer, and reading its
    [children] panics. *)

Definition GetChildren (f : LevelledForest) (id : Identifier) : outcome VertexIterator :=
  c ← of_option NilDereference (vertices f !! id ≫= λ p, containers f !! p);
  mret (newVertexIterator f (vc_children c)).

Definition count_full (f : LevelledForest) (l : list ptr) : Z :=
  Z.of_nat (length (filter (λ p, is_Some (vertex_at f p)) l)).

Definition GetNumberOfChildren (f : LevelledForest) (id : Identifier) : outcome Z :=
  c ← of_option NilDereference (vertices f !! id ≫= λ p, containers f !! p);
  mret (count_full f (vc_children c)).

Definition GetVerticesAtLevel (f : LevelledForest) (level : Z) : VertexIterator :=
  newVertexIterator f (at_level f level).

Definition GetNumberOfVerticesAtLevel (f : LevelledForest) (level : Z) : Z :=
  count_full f (at_level f level).

(** ** Adding a vertex (lines 152-200) *)

Definition getOrCreateVertexContainer (f : LevelledForest) (id : Identifier) (level : Z)
  : LevelledForest * ptr :=
  match vertices f !! id with
  | Some p => (f, p)
  | None =>
      let p := length (containers f) in
      let c := MkContainer id level [] None in
      (MkForest (containers f ++ [c]) (<[id := p]> (vertices f))
         (<[level := at_level f level ++ [p]]> (verticesAtLevel f)) (LowestLevel f), p)
  end.

Definition registerWithParent (st : QCStore) (f : LevelledForest) (p : ptr)
  : outcome LevelledForest :=
  c ← container f p;
  if decide (vc_level c ≤ LowestLevel f) then mret f
  else
    v ← of_option NilDereference (vc_vertex c);
    '(parentID, parentView) ← Parent st v;
    if decide (parentView < LowestLevel f) then mret f
    else
      let '(f, pp) := getOrCreateVertexContainer f parentID parentView in
      mret (upd_container (add_child p) pp f).

Definition AddVertex (st : QCStore) (f : LevelledForest) (vertex : Block)
  : outcome LevelledForest :=
  if decide (Level vertex < LowestLevel f) then mret f
  else
    let '(f, p) := getOrCreateVertexContainer f (VertexID vertex) (Level vertex) in
    c ← container f p;
    if isEmptyContainer c then
      registerWithParent st (upd_container (set_vertex vertex) p f) p
    else mret f.

(** ** Verification (lines 204-284) *)

Definition isEquivalentToStoredVertex (st : QCStore) (f : LevelledForest) (vertex : Block)
  : outcome (result bool) :=
  match GetVertex f (VertexID vertex) with
  | None => mret (Val false)
  | Some storedVertex =>
      if decide (Level vertex ≠ Level storedVertex) then mret (Err "conflicting vertices")
      else if decide (Level vertex ≤ LowestLevel f) then mret (Val true)
      else
        '(newParentId, newParentView) ← Parent st vertex;
        '(storedParentId, storedParentView) ← Parent st storedVertex;
        if decide (newParentId ≠ storedParentId) then mret (Err "conflicting vertices")
        else if decide (newParentView ≠ storedParentView) then mret (Err "conflicting vertices")
        else mret (Val true)
  end.

Definition verifyParent (st : QCStore) (f : LevelledForest) (vertex : Block)
  : outcome (result ()) :=
  '(parentID, parentLevel) ← Parent st vertex;
  if decide (¬ (parentLevel < Level vertex)) then
    mret (Err "parent vertex's level must be smaller than the vertex's level")
  else
    match GetVertex f parentID with
    | None => mret (Val ())
    | Some parentVertex =>
        if decide (Level parentVertex ≠ parentLevel) then
          mret (Err "parent vertex has a different level than the stored vertex")
        else mret (Val ())
    end.

Definition VerifyVertex (st : QCStore) (f : LevelledForest) (vertex : Block)
  : outcome (result ()) :=
  if decide (Level vertex < LowestLevel f) then mret (Val ())
  else
    r ← isEquivalentToStoredVertex st f vertex;
    match r with
    | Err e => mret (Err e)
    | Val true => mret (Val ())
    | Val false =>
        if decide (Level vertex = LowestLevel f) then mret (Val ())
        else verifyParent st f vertex
    end.

(** ** Pruning (lines 51-87) *)

(** Lines 60-70: from [level] down through the parents of the first vertex of
    each level.  The loop is bounded by fuel. *)
Fixpoint committed_levels (fuel : nat) (st : QCStore) (f : LevelledForest) (l : Z) (acc : gset Z)
  : outcome (gset Z) :=
  if decide (LowestLevel f ≤ l ∧ 1 < l) then
    match fuel with
    | O => Fault FuelExhausted
    | S fuel =>
        p ← index (at_level f l) 0;
        c ← container f p;
        vertex ← of_option NilDereference (vc_vertex c);
        '(parentID, _) ← Parent st vertex;
        match GetVertex f parentID with
        | None => mret acc
        | Some parentVertex =>
            if decide (Level parentVertex < LowestLevel f) then mret acc
            else committed_levels fuel st f (Level parentVertex) ({[Level parentVertex]} ∪ acc)
        end
    end
  else mret acc.

(** What the pruning loop accumulates. *)
Record pruned := MkPruned { pr_forest : LevelledForest; pr_forked : list Block; pr_no : Z }.

(** Lines 73-82, one container [p] of level [l]. *)
Definition prune_container (committed : bool) (l : Z) (s : pruned) (p : ptr) : pruned :=
  let f := pr_forest s in
  let forked :=
    if negb committed && bool_decide (1 < l) then
      match vertex_at f p with Some v => pr_forked s ++ [v] | None => pr_forked s end
    else pr_forked s in
  let ids := match containers f !! p with
             | Some c => delete (vc_id c) (vertices f)
             | None => vertices f
             end in
  MkPruned (MkForest (containers f) ids (verticesAtLevel f) (LowestLevel f))
    forked (int64 (pr_no s + 1)).

(** Lines 72-84, one level. *)
Definition prune_level (committed : gset Z) (s : pruned) (l : Z) : pruned :=
  let s := foldl (prune_container (bool_decide (l ∈ committed)) l) s (at_level (pr_forest s) l) in
  let f := pr_forest s in
  MkPruned (MkForest (containers f) (vertices f) (delete l (verticesAtLevel f)) (LowestLevel f))
    (pr_forked s) (pr_no s).

Definition PruneUpToLevel (fuel : nat) (st : QCStore) (f : LevelledForest) (level : Z)
  : outcome (LevelledForest * result (list Block * Z)) :=
  if decide (level < LowestLevel f) then
    mret (f, Err "new lowest level cannot be smaller than previous last retained level")
  else
    committed ← committed_levels fuel st f level ∅;
    let s := foldl (prune_level committed) (MkPruned f [] 0) (seqZ (LowestLevel f) (level - LowestLevel f)) in
    let f := pr_forest s in
    mret (MkForest (containers f) (vertices f) (verticesAtLevel f) level,
          Val (pr_forked s, pr_no s)).

(** ** The invariant *)

Record forest_inv (f : LevelledForest) : Prop := {
  inv_vertex : ∀ id p, vertices f !! id = Some p →
    ∃ c, containers f !! p = Some c ∧ vc_id c = id ∧ p ∈ at_level f (vc_level c);
  inv_level : ∀ l p, p ∈ at_level f l →
    ∃ c, containers f !! p = Some c ∧ vc_level c = l ∧ vertices f !! vc_id c = Some p;
  inv_nodup : ∀ l, NoDup (at_level f l);
  inv_lowest : ∀ l, l < LowestLevel f → at_level f l = [];
  inv_full : ∀ p c v, containers f !! p = Some c → vc_vertex c = Some v → VertexID v = vc_id c;
  inv_children : ∀ p c q, containers f !! p = Some c → q ∈ vc_children c →
    ∃ v, vertex_at f q = Some v ∧ b_PrevID v = vc_id c
}.

Lemma forest_inv_new : forest_inv NewLevelledForest.
Proof.
  split; intros *; unfold at_level; simpl; rewrite ?lookup_empty; simpl; try done; try set_solver.
  constructor.
Qed.

(** *** The lookups *)

Lemma GetVertex_Some f id v :
  GetVertex f id = Some v ↔ ∃ p, vertices f !! id = Some p ∧ vertex_at f p = Some v.
Proof.
  unfold GetVertex, vertex_at, isEmptyContainer.
  destruct (vertices f !! id) as [p|]; simpl; [|split; [done|intros (? & ? & _); done]].
  transitivity (containers f !! p ≫= vc_vertex = Some v).
  - destruct (containers f !! p) as [[i l ch [w|]]|]; simpl; done.
  - split; [eauto|intros (q & Hq & Hv)]. by injection Hq as <-.
Qed.

Lemma HasVertex_GetVertex f id : HasVertex f id = bool_decide (is_Some (GetVertex f id)).
Proof.
  unfold HasVertex, GetVertex, isEmptyContainer.
  destruct (vertices f !! id ≫= _) as [[i l ch [v|]]|]; simpl; done.
Qed.

Lemma GetVertex_ext f g :
  vertices f = vertices g → (∀ p, vertex_at f p = vertex_at g p) →
  ∀ id, GetVertex f id = GetVertex g id.
Proof.
  intros Hv Hat id. apply option_eq. intros v. rewrite !GetVertex_Some, Hv.
  by setoid_rewrite Hat.
Qed.

(** *** Updates of a container *)

Lemma container_upd g p f q :
  containers (upd_container g p f) !! q
  = if decide (p = q) then g <$> containers f !! q else containers f !! q.
Proof.
  simpl. destruct (decide (p = q)) as [->|]; [apply list_lookup_alter_eq|].
  by apply list_lookup_alter_ne.
Qed.

(** An update that keeps identifier and level keeps the invariant when it keeps
    what the containers say of their vertex and children. *)
Lemma forest_inv_upd g p f :
  forest_inv f →
  (∀ c, vc_id (g c) = vc_id c ∧ vc_level (g c) = vc_level c) →
  (∀ c v, containers f !! p = Some c → vc_vertex (g c) = Some v → VertexID v = vc_id c) →
  (∀ c v, containers f !! p = Some c → vc_vertex c = Some v → vc_vertex (g c) = Some v) →
  (∀ c q, containers f !! p = Some c → q ∈ vc_children (g c) →
    q ∈ vc_children c ∨
    ∃ v, vertex_at (upd_container g p f) q = Some v ∧ b_PrevID v = vc_id c) →
  forest_inv (upd_container g p f).
Proof.
  intros [I1 I2 I3 I4 I5 I6] Hg Hv Hkeep Hch.
  assert (Hat : ∀ q v, vertex_at f q = Some v → vertex_at (upd_container g p f) q = Some v).
  { intros q v. unfold vertex_at. rewrite container_upd. case_decide; [subst q|done].
    destruct (containers f !! p) eqn:E; [|done]. simpl. by apply Hkeep. }
  split; try done.
  - intros id q (c & Hc & Hid & Hl)%I1. destruct (Hg c) as [Hg1 Hg2]. rewrite container_upd.
    case_decide; rewrite Hc; simpl; [exists (g c)|exists c];
      split_and!; rewrite ?Hg1, ?Hg2; done.
  - intros l q (c & Hc & Hl & Hid)%I2. destruct (Hg c) as [Hg1 Hg2]. rewrite container_upd.
    case_decide; rewrite Hc; simpl; [exists (g c)|exists c];
      split_and!; rewrite ?Hg1, ?Hg2; done.
  - intros q c v. rewrite container_upd. case_decide; [subst q|apply I5].
    destruct (containers f !! p) as [d|] eqn:E; [|done]. simpl. intros [= <-] Hd.
    destruct (Hg d) as [-> _]. by eapply Hv.
  - intros q c r. rewrite container_upd. case_decide.
    + subst q. destruct (containers f !! p) as [d|] eqn:E; [|done]. simpl.
      intros [= <-] Hr. destruct (Hg d) as [-> _].
      destruct (Hch d r eq_refl Hr) as [Hold|Hnew]; [|done].
      destruct (I6 p d r E Hold) as (v & Hv1 & Hv2). exists v. split; [by apply Hat|done].
    + intros Hc Hr. destruct (I6 q c r Hc Hr) as (v & Hv1 & Hv2).
      exists v. split; [by apply Hat|done].
Qed.

(** *** Creation of a container *)

Section get_or_create.
Context (f : LevelledForest) (id : Identifier) (level : Z).
Let g := (getOrCreateVertexContainer f id level).1.
Let p := (getOrCreateVertexContainer f id level).2.

Lemma create_lowest : LowestLevel g = LowestLevel f.
Proof. subst g. unfold getOrCreateVertexContainer. by destruct (vertices f !! id). Qed.

Lemma create_found : vertices g !! id = Some p.
Proof.
  subst g p. unfold getOrCreateVertexContainer.
  destruct (vertices f !! id) as [q|] eqn:E; [done|]. simpl. by rewrite lookup_insert_eq.
Qed.

Lemma create_containers q c : containers f !! q = Some c → containers g !! q = Some c.
Proof.
  subst g. unfold getOrCreateVertexContainer. destruct (vertices f !! id); [done|]. simpl.
  intros Hq. rewrite lookup_app_l; [done|]. by eapply lookup_lt_Some.
Qed.

Lemma create_vertex_at q : vertex_at g q = vertex_at f q.
Proof.
  subst g. unfold getOrCreateVertexContainer, vertex_at. destruct (vertices f !! id); [done|].
  simpl. destruct (decide (q < length (containers f))%nat).
  - by rewrite lookup_app_l.
  - rewrite lookup_app_r by lia. rewrite (lookup_ge_None_2 (containers f) q) by lia.
    destruct (q - length (containers f))%nat as [|k]; [done|]. by destruct k.
Qed.

Lemma create_vertices id' : id ≠ id' → vertices g !! id' = vertices f !! id'.
Proof.
  intros Hne. subst g. unfold getOrCreateVertexContainer.
  destruct (vertices f !! id); [done|]. simpl. by rewrite lookup_insert_ne.
Qed.

Lemma create_GetVertex id' : forest_inv f → GetVertex g id' = GetVertex f id'.
Proof.
  intros I. apply option_eq. intros v. rewrite !GetVertex_Some.
  setoid_rewrite create_vertex_at.
  destruct (decide (id = id')) as [<-|Hne]; [|by rewrite create_vertices].
  rewrite create_found. subst p. unfold getOrCreateVertexContainer.
  destruct (vertices f !! id) as [q|] eqn:E; [done|]. simpl. split; [|naive_solver].
  intros (q & [= <-] & Hv). unfold vertex_at in Hv.
  by rewrite lookup_ge_None_2 in Hv by lia.
Qed.

Lemma create_inv : forest_inv f → LowestLevel f ≤ level → forest_inv g.
Proof.
  intros [I1 I2 I3 I4 I5 I6] Hl. pose proof create_vertex_at as Hsame.
  unfold g, getOrCreateVertexContainer in *.
  destruct (vertices f !! id) as [q|] eqn:E; [done|]. simpl in *.
  set (n := length (containers f)).
  assert (Hfresh : ∀ l, n ∉ at_level f l).
  { intros l (c & Hc & _)%I2. apply lookup_lt_Some in Hc. lia. }
  assert (Hlev : ∀ l, at_level (MkForest (containers f ++ [MkContainer id level [] None])
      (<[id := n]> (vertices f)) (<[level := at_level f level ++ [n]]> (verticesAtLevel f))
      (LowestLevel f)) l = if decide (level = l) then at_level f l ++ [n] else at_level f l).
  { intros l. unfold at_level at 1. simpl. rewrite lookup_insert. case_decide; [by subst|done]. }
  split; simpl.
  - intros id' q. rewrite lookup_insert. case_decide as Hid.
    + intros [= <-]. subst id'. eexists. split; [by apply list_lookup_middle|].
      split; [done|]. rewrite Hlev. simpl. rewrite decide_True by done. set_solver.
    + intros (c & Hc & Hcid & Hp)%I1. exists c.
      split; [rewrite lookup_app_l; [done|by eapply lookup_lt_Some]|]. split; [done|].
      rewrite Hlev. case_decide; set_solver.
  - intros l q. rewrite Hlev. intros Hq.
    assert (q ∈ at_level f l ∨ (q = n ∧ level = l)) as [Hold|[-> <-]]
      by (case_decide; set_solver).
    + destruct (I2 l q Hold) as (c & Hc & Hcl & Hv). exists c.
      split; [rewrite lookup_app_l; [done|by eapply lookup_lt_Some]|]. split; [done|].
      rewrite lookup_insert_ne; [done|]. intros Heq. rewrite <- Heq, E in Hv. done.
    + eexists. split; [by apply list_lookup_middle|]. split; [done|]. simpl. apply lookup_insert_eq.
  - intros l. rewrite Hlev. case_decide; [|done]. apply NoDup_app. split_and!; [done| |].
    + intros x Hx ->%list_elem_of_singleton. by eapply Hfresh.
    + apply NoDup_singleton.
  - intros l Hlt. rewrite Hlev. rewrite decide_False by lia. by apply I4.
  - intros q c v [Hc|[-> <-]]%lookup_snoc_Some; [|done]. apply I5 with q; tauto.
  - intros q c r Hc Hr.
    fold n in Hsame. rewrite Hsame.
    apply lookup_snoc_Some in Hc as [[_ Hc]|[_ <-]]; [by eapply I6|set_solver].
Qed.
End get_or_create.

(** *** Adding a vertex *)

Lemma vertex_at_add_child q p f r :
  vertex_at (upd_container (add_child q) p f) r = vertex_at f r.
Proof.
  unfold vertex_at. rewrite container_upd. case_decide; [|done]. subst.
  by destruct (containers f !! r).
Qed.

Lemma vertex_at_set_vertex v p f q :
  is_Some (containers f !! p) →
  vertex_at (upd_container (set_vertex v) p f) q
  = if decide (p = q) then Some v else vertex_at f q.
Proof.
  intros [c Hc]. unfold vertex_at. rewrite container_upd. case_decide; [|done]. subst.
  by rewrite Hc.
Qed.

(** Filling the empty container of [v]. *)
Lemma set_vertex_inv f p c v :
  forest_inv f → containers f !! p = Some c → vc_vertex c = None → VertexID v = vc_id c →
  forest_inv (upd_container (set_vertex v) p f).
Proof.
  intros I Hc He Hid. apply forest_inv_upd; [done|done| | |].
  - intros d w Hd [= <-]. congruence.
  - intros d w Hd. congruence.
  - intros d q Hd Hq. by left.
Qed.

Lemma set_vertex_lookup f p c v id :
  forest_inv f → vertices f !! VertexID v = Some p → containers f !! p = Some c →
  GetVertex (upd_container (set_vertex v) p f) id
  = if decide (id = VertexID v) then Some v else GetVertex f id.
Proof.
  intros I Hp Hc. apply option_eq. intros w. rewrite GetVertex_Some. simpl.
  setoid_rewrite (vertex_at_set_vertex v p f); [|by eexists].
  destruct (decide (id = VertexID v)) as [->|Hne].
  - rewrite Hp. split.
    + intros (q & [= <-] & Hq). by rewrite decide_True in Hq.
    + intros [= <-]. exists p. by rewrite decide_True.
  - rewrite GetVertex_Some. split; intros (q & Hq & Hw); exists q; (split; [done|]).
    + case_decide as Hpq; [|done]. subst q. exfalso. apply Hne.
      destruct (inv_vertex f I id p Hq) as (d & Hd & <- & _).
      destruct (inv_vertex f I _ p Hp) as (d' & Hd' & <- & _). congruence.
    + rewrite decide_False; [done|]. intros ->. apply Hne.
      destruct (inv_vertex f I id q Hq) as (d & Hd & <- & _).
      destruct (inv_vertex f I _ q Hp) as (d' & Hd' & <- & _). congruence.
Qed.

(** Registration links the container and changes no vertex. *)
Lemma registerWithParent_ok st f p v f' :
  forest_inv f → vertex_at f p = Some v → registerWithParent st f p = Ok f' →
  forest_inv f' ∧ LowestLevel f' = LowestLevel f ∧ ∀ id, GetVertex f' id = GetVertex f id.
Proof.
  intros I Hv. unfold registerWithParent.
  intros (c & Hc & H)%outcome_bind_ok. apply of_option_ok in Hc.
  destruct (decide (vc_level c ≤ LowestLevel f)); [by injection H as <-|].
  assert (vc_vertex c = Some v) as Hcv by (unfold vertex_at in Hv; by rewrite Hc in Hv).
  rewrite Hcv in H. simpl in H.
  apply outcome_bind_ok in H as ([parentID pl] & (qc & _ & -> & _)%Parent_ok & H).
  destruct (decide (pl < LowestLevel f)); [by injection H as <-|].
  destruct (getOrCreateVertexContainer f (b_PrevID v) pl) as [g pp] eqn:E.
  injection H as <-.
  assert (g = (getOrCreateVertexContainer f (b_PrevID v) pl).1) as Hg by (by rewrite E).
  assert (pp = (getOrCreateVertexContainer f (b_PrevID v) pl).2) as Hpp by (by rewrite E).
  assert (forest_inv g) as Ig by (rewrite Hg; apply create_inv; [done|lia]).
  assert (vertices g !! b_PrevID v = Some pp) as Hfound
    by (rewrite Hg, Hpp; apply create_found).
  assert (vertex_at g p = Some v) as Hgv by (by rewrite Hg, create_vertex_at).
  split; [|split].
  - apply forest_inv_upd; [done|done| |done|].
    + intros d w Hd Hw. by apply (inv_full g Ig pp d w).
    + intros d q Hd [Hq| ->%list_elem_of_singleton]%elem_of_app; [by left|]. right.
      exists v. rewrite vertex_at_add_child. split; [done|].
      destruct (inv_vertex g Ig _ pp Hfound) as (d' & Hd' & <- & _). congruence.
  - simpl. by rewrite Hg, create_lowest.
  - intros id. transitivity (GetVertex g id).
    + apply GetVertex_ext; [done|]. intros q. apply vertex_at_add_child.
    + rewrite Hg. by apply create_GetVertex.
Qed.

(** What [AddVertex] does: the invariant is kept, nothing is pruned, and the map
    gains the vertex if its level is not below the lowest one and its identifier
    is not yet taken. *)
Lemma AddVertex_spec st f v f' :
  forest_inv f → AddVertex st f v = Ok f' →
  forest_inv f' ∧ LowestLevel f' = LowestLevel f ∧
  ∀ id, GetVertex f' id
    = if decide (LowestLevel f ≤ Level v ∧ id = VertexID v)
      then Some (default v (GetVertex f id)) else GetVertex f id.
Proof.
  intros I. unfold AddVertex. case_decide as Hlow.
  { intros [= <-]. split_and!; [done..|]. intros id. rewrite decide_False; [done|lia]. }
  destruct (getOrCreateVertexContainer f (VertexID v) (Level v)) as [g p] eqn:E.
  assert (g = (getOrCreateVertexContainer f (VertexID v) (Level v)).1) as Hg by (by rewrite E).
  assert (p = (getOrCreateVertexContainer f (VertexID v) (Level v)).2) as Hp by (by rewrite E).
  assert (forest_inv g) as Ig by (rewrite Hg; apply create_inv; [done|lia]).
  assert (vertices g !! VertexID v = Some p) as Hfound by (rewrite Hg, Hp; apply create_found).
  assert (∀ id, GetVertex g id = GetVertex f id) as Hget
    by (intros id; rewrite Hg; by apply create_GetVertex).
  assert (LowestLevel g = LowestLevel f) as Hlg by (by rewrite Hg, create_lowest).
  intros (c & Hc & H)%outcome_bind_ok. apply of_option_ok in Hc.
  destruct (inv_vertex g Ig _ p Hfound) as (c' & Hc' & Hcid & _). assert (c' = c) as -> by congruence.
  unfold isEmptyContainer in H. case_bool_decide as He.
  - pose proof (set_vertex_inv g p c v Ig Hc He (eq_sym Hcid)) as Iset.
    apply registerWithParent_ok with (v := v) in H as (I' & Hl' & Hget'); [|done|].
    + split_and!; [done|simpl in Hl'; congruence|]. intros id.
      rewrite Hget', (set_vertex_lookup g p c v id Ig Hfound Hc), Hget.
      destruct (decide (id = VertexID v)) as [->|]; [|by rewrite decide_False by tauto].
      rewrite decide_True by (split; [lia|done]). f_equal. rewrite <- Hget.
      assert (GetVertex g (VertexID v) = None) as ->; [|done].
      apply eq_None_not_Some. intros [w (q & Hq & Hw)%GetVertex_Some].
      assert (q = p) as -> by congruence. unfold vertex_at in Hw. rewrite Hc in Hw.
      simpl in Hw. congruence.
    + rewrite vertex_at_set_vertex by (by eexists). by rewrite decide_True.
  - injection H as <-. split_and!; [done..|]. intros id. rewrite Hget.
    destruct (decide (id = VertexID v)) as [->|]; [|by rewrite decide_False by tauto].
    rewrite decide_True by (split; [lia|done]). rewrite <- Hget.
    destruct (vc_vertex c) as [w|] eqn:Hw; [|done].
    assert (GetVertex g (VertexID v) = Some w) as ->; [|done].
    apply GetVertex_Some. exists p. split; [done|]. unfold vertex_at. by rewrite Hc.
Qed.

Lemma AddVertex_returns st f v qc :
  forest_inv f → qc_deref st (b_QC v) = Ok qc → returns (AddVertex st f v).
Proof.
  intros I Hqc. unfold AddVertex. case_decide as Hlow; [by eexists|].
  destruct (getOrCreateVertexContainer f (VertexID v) (Level v)) as [g p] eqn:E.
  assert (g = (getOrCreateVertexContainer f (VertexID v) (Level v)).1) as Hg by (by rewrite E).
  assert (p = (getOrCreateVertexContainer f (VertexID v) (Level v)).2) as Hp by (by rewrite E).
  assert (forest_inv g) as Ig by (rewrite Hg; apply create_inv; [done|lia]).
  assert (vertices g !! VertexID v = Some p) as Hfound by (rewrite Hg, Hp; apply create_found).
  destruct (inv_vertex g Ig _ p Hfound) as (c & Hc & _ & _).
  unfold container at 1. rewrite Hc. simpl. destruct (isEmptyContainer c); [|by eexists].
  unfold registerWithParent, container. rewrite container_upd, decide_True, Hc by done. simpl.
  case_decide; [by eexists|].
  unfold Parent. rewrite Hqc. simpl. case_decide; [by eexists|].
  destruct (getOrCreateVertexContainer (upd_container _ _ _) _ _) as [h pp]. by eexists.
Qed.

(** *** Pruning *)

(** The level of the container registered for an identifier. *)
Definition level_of (f : LevelledForest) (id : Identifier) : option Z :=
  vertices f !! id ≫= λ p, vc_level <$> containers f !! p.

(** The level of an identifier is known and satisfies [P]. *)
Definition level_sat (f : LevelledForest) (id : Identifier) (P : Z → Prop) : Prop :=
  match level_of f id with Some l => P l | None => False end.

#[global] Instance level_sat_dec f id P `{∀ l, Decision (P l)} : Decision (level_sat f id P).
Proof. unfold level_sat. destruct (level_of f id); apply _. Defined.

Definition ids_of (f : LevelledForest) (ps : list ptr) : list Identifier :=
  omap (λ p, vc_id <$> containers f !! p) ps.

(** The loop over the containers of one level. *)
Lemma prune_containers_ok b l ps s :
  is_int64 (pr_no s) →
  let s' := foldl (prune_container b l) s ps in
  let f := pr_forest s in
  containers (pr_forest s') = containers f
  ∧ verticesAtLevel (pr_forest s') = verticesAtLevel f
  ∧ LowestLevel (pr_forest s') = LowestLevel f
  ∧ (∀ id, vertices (pr_forest s') !! id
           = if decide (id ∈ ids_of f ps) then None else vertices f !! id)
  ∧ pr_forked s' = pr_forked s ++ (if negb b && bool_decide (1 < l) then omap (vertex_at f) ps else [])
  ∧ pr_no s' = int64 (pr_no s + Z.of_nat (length ps)).
Proof.
  revert s. induction ps as [|p ps IH]; intros s Hs; simpl.
  { split_and!; try done.
    - by destruct (negb b && bool_decide (1 < l)); rewrite app_nil_r.
    - rewrite Z.add_0_r. by rewrite int64_id. }
  destruct (IH (prune_container b l s p)) as (H1 & H2 & H3 & H4 & H5 & H6); [apply int64_range|].
  assert (ids_of (pr_forest (prune_container b l s p)) ps = ids_of (pr_forest s) ps) as Hids by done.
  assert (∀ q, vertex_at (pr_forest (prune_container b l s p)) q = vertex_at (pr_forest s) q) as Hat
    by done.
  rewrite H1, H2, H3, H5, H6. split_and!; try done.
  - intros id. rewrite H4, Hids. unfold ids_of. simpl.
    destruct (containers (pr_forest s) !! p) as [c|]; simpl; [|done].
    destruct (decide (id = vc_id c)) as [->|Hne].
    + rewrite lookup_delete_eq. rewrite (decide_True (P := vc_id c ∈ _ :: _)) by set_solver.
      by destruct (decide _).
    + rewrite lookup_delete_ne by done.
      destruct (decide (id ∈ omap (λ p0, vc_id <$> containers (pr_forest s) !! p0) ps)).
      * by rewrite decide_True by set_solver.
      * by rewrite decide_False by set_solver.
  - simpl. destruct (negb b && bool_decide (1 < l)); [|done].
    destruct (vertex_at (pr_forest s) p) as [v|]; [|done]. by rewrite <- app_assoc.
  - unfold prune_container. simpl pr_no. rewrite int64_add_l. f_equal. lia.
Qed.

(** The identifiers of the containers of a level, in a forest with the
    invariant, are those registered at that level. *)
Lemma ids_of_level f l id :
  forest_inv f → id ∈ ids_of f (at_level f l) ↔ level_of f id = Some l.
Proof.
  intros I. unfold ids_of, level_of. rewrite list_elem_of_omap. split.
  - intros (p & Hp & Hid). destruct (inv_level f I l p Hp) as (c & Hc & Hl & Hv).
    rewrite Hc in Hid. injection Hid as <-. rewrite Hv. simpl. rewrite Hc. simpl. congruence.
  - destruct (vertices f !! id) as [p|] eqn:E; [|done]. simpl. intros Hl.
    destruct (inv_vertex f I id p E) as (c & Hc & Hid & Hp).
    rewrite Hc in Hl. injection Hl as <-. exists p. split; [done|]. by rewrite Hc, <- Hid.
Qed.

(** One level pruned. *)
Definition drop_level (f : LevelledForest) (l : Z) (f' : LevelledForest) : Prop :=
  forest_inv f' ∧ containers f' = containers f ∧ LowestLevel f' = LowestLevel f
  ∧ (∀ id, vertices f' !! id = if decide (level_of f id = Some l) then None else vertices f !! id)
  ∧ (∀ k, at_level f' k = if decide (k = l) then [] else at_level f k).

Lemma drop_level_inv f l f' :
  forest_inv f → containers f' = containers f → LowestLevel f' = LowestLevel f →
  (∀ id, vertices f' !! id = if decide (level_of f id = Some l) then None else vertices f !! id) →
  (∀ k, at_level f' k = if decide (k = l) then [] else at_level f k) → forest_inv f'.
Proof.
  intros [I1 I2 I3 I4 I5 I6] Hc Hlow Hv Hl. split.
  - intros id p. rewrite Hv. case_decide as Hd; [done|]. intros Hp.
    destruct (I1 id p Hp) as (c & Hc' & Hid & Hin). exists c. rewrite Hc, Hl.
    split_and!; [done..|]. rewrite decide_False; [done|]. intros Heq. apply Hd.
    unfold level_of. rewrite Hp. simpl. rewrite Hc'. simpl. congruence.
  - intros k p. rewrite Hl. case_decide; [set_solver|]. intros Hp.
    destruct (I2 k p Hp) as (c & Hc' & Hk & Hid). exists c. rewrite Hc, Hv.
    split_and!; [done..|]. rewrite decide_False; [done|]. unfold level_of.
    rewrite Hid. simpl. rewrite Hc'. simpl. congruence.
  - intros k. rewrite Hl. case_decide; [constructor|done].
  - intros k Hk. rewrite Hl. case_decide; [done|]. apply I4. lia.
  - rewrite Hc. apply I5.
  - intros p c q. unfold vertex_at. rewrite Hc. apply I6.
Qed.

Lemma prune_level_ok committed s l :
  forest_inv (pr_forest s) → is_int64 (pr_no s) →
  let s' := prune_level committed s l in
  let f := pr_forest s in
  drop_level f l (pr_forest s')
  ∧ pr_forked s' = pr_forked s ++ (if decide ((l ∉ committed) ∧ 1 < l)
                                   then omap (vertex_at f) (at_level f l) else [])
  ∧ pr_no s' = int64 (pr_no s + Z.of_nat (length (at_level f l))).
Proof.
  intros I Hs. unfold prune_level.
  destruct (prune_containers_ok (bool_decide (l ∈ committed)) l (at_level (pr_forest s) l) s Hs)
    as (H1 & H2 & H3 & H4 & H5 & H6).
  set (s1 := foldl _ s _) in *. simpl. split; [|split].
  - assert (∀ id, vertices (pr_forest s1) !! id
        = if decide (level_of (pr_forest s) id = Some l) then None else vertices (pr_forest s) !! id) as Hv.
    { intros id. rewrite H4. apply decide_ext. by apply ids_of_level. }
    assert (∀ k, default [] (delete l (verticesAtLevel (pr_forest s1)) !! k)
        = if decide (k = l) then [] else at_level (pr_forest s) k) as Hk.
    { intros k. rewrite H2, lookup_delete. unfold at_level.
      destruct (decide (k = l)); [by rewrite decide_True|by rewrite decide_False]. }
    split_and!; try done. by eapply (drop_level_inv (pr_forest s) l).
  - rewrite H5. f_equal. repeat case_bool_decide; case_decide; try tauto; try done.
  - exact H6.
Qed.

(** Distinct levels pruned one after the other. *)
Lemma prune_levels_ok committed ls s :
  NoDup ls → forest_inv (pr_forest s) → is_int64 (pr_no s) →
  let s' := foldl (prune_level committed) s ls in
  let f := pr_forest s in
  forest_inv (pr_forest s') ∧ containers (pr_forest s') = containers f
  ∧ (∀ id, vertices (pr_forest s') !! id
           = if decide (level_sat f id (.∈ ls)) then None else vertices f !! id)
  ∧ (∀ k, at_level (pr_forest s') k = if decide (k ∈ ls) then [] else at_level f k)
  ∧ pr_forked s' = pr_forked s ++
      concat ((λ l, if decide ((l ∉ committed) ∧ 1 < l)
                    then omap (vertex_at f) (at_level f l) else []) <$> ls)
  ∧ pr_no s' = int64 (pr_no s + Z.of_nat (sum_list_with (λ l, length (at_level f l)) ls)).
Proof.
  intros Hnd. revert s. induction Hnd as [|l ls Hl Hnd IH]; intros s I Hs; simpl.
  { split_and!; try done.
    - intros id. rewrite decide_False; [done|]. unfold level_sat.
      destruct (level_of _ id); set_solver.
    - by rewrite app_nil_r.
    - rewrite Z.add_0_r. by rewrite int64_id. }
  destruct (prune_level_ok committed s l I Hs) as ((I1 & C1 & L1 & V1 & A1) & F1 & N1).
  destruct (IH (prune_level committed s l)) as (I2 & C2 & V2 & A2 & F2 & N2);
    [done|rewrite N1; apply int64_range|].
  set (f := pr_forest s) in *. set (f1 := pr_forest (prune_level committed s l)) in *.
  assert (∀ k, k ∈ ls → at_level f1 k = at_level f k) as Hat
    by (intros k Hk; rewrite A1, decide_False; [done|set_solver]).
  assert (∀ q, vertex_at f1 q = vertex_at f q) as Hvx by (intros q; unfold vertex_at; by rewrite C1).
  assert (∀ id, level_of f1 id = if decide (level_of f id = Some l) then None else level_of f id)
    as Hlev.
  { intros id. destruct (decide (level_of f id = Some l)) as [E|E];
      unfold level_of at 1; rewrite V1, C1; [by rewrite decide_True|by rewrite decide_False]. }
  split_and!; [done|by rewrite C2| | | |].
  - intros id. rewrite V2, V1. destruct (decide (level_of f id = Some l)) as [E|E].
    + rewrite (decide_True (P := level_sat f id (.∈ l :: ls))); [by repeat case_decide|].
      unfold level_sat. rewrite E. set_solver.
    + apply decide_ext. unfold level_sat. rewrite Hlev, decide_False by done.
      destruct (level_of f id) as [k|]; [|done]. rewrite elem_of_cons.
      split; [by right|]. intros [->|]; [by destruct E|done].
  - intros k. rewrite A2, A1. destruct (decide (k = l)) as [->|].
    + rewrite (decide_True (P := l ∈ l :: ls)) by set_solver. by destruct (decide (l ∈ ls)).
    + apply decide_ext. set_solver.
  - rewrite F2, F1, <- app_assoc. do 2 f_equal. f_equal. apply list_fmap_ext.
    intros i k Hk. destruct (decide ((k ∉ committed) ∧ 1 < k)); [|done]. rewrite Hat by (apply list_elem_of_lookup; eauto).
    apply list_omap_ext, Forall2_same_length_lookup_2; [done|]. intros j x y Hx Hy. rewrite Hvx. congruence.
  - rewrite N2, N1, int64_add_l. f_equal.
    assert (sum_list_with (λ k, length (at_level f1 k)) ls
            = sum_list_with (λ k, length (at_level f k)) ls) as ->; [|lia].
    clear -Hat. induction ls as [|k ls IH]; [done|]. simpl.
    rewrite Hat by set_solver. rewrite IH; [done|]. intros; apply Hat; set_solver.
Qed.

(** One step of the way down: the vertex registered first at level [l] has a stored
    parent, at level [l'], not below the lowest one. *)
Definition passes (f : LevelledForest) (l l' : Z) : Prop :=
  LowestLevel f ≤ l ∧ 1 < l ∧ LowestLevel f ≤ l'
  ∧ ∃ p ps v w, at_level f l = p :: ps ∧ vertex_at f p = Some v
      ∧ GetVertex f (b_PrevID v) = Some w ∧ l' = Level w.

Lemma passes_unique f l l1 l2 : passes f l l1 → passes f l l2 → l1 = l2.
Proof.
  intros (_ & _ & _ & p & ps & v & w & H1 & H2 & H3 & ->) (_ & _ & _ & p' & ps' & v' & w' & H1' & H2' & H3' & ->).
  rewrite H1 in H1'. injection H1' as <- <-. congruence.
Qed.

(** The loop collects the levels that can be reached in one or more steps. *)
Lemma committed_levels_spec fuel st f l acc res :
  committed_levels fuel st f l acc = Ok res → ∀ k, k ∈ res ↔ k ∈ acc ∨ tc (passes f) l k.
Proof.
  assert (∀ l k, (∀ l', ¬ passes f l l') → ¬ tc (passes f) l k) as Hstuck.
  { intros l0 k Hno Ht. destruct Ht as [x y Hp|x y z Hp _]; by eapply Hno. }
  revert l acc. induction fuel as [|fuel IH]; intros l acc; simpl;
    (case_decide as Hd;
     [|intros [= <-] k; split; [by left|intros [|Ht]; [done|]];
       destruct (Hstuck l k); [|done]; intros l' (? & ? & _); tauto]); [done|].
  intros (p & Hp & H1)%outcome_bind_ok. apply outcome_bind_ok in H1 as (c & Hc & H1).
  apply outcome_bind_ok in H1 as (v & Hv%of_option_ok & H1).
  apply outcome_bind_ok in H1 as ([id pv] & (qc & _ & -> & _)%Parent_ok & H1).
  assert (∃ ps, at_level f l = p :: ps) as [ps Hat].
  { unfold index in Hp. simpl in Hp. destruct (at_level f l) as [|q ps]; [done|].
    injection Hp as <-. by exists ps. }
  assert (vertex_at f p = Some v) as Hvx.
  { unfold container in Hc. unfold vertex_at. destruct (containers f !! p) as [c'|]; [|done].
    injection Hc as <-. done. }
  assert (∀ l', passes f l l' → ∃ w, GetVertex f (b_PrevID v) = Some w ∧ l' = Level w ∧ LowestLevel f ≤ l') as Hinv.
  { intros l' (_ & _ & Hl & q & qs & v' & w & H2 & H3 & H4 & ->). rewrite Hat in H2. injection H2 as <- <-.
    assert (v' = v) as -> by congruence. by exists w. }
  destruct (GetVertex f (b_PrevID v)) as [w|] eqn:Hw.
  2:{ injection H1 as <-. intros k. split; [by left|intros [|Ht]; [done|]].
      destruct (Hstuck l k); [|done]. intros l' Hl'. by destruct (Hinv l' Hl') as (? & ? & _). }
  destruct (decide (Level w < LowestLevel f)).
  { injection H1 as <-. intros k. split; [by left|intros [|Ht]; [done|]].
    destruct (Hstuck l k); [|done]. intros l' Hl'. destruct (Hinv l' Hl') as (? & [= <-] & -> & ?). lia. }
  assert (passes f l (Level w)) as Hstep by (split_and!; [tauto..|lia|by exists p, ps, v, w]).
  intros k. rewrite (IH _ _ H1 k), elem_of_union, elem_of_singleton. split.
  - intros [[->|?]|Ht]; [right; by apply tc_once|by left|right; by eapply tc_l].
  - intros [?|Ht]; [by left; right|]. destruct Ht as [x y Hp'|x y z Hp' Ht];
      pose proof (passes_unique _ _ _ _ Hp' Hstep) as ->; [by left; left|by right].
Qed.

(** What [PruneUpToLevel] does when it succeeds. *)
Lemma PruneUpToLevel_spec fuel st f level f' forked no :
  forest_inv f → PruneUpToLevel fuel st f level = Ok (f', Val (forked, no)) →
  LowestLevel f ≤ level ∧ forest_inv f' ∧ LowestLevel f' = level
  ∧ (∀ id, GetVertex f' id
           = if decide (level_sat f id (λ l, l < level)) then None else GetVertex f id)
  ∧ no = int64 (Z.of_nat (sum_list_with (λ l, length (at_level f l))
                            (seqZ (LowestLevel f) (level - LowestLevel f))))
  ∧ ∃ committed, committed_levels fuel st f level ∅ = Ok committed
     ∧ forked = concat ((λ l, if decide ((l ∉ committed) ∧ 1 < l)
                              then omap (vertex_at f) (at_level f l) else [])
                        <$> seqZ (LowestLevel f) (level - LowestLevel f)).
Proof.
  intros I. unfold PruneUpToLevel. case_decide as Hlow; [done|].
  intros (committed & Hcom & H)%outcome_bind_ok. injection H as <- <- <-.
  destruct (prune_levels_ok committed (seqZ (LowestLevel f) (level - LowestLevel f))
              (MkPruned f [] 0)) as (I1 & C1 & V1 & A1 & F1 & N1);
    [apply NoDup_seqZ|done|by vm_compute|].
  set (s := foldl _ _ _) in *. simpl in *.
  assert (∀ id l, level_of f id = Some l → LowestLevel f ≤ l) as Hge.
  { intros id l Hl. apply (ids_of_level f l id I) in Hl.
    destruct (decide (LowestLevel f ≤ l)); [done|].
    rewrite (inv_lowest f I l) in Hl by lia. set_solver. }
  assert (∀ id, level_sat f id (.∈ seqZ (LowestLevel f) (level - LowestLevel f))
                ↔ level_sat f id (λ l, l < level)) as Hiff.
  { intros id. unfold level_sat. destruct (level_of f id) as [l|] eqn:E; [|done].
    specialize (Hge id l E). rewrite elem_of_seqZ. lia. }
  split_and!; [lia| |done| |by rewrite Z.add_0_l in N1|eauto].
  - destruct I1 as [J1 J2 J3 J4 J5 J6]. split; try done. intros l Hl.
    change (at_level (pr_forest s) l = []). rewrite A1. case_decide as Hin; [done|].
    apply (inv_lowest f I). destruct (decide (l < LowestLevel f)); [done|].
    exfalso. apply Hin. apply elem_of_seqZ. simpl in Hl. lia.
  - intros id. apply option_eq. intros v. rewrite GetVertex_Some. simpl.
    unfold vertex_at. simpl. rewrite C1, V1.
    rewrite (decide_ext _ _ _ _ (Hiff id)). case_decide; [|by rewrite GetVertex_Some].
    split; [intros (? & ? & _); done|done].
Qed.

(** The shape of a pruned forest: the containers stay, the levels below the new
    lowest one are gone, and no identifier is registered anew. *)
Lemma PruneUpToLevel_shape fuel st f level f' r :
  forest_inv f → PruneUpToLevel fuel st f level = Ok (f', Val r) →
  containers f' = containers f
  ∧ (∀ l, at_level f' l = if decide (LowestLevel f ≤ l < level) then [] else at_level f l)
  ∧ ∀ id, vertices f !! id = None → vertices f' !! id = None.
Proof.
  destruct r as [forked no]. intros I H. unfold PruneUpToLevel in H. case_decide; [done|].
  apply outcome_bind_ok in H as (committed & _ & H). injection H as <- _ _.
  destruct (prune_levels_ok committed (seqZ (LowestLevel f) (level - LowestLevel f))
              (MkPruned f [] 0)) as (_ & C1 & V1 & A1 & _); [apply NoDup_seqZ|done|by vm_compute|].
  split_and!; [done| |].
  - intros l. change (at_level (MkForest _ _ ?v _) l) with (default [] (v !! l)).
    specialize (A1 l). unfold at_level at 1 in A1. rewrite A1. apply decide_ext.
    rewrite elem_of_seqZ. simpl. lia.
  - intros id Hid. simpl in *. rewrite V1, Hid. by destruct (decide _).
Qed.

(** *** Iterators

    Draining an iterator, the loop of [GetChildrenBlocks] (blockchain.go, lines
    103-106), bounded by fuel. *)
Fixpoint drain (fuel : nat) (f : LevelledForest) (it : VertexIterator) : outcome (list Block) :=
  if HasNext it then
    match fuel with
    | O => Fault FuelExhausted
    | S fuel =>
        let '(it, next) := NextVertex f it in
        v ← of_option NilDereference next;
        rest ← drain fuel f it;
        mret (GetBlock v :: rest)
    end
  else mret [].

Lemma preLoad_from_spec f rest idx :
  match preLoad_from f rest idx with
  | (idx', Some v) => ∃ ps p rest', rest = ps ++ p :: rest' ∧ omap (vertex_at f) ps = []
                      ∧ vertex_at f p = Some v ∧ idx' = (idx + length ps + 1)%nat
  | (_, None) => omap (vertex_at f) rest = []
  end.
Proof.
  revert idx. induction rest as [|p rest IH]; intros idx; simpl; [done|].
  destruct (vertex_at f p) as [v|] eqn:E.
  - exists [], p, rest. simpl. split_and!; [done..|lia].
  - specialize (IH (S idx)). destruct (preLoad_from f rest (S idx)) as [idx' [v|]]; [|done].
    destruct IH as (ps & q & rest' & -> & Hps & Hq & ->). exists (p :: ps), q, rest'. simpl.
    rewrite E. split_and!; [done..|lia].
Qed.

Lemma drain_preLoad f data fuel :
  ∀ idx, (length data < fuel + idx)%nat →
  ∀ next, drain fuel f (preLoad f (MkIterator data idx next))
          = Ok (omap (vertex_at f) (drop idx data)).
Proof.
  induction fuel as [|fuel IH]; intros idx Hlen next; unfold preLoad; simpl;
    pose proof (preLoad_from_spec f (drop idx data) idx) as Hpre;
    destruct (preLoad_from f (drop idx data) idx) as [idx' [v|]]; simpl;
    try (rewrite Hpre; done).
  - exfalso. destruct Hpre as (ps & p & rest' & Hd & _).
    apply (f_equal length) in Hd. rewrite length_drop, length_app in Hd. simpl in Hd. lia.
  - destruct Hpre as (ps & p & rest' & Hd & Hps & Hp & ->).
    rewrite (IH (idx + length ps + 1)%nat) by lia. simpl. unfold mret, outcome_ret, GetBlock.
    assert (drop (idx + length ps + 1) data = rest') as ->.
    { rewrite <- Nat.add_assoc, <- drop_drop, Hd.
      rewrite drop_app_ge by lia. by replace (length ps + 1 - length ps)%nat with 1%nat by lia. }
    rewrite Hd, omap_app. simpl. by rewrite Hp, Hps.
Qed.

Lemma drain_new f l fuel :
  (length l < fuel)%nat → drain fuel f (newVertexIterator f l) = Ok (omap (vertex_at f) l).
Proof. intros Hl. unfold newVertexIterator. rewrite drain_preLoad; [by rewrite drop_0|lia]. Qed.

(** *** Equivalent forests

    What the rest of the program can observe of a forest through [HasVertex],
    [GetVertex], [VerifyVertex] and the lowest level. *)
#[global] Instance forest_equiv : Equiv LevelledForest :=
  λ f g, LowestLevel f = LowestLevel g ∧ ∀ id, GetVertex f id = GetVertex g id.

#[global] Instance forest_equivalence : Equivalence (≡@{LevelledForest}).
Proof.
  split; red.
  - done.
  - intros f g [H1 H2]. split; [done|]. intros id. by rewrite H2.
  - intros f g h [H1 H2] [H3 H4]. split; [congruence|]. intros id. by rewrite H2.
Qed.

#[global] Instance LowestLevel_proper : Proper ((≡) ==> (=)) LowestLevel.
Proof. by intros f g [? _]. Qed.
#[global] Instance GetVertex_proper : Proper ((≡) ==> (=) ==> (=)) GetVertex.
Proof. intros f g [_ H] id ? <-. apply H. Qed.
#[global] Instance HasVertex_proper : Proper ((≡) ==> (=) ==> (=)) HasVertex.
Proof. intros f g [_ H] id ? <-. by rewrite !HasVertex_GetVertex, (H id). Qed.
#[global] Instance isEquivalent_proper st :
  Proper ((≡) ==> (=) ==> (=)) (isEquivalentToStoredVertex st).
Proof.
  intros f g [Hl H] v ? <-. unfold isEquivalentToStoredVertex. by rewrite H, Hl.
Qed.
#[global] Instance verifyParent_proper st : Proper ((≡) ==> (=) ==> (=)) (verifyParent st).
Proof.
  intros f g [Hl H] v ? <-. unfold verifyParent.
  destruct (Parent st v) as [[i l]|]; simpl; [|done]. by rewrite H.
Qed.
#[global] Instance VerifyVertex_proper st : Proper ((≡) ==> (=) ==> (=)) (VerifyVertex st).
Proof.
  intros f g H v ? <-. unfold VerifyVertex.
  rewrite (isEquivalent_proper st _ _ H v v eq_refl), (verifyParent_proper st _ _ H v v eq_refl).
  by rewrite (LowestLevel_proper _ _ H).
Qed.

(** ** Reachable forests

    The program changes a forest only through [AddVertex] and [PruneUpToLevel];
    the certificates of the store may change in between. *)
Inductive forest_step : LevelledForest → LevelledForest → Prop :=
  | step_add st v f f' : AddVertex st f v = Ok f' → forest_step f f'
  | step_prune fuel st level f f' r : PruneUpToLevel fuel st f level = Ok (f', r) → forest_step f f'.

Definition forest_reachable : LevelledForest → Prop := rtc forest_step NewLevelledForest.

Lemma PruneUpToLevel_err fuel st f level f' e :
  PruneUpToLevel fuel st f level = Ok (f', Err e) → f' = f ∧ level < LowestLevel f.
Proof.
  unfold PruneUpToLevel. case_decide; [by intros [= <- _]|].
  by intros (c & _ & H')%outcome_bind_ok.
Qed.

Lemma forest_step_inv f f' : forest_step f f' → forest_inv f → forest_inv f'.
Proof.
  intros [st v g g' H|fuel st level g g' [[forked no]|e] H] I.
  - by apply AddVertex_spec in H as (? & _ & _).
  - by apply PruneUpToLevel_spec in H as (_ & ? & _).
  - apply PruneUpToLevel_err in H as [-> _]. done.
Qed.

(** The containers of a forest are never moved to another level. *)
Definition grows (f f' : LevelledForest) : Prop :=
  ∀ p c, containers f !! p = Some c →
    ∃ c', containers f' !! p = Some c' ∧ vc_id c' = vc_id c ∧ vc_level c' = vc_level c.

#[global] Instance grows_preorder : PreOrder grows.
Proof.
  split.
  - intros f p c Hc. eauto.
  - intros f g h H1 H2 p c (c1 & Hc1 & E1 & E2)%H1. destruct (H2 p c1 Hc1) as (c2 & ? & ? & ?).
    exists c2. split_and!; [done|congruence..].
Qed.

Lemma grows_create f id level : grows f (getOrCreateVertexContainer f id level).1.
Proof. intros p c Hc. exists c. split_and!; [by apply create_containers|done..]. Qed.

Lemma grows_upd g p f :
  (∀ c, vc_id (g c) = vc_id c ∧ vc_level (g c) = vc_level c) → grows f (upd_container g p f).
Proof.
  intros Hg q c Hc. rewrite container_upd, Hc. destruct (Hg c).
  case_decide; [exists (g c)|exists c]; done.
Qed.

(** Identifiers that are registered stay registered at the same address. *)
Definition keeps_ids (f f' : LevelledForest) : Prop :=
  ∀ id p, vertices f !! id = Some p → vertices f' !! id = Some p.

#[global] Instance keeps_ids_preorder : PreOrder keeps_ids.
Proof. split; [by intros f id p|]. intros f g h H1 H2 id p ?%H1%H2. done. Qed.

Lemma keeps_ids_create f id level : keeps_ids f (getOrCreateVertexContainer f id level).1.
Proof.
  intros id' p Hp. destruct (decide (id = id')) as [<-|Hne]; [|by rewrite create_vertices].
  unfold getOrCreateVertexContainer. by rewrite Hp.
Qed.

Lemma AddVertex_grows st f v f' :
  AddVertex st f v = Ok f' → grows f f' ∧ keeps_ids f f'.
Proof.
  unfold AddVertex. case_decide; [by intros [= <-]|].
  pose proof (grows_create f (VertexID v) (Level v)) as G1.
  pose proof (keeps_ids_create f (VertexID v) (Level v)) as K1.
  destruct (getOrCreateVertexContainer f (VertexID v) (Level v)) as [g p]. simpl in *.
  intros (c & _ & H')%outcome_bind_ok. destruct (isEmptyContainer c); [|by injection H' as <-].
  assert (grows g (upd_container (set_vertex v) p g)) as G2 by (by apply grows_upd).
  revert G2 H'. set (g2 := upd_container _ _ _). intros G2.
  assert (keeps_ids g g2) as K2 by (intros id q Hq; exact Hq). unfold registerWithParent.
  intros (c2 & _ & H')%outcome_bind_ok.
  assert (grows f g2 ∧ keeps_ids f g2) as [? K] by (split; by transitivity g).
  destruct (decide (vc_level c2 ≤ _)); [by injection H' as <-|].
  apply outcome_bind_ok in H' as (w & _ & H').
  apply outcome_bind_ok in H' as ([pid pl] & _ & H').
  destruct (decide (pl < _)); [by injection H' as <-|].
  pose proof (grows_create g2 pid pl) as G3. pose proof (keeps_ids_create g2 pid pl) as K3.
  destruct (getOrCreateVertexContainer g2 pid pl) as [g3 pp]. injection H' as <-. simpl in *.
  split; [|intros id q Hq; by apply K3, K].
  transitivity g2; [done|]. transitivity g3; [done|]. by apply grows_upd.
Qed.

Lemma level_of_grows f f' id l :
  grows f f' → keeps_ids f f' → level_of f id = Some l → level_of f' id = Some l.
Proof.
  intros HG HK. unfold level_of. destruct (vertices f !! id) as [p|] eqn:E; [|done]. simpl.
  rewrite (HK _ _ E). simpl. intros (c & Hc & ->)%fmap_Some.
  destruct (HG p c Hc) as (c' & -> & _ & Hl). simpl. congruence.
Qed.

(** One step: the lowest level does not decrease, and a stored vertex is kept
    unless its level is now below the lowest one. *)
Lemma forest_step_stable f f' id v l :
  forest_inv f → forest_step f f' → GetVertex f id = Some v → level_of f id = Some l →
  LowestLevel f ≤ LowestLevel f'
  ∧ ((GetVertex f' id = Some v ∧ level_of f' id = Some l) ∨ l < LowestLevel f').
Proof.
  intros I Hs Hv Hl. revert I Hv Hl.
  destruct Hs as [st w g g' H|fuel st level g g' [[forked no]|e] H]; intros I Hv Hl.
  - destruct (AddVertex_grows _ _ _ _ H) as [HG HK].
    apply AddVertex_spec in H as (_ & Hlow & Hget); [|done]. split; [lia|]. left.
    split; [|by eapply level_of_grows]. rewrite Hget, Hv. by destruct (decide (_ ∧ _)).
  - assert (level_of g' id = level_of g id ∨ l < level) as Hlev.
    { destruct (decide (l < level)); [by right|left].
      unfold PruneUpToLevel in H. case_decide; [done|].
      apply outcome_bind_ok in H as (committed & _ & H). injection H as <- _ _.
      destruct (prune_levels_ok committed (seqZ (LowestLevel g) (level - LowestLevel g))
                  (MkPruned g [] 0)) as (_ & C1 & V1 & _);
        [apply NoDup_seqZ|done|by vm_compute|].
      unfold level_of in *. simpl in *. rewrite C1, V1, decide_False; [done|].
      unfold level_sat, level_of. rewrite Hl, elem_of_seqZ. lia. }
    apply PruneUpToLevel_spec in H as (Hle & _ & Hlow & Hget & _); [|done]. split; [lia|].
    rewrite Hlow. destruct (decide (l < level)); [by right|left].
    destruct Hlev as [Hlev|]; [|done]. rewrite Hlev, Hget, decide_False; [done|].
    unfold level_sat. by rewrite Hl.
  - apply PruneUpToLevel_err in H as [-> _]. split; [lia|by left].
Qed.

Lemma GetVertex_level_of f id v : forest_inv f → GetVertex f id = Some v → is_Some (level_of f id).
Proof.
  intros I (p & Hp & Hv)%GetVertex_Some. destruct (inv_vertex f I id p Hp) as (c & Hc & _).
  unfold level_of. rewrite Hp. simpl. rewrite Hc. by eexists.
Qed.

(** ** A concrete forest: a genesis block and a chain of three blocks *)

Definition sample_store : QCStore := [qc_of 0 0; qc_of 1 1; qc_of 2 2; qc_of 4 4].
Definition sample_block (view : Z) (id prev : Identifier) (qc : QCptr) : Block :=
  MkBlock view (Some qc) "1" 0 [] prev [] id None.
Definition sample_b1 := sample_block 1 1 0 0.
Definition sample_b2 := sample_block 2 2 1 1.
Definition sample_fork := sample_block 3 7 1 1.
Definition sample_b4 := sample_block 4 4 2 2.

Definition sample_forest : outcome LevelledForest :=
  f ← AddVertex sample_store NewLevelledForest sample_b1;
  f ← AddVertex sample_store f sample_b2;
  f ← AddVertex sample_store f sample_fork;
  AddVertex sample_store f sample_b4.

Definition the_forest : LevelledForest :=
  match sample_forest with Ok f => f | Fault _ => NewLevelledForest end.

Lemma the_forest_reachable : forest_reachable the_forest.
Proof.
  eapply rtc_l; [apply (step_add sample_store sample_b1); by vm_compute|].
  eapply rtc_l; [apply (step_add sample_store sample_b2); by vm_compute|].
  eapply rtc_l; [apply (step_add sample_store sample_fork); by vm_compute|].
  eapply rtc_l; [apply (step_add sample_store sample_b4); by vm_compute|].
  apply rtc_refl.
Qed.

Lemma reachable_inv f : forest_reachable f → forest_inv f.
Proof.
  intros H. pattern f. revert f H. apply rtc_ind_r; [apply forest_inv_new|].
  intros f g _ Hs I. by eapply forest_step_inv.
Qed.

Lemma the_forest_inv : forest_inv the_forest.
Proof. apply reachable_inv, the_forest_reachable. Qed.

(** ** The properties *)

(** [C16] Every forest the program can build from [NewLevelledForest] by any
    sequence of [AddVertex] and [PruneUpToLevel] is well formed: the identifier
    map and the level map describe the same containers, no container is listed
    twice, nothing is registered below [LowestLevel], a container holds the
    vertex of its own identifier, and every child it lists is stored with that
    identifier as its parent. *)
Theorem forest_reachable_inv f : forest_reachable f → forest_inv f.
Proof. apply reachable_inv. Qed.

Lemma forest_reachable_inv_witness :
  forest_inv the_forest ∧ GetVertex the_forest 4 = Some sample_b4.
Proof.
  split; [|by vm_compute]. apply (forest_reachable_inv the_forest), the_forest_reachable.
Defined.

(** A stored vertex is never replaced or lost: along every run of the
    forest, the identifier keeps denoting the vertex first stored under it until
    [LowestLevel], which never decreases, has passed the level it was registered
    at. *)
Theorem forest_stored_stable f f' id v :
  forest_inv f → rtc forest_step f f' → GetVertex f id = Some v →
  LowestLevel f ≤ LowestLevel f' ∧
  ∃ l, level_of f id = Some l ∧ (GetVertex f' id = Some v ∨ l < LowestLevel f').
Proof.
  intros I H Hv. destruct (GetVertex_level_of f id v I Hv) as [l Hl].
  assert (∀ g, rtc forest_step f g → forest_inv g ∧ LowestLevel f ≤ LowestLevel g
    ∧ ((GetVertex g id = Some v ∧ level_of g id = Some l) ∨ l < LowestLevel g)) as Hall.
  { apply rtc_ind_r; [split_and!; [done|lia|by left]|].
    intros g h _ Hs (Ig & Hle & Hg). split; [by eapply forest_step_inv|].
    assert (LowestLevel g ≤ LowestLevel h) as Hle'.
    { destruct Hs as [st w k k' H1|fuel st level k k' [[forked no]|e] H1].
      - apply AddVertex_spec in H1 as (_ & -> & _); [lia|done].
      - apply PruneUpToLevel_spec in H1 as (? & _ & -> & _); [lia|done].
      - apply PruneUpToLevel_err in H1 as [-> _]. lia. }
    split; [lia|]. destruct Hg as [[Hg1 Hg2]|]; [|right; lia].
    by destruct (forest_step_stable g h id v l Ig Hs Hg1 Hg2). }
  destruct (Hall f' H) as (_ & Hle & Hg). split; [done|]. exists l. split; [done|].
  destruct Hg as [[? _]|]; [by left|by right].
Qed.

Lemma forest_stored_stable_witness :
  ∃ l, level_of (upd_container (set_vertex sample_b1) 0
                   (getOrCreateVertexContainer NewLevelledForest 1 1).1) 1 = Some l
       ∧ (GetVertex the_forest 1 = Some sample_b1 ∨ l < LowestLevel the_forest).
Proof.
  pose (f1 := match AddVertex sample_store NewLevelledForest sample_b1 with
              | Ok f => f | Fault _ => NewLevelledForest end).
  destruct (forest_stored_stable f1 the_forest 1%N sample_b1) as [_ H].
  - eapply (forest_step_inv NewLevelledForest); [|apply forest_inv_new].
    apply (step_add sample_store sample_b1). by vm_compute.
  - eapply rtc_l; [apply (step_add sample_store sample_b2); by vm_compute|].
    eapply rtc_l; [apply (step_add sample_store sample_fork); by vm_compute|].
    eapply rtc_l; [apply (step_add sample_store sample_b4); by vm_compute|].
    apply rtc_refl.
  - by vm_compute.
  - destruct H as (l & Hl & Hor). exists l. split; [exact Hl|exact Hor].
Defined.

(** [C17] [AddVertex] refines insertion into a map from identifiers to vertices.
    On a well-formed forest, for a vertex whose certificate is not nil, it
    returns; the result is well formed, and it stores exactly one more vertex,
    the given one, when its level is not below [LowestLevel] and its identifier
    is not taken; a vertex already stored under the identifier wins.  A vertex at
    [LowestLevel] itself is stored, which the comment of the method (line 149) excludes. *)
Theorem AddVertex_refines st f v qc :
  forest_inv f → qc_deref st (b_QC v) = Ok qc →
  ∃ f', AddVertex st f v = Ok f' ∧ forest_inv f' ∧ LowestLevel f' = LowestLevel f
    ∧ ∀ id, GetVertex f' id
        = if decide (LowestLevel f ≤ Level v ∧ id = VertexID v)
          then Some (default v (GetVertex f id)) else GetVertex f id.
Proof.
  intros I Hqc. destruct (AddVertex_returns st f v qc I Hqc) as [f' Hf']. exists f'.
  split; [done|]. by eapply AddVertex_spec.
Qed.

Lemma AddVertex_refines_witness :
  ∃ f', AddVertex sample_store NewLevelledForest sample_b2 = Ok f'
    ∧ GetVertex f' 2 = Some sample_b2 ∧ GetVertex f' 1 = None.
Proof.
  destruct (AddVertex_refines sample_store NewLevelledForest sample_b2 (qc_of 1 1))
    as (f' & H1 & _ & _ & Hget); [apply forest_inv_new|done|].
  exists f'. split_and!; [exact H1|rewrite Hget..]; by vm_compute.
Defined.

(** The order in which two vertices of different identifiers arrive does
    not matter: both orders return and give equivalent forests, which no lookup,
    verification or level test can tell apart. *)
Theorem AddVertex_comm st f v w qv qw :
  forest_inv f → qc_deref st (b_QC v) = Ok qv → qc_deref st (b_QC w) = Ok qw →
  VertexID v ≠ VertexID w →
  ∃ fv fw fvw fwv, AddVertex st f v = Ok fv ∧ AddVertex st fv w = Ok fvw
    ∧ AddVertex st f w = Ok fw ∧ AddVertex st fw v = Ok fwv ∧ fvw ≡ fwv.
Proof.
  intros I Hv Hw Hne.
  destruct (AddVertex_returns st f v qv I Hv) as [fv H1].
  destruct (AddVertex_returns st f w qw I Hw) as [fw H2].
  destruct (AddVertex_spec _ _ _ _ I H1) as (I1 & L1 & G1).
  destruct (AddVertex_spec _ _ _ _ I H2) as (I2 & L2 & G2).
  destruct (AddVertex_returns st fv w qw I1 Hw) as [fvw H3].
  destruct (AddVertex_returns st fw v qv I2 Hv) as [fwv H4].
  destruct (AddVertex_spec _ _ _ _ I1 H3) as (_ & L3 & G3).
  destruct (AddVertex_spec _ _ _ _ I2 H4) as (_ & L4 & G4).
  exists fv, fw, fvw, fwv. split_and!; [done..|]. split; [congruence|]. intros id.
  rewrite G3, G4, G1, G2, L1, L2.
  repeat match goal with |- context [decide ?P] => destruct (decide P) end;
    try done; intuition congruence.
Qed.

Lemma AddVertex_comm_witness :
  ∃ fv fw fvw fwv, AddVertex sample_store NewLevelledForest sample_b1 = Ok fv
    ∧ AddVertex sample_store fv sample_b2 = Ok fvw
    ∧ AddVertex sample_store NewLevelledForest sample_b2 = Ok fw
    ∧ AddVertex sample_store fw sample_b1 = Ok fwv ∧ fvw ≡ fwv ∧ containers fvw ≠ containers fwv.
Proof.
  destruct (AddVertex_comm sample_store NewLevelledForest sample_b1 sample_b2 (qc_of 0 0) (qc_of 1 1))
    as (fv & fw & fvw & fwv & H1 & H2 & H3 & H4 & H5); [apply forest_inv_new|done..|].
  exists fv, fw, fvw, fwv. split_and!; [done..|].
  vm_compute in H1. injection H1 as <-. vm_compute in H2. injection H2 as <-.
  vm_compute in H3. injection H3 as <-. vm_compute in H4. injection H4 as <-. done.
Defined.

(** [C18] A successful [PruneUpToLevel] forgets exactly the vertices registered
    below the new lowest level and no other, keeps the forest well formed and counts
    the containers it dropped.  It reports as forked, level by level and in the order of
    their registration, the stored vertices of the dropped levels above 1 that are not
    passed on the way down from the new level: the way goes from the vertex that was
    registered first at a level to the level of its stored parent, as long as that is not
    below the old lowest level.  Levels are tracked, not vertices: a fork on a level that
    is passed is dropped unreported.  Asked to go below the lowest level the method changes
    nothing and reports an error. *)
Theorem PruneUpToLevel_refines fuel st f level f' r :
  forest_inv f → PruneUpToLevel fuel st f level = Ok (f', r) →
  match r with
  | Err _ => f' = f ∧ level < LowestLevel f
  | Val (forked, no) =>
      LowestLevel f ≤ level ∧ forest_inv f' ∧ LowestLevel f' = level
      ∧ (∀ id, GetVertex f' id
               = if decide (level_sat f id (λ l, l < level)) then None else GetVertex f id)
      ∧ no = int64 (Z.of_nat (sum_list_with (λ l, length (at_level f l))
                                (seqZ (LowestLevel f) (level - LowestLevel f))))
      ∧ ∃ committed : gset Z, (∀ l, l ∈ committed ↔ tc (passes f) level l)
         ∧ forked = concat ((λ l, if decide ((l ∉ committed) ∧ 1 < l)
                                  then omap (vertex_at f) (at_level f l) else [])
                            <$> seqZ (LowestLevel f) (level - LowestLevel f))
  end.
Proof.
  intros I H. destruct r as [[forked no]|e]; [|by eapply PruneUpToLevel_err].
  apply PruneUpToLevel_spec in H as (H1 & H2 & H3 & H4 & H5 & committed & H6 & H7); [|done].
  split_and!; [done..|]. exists committed. split; [|done]. intros l.
  rewrite (committed_levels_spec _ _ _ _ _ _ H6). set_solver.
Qed.

Definition the_pruned_forest : LevelledForest :=
  match PruneUpToLevel 10 sample_store the_forest 4 with
  | Ok (f, _) => f
  | Fault _ => the_forest
  end.

Lemma PruneUpToLevel_refines_witness :
  PruneUpToLevel 10 sample_store the_forest 4 = Ok (the_pruned_forest, Val ([sample_fork], 4))
  ∧ GetVertex the_pruned_forest 2 = None ∧ GetVertex the_pruned_forest 4 = Some sample_b4.
Proof.
  assert (PruneUpToLevel 10 sample_store the_forest 4
          = Ok (the_pruned_forest, Val ([sample_fork], 4))) as H by (by vm_compute).
  split; [exact H|].
  destruct (PruneUpToLevel_refines 10 sample_store the_forest 4 the_pruned_forest
              (Val ([sample_fork], 4)) the_forest_inv H) as (_ & _ & _ & Hget & _).
  split; rewrite Hget; by vm_compute.
Defined.

(** A fork of the committed level 2: a second child of the first block, beside the
    second block, with the fourth block on the latter. *)
Definition sample_sibling : Block := sample_block 2 5 1 1.
Definition sibling_forest : LevelledForest :=
  match foldl (λ r b, f ← r; AddVertex sample_store f b) (Ok NewLevelledForest)
          [sample_b1; sample_b2; sample_sibling; sample_b4] with
  | Ok f => f
  | Fault _ => NewLevelledForest
  end.

(** A fork on a level of the committed chain is pruned and not reported. *)
Theorem PruneUpToLevel_sibling_unreported :
  GetVertex sibling_forest 5 = Some sample_sibling ∧ GetVertex sibling_forest 4 = Some sample_b4
  ∧ b_PrevID sample_b4 = 2%N
  ∧ ∃ f', PruneUpToLevel 10 sample_store sibling_forest 4 = Ok (f', Val ([], 4))
      ∧ GetVertex f' 5 = None.
Proof. split_and!; [by vm_compute..|]. eexists. split; vm_compute; reflexivity. Qed.

(** A forest whose stored vertices are linked downwards: a stored vertex is
    registered at its own level, its certificate is not nil and its parent, if
    stored, lies strictly below; above level 1 every registered container is
    full.  (The parent of the first block is never stored.) *)
Definition well_linked (st : QCStore) (f : LevelledForest) : Prop :=
  ∀ l p, p ∈ at_level f l →
    (1 < l → is_Some (vertex_at f p))
    ∧ ∀ v, vertex_at f p = Some v →
        Level v = l ∧ (∃ qc, qc_deref st (b_QC v) = Ok qc)
        ∧ ∀ w, GetVertex f (b_PrevID v) = Some w → Level w < l.

Lemma stored_at_level st f id v :
  forest_inv f → well_linked st f → GetVertex f id = Some v →
  ∃ p, p ∈ at_level f (Level v) ∧ vertex_at f p = Some v ∧ vertices f !! id = Some p
       ∧ LowestLevel f ≤ Level v.
Proof.
  intros I W (p & Hp & Hv)%GetVertex_Some. destruct (inv_vertex f I id p Hp) as (c & Hc & _ & Hin).
  destruct (W _ _ Hin) as [_ Hw]. destruct (Hw v Hv) as [E _].
  rewrite <- E in Hin. exists p. split_and!; [done..|].
  apply Z.nlt_ge. intros Hbad. rewrite (inv_lowest f I _ Hbad) in Hin. set_solver.
Qed.

Lemma committed_levels_returns st f fuel :
  forest_inv f → well_linked st f → ∀ l acc, l < Z.of_nat fuel → at_level f l ≠ [] →
  returns (committed_levels fuel st f l acc).
Proof.
  intros I W. induction fuel as [|fuel IH]; intros l acc Hf Hl; simpl;
    (case_decide as Hd; [|by eexists]); [lia|].
  destruct (at_level f l) as [|p ps] eqn:Hat; [done|].
  destruct (W l p) as [[v Hv] Hall]; [rewrite Hat; set_solver|lia|].
  destruct (Hall v Hv) as (Hlv & (qc & Hqc) & Hpar).
  unfold vertex_at in Hv. destruct (containers f !! p) as [c|] eqn:Hc; [|done]. simpl in Hv.
  unfold container. simpl. rewrite Hc. simpl. rewrite Hv. simpl. unfold Parent.
  rewrite Hqc. simpl. destruct (GetVertex f (b_PrevID v)) as [w|] eqn:Hw; [|by eexists].
  specialize (Hpar w eq_refl). case_decide; [by eexists|]. apply IH; [lia|].
  destruct (stored_at_level st f _ w I W Hw) as (q & Hq & _). intros E. rewrite E in Hq. set_solver.
Qed.

Lemma PruneUpToLevel_returns st f level fuel :
  forest_inv f → well_linked st f → LowestLevel f ≤ level → at_level f level ≠ [] →
  level < Z.of_nat fuel →
  ∃ f' forked no, PruneUpToLevel fuel st f level = Ok (f', Val (forked, no)).
Proof.
  intros I W Hlow Hat Hf. unfold PruneUpToLevel. rewrite decide_False by lia.
  destruct (committed_levels_returns st f fuel I W level ∅ Hf Hat) as [c ->]. simpl. eauto.
Qed.

(** What [VerifyVertex] accepts above the lowest level. *)
Lemma VerifyVertex_new st f v :
  LowestLevel f < Level v → GetVertex f (VertexID v) = None →
  VerifyVertex st f v = Ok (Val ()) →
  ∃ qc, qc_deref st (b_QC v) = Ok qc ∧ uint64 (qc_View qc) < Level v
    ∧ ∀ w, GetVertex f (b_PrevID v) = Some w → Level w = uint64 (qc_View qc).
Proof.
  intros Hl Hnew. unfold VerifyVertex, isEquivalentToStoredVertex.
  rewrite decide_False by lia. rewrite Hnew. simpl. rewrite decide_False by lia.
  unfold verifyParent. intros ([id pl] & (qc & Hqc & -> & ->)%Parent_ok & H)%outcome_bind_ok.
  exists qc. split; [done|]. destruct (decide (¬ _)) as [|Hlt]; [done|].
  split; [lia|]. intros w Hw. rewrite Hw in H. by destruct (decide (_ ≠ _)) as [|?%dec_stable].
Qed.

(** The shape of the forest after a fresh identifier was created. *)
Lemma create_fresh f id level :
  vertices f !! id = None →
  let g := (getOrCreateVertexContainer f id level).1 in
  let p := (getOrCreateVertexContainer f id level).2 in
  p = length (containers f) ∧ containers g !! p = Some (MkContainer id level [] None)
  ∧ (∀ l, at_level g l = if decide (l = level) then at_level f l ++ [p] else at_level f l)
  ∧ vertices g = <[id := p]> (vertices f).
Proof.
  intros Hid. unfold getOrCreateVertexContainer. rewrite Hid. simpl. split_and!; [done| | |done].
  - by rewrite list_lookup_middle.
  - intros l. unfold at_level at 1. simpl. destruct (decide (l = level)) as [->|].
    + by rewrite lookup_insert_eq.
    + by rewrite lookup_insert_ne.
Qed.

Lemma registerWithParent_stored st f p c v w qc :
  containers f !! p = Some c → vc_vertex c = Some v → LowestLevel f < vc_level c →
  qc_deref st (b_QC v) = Ok qc → LowestLevel f ≤ uint64 (qc_View qc) →
  GetVertex f (b_PrevID v) = Some w →
  ∃ pp, registerWithParent st f p = Ok (upd_container (add_child p) pp f).
Proof.
  intros Hc Hv Hl Hqc Hpl (pp & Hpp & _)%GetVertex_Some. exists pp.
  unfold registerWithParent, container. rewrite Hc. simpl. rewrite decide_False by lia.
  rewrite Hv. simpl. unfold Parent. rewrite Hqc. simpl. rewrite decide_False by lia.
  unfold getOrCreateVertexContainer. by rewrite Hpp.
Qed.

(** Adding a vertex under a fresh identifier when its parent is stored: one more
    container, at the vertex's level. *)
Lemma AddVertex_fresh st f v w qc f' :
  forest_inv f → vertices f !! VertexID v = None → LowestLevel f < Level v →
  qc_deref st (b_QC v) = Ok qc → LowestLevel f ≤ uint64 (qc_View qc) →
  GetVertex f (b_PrevID v) = Some w → AddVertex st f v = Ok f' →
  let p := length (containers f) in
  (∀ l, at_level f' l = if decide (l = Level v) then at_level f l ++ [p] else at_level f l)
  ∧ (∀ q, vertex_at f' q = if decide (p = q) then Some v else vertex_at f q)
  ∧ vertices f' = <[VertexID v := p]> (vertices f).
Proof.
  intros I Hfree Hl Hqc Hpl Hw. unfold AddVertex. rewrite decide_False by lia.
  destruct (create_fresh f (VertexID v) (Level v) Hfree) as (Hp & Hc & Hat & Hvs).
  pose proof (create_vertex_at f (VertexID v) (Level v)) as Hva.
  pose proof (create_lowest f (VertexID v) (Level v)) as Hlow.
  pose proof (λ id, create_GetVertex f (VertexID v) (Level v) id I) as Hcget.
  pose proof (create_found f (VertexID v) (Level v)) as Hfound.
  pose proof (create_inv f (VertexID v) (Level v) I) as Ig.
  destruct (getOrCreateVertexContainer f (VertexID v) (Level v)) as [g p]. simpl in *.
  specialize (Ig ltac:(lia)). unfold container. rewrite Hc. simpl.
  assert (b_PrevID v ≠ VertexID v) as Hne.
  { intros E. apply GetVertex_Some in Hw as (q & Hq & _). congruence. }
  destruct (registerWithParent_stored st (upd_container (set_vertex v) p g) p
    (set_vertex v (MkContainer (VertexID v) (Level v) [] None)) v w qc) as [pp Hreg];
    [by rewrite container_upd, decide_True, Hc by done|done|simpl; lia|done|simpl; lia| |].
  { rewrite (set_vertex_lookup g p _ v _ Ig Hfound Hc), decide_False by done. by rewrite Hcget. }
  intros Hf'. rewrite Hreg in Hf'. injection Hf' as <-. rewrite <- Hp. split_and!; [exact Hat| |exact Hvs].
  intros q. rewrite vertex_at_add_child, vertex_at_set_vertex by (by eexists). by rewrite Hva.
Qed.

(** [VerifyVertex] is the check that keeps the forest linked downwards: a
    vertex above the lowest level that passes it, whose identifier is new, whose
    parent is stored and which no stored vertex already names as its parent, is
    added to a linked forest with the result linked again. *)
Theorem VerifyVertex_AddVertex_linked st f v w :
  forest_inv f → well_linked st f → LowestLevel f < Level v →
  vertices f !! VertexID v = None → GetVertex f (b_PrevID v) = Some w →
  (∀ id u, GetVertex f id = Some u → b_PrevID u ≠ VertexID v) →
  VerifyVertex st f v = Ok (Val ()) →
  ∃ f', AddVertex st f v = Ok f' ∧ well_linked st f'.
Proof.
  intros I W Hl Hfree Hw Hchild Hver.
  assert (GetVertex f (VertexID v) = None) as Hnew by (unfold GetVertex; by rewrite Hfree).
  destruct (VerifyVertex_new st f v Hl Hnew Hver) as (qc & Hqc & Hlt & Hpar).
  specialize (Hpar w Hw).
  destruct (stored_at_level st f _ w I W Hw) as (_ & _ & _ & _ & Hlw).
  destruct (AddVertex_returns st f v qc I Hqc) as [f' Hf']. exists f'. split; [done|].
  destruct (AddVertex_spec st f v f' I Hf') as (_ & _ & Hget).
  destruct (AddVertex_fresh st f v w qc f' I Hfree Hl Hqc) as (Hat & Hvx & _); [lia|done..|].
  intros l q Hq. rewrite Hat in Hq. rewrite Hvx.
  assert (q = length (containers f) ∧ l = Level v ∨ q ∈ at_level f l) as [[-> ->]|Hold]
    by (case_decide; set_solver).
  - rewrite decide_True by done. split; [by eexists|]. intros ? [= <-].
    split_and!; [done|by eexists|].
    intros u. rewrite Hget, Hw. rewrite decide_False by (intros [_ E]; congruence).
    intros [= <-]. lia.
  - destruct (inv_level f I l q Hold) as (c & Hcq & _ & Hid).
    rewrite decide_False by (intros <-; apply lookup_lt_Some in Hcq; lia).
    destruct (W l q Hold) as [Hsome Hall]. split; [done|]. intros u Hu.
    destruct (Hall u Hu) as (Hul & Hqu & Hdown).
    split_and!; [done..|]. intros x. rewrite Hget, decide_False; [apply Hdown|].
    intros [_ E]. apply (Hchild (vc_id c) u); [|done]. apply GetVertex_Some. eauto.
Qed.

(** [eval_ptr H] evaluates a lookup in a concrete forest. *)
Ltac eval_ptr H :=
  vm_compute in H; first [discriminate H | injection H as <-].

Lemma well_linked_the_forest : well_linked sample_store the_forest.
Proof.
  intros l p Hp. destruct (inv_level the_forest the_forest_inv l p Hp) as (c & Hc & <- & _).
  assert (p < length (containers the_forest))%nat as Hlt by (by apply lookup_lt_Some in Hc).
  vm_compute in Hlt.
  do 5 (destruct p as [|p];
    [eval_ptr Hc; split;
      [intros; first [done|by eexists]|intros v Hv; eval_ptr Hv];
      (split; [by vm_compute|split; [eexists; by vm_compute|intros w Hw; eval_ptr Hw; by vm_compute]])|]).
  lia.
Qed.

Definition sample_b5 := sample_block 5 5 4 3.

Lemma VerifyVertex_AddVertex_linked_witness :
  ∃ f', AddVertex sample_store the_forest sample_b5 = Ok f' ∧ well_linked sample_store f'.
Proof.
  apply (VerifyVertex_AddVertex_linked sample_store the_forest sample_b5 sample_b4);
    [apply the_forest_inv|apply well_linked_the_forest|by vm_compute..| |by vm_compute].
  intros id u (p & Hp & Hu)%GetVertex_Some.
  do 5 (destruct p as [|p]; [vm_compute in Hu; first [discriminate Hu|injection Hu as <-; done]|]).
  vm_compute in Hu. discriminate Hu.
Defined.
