(* ===== verification/BlockChain.v ===== *)
(** * The block store ([src/blockchain/blockchain.go])

    A [BlockChain] is a levelled forest, the vote collector and four counters.
    [CommitBlock] walks from a block through the stored parents down to the
    lowest level, drops the votes of the blocks it passes and prunes the forest.
    The two ratios of lines 110-116 are divisions of binary64 numbers (file [Float64]). *)
From stdpp Require Import sorting.
From S2P Require Import Prelude Float64 Format Identity Sha1 Db Crypto Types Quorum Forest.

Local Open Scope Z_scope.

(** ** The code *)

Record BlockChain := MkBlockChain {
  forrest : LevelledForest;
  quorum : Quorum;
  longestTailBlock : option Block;
  highestComitted : Z;
  committedBlockNo : Z;
  totalBlockIntervals : Z;
  prunedBlockNo : Z
}.

Definition NewBlockchain (n : Z) : BlockChain :=
  MkBlockChain NewLevelledForest (NewQuorum n) None 0 0 0 0.

(** Assignments to the fields. *)
Definition set_forrest (f : LevelledForest) (bc : BlockChain) : BlockChain :=
  MkBlockChain f (quorum bc) (longestTailBlock bc) (highestComitted bc) (committedBlockNo bc)
    (totalBlockIntervals bc) (prunedBlockNo bc).
Definition set_quorum (q : Quorum) (bc : BlockChain) : BlockChain :=
  MkBlockChain (forrest bc) q (longestTailBlock bc) (highestComitted bc) (committedBlockNo bc)
    (totalBlockIntervals bc) (prunedBlockNo bc).
Definition set_highestComitted (h : Z) (bc : BlockChain) : BlockChain :=
  MkBlockChain (forrest bc) (quorum bc) (longestTailBlock bc) h (committedBlockNo bc)
    (totalBlockIntervals bc) (prunedBlockNo bc).
Definition add_prunedBlockNo (n : Z) (bc : BlockChain) : BlockChain :=
  MkBlockChain (forrest bc) (quorum bc) (longestTailBlock bc) (highestComitted bc)
    (committedBlockNo bc) (totalBlockIntervals bc) (int64 (prunedBlockNo bc + n)).

Definition Exists (bc : BlockChain) (id : Identifier) : bool := HasVertex (forrest bc) id.

Definition AddBlock (st : QCStore) (block : Block) : prog BlockChain () :=
  zoom forrest set_forrest (λ f, f ← AddVertex st f block; mret (f, ())).

Definition AddVote `{GoRange} (vote : Vote) : prog BlockChain (bool * option QC) :=
  zoom quorum set_quorum (λ q, Ok (Add q vote)).

Definition GetBlockByID (bc : BlockChain) (id : Identifier) : result Block :=
  match GetVertex (forrest bc) id with
  | None => Err "the block does not exist"
  | Some vertex => Val (GetBlock vertex)
  end.

(** Lines 48-59; [vertex.Parent()] reads the view of the certificate. *)
Definition GetParentBlock (st : QCStore) (bc : BlockChain) (id : Identifier)
  : outcome (result Block) :=
  match GetVertex (forrest bc) id with
  | None => mret (Err "the block does not exist")
  | Some vertex =>
      '(parentID, _) ← Parent st vertex;
      match GetVertex (forrest bc) parentID with
      | None => mret (Err "parent block does not exist")
      | Some parentVertex => mret (Val (GetBlock parentVertex))
      end
  end.

Definition GetGrandParentBlock (st : QCStore) (bc : BlockChain) (id : Identifier)
  : outcome (result Block) :=
  r ← GetParentBlock st bc id;
  match r with
  | Err _ => mret (Err "cannot get parent block")
  | Val parentBlock => GetParentBlock st bc (b_ID parentBlock)
  end.

(** Lines 79-85, for one block of the chain. *)
Definition commit_one (view : Z) (block : Block) (bc : BlockChain) : BlockChain :=
  MkBlockChain (forrest bc)
    (MkQuorum (total (quorum bc)) (delete (b_ID block) (votes (quorum bc))))
    (longestTailBlock bc) (highestComitted bc) (int64 (committedBlockNo bc + 1))
    (int64 (totalBlockIntervals bc + int64 (view - b_View block))) (prunedBlockNo bc).

(** Lines 78-91, bounded by fuel. *)
Fixpoint commit_loop (fuel : nat) (view : Z) (bc : BlockChain) (block : Block) (acc : list Block)
  : outcome (BlockChain * list Block) :=
  if decide (LowestLevel (forrest bc) < uint64 (b_View block)) then
    match fuel with
    | O => Fault FuelExhausted
    | S fuel =>
        let bc := commit_one view block bc in
        match GetVertex (forrest bc) (b_PrevID block) with
        | None => mret (bc, acc ++ [block])
        | Some vertex => commit_loop fuel view bc (GetBlock vertex) (acc ++ [block])
        end
    end
  else mret (bc, acc).

(** Lines 70-99.  The counters are updated also when the pruning reports an error. *)
Definition CommitBlock (fuel : nat) (st : QCStore) (id : Identifier) (view : Z)
  : prog BlockChain (result (list Block * list Block)) := λ bc,
  match GetVertex (forrest bc) id with
  | None => mret (bc, Err "cannot find the block")
  | Some vertex =>
      let committedView := b_View (GetBlock vertex) in
      let bc := set_highestComitted (b_View (GetBlock vertex)) bc in
      '(bc, committedBlocks) ← commit_loop fuel view bc (GetBlock vertex) [];
      '(f, r) ← PruneUpToLevel fuel st (forrest bc) (uint64 committedView);
      let bc := set_forrest f bc in
      match r with
      | Err _ => mret (bc, Err "cannot prune the blockchain to the committed block")
      | Val (forkedBlocks, prunedNo) =>
          mret (add_prunedBlockNo prunedNo bc, Val (committedBlocks, forkedBlocks))
      end
  end.

(** Lines 101-108; the fuel is the number of children. *)
Definition GetChildrenBlocks (fuel : nat) (bc : BlockChain) (id : Identifier)
  : outcome (list Block) :=
  it ← GetChildren (forrest bc) id;
  drain fuel (forrest bc) it.

(** Lines 110-116: a division of floats, so before the first commit the interval is
    not a number. *)
Definition GetChainGrowth (bc : BlockChain) : f64 :=
  f64_div (f64_of_Z (committedBlockNo bc)) (f64_of_Z (int64 (prunedBlockNo bc + 1))).
Definition GetBlockIntervals (bc : BlockChain) : f64 :=
  f64_div (f64_of_Z (totalBlockIntervals bc)) (f64_of_Z (committedBlockNo bc)).

(** What the method [GetChainStatus] of every protocol prints. *)
Definition status_of (id : NodeID) (view : Z) (bc : BlockChain) : string :=
  ("[" ++ id ++ "] The current view is: " ++ Itoa view ++ ", chain growth rate is: "
  ++ fmt_v (GetChainGrowth bc) ++ ", ave block interval is: " ++ fmt_v (GetBlockIntervals bc))%string.

Definition GetHighestCommitted (bc : BlockChain) : Z := highestComitted bc.
Definition GetCommittedBlocks (bc : BlockChain) : Z := committedBlockNo bc.

(** Lines 126-129: a level without a vertex gives a nil interface. *)
Definition GetBlockByView (bc : BlockChain) (view : Z) : outcome Block :=
  v ← of_option NilDereference (it_next (GetVerticesAtLevel (forrest bc) (uint64 view)));
  mret (GetBlock v).

(** ** What a commit is

    The specification of the commit loop: the blocks met on the way from [b]
    through the stored parents, as long as they lie above the lowest level. *)
Inductive walk (f : LevelledForest) : Block → list Block → Prop :=
  | walk_stop b : uint64 (b_View b) ≤ LowestLevel f → walk f b []
  | walk_last b :
      LowestLevel f < uint64 (b_View b) → GetVertex f (b_PrevID b) = None → walk f b [b]
  | walk_step b p l :
      LowestLevel f < uint64 (b_View b) → GetVertex f (b_PrevID b) = Some p →
      walk f p l → walk f b (b :: l).

(** The bookkeeping for a list of committed blocks. *)
Definition commit_all (view : Z) (bc : BlockChain) (l : list Block) : BlockChain :=
  foldl (λ bc b, commit_one view b bc) bc l.

Lemma commit_loop_ok fuel view bc b acc bc' l :
  commit_loop fuel view bc b acc = Ok (bc', l) →
  ∃ l', l = acc ++ l' ∧ walk (forrest bc) b l' ∧ bc' = commit_all view bc l'.
Proof.
  revert bc b acc. induction fuel as [|fuel IH]; intros bc b acc; simpl;
    (case_decide as Hd;
     [|intros H; injection H as <- <-; exists []; rewrite app_nil_r; split_and!;
       [done|constructor; lia|done]]); [done|].
  destruct (GetVertex (forrest bc) (b_PrevID b)) as [p|] eqn:Hp.
  - intros (l' & -> & Hw & ->)%IH. exists (b :: l'). rewrite <- app_assoc.
    split_and!; [done|by econstructor|done].
  - intros H. injection H as <- <-. exists [b]. split_and!; [done|by constructor|done].
Qed.

Lemma commit_loop_run fuel view bc b acc l :
  walk (forrest bc) b l → (length l ≤ fuel)%nat →
  commit_loop fuel view bc b acc = Ok (commit_all view bc l, acc ++ l).
Proof.
  revert bc b acc l. induction fuel as [|fuel IH]; intros bc b acc l Hw Hlen;
    inversion Hw as [b' Hd|b' Hd Hp|b' p l' Hd Hp Hw']; subst; simpl in *; try lia.
  - rewrite decide_False by lia. by rewrite app_nil_r.
  - rewrite decide_False by lia. by rewrite app_nil_r.
  - rewrite decide_True by lia. by rewrite Hp.
  - rewrite decide_True by lia. rewrite Hp.
    etrans; [apply (IH (commit_one view b bc) p (acc ++ [b]) l'); [done|lia]|].
    by rewrite <- app_assoc.
Qed.

(** The walk in a linked forest: it exists, and it descends. *)
Lemma walk_linked st f v id n :
  forest_inv f → well_linked st f → GetVertex f id = Some v → Level v < Z.of_nat n →
  ∃ l, walk f v l ∧ (length l ≤ n)%nat.
Proof.
  intros I W. revert v id. induction n as [|n IH]; intros v id Hv Hn.
  { exfalso. pose proof (uint64_range (b_View v)) as Hr. unfold_ints. unfold Level in Hn. lia. }
  destruct (decide (uint64 (b_View v) ≤ LowestLevel f)); [exists []; split; [by constructor|simpl; lia]|].
  destruct (GetVertex f (b_PrevID v)) as [w|] eqn:Hw.
  - destruct (stored_at_level st f id v I W Hv) as (p & Hp & Hpv & _).
    destruct (W _ p Hp) as [_ Hall]. destruct (Hall v Hpv) as (_ & _ & Hdown).
    specialize (Hdown w Hw). destruct (IH w (b_PrevID v) Hw) as (l & Hwalk & Hlen); [lia|].
    exists (v :: l). split; [econstructor; [lia|done..]|simpl; lia].
  - exists [v]. split; [constructor; [lia|done]|simpl; lia].
Qed.

Definition descending : list Block → Prop := StronglySorted (λ a b, Level b < Level a).

Lemma walk_descends st f v id l :
  forest_inv f → well_linked st f → GetVertex f id = Some v → walk f v l →
  descending l ∧ Forall (λ b, LowestLevel f < Level b ≤ Level v) l.
Proof.
  intros I W Hv Hw. revert id Hv. induction Hw as [b Hd|b Hd Hp|b p l Hd Hp Hw IH]; intros id Hv.
  - split; constructor.
  - split; repeat constructor; [done|unfold Level; lia].
  - destruct (stored_at_level st f id b I W Hv) as (q & Hq & Hqv & _).
    destruct (W _ q Hq) as [_ Hall]. destruct (Hall b Hqv) as (_ & _ & Hdown).
    specialize (Hdown p Hp). destruct (IH _ Hp) as [IH1 IH2]. split.
    + constructor; [done|]. eapply Forall_impl; [done|]. simpl. lia.
    + constructor; [by split|]. eapply Forall_impl; [done|]. simpl. lia.
Qed.

(** The bookkeeping leaves the forest alone and forgets exactly the votes of the
    committed blocks. *)
Lemma commit_all_spec view l bc :
  let bc' := commit_all view bc l in
  forrest bc' = forrest bc ∧ total (quorum bc') = total (quorum bc)
  ∧ highestComitted bc' = highestComitted bc ∧ prunedBlockNo bc' = prunedBlockNo bc
  ∧ ∀ id, votes (quorum bc') !! id
          = if decide (id ∈ b_ID <$> l) then None else votes (quorum bc) !! id.
Proof.
  revert bc. induction l as [|b l IH]; intros bc; simpl.
  { split_and!; done. }
  destruct (IH (commit_one view b bc)) as (H1 & H2 & H3 & H4 & H5).
  unfold commit_all in *. rewrite H1, H2, H3, H4. split_and!; [done..|]. intros id.
  rewrite H5. simpl. rewrite lookup_delete.
  repeat match goal with |- context [decide ?P] => destruct (decide P) end; try done; set_solver.
Qed.

Lemma commit_all_committedBlockNo view l bc :
  is_int64 (committedBlockNo bc) →
  committedBlockNo (commit_all view bc l) = int64 (committedBlockNo bc + Z.of_nat (length l)).
Proof.
  revert bc. induction l as [|b l IH]; intros bc Hb; simpl.
  - rewrite Z.add_0_r. symmetry. by apply int64_id.
  - unfold commit_all in *. rewrite IH by apply int64_range. simpl. rewrite int64_add_l.
    f_equal. lia.
Qed.

(** The sum of the intervals that a commit in view [view] counts. *)
Definition intervals (view : Z) (l : list Block) : Z := foldr (λ b z, view - b_View b + z) 0 l.

Lemma commit_all_totalBlockIntervals view l bc :
  is_int64 (totalBlockIntervals bc) →
  totalBlockIntervals (commit_all view bc l) = int64 (totalBlockIntervals bc + intervals view l).
Proof.
  revert bc. induction l as [|b l IH]; intros bc Hb; simpl.
  - rewrite Z.add_0_r. symmetry. by apply int64_id.
  - unfold commit_all in *. rewrite IH by apply int64_range. simpl. rewrite int64_add_l.
    replace (totalBlockIntervals bc + int64 (view - b_View b) + intervals view l)
      with (int64 (view - b_View b) + (totalBlockIntervals bc + intervals view l)) by lia.
    rewrite int64_add_l. f_equal. lia.
Qed.

(** The bookkeeping leaves the longest tail alone. *)
Lemma commit_all_longestTailBlock view l bc :
  longestTailBlock (commit_all view bc l) = longestTailBlock bc.
Proof. revert bc. induction l as [|b l IH]; intros bc; [done|]. simpl. unfold commit_all in *. by rewrite IH. Qed.

Lemma CommitBlock_inv fuel st id view bc bc' committed forked :
  forest_inv (forrest bc) → CommitBlock fuel st id view bc = Ok (bc', Val (committed, forked)) →
  ∃ v f' no, GetVertex (forrest bc) id = Some v ∧ walk (forrest bc) v committed
    ∧ PruneUpToLevel fuel st (forrest bc) (Level v) = Ok (f', Val (forked, no))
    ∧ bc' = add_prunedBlockNo no (set_forrest f'
              (commit_all view (set_highestComitted (b_View v) bc) committed)).
Proof.
  intros I. unfold CommitBlock. destruct (GetVertex (forrest bc) id) as [v|]; [|done].
  intros ([bc1 l] & Hloop & H)%outcome_bind_ok.
  apply commit_loop_ok in Hloop as (l' & -> & Hw & ->).
  apply outcome_bind_ok in H as ([f' r] & Hp & H). destruct r as [[fk no]|e]; [|done].
  injection H as <- <- <-.
  destruct (commit_all_spec view l' (set_highestComitted (b_View (GetBlock v)) bc)) as (Hf & _).
  rewrite Hf in Hp. exists v, f', no. split_and!; done.
Qed.

(** A commit runs as soon as the walk fits in the fuel and the pruning returns. *)
Lemma CommitBlock_run fuel st id view bc v l f' forked no :
  GetVertex (forrest bc) id = Some v → walk (forrest bc) v l → (length l ≤ fuel)%nat →
  PruneUpToLevel fuel st (forrest bc) (Level v) = Ok (f', Val (forked, no)) →
  CommitBlock fuel st id view bc
    = Ok (add_prunedBlockNo no (set_forrest f'
            (commit_all view (set_highestComitted (b_View v) bc) l)), Val (l, forked)).
Proof.
  intros Hv Hw Hlen Hpr. destruct (commit_all_spec view l (set_highestComitted (b_View v) bc)) as (Hf & _).
  unfold CommitBlock. rewrite Hv. unfold GetBlock.
  rewrite (commit_loop_run fuel view (set_highestComitted (b_View v) bc) v [] l) by done.
  simpl. rewrite Hf. change (uint64 (b_View v)) with (Level v). simpl. by rewrite Hpr.
Qed.

(** Pruning a linked forest leaves it linked. *)
Lemma well_linked_prune fuel st f level f' r :
  forest_inv f → well_linked st f → PruneUpToLevel fuel st f level = Ok (f', Val r) →
  well_linked st f'.
Proof.
  intros I W H. destruct (PruneUpToLevel_shape _ _ _ _ _ _ I H) as (Hc & Hat & _).
  destruct r as [forked no].
  apply PruneUpToLevel_spec in H as (_ & _ & _ & Hget & _); [|done].
  intros l p Hp. rewrite Hat in Hp. destruct (decide _); [set_solver|].
  destruct (W l p Hp) as [Hfull Hall].
  unfold vertex_at. rewrite Hc. split; [done|]. intros v Hv.
  destruct (Hall v Hv) as (Hl & Hqc & Hdown). split_and!; [done..|]. intros w. rewrite Hget.
  destruct (decide (level_sat _ _ _)); [done|apply Hdown].
Qed.

(** ** Runs of the block store *)

Inductive bc_step `{GoRange} : BlockChain → BlockChain → Prop :=
  | bc_add_block st b bc bc' u : AddBlock st b bc = Ok (bc', u) → bc_step bc bc'
  | bc_add_vote v bc bc' r : AddVote v bc = Ok (bc', r) → bc_step bc bc'
  | bc_commit fuel st id view bc bc' r : CommitBlock fuel st id view bc = Ok (bc', r) → bc_step bc bc'.

Lemma AddBlock_ok st b bc bc' u :
  AddBlock st b bc = Ok (bc', u) ↔
  ∃ f', AddVertex st (forrest bc) b = Ok f' ∧ bc' = set_forrest f' bc.
Proof.
  unfold AddBlock. rewrite zoom_ok. setoid_rewrite outcome_bind_ok. destruct u. split.
  - intros (t & (f & Hf & H) & ->). injection H as <-. eauto.
  - intros (f & Hf & ->). exists f. split; [|done]. exists f. done.
Qed.

Lemma CommitBlock_err fuel st id view bc bc' e :
  CommitBlock fuel st id view bc = Ok (bc', Err e) → forrest bc' = forrest bc.
Proof.
  unfold CommitBlock. destruct (GetVertex (forrest bc) id) as [v|];
    [|intros H; by injection H as <- _].
  intros ([bc1 l] & (l' & -> & Hw & ->)%commit_loop_ok & H)%outcome_bind_ok.
  destruct (commit_all_spec view l' (set_highestComitted (b_View (GetBlock v)) bc)) as (Hf & _).
  rewrite Hf in H. apply outcome_bind_ok in H as ([f' r] & Hp & H).
  destruct r as [[fk no]|e']; [done|]. apply PruneUpToLevel_err in Hp as [-> _].
  injection H as <- _. done.
Qed.

(** Whatever the result, committing only drops votes. *)
Lemma CommitBlock_votes fuel st id view bc bc' r :
  CommitBlock fuel st id view bc = Ok (bc', r) →
  total (quorum bc') = total (quorum bc)
  ∧ ∀ i x v, votes_of (quorum bc') i !! x = Some v → votes_of (quorum bc) i !! x = Some v.
Proof.
  unfold CommitBlock. destruct (GetVertex (forrest bc) id) as [v|];
    [|intros H; by injection H as <- _].
  intros ([bc1 l] & (l' & -> & Hw & ->)%commit_loop_ok & H)%outcome_bind_ok.
  set (bc1 := commit_all _ _ _) in *.
  assert (total (quorum bc1) = total (quorum bc)
    ∧ ∀ i x v, votes_of (quorum bc1) i !! x = Some v → votes_of (quorum bc) i !! x = Some v) as Hbc1.
  { destruct (commit_all_spec view l' (set_highestComitted (b_View (GetBlock v)) bc)) as (_ & Ht & _ & _ & Hv).
    split; [exact Ht|]. intros i x w. unfold votes_of. fold bc1 in Hv. rewrite Hv.
    case_decide; [simpl; by rewrite lookup_empty|done]. }
  apply outcome_bind_ok in H as ([f' [[forked no]|e]] & _ & H); injection H as <- _; exact Hbc1.
Qed.

(** Every step of the block store is, on its forest, a run of the forest. *)
Lemma bc_step_forest `{GoRange} bc bc' :
  bc_step bc bc' → forest_inv (forrest bc) → rtc forest_step (forrest bc) (forrest bc').
Proof.
  intros Hs I. destruct Hs as [st b bc bc' u Hs|v bc bc' r Hs|fuel st id view bc bc' [[c fk]|e] Hs].
  - apply AddBlock_ok in Hs as (f' & Hf & ->). apply rtc_once. by eapply step_add.
  - unfold AddVote in Hs. apply zoom_ok in Hs as (q & _ & ->). done.
  - apply CommitBlock_inv in Hs as (v & f' & no & _ & _ & Hp & ->); [|done].
    apply rtc_once. by eapply step_prune.
  - apply CommitBlock_err in Hs as ->. done.
Qed.

Lemma rtc_step_inv f f' : rtc forest_step f f' → forest_inv f → forest_inv f'.
Proof. induction 1 as [|f g h Hs _ IH]; intros I; [done|]. apply IH. by eapply forest_step_inv. Qed.

Lemma bc_run_forest `{GoRange} bc bc' :
  rtc bc_step bc bc' → forest_inv (forrest bc) → rtc forest_step (forrest bc) (forrest bc').
Proof.
  induction 1 as [|bc1 bc2 bc3 Hs _ IH]; intros I; [done|].
  pose proof (bc_step_forest _ _ Hs I) as Hr. etrans; [done|]. by eapply IH, rtc_step_inv.
Qed.

Lemma LowestLevel_mono f f' :
  rtc forest_step f f' → forest_inv f → LowestLevel f ≤ LowestLevel f'.
Proof.
  induction 1 as [|f g h Hs _ IH]; intros I; [done|].
  etrans; [|by eapply IH, forest_step_inv]. clear -Hs I. revert I.
  destruct Hs as [st w k k' H1|fuel st level k k' [[forked no]|e] H1]; intros I.
  - apply AddVertex_spec in H1 as (_ & -> & _); [lia|done].
  - apply PruneUpToLevel_spec in H1 as (? & _ & -> & _); [lia|done].
  - apply PruneUpToLevel_err in H1 as [-> _]. lia.
Qed.

(** ** The properties *)

(** [C5] What [CommitBlock] does.  When it succeeds on a well-formed forest, with
    counters that are 64-bit integers, the block is stored and the committed blocks are
    the walk from it through the stored parents to the lowest level.  The votes of exactly
    those blocks are dropped; [highestComitted] is the view of the block; the counter of
    committed blocks grows by their number, the sum of the intervals by the distances of
    their views to the given view, and the counter of pruned blocks by the number of
    containers below the level of the block, all modulo 2^64.  The forest is pruned up to
    that level, which becomes the lowest, and the forked blocks are the stored ones of the
    dropped levels above 1 that the way down from the level does not pass
    ([PruneUpToLevel_refines]). *)
Theorem CommitBlock_commits fuel st id view bc bc' committed forked :
  forest_inv (forrest bc) → is_int64 (committedBlockNo bc) → is_int64 (totalBlockIntervals bc) →
  CommitBlock fuel st id view bc = Ok (bc', Val (committed, forked)) →
  let f := forrest bc in
  ∃ v, GetBlockByID bc id = Val v ∧ walk f v committed
    ∧ (∀ i, votes (quorum bc') !! i
            = if decide (i ∈ b_ID <$> committed) then None else votes (quorum bc) !! i)
    ∧ total (quorum bc') = total (quorum bc) ∧ longestTailBlock bc' = longestTailBlock bc
    ∧ highestComitted bc' = b_View v
    ∧ committedBlockNo bc' = int64 (committedBlockNo bc + Z.of_nat (length committed))
    ∧ totalBlockIntervals bc'
      = int64 (totalBlockIntervals bc + foldr (λ b z, view - b_View b + z) 0 committed)
    ∧ prunedBlockNo bc'
      = int64 (prunedBlockNo bc + Z.of_nat (sum_list_with (λ l, length (at_level f l))
                                              (seqZ (LowestLevel f) (Level v - LowestLevel f))))
    ∧ forest_inv (forrest bc') ∧ LowestLevel (forrest bc') = Level v
    ∧ (∀ i, GetVertex (forrest bc') i
            = if decide (level_sat f i (λ l, l < Level v)) then None else GetVertex f i)
    ∧ ∃ passed : gset Z, (∀ l, l ∈ passed ↔ tc (passes f) (Level v) l)
       ∧ forked = concat ((λ l, if decide ((l ∉ passed) ∧ 1 < l)
                                then omap (vertex_at f) (at_level f l) else [])
                          <$> seqZ (LowestLevel f) (Level v - LowestLevel f)).
Proof.
  intros I Hno Hint H f. apply CommitBlock_inv in H as (v & f' & no & Hv & Hw & Hp & ->); [|done].
  exists v. unfold GetBlockByID. rewrite Hv.
  destruct (commit_all_spec view committed (set_highestComitted (b_View v) bc))
    as (_ & Ht & Hh & Hpr & Hvotes).
  pose proof (commit_all_committedBlockNo view committed (set_highestComitted (b_View v) bc) Hno).
  pose proof (commit_all_totalBlockIntervals view committed (set_highestComitted (b_View v) bc) Hint).
  pose proof (commit_all_longestTailBlock view committed (set_highestComitted (b_View v) bc)).
  apply PruneUpToLevel_spec in Hp as (_ & I' & Hl & Hget & Hn & passed & Hpass & ->); [|done].
  split_and!; try done.
  - simpl. rewrite Hpr, Hn. simpl. rewrite Z.add_comm, int64_add_l. f_equal. apply Z.add_comm.
  - exists passed. split; [|done]. intros l. rewrite (committed_levels_spec _ _ _ _ _ _ Hpass). set_solver.
Qed.

(** [C15] Commits terminate and succeed.  On a forest whose stored vertices are
    linked downwards, committing a stored block returns, without panic, as soon
    as the fuel exceeds the level of the block; the committed blocks come in
    strictly descending levels above the old lowest level, and the resulting
    forest is linked again. *)
Theorem CommitBlock_total fuel st id view bc v :
  forest_inv (forrest bc) → well_linked st (forrest bc) →
  GetVertex (forrest bc) id = Some v → Level v < Z.of_nat fuel →
  ∃ bc' committed forked, CommitBlock fuel st id view bc = Ok (bc', Val (committed, forked))
    ∧ descending committed
    ∧ Forall (λ b, LowestLevel (forrest bc) < Level b ≤ Level v) committed
    ∧ forest_inv (forrest bc') ∧ well_linked st (forrest bc').
Proof.
  intros I W Hv Hfuel.
  destruct (walk_linked st (forrest bc) v id fuel I W Hv Hfuel) as (l & Hwalk & Hlen).
  destruct (stored_at_level st _ id v I W Hv) as (p & Hp & _ & _ & Hlow).
  destruct (PruneUpToLevel_returns st (forrest bc) (Level v) fuel I W Hlow) as (f' & fk & no & Hpr);
    [intros E; rewrite E in Hp; set_solver|done|].
  eexists _, l, fk. split; [by apply CommitBlock_run|]. simpl.
  destruct (walk_descends st _ v id l I W Hv Hwalk) as [Hdesc Hall].
  split_and!; [done..| |by eapply well_linked_prune].
  by apply PruneUpToLevel_spec in Hpr as (_ & ? & _).
Qed.

(** [C14] No block is committed twice.  After a commit on a well-formed forest whose
    stored vertices are linked downwards (every stored parent is strictly below its child;
    the code does not enforce it), in whatever way blocks and votes are added and blocks
    are committed afterwards, every block of a later commit lies strictly above every
    block of this one. *)
Theorem CommitBlock_never_twice `{GoRange} fuel1 fuel2 st1 st2 id1 id2 view1 view2
    bc bc1 bc2 bc3 c1 c2 f1 f2 :
  forest_inv (forrest bc) → well_linked st1 (forrest bc) →
  CommitBlock fuel1 st1 id1 view1 bc = Ok (bc1, Val (c1, f1)) →
  rtc bc_step bc1 bc2 →
  CommitBlock fuel2 st2 id2 view2 bc2 = Ok (bc3, Val (c2, f2)) →
  ∀ a b, a ∈ c1 → b ∈ c2 → Level a < Level b.
Proof.
  intros I W H1 Hrun H2 a b Ha Hb.
  apply CommitBlock_inv in H1 as (v & f' & no & Hv & Hw & Hp & ->); [|done].
  destruct (walk_descends _ _ v id1 c1 I W Hv Hw) as [_ Hall].
  rewrite Forall_forall in Hall. specialize (Hall a Ha).
  apply PruneUpToLevel_spec in Hp as (_ & I1 & Hlow & _); [|done].
  pose proof (bc_run_forest _ _ Hrun I1) as Hr.
  pose proof (LowestLevel_mono _ _ Hr I1) as Hmono. simpl in Hmono.
  pose proof (rtc_step_inv _ _ Hr I1) as I2.
  apply CommitBlock_inv in H2 as (w & g & no' & _ & Hw2 & _ & _); [|done].
  assert (Forall (λ b, LowestLevel (forrest bc2) < Level b) c2) as Hall2.
  { clear -Hw2. induction Hw2; repeat constructor; done. }
  rewrite Forall_forall in Hall2. specialize (Hall2 b Hb). lia.
Qed.

(** [GetChildrenBlocks] lists the children of a registered block in the
    order they were linked: with fuel above the number of registered children it
    returns, every listed block names [id] as its parent, and there are
    [GetNumberOfChildren] of them.  For an identifier that was never registered,
    or was pruned, it dereferences a nil container. *)
Theorem GetChildrenBlocks_lists fuel bc id :
  forest_inv (forrest bc) →
  match vertices (forrest bc) !! id with
  | None => GetChildrenBlocks fuel bc id = Fault NilDereference
  | Some p => ∃ c, containers (forrest bc) !! p = Some c ∧
      ((length (vc_children c) < fuel)%nat →
       ∃ bs, GetChildrenBlocks fuel bc id = Ok bs
         ∧ bs = omap (vertex_at (forrest bc)) (vc_children c)
         ∧ Forall (λ b, b_PrevID b = id) bs
         ∧ GetNumberOfChildren (forrest bc) id = Ok (Z.of_nat (length bs)))
  end.
Proof.
  intros I. unfold GetChildrenBlocks, GetChildren, GetNumberOfChildren.
  destruct (vertices (forrest bc) !! id) as [p|] eqn:Hp; [|done].
  destruct (inv_vertex _ I id p Hp) as (c & Hc & Hid & _). exists c. split; [done|].
  intros Hfuel. simpl. rewrite Hc. simpl. rewrite drain_new by done. eexists. split_and!; [done..| |].
  - apply Forall_forall. intros b (q & Hq & Hb)%list_elem_of_omap.
    destruct (inv_children _ I p c q Hc Hq) as (v & Hv & Hprev). congruence.
  - unfold count_full, mret, outcome_ret. do 2 f_equal. clear.
    induction (vc_children c) as [|q l IH]; [done|]. rewrite filter_cons.
    destruct (decide (is_Some (vertex_at (forrest bc) q))) as [[v Hv]|Hn]; simpl.
    + rewrite Hv. simpl. by rewrite IH.
    + apply eq_None_not_Some in Hn. by rewrite Hn.
Qed.

(** A block that names itself as its parent makes [CommitBlock] loop
    forever: no fuel is enough.  (A received block's identifier is not compared
    with its contents.) *)
Theorem CommitBlock_self_parent_diverges fuel st id view bc v :
  GetVertex (forrest bc) id = Some v → b_PrevID v = id → LowestLevel (forrest bc) < Level v →
  CommitBlock fuel st id view bc = Fault FuelExhausted.
Proof.
  intros Hv Hself Hlow. unfold CommitBlock. rewrite Hv.
  assert (∀ b acc, forrest b = forrest bc →
    commit_loop fuel view b v acc = Fault FuelExhausted) as Hloop.
  { induction fuel as [|fuel IH]; intros b acc Hb; simpl; rewrite Hb;
      rewrite decide_True by exact Hlow; [done|]. rewrite Hself, Hv. by apply IH. }
  by rewrite Hloop.
Qed.

(** ** Witnesses *)

Definition sample_bc : BlockChain := set_forrest the_forest (NewBlockchain 4).

Lemma sample_bc_inv : forest_inv (forrest sample_bc).
Proof. cbv [sample_bc set_forrest forrest]. exact the_forest_inv. Qed.

Lemma sample_bc_linked : well_linked sample_store (forrest sample_bc).
Proof. cbv [sample_bc set_forrest forrest]. exact well_linked_the_forest. Qed.

Definition sample_commit (id : Identifier) (bc : BlockChain) : BlockChain * list Block :=
  match CommitBlock 10 sample_store id 6 bc with
  | Ok (bc, Val (committed, _)) => (bc, committed)
  | _ => (bc, [])
  end.

Definition sample_bc2 : BlockChain := (sample_commit 2 sample_bc).1.
Definition sample_bc4 : BlockChain := (sample_commit 4 sample_bc2).1.

Lemma CommitBlock_commits_witness :
  CommitBlock 10 sample_store 2 6 sample_bc = Ok (sample_bc2, Val ([sample_b2; sample_b1], []))
  ∧ LowestLevel (forrest sample_bc2) = 2 ∧ committedBlockNo sample_bc2 = 2
  ∧ totalBlockIntervals sample_bc2 = 9 ∧ prunedBlockNo sample_bc2 = 2.
Proof.
  assert (is_int64 (committedBlockNo sample_bc)) as Hno0 by (by vm_compute).
  assert (is_int64 (totalBlockIntervals sample_bc)) as Hint0 by (by vm_compute).
  assert (CommitBlock 10 sample_store 2 6 sample_bc
          = Ok (sample_bc2, Val ([sample_b2; sample_b1], []))) as H
    by (vm_compute; reflexivity).
  split; [exact H|].
  pose proof (CommitBlock_commits 10 sample_store 2 6 sample_bc sample_bc2 [sample_b2; sample_b1] []
    sample_bc_inv Hno0 Hint0 H) as HC.
  destruct HC as (v & Hv & _ & _ & _ & _ & _ & Hno & Hint & Hpr & _ & Hl & _).
  clear H. vm_compute in Hv. injection Hv as <-. rewrite Hl, Hno, Hint, Hpr.
  split_and!; vm_compute; reflexivity.
Defined.

Lemma CommitBlock_total_witness :
  ∃ bc' committed forked,
    CommitBlock 5 sample_store 4 6 sample_bc = Ok (bc', Val (committed, forked))
    ∧ descending committed ∧ well_linked sample_store (forrest bc').
Proof.
  destruct (CommitBlock_total 5 sample_store 4 6 sample_bc sample_b4)
    as (bc' & c & fk & H & Hd & _ & _ & W);
    [exact sample_bc_inv|exact sample_bc_linked|by vm_compute|by vm_compute|].
  exists bc', c, fk. split_and!; [exact H|exact Hd|exact W].
Defined.

(** Between the commits of the second and the fourth block: a vote, a block of level 3
    and a block of level 6 on the fourth. *)
Definition sample_b6 : Block := sample_block 6 6 4 2.
Definition sample_between : BlockChain :=
  match (AddVote (H := canonical_range) (MkVote 4 "1" 4 []);; AddBlock sample_store (sample_block 3 3 2 1);;
         AddBlock sample_store sample_b6) sample_bc2 with
  | Ok (bc, _) => bc
  | Fault _ => sample_bc2
  end.
Definition sample_bc6 : BlockChain := (sample_commit 6 sample_between).1.

Lemma sample_between_run : rtc (bc_step (H := canonical_range)) sample_bc2 sample_between.
Proof.
  eapply rtc_l; [eapply (bc_add_vote (H := canonical_range) (MkVote 4 "1" 4 [])); vm_compute; reflexivity|].
  eapply rtc_l; [eapply (bc_add_block sample_store (sample_block 3 3 2 1)); vm_compute; reflexivity|].
  eapply rtc_l; [eapply (bc_add_block sample_store sample_b6); vm_compute; reflexivity|].
  vm_compute. apply rtc_refl.
Qed.

Lemma CommitBlock_never_twice_witness :
  CommitBlock 10 sample_store 6 6 sample_between = Ok (sample_bc6, Val ([sample_b6; sample_b4], [sample_fork; sample_block 3 3 2 1]))
  ∧ Level sample_b2 < Level sample_b4.
Proof.
  assert (CommitBlock 10 sample_store 6 6 sample_between
    = Ok (sample_bc6, Val ([sample_b6; sample_b4], [sample_fork; sample_block 3 3 2 1]))) as H
    by (vm_compute; reflexivity).
  split; [exact H|].
  apply (CommitBlock_never_twice (H := canonical_range) 10 10 sample_store sample_store 2 6 6 6
           sample_bc sample_bc2 sample_between sample_bc6 [sample_b2; sample_b1] [sample_b6; sample_b4]
           [] [sample_fork; sample_block 3 3 2 1]);
    [exact sample_bc_inv|exact sample_bc_linked|vm_compute; reflexivity|exact sample_between_run
    |exact H|left|right; left].
Defined.

Lemma GetChildrenBlocks_lists_witness :
  GetChildrenBlocks 3 sample_bc 1 = Ok [sample_b2; sample_fork]
  ∧ GetChildrenBlocks 3 sample_bc 99 = Fault NilDereference.
Proof.
  split.
  - destruct (GetChildrenBlocks_lists 3 sample_bc 1 sample_bc_inv) as (c & Hc & H).
    vm_compute in Hc. injection Hc as <-. destruct H as (bs & -> & -> & _); [simpl; lia|].
    by vm_compute.
  - exact (GetChildrenBlocks_lists 3 sample_bc 99 sample_bc_inv).
Defined.

Definition sample_self : Block := sample_block 3 9 9 1.
Definition sample_bc_self : BlockChain :=
  match AddBlock sample_store sample_self sample_bc with Ok (bc, _) => bc | Fault _ => sample_bc end.

Lemma CommitBlock_self_parent_diverges_witness :
  CommitBlock 1000 sample_store 9 6 sample_bc_self = Fault FuelExhausted.
Proof.
  apply (CommitBlock_self_parent_diverges 1000 sample_store 9 6 sample_bc_self sample_self);
    by vm_compute.
Defined.
