(* ===== verification/Pacemaker.v ===== *)
(** * View synchronisation ([src/pacemaker/])

    [TimeoutController.AddTmo] collects timeout messages per view and sender and
    builds a timeout certificate when more than two thirds of the nodes have
    timed out; [Pacemaker.AdvanceView] moves to the view after the given one and
    announces it on a channel.  The channel is the list of the values sent on it
    that its consumer has not taken; the code gives it a capacity of 100, and
    [AdvanceView] waits for the consumer, with the mutex held, while it is full.  The
    list is not bounded: as long as it is no longer than the capacity no call of the code has
    waited, and the theorems that say a run goes through state that.  The mutexes make each
    method atomic.
    [GetTimerForView] is the configured timeout. *)
From stdpp Require Import sorting.
From S2P Require Import Prelude Identity Sha1 Db Crypto Types Quorum.

Local Open Scope Z_scope.

(** ** Timeout messages (timeoutController.go) *)

Record TimeoutController := MkTimeoutController {
  tcl_n : Z;
  timeouts : gmap Z (gmap NodeID TMO)
}.

Definition NewTimeoutController (n : Z) : TimeoutController := MkTimeoutController n ∅.

Definition timeouts_of (tcl : TimeoutController) (view : Z) : gmap NodeID TMO :=
  default ∅ (timeouts tcl !! view).

Definition tmo_total (tcl : TimeoutController) (view : Z) : Z :=
  Z.of_nat (base.size (timeouts_of tcl view)).

Definition tmo_superMajority (tcl : TimeoutController) (view : Z) : bool :=
  bool_decide (Z.quot (int64 (tcl_n tcl * 2)) 3 < tmo_total tcl view).

Definition AddTmo (tcl : TimeoutController) (tmo : TMO) : TimeoutController * (bool * option TC) :=
  if tmo_superMajority tcl (tmo_View tmo) then (tcl, (false, None))
  else
    let m := <[tmo_NodeID tmo := tmo]> (timeouts_of tcl (tmo_View tmo)) in
    let tcl := MkTimeoutController (tcl_n tcl) (<[tmo_View tmo := m]> (timeouts tcl)) in
    if tmo_superMajority tcl (tmo_View tmo)
    then (tcl, (true, Some (NewTC (tmo_View tmo) (timeouts_of tcl (tmo_View tmo)))))
    else (tcl, (false, None)).

(** ** The pacemaker (pacemaker.go) *)

Record Pacemaker := MkPacemaker {
  curView : Z;
  newViewChan : list Z;
  timeoutController : TimeoutController
}.

(** The capacity of [newViewChan] (line 20). *)
Definition newViewChan_capacity : nat := 100.

Definition NewPacemaker (n : Z) : Pacemaker := MkPacemaker 0 [] (NewTimeoutController n).

Definition pm_ProcessRemoteTmo (tmo : TMO) : prog Pacemaker (bool * option TC) := λ p,
  if decide (tmo_View tmo < curView p) then Ok (p, (false, None))
  else
    let '(tcl, r) := AddTmo (timeoutController p) tmo in
    Ok (MkPacemaker (curView p) (newViewChan p) tcl, r).

(** The send on [newViewChan] waits while the channel holds [newViewChan_capacity]
    values; here the value joins the list at once. *)
Definition advance (view : Z) (p : Pacemaker) : Pacemaker :=
  if decide (view < curView p) then p
  else MkPacemaker (int64 (view + 1)) (newViewChan p ++ [int64 (view + 1)]) (timeoutController p).

Definition AdvanceView (view : Z) : prog Pacemaker () := modify (advance view).

Definition GetCurView (p : Pacemaker) : Z := curView p.

Definition EnteringViewEvent (p : Pacemaker) : list Z := newViewChan p.

(** [Timeout] is the configured number of milliseconds, the result is in nanoseconds. *)
Definition GetTimerForView (Timeout : Z) : Z := int64 (Timeout * 1000000).

(** ** Runs

    Any sequence of calls, with the certificates the calls returned. *)

Inductive pm_call := CallTmo (tmo : TMO) | CallAdvance (view : Z).

Definition pm_step (s : Pacemaker * list TC) (c : pm_call) : Pacemaker * list TC :=
  match c with
  | CallTmo tmo =>
      match pm_ProcessRemoteTmo tmo s.1 with
      | Ok (p, (_, Some tc)) => (p, s.2 ++ [tc])
      | Ok (p, (_, None)) => (p, s.2)
      | Fault _ => s
      end
  | CallAdvance view => (advance view s.1, s.2)
  end.

Definition pm_run (n : Z) (cs : list pm_call) : Pacemaker * list TC :=
  foldl pm_step (NewPacemaker n, []) cs.

(** The senders of timeout messages for a view. *)
Definition senders (view : Z) (cs : list pm_call) : gset NodeID :=
  list_to_set (omap (λ c, match c with
                          | CallTmo t => if decide (tmo_View t = view) then Some (tmo_NodeID t) else None
                          | CallAdvance _ => None
                          end) cs).

Lemma senders_snoc view cs c :
  senders view (cs ++ [c]) = senders view cs ∪ senders view [c].
Proof. unfold senders. by rewrite omap_app, list_to_set_app_L. Qed.

(** ** Views *)

(** A view can be advanced past without overflow. *)
Definition call_bounded (c : pm_call) : Prop :=
  match c with CallAdvance view => 0 ≤ view < max_int64 | CallTmo _ => True end.

#[global] Instance call_bounded_dec c : Decision (call_bounded c).
Proof. destruct c; apply _. Defined.

Definition increasing : list Z → Prop := StronglySorted (<)%Z.

Lemma increasing_snoc l x : increasing l → Forall (λ y, y < x) l → increasing (l ++ [x]).
Proof.
  unfold increasing. induction 1 as [|y l Hs IH Hall]; intros Hx; simpl; [repeat constructor|].
  apply Forall_cons in Hx as [Hy Hx]. constructor; [by apply IH|].
  apply Forall_app. split; [done|]. by constructor.
Qed.

(** The announced views are increasing and the current view is the last of them,
    or still 0. *)
Definition announced (p : Pacemaker) : Prop :=
  increasing (newViewChan p) ∧ Forall (λ v, 0 < v ≤ curView p) (newViewChan p)
  ∧ curView p = default 0 (last (newViewChan p)).

Lemma advance_announced view p :
  announced p → 0 ≤ view < max_int64 → announced (advance view p) ∧ curView p ≤ curView (advance view p).
Proof.
  intros (H1 & H2 & H3) Hv. unfold advance. case_decide; [by split; [split_and!|lia]|].
  unfold announced. simpl. rewrite int64_succ by (unfold_ints; lia). rewrite last_snoc. simpl.
  split_and!; [| |done|lia].
  - apply increasing_snoc; [done|]. eapply Forall_impl; [done|]. simpl. lia.
  - apply Forall_app. split; [|by repeat constructor; lia]. eapply Forall_impl; [done|]. simpl. lia.
Qed.

Lemma pm_step_views c s :
  announced s.1 → call_bounded c →
  announced (pm_step s c).1 ∧ curView s.1 ≤ curView (pm_step s c).1.
Proof.
  intros Ha Hc. destruct c as [tmo|view]; simpl; [|by apply advance_announced].
  unfold pm_ProcessRemoteTmo. case_decide; [done|].
  destruct (AddTmo _ _) as [tcl [b [tc|]]]; simpl; done.
Qed.

Lemma pm_run_snoc n cs c : pm_run n (cs ++ [c]) = pm_step (pm_run n cs) c.
Proof. unfold pm_run. by rewrite foldl_app. Qed.

(** Views only go forward.  Over every sequence of timeout messages and
    view changes whose views stay below the largest 64-bit integer, the views
    announced on the channel are strictly increasing, the current view is the
    last one announced (0 before any), and no further call lowers it. *)
Theorem pacemaker_views_increase n cs c :
  Forall call_bounded (cs ++ [c]) →
  increasing (newViewChan (pm_run n cs).1)
  ∧ curView (pm_run n cs).1 = default 0 (last (newViewChan (pm_run n cs).1))
  ∧ curView (pm_run n cs).1 ≤ curView (pm_run n (cs ++ [c])).1.
Proof.
  intros [Hcs [Hc _]%Forall_cons_1]%Forall_app.
  assert (announced (pm_run n cs).1) as Ha.
  { induction cs as [|d cs IH] using rev_ind.
    - split_and!; [constructor|constructor|done].
    - apply Forall_app in Hcs as [Hcs [Hd _]%Forall_cons_1]. rewrite pm_run_snoc.
      apply pm_step_views; [by apply IH|done]. }
  rewrite pm_run_snoc. destruct (pm_step_views c (pm_run n cs) Ha Hc) as [_ Hle].
  destruct Ha as (? & _ & ?). done.
Qed.

Lemma pacemaker_views_increase_witness :
  newViewChan (pm_run 4 [CallAdvance 0; CallAdvance 3; CallAdvance 2]).1 = [1; 4]
  ∧ increasing (newViewChan (pm_run 4 [CallAdvance 0; CallAdvance 3; CallAdvance 2]).1).
Proof.
  split; [by vm_compute|].
  apply (pacemaker_views_increase 4 [CallAdvance 0; CallAdvance 3; CallAdvance 2] (CallAdvance 9)).
  repeat constructor; by vm_compute.
Defined.

(** ** Calls with 64-bit views

    The current view moves back only by the wrap-around of the largest view,
    which puts the smallest one on the channel. *)
Definition wrapped (p : Pacemaker) : Prop := min_int64 ∈ newViewChan p.

Definition pm_call_step (p p' : Pacemaker) : Prop :=
  (∃ tmo r, pm_ProcessRemoteTmo tmo p = Ok (p', r)) ∨ (∃ view, is_int64 view ∧ p' = advance view p).
Definition pm_reaches : Pacemaker → Pacemaker → Prop := rtc pm_call_step.

#[global] Instance pm_reaches_preorder : PreOrder pm_reaches.
Proof. apply rtc_po. Qed.

Lemma pm_ProcessRemoteTmo_views tmo p p' r :
  pm_ProcessRemoteTmo tmo p = Ok (p', r) → curView p' = curView p ∧ newViewChan p' = newViewChan p.
Proof.
  unfold pm_ProcessRemoteTmo. case_decide; [by intros [= <- <-]|].
  destruct (AddTmo _ _) as [tcl r']. by intros [= <- <-].
Qed.

Lemma pm_reaches_chan p p' : pm_reaches p p' → newViewChan p `prefix_of` newViewChan p'.
Proof.
  induction 1 as [|p1 p2 p3 Hs _ IH]; [done|]. etrans; [|exact IH].
  destruct Hs as [(tmo & r & (_ & ->)%pm_ProcessRemoteTmo_views)|(view & _ & ->)]; [done|].
  unfold advance. case_decide; [done|by eexists].
Qed.

Lemma wrapped_reaches p p' : pm_reaches p p' → wrapped p → wrapped p'.
Proof. intros [l Hl]%pm_reaches_chan Hw. unfold wrapped. rewrite Hl. set_solver. Qed.

(** The announced views are 64-bit integers and, until the wrap-around, strictly
    increase up to the current view. *)
Record paced (p : Pacemaker) : Prop := {
  pc_view : is_int64 (curView p);
  pc_chan : Forall is_int64 (newViewChan p);
  pc_order : wrapped p ∨ (increasing (newViewChan p) ∧ Forall (λ v, v ≤ curView p) (newViewChan p))
}.

Lemma paced_new n : paced (NewPacemaker n).
Proof. split; [done|constructor|]. right. split; constructor. Qed.

Lemma paced_advance view p : is_int64 view → paced p → paced (advance view p).
Proof.
  intros Hv [I1 I2 I3]. unfold advance. case_decide; [done|].
  split; simpl; [apply int64_range|apply Forall_app; split; [done|repeat constructor; apply int64_range]|].
  unfold wrapped in *. simpl. destruct I3 as [I3|[I3 I4]]; [left; set_solver|].
  destruct (decide (view < max_int64)).
  - right. rewrite int64_succ by done. split.
    + apply increasing_snoc; [done|]. eapply Forall_impl; [done|]. simpl. lia.
    + apply Forall_app. split; [|repeat constructor; lia]. eapply Forall_impl; [done|]. simpl. lia.
  - left. assert (view = max_int64) as -> by (unfold_ints; lia).
    apply elem_of_app. right. by apply list_elem_of_singleton.
Qed.

Lemma paced_reaches p p' : pm_reaches p p' → paced p → paced p'.
Proof.
  induction 1 as [|p1 p2 p3 Hs _ IH]; [done|]. intros Hp. apply IH.
  destruct Hs as [(tmo & r & (H1 & H2)%pm_ProcessRemoteTmo_views)|(view & Hv & ->)];
    [|by apply paced_advance].
  destruct Hp as [I1 I2 I3]. split; unfold wrapped; by rewrite ?H1, ?H2.
Qed.

(** ** Timeout certificates *)

(** The two ways through [AddTmo]. *)
Lemma AddTmo_spec tcl tmo :
  let v := tmo_View tmo in
  (tmo_superMajority tcl v = true ∧ AddTmo tcl tmo = (tcl, (false, None)))
  ∨ (tmo_superMajority tcl v = false ∧
     let tcl' := MkTimeoutController (tcl_n tcl)
                   (<[v := <[tmo_NodeID tmo := tmo]> (timeouts_of tcl v)]> (timeouts tcl)) in
     AddTmo tcl tmo = (tcl', if tmo_superMajority tcl' v
                             then (true, Some (NewTC v (timeouts_of tcl' v))) else (false, None))
     ∧ ∀ w, timeouts_of tcl' w = if decide (v = w) then <[tmo_NodeID tmo := tmo]> (timeouts_of tcl v)
                                 else timeouts_of tcl w).
Proof.
  unfold AddTmo. destruct (tmo_superMajority tcl (tmo_View tmo)) eqn:E; [by left|right].
  split; [done|]. simpl. split; [by destruct (tmo_superMajority (MkTimeoutController _ _) _)|].
  intros w. unfold timeouts_of at 1. simpl.
  destruct (decide (tmo_View tmo = w)) as [<-|]; [by rewrite lookup_insert_eq|by rewrite lookup_insert_ne].
Qed.

(** A certificate has the view of the message that completed it. *)
Lemma pm_ProcessRemoteTmo_TC tmo p p' r :
  pm_ProcessRemoteTmo tmo p = Ok (p', r) → ∀ tc, r.2 = Some tc → tc_View tc = tmo_View tmo.
Proof.
  unfold pm_ProcessRemoteTmo. case_decide; [by intros [= <- <-]|].
  destruct (AddTmo_spec (timeoutController p) tmo) as [[_ ->]|(_ & -> & _)]; [by intros [= <- <-]|].
  intros [= <- <-]. destruct (tmo_superMajority _ _); [|done]. by intros tc [= <-].
Qed.

(** What the controller and the certificates returned so far say of the calls. *)
Record tmo_inv (n : Z) (cs : list pm_call) (s : Pacemaker * list TC) : Prop := {
  ti_n : tcl_n (timeoutController s.1) = n;
  ti_sent : ∀ v, dom (timeouts_of (timeoutController s.1) v) ⊆ senders v cs;
  ti_built : ∀ v, v ∈ tc_View <$> s.2 ↔ tmo_superMajority (timeoutController s.1) v = true;
  ti_once : NoDup (tc_View <$> s.2);
  ti_heard : ∀ v, curView s.1 ≤ v → tmo_superMajority (timeoutController s.1) v = false →
               senders v cs ⊆ dom (timeouts_of (timeoutController s.1) v)
}.

Lemma tmo_superMajority_ext tcl tcl' v :
  tcl_n tcl = tcl_n tcl' → timeouts_of tcl v = timeouts_of tcl' v →
  tmo_superMajority tcl v = tmo_superMajority tcl' v.
Proof. unfold tmo_superMajority, tmo_total. by intros -> ->. Qed.

Lemma senders_tmo v tmo :
  senders v [CallTmo tmo] = if decide (tmo_View tmo = v) then {[tmo_NodeID tmo]} else ∅.
Proof. unfold senders. simpl. destruct (decide (tmo_View tmo = v)); simpl; set_solver. Qed.

(** A timeout message that is stored. *)
Lemma tmo_inv_stored n cs p tcs tmo tcl' r :
  tmo_inv n cs (p, tcs) → AddTmo (timeoutController p) tmo = (tcl', r) →
  tmo_inv n (cs ++ [CallTmo tmo])
    (MkPacemaker (curView p) (newViewChan p) tcl', match r.2 with Some tc => tcs ++ [tc] | None => tcs end).
Proof.
  intros [I1 I2 I3 I4 I5] Hadd. simpl in *.
  destruct (AddTmo_spec (timeoutController p) tmo) as [[Hsm Heq]|(Hsm & Heq & Hof)];
    rewrite Heq in Hadd; injection Hadd as <- <-; simpl.
  - split; simpl; try done.
    + intros v. rewrite senders_snoc. specialize (I2 v). set_solver.
    + intros v Hv Hf. rewrite senders_snoc, senders_tmo. specialize (I5 v Hv Hf).
      destruct (decide (tmo_View tmo = v)) as [E|]; [rewrite E in Hsm; congruence|set_solver].
  - set (tcl' := MkTimeoutController _ _) in *.
    assert (∀ v, tmo_View tmo ≠ v →
      tmo_superMajority tcl' v = tmo_superMajority (timeoutController p) v) as Hother.
    { intros v Hne. apply tmo_superMajority_ext; [done|]. by rewrite Hof, decide_False. }
    assert (tmo_View tmo ∉ tc_View <$> tcs) as Hnew by (rewrite I3, Hsm; done).
    assert (∀ v, dom (timeouts_of tcl' v) ⊆ senders v (cs ++ [CallTmo tmo])) as Hsub.
    { intros v. rewrite Hof, senders_snoc, senders_tmo. specialize (I2 v).
      destruct (decide (tmo_View tmo = v)) as [<-|]; [rewrite dom_insert_L|]; set_solver. }
    assert (∀ v, curView p ≤ v → tmo_superMajority tcl' v = false →
      senders v (cs ++ [CallTmo tmo]) ⊆ dom (timeouts_of tcl' v)) as Hsup.
    { intros v Hv Hf. rewrite Hof, senders_snoc, senders_tmo.
      destruct (decide (tmo_View tmo = v)) as [<-|Hne].
      - specialize (I5 _ Hv Hsm). rewrite dom_insert_L. set_solver.
      - rewrite Hother in Hf by done. specialize (I5 v Hv Hf). set_solver. }
    destruct (tmo_superMajority tcl' (tmo_View tmo)) eqn:Hb; split; simpl; try done.
    + intros v. rewrite fmap_app, elem_of_app. simpl. rewrite list_elem_of_singleton.
      destruct (decide (tmo_View tmo = v)) as [<-|Hne]; [rewrite Hb; tauto|].
      rewrite Hother, <- I3 by done. split; [intros [?|?]; congruence|by left].
    + rewrite fmap_app. apply NoDup_app. split_and!; [done| |apply NoDup_singleton].
      intros x Hx ->%list_elem_of_singleton. done.
    + intros v. destruct (decide (tmo_View tmo = v)) as [<-|Hne]; [rewrite Hb, I3, Hsm; done|].
      by rewrite Hother, <- I3.
Qed.

Lemma tmo_inv_step n cs s c :
  tmo_inv n cs s → call_bounded c → announced s.1 → tmo_inv n (cs ++ [c]) (pm_step s c).
Proof.
  destruct s as [p tcs]. intros I Hc Ha. destruct c as [tmo|view]; simpl.
  - unfold pm_ProcessRemoteTmo. case_decide as Hold.
    + destruct I as [I1 I2 I3 I4 I5]. split; simpl in *; try done.
      * intros v. rewrite senders_snoc. specialize (I2 v). set_solver.
      * intros v Hv Hf. rewrite senders_snoc, senders_tmo, decide_False by lia.
        specialize (I5 v Hv Hf). set_solver.
    + destruct (AddTmo (timeoutController p) tmo) as [tcl' [b o]] eqn:Hadd.
      pose proof (tmo_inv_stored n cs p tcs tmo tcl' (b, o) I Hadd) as HI. by destruct o.
  - destruct (advance_announced view p Ha Hc) as [_ Hle].
    assert (timeoutController (advance view p) = timeoutController p) as Hsame
      by (unfold advance; by case_decide).
    destruct I as [I1 I2 I3 I4 I5]. simpl in *.
    split; simpl; rewrite ?Hsame; try done; intros v; rewrite senders_snoc.
    + specialize (I2 v). set_solver.
    + intros Hv Hf. specialize (I5 v ltac:(lia) Hf). unfold senders at 2. simpl. set_solver.
Qed.

(** [C20] A timeout certificate for a view is returned at most once, only when
    more than two thirds of the nodes have sent a timeout message for the view,
    and certainly when that many have while the replica has not moved past it,
    in any interleaving of timeout messages and view changes to views from 0 up to, and
    not including, the largest 64-bit integer.  (The package's test [TestRemoteTmo4] asks
    for a certificate also with the fourth message of four nodes; the code returns nil
    there, see [fourth_tmo_returns_nil].) *)
Theorem timeout_certificates n cs :
  0 ≤ threshold n → Forall call_bounded cs →
  let '(p, tcs) := pm_run n cs in
  NoDup (tc_View <$> tcs)
  ∧ ∀ v, (v ∈ tc_View <$> tcs → threshold n < Z.of_nat (base.size (senders v cs)))
       ∧ (curView p ≤ v → threshold n < Z.of_nat (base.size (senders v cs)) → v ∈ tc_View <$> tcs).
Proof.
  intros Hn Hcs.
  assert (tmo_inv n cs (pm_run n cs) ∧ announced (pm_run n cs).1) as [I _].
  { induction cs as [|c cs IH] using rev_ind.
    - split; [|split_and!; [constructor|constructor|done]].
      assert (∀ v, timeouts_of (NewTimeoutController n) v = ∅) as Hnone by done.
      split; simpl; try done.
      + intros v. unfold tmo_superMajority, tmo_total.
        rewrite Hnone, map_size_empty.
        rewrite bool_decide_eq_true. unfold threshold in Hn. simpl. split; [set_solver|lia].
      + constructor.
    - apply Forall_app in Hcs as [Hcs [Hc _]%Forall_cons_1]. destruct (IH Hcs) as [I Ha].
      rewrite pm_run_snoc. split; [by apply tmo_inv_step|by apply pm_step_views]. }
  destruct (pm_run n cs) as [p tcs]. destruct I as [I1 I2 I3 I4 I5]. simpl in *.
  split; [done|]. intros v. rewrite I3. unfold tmo_superMajority, tmo_total in *.
  rewrite I1 in *. fold (threshold n) in *. rewrite bool_decide_eq_true.
  rewrite <- (fin_map_dom.size_dom (D := gset NodeID)). split.
  - intros Hlt. pose proof (subseteq_size _ _ (I2 v)). lia.
  - intros Hv Hlt. destruct (bool_decide_reflect
      (threshold n < Z.of_nat (base.size (dom (timeouts_of (timeoutController p) v))))) as [|Hle]; [done|].
    exfalso. apply Hle. assert (senders v cs ⊆ dom (timeouts_of (timeoutController p) v)) as Hs.
    { apply I5; [done|].
      rewrite <- (fin_map_dom.size_dom (D := gset NodeID)). by apply bool_decide_eq_false. }
    pose proof (subseteq_size _ _ Hs). lia.
Qed.

(** The run of the package's tests: four nodes, timeout messages for view 2. *)
Definition sample_tmos (k : nat) : list pm_call :=
  (λ i, CallTmo (MkTMO 2 (NewNodeID (Z.of_nat (S i))) None)) <$> seq 0 k.

Lemma timeout_certificates_witness :
  0 ≤ threshold 4 ∧ tc_View <$> (pm_run 4 (sample_tmos 4)).2 = [2]
  ∧ NoDup (tc_View <$> (pm_run 4 (sample_tmos 4)).2).
Proof.
  split; [by vm_compute|]. split; [by vm_compute|].
  assert (0 ≤ threshold 4) as Hn by (by vm_compute).
  assert (Forall call_bounded (sample_tmos 4)) as Hcs by (repeat constructor).
  pose proof (timeout_certificates 4 (sample_tmos 4) Hn Hcs) as H.
  destruct (pm_run 4 (sample_tmos 4)) as [p tcs]. exact (proj1 H).
Defined.

(** The fourth message of the tests: no certificate is built and none is returned. *)
Example fourth_tmo_returns_nil :
  snd <$> (match pm_ProcessRemoteTmo (MkTMO 2 "4" None) (pm_run 4 (sample_tmos 3)).1 with
           | Ok r => Some r | Fault _ => None end) = Some (false, None).
Proof. by vm_compute. Qed.

(** Advancing past the largest view wraps around to the smallest. *)
Example AdvanceView_wraps : curView (advance max_int64 (NewPacemaker 4)) = min_int64.
Proof. by vm_compute. Qed.
