(* ===== verification/Mempool.v ===== *)
(** * The transaction pool ([src/mempool/])

    [Backend] is a doubly linked list of transactions with a limit on insertion
    at the back and a Bloom filter of the identifiers seen; [MemPool] and
    [Producer] are thin layers over it.  The bit set of the filter is the
    [willf/bitset] library, a parameter with the documented behaviour of its
    [New], [Set] and [Test]. *)
From S2P Require Import Prelude Identity Sha1 Db Crypto Types.

Local Open Scope Z_scope.

(** ** The Bloom filter (bloom.go) *)

Class BitSet := {
  bitset : Type;
  bitset_New : Z → bitset;
  bitset_Set : bitset → Z → bitset;
  bitset_Test : bitset → Z → bool
}.

(** The documentation of the library: a new set is empty, and [Set] sets one bit. *)
Class BitSetLaws `{BitSet} := {
  Test_New : ∀ n i, bitset_Test (bitset_New n) i = false;
  Test_Set : ∀ s i j, bitset_Test (bitset_Set s i) j = (bool_decide (i = j) || bitset_Test s j)
}.

Definition DEFAULT_SIZE : Z := Z.shiftl 2 24.
Definition seeds : list Z := [7; 11; 13; 31; 37; 61].

Record SimpleHash := MkSimpleHash { sh_Cap : Z; sh_Seed : Z }.

(** Lines 45-51: the polynomial hash, reduced to the capacity by a mask. *)
Definition hash_loop (seed : Z) (value : list Z) : Z :=
  foldl (λ result c, uint64 (uint64 (result * seed) + c)) 0 value.
Definition hash (s : SimpleHash) (value : string) : Z :=
  Z.land (uint64 (sh_Cap s - 1)) (hash_loop (sh_Seed s) (bytes_of_string value)).

Section bloom.
Context `{BitSet}.

Record BloomFilter := MkBloomFilter { bf_Set : bitset; bf_Funcs : list SimpleHash }.

Definition NewBloomFilter : BloomFilter :=
  MkBloomFilter (bitset_New DEFAULT_SIZE) (MkSimpleHash DEFAULT_SIZE <$> seeds).

Definition bf_Add (bf : BloomFilter) (value : string) : BloomFilter :=
  MkBloomFilter (foldl (λ s f, bitset_Set s (hash f value)) (bf_Set bf) (bf_Funcs bf)) (bf_Funcs bf).

Definition bf_Contains (bf : BloomFilter) (value : string) : bool :=
  if decide (value = "") then false
  else foldl (λ ret f, ret && bitset_Test (bf_Set bf) (hash f value)) true (bf_Funcs bf).

(** ** The list of transactions (backend.go) *)

Record Backend := MkBackend {
  txns : list Transaction;
  limit : Z;
  totalReceived : Z;
  bloom : BloomFilter
}.

Definition NewBackend (limit : Z) : Backend := MkBackend [] limit 0 NewBloomFilter.

Definition size (b : Backend) : Z := Z.of_nat (length (txns b)).

(** Lines 27-38: refused only when the list is already longer than the limit. *)
Definition insertBack (txn : option Transaction) (b : Backend) : Backend :=
  match txn with
  | None => b
  | Some tx =>
      if decide (limit b < size b) then b
      else MkBackend (txns b ++ [tx]) (limit b) (int64 (totalReceived b + 1)) (bloom b)
  end.

Definition insertFront (txn : option Transaction) (b : Backend) : Backend :=
  match txn with
  | None => b
  | Some tx => MkBackend (tx :: txns b) (limit b) (totalReceived b) (bloom b)
  end.

Definition front (b : Backend) : Backend * option Transaction :=
  match txns b with
  | [] => (b, None)
  | tx :: rest => (MkBackend rest (limit b) (totalReceived b) (bloom b), Some tx)
  end.

(** Lines 75-78. *)
Fixpoint take_front (i : nat) (b : Backend) (batch : list (option Transaction))
  : Backend * list (option Transaction) :=
  match i with
  | O => (b, batch)
  | S i => let '(b, tx) := front b in take_front i b (batch ++ [tx])
  end.

(** Lines 66-80: [make] panics on a negative capacity. *)
Definition some (n : Z) : prog Backend (list (option Transaction)) := λ b,
  let batchSize := if decide (n ≤ size b) then n else size b in
  if decide (batchSize < 0) then Fault MakeCapOutOfRange
  else Ok (take_front (Z.to_nat batchSize) b []).

Definition addToBloom (id : string) (b : Backend) : Backend :=
  MkBackend (txns b) (limit b) (totalReceived b) (bf_Add (bloom b) id).

(** ** The pool and the producer (mempool.go, producer.go)

    [addNew] reads the identifier of the transaction after inserting it, so a
    nil transaction panics there. *)

Definition addNew (tx : option Transaction) : prog Backend () := λ b,
  let b := insertBack tx b in
  tx ← of_option NilDereference tx;
  Ok (addToBloom (tx_ID tx) b, ()).

Definition addOld (tx : option Transaction) : prog Backend () := modify (insertFront tx).

(** mempool.go, lines 8-19: the pool is its backend. *)
Definition NewMemPool (MemSize : Z) : Backend := NewBackend MemSize.

(** The two configuration values the producer reads. *)
Definition NewProducer (MemSize : Z) : Backend := NewMemPool MemSize.
Definition GeneratePayload (BSize : Z) : prog Backend (list (option Transaction)) := some BSize.
Definition AddTxn (txn : option Transaction) : prog Backend () := addNew txn.
Definition CollectTxn (txn : option Transaction) : prog Backend () := addOld txn.
Definition TotalReceivedTxNo (b : Backend) : Z := totalReceived b.
End bloom.

(** ** The bits of the filter *)

Lemma hash_loop_range seed value : 0 ≤ hash_loop seed value.
Proof.
  unfold hash_loop. induction value as [|c value IH] using rev_ind; [done|].
  rewrite foldl_app. simpl. apply uint64_range.
Qed.

Lemma hash_range seed value : 0 ≤ hash (MkSimpleHash DEFAULT_SIZE seed) value < DEFAULT_SIZE.
Proof.
  unfold hash. change (uint64 (sh_Cap (MkSimpleHash DEFAULT_SIZE seed) - 1)) with (Z.ones 25).
  rewrite Z.land_comm, Z.land_ones by lia. change DEFAULT_SIZE with (2 ^ 25).
  apply Z.mod_pos_bound. lia.
Qed.

Section bloom_lemmas.
Context `{BitSetLaws}.

Lemma Test_foldl_Set s (idxs : list Z) j :
  bitset_Test (foldl bitset_Set s idxs) j = (bool_decide (j ∈ idxs) || bitset_Test s j).
Proof.
  revert s. induction idxs as [|i idxs IH]; intros s; simpl; [done|].
  rewrite IH, Test_Set. rewrite orb_assoc. f_equal.
  repeat case_bool_decide; simpl; set_solver.
Qed.

Lemma bf_Add_bits bf value :
  bf_Set (bf_Add bf value) = foldl bitset_Set (bf_Set bf) ((λ f, hash f value) <$> bf_Funcs bf).
Proof. unfold bf_Add. simpl. generalize (bf_Set bf). induction (bf_Funcs bf); intros s; simpl; auto. Qed.

(** [Contains] tests every bit of the value. *)
Lemma bf_Contains_spec bf value :
  bf_Contains bf value = true ↔
  value ≠ "" ∧ ∀ f, f ∈ bf_Funcs bf → bitset_Test (bf_Set bf) (hash f value) = true.
Proof.
  unfold bf_Contains. destruct (decide (value = "")) as [->|Hne]; [split; [done|]; tauto|].
  assert (∀ fs r, foldl (λ ret f, ret && bitset_Test (bf_Set bf) (hash f value)) r fs = true
    ↔ r = true ∧ ∀ f, f ∈ fs → bitset_Test (bf_Set bf) (hash f value) = true) as Hfold.
  { intros fs. induction fs as [|f fs IH]; intros r; simpl.
    - split; [intros ->; split; [done|set_solver]|tauto].
    - rewrite IH, andb_true_iff. setoid_rewrite elem_of_cons. split.
      + intros [[-> Hf] Hfs]. split; [done|]. intros g [->|Hg]; auto.
      + intros [-> Hfs]. split; [split; [done|]|]; auto. }
  rewrite Hfold. tauto.
Qed.

Lemma bf_Contains_Add bf value w :
  bf_Contains (bf_Add bf value) w = true ↔
  w ≠ "" ∧ ∀ f, f ∈ bf_Funcs bf →
    (∃ g, hash f w = hash g value ∧ g ∈ bf_Funcs bf) ∨ bitset_Test (bf_Set bf) (hash f w) = true.
Proof.
  rewrite bf_Contains_spec. change (bf_Funcs (bf_Add bf value)) with (bf_Funcs bf).
  rewrite bf_Add_bits. setoid_rewrite Test_foldl_Set. setoid_rewrite orb_true_iff.
  setoid_rewrite bool_decide_eq_true. by setoid_rewrite list_elem_of_fmap.
Qed.
End bloom_lemmas.

(** ** Runs of the producer

    Any sequence of the producer's calls, from a new producer.  Next to the
    state, the run records the transactions that [AddTxn] accepted, those that
    [CollectTxn] put back, and the payloads produced, in order. *)

Inductive pool_op := OpAdd (tx : Transaction) | OpCollect (tx : Transaction) | OpPayload.

Section pool.
Context `{BitSet}.

Record pool := MkPool {
  backend : Backend;
  accepted : list Transaction;
  collected : list Transaction;
  produced : list (option Transaction)
}.

Definition pool_step (BSize : Z) (s : pool) (op : pool_op) : outcome pool :=
  match op with
  | OpAdd tx =>
      '(b, _) ← AddTxn (Some tx) (backend s);
      mret (MkPool b (if decide (limit (backend s) < size (backend s)) then accepted s
                      else accepted s ++ [tx]) (collected s) (produced s))
  | OpCollect tx =>
      '(b, _) ← CollectTxn (Some tx) (backend s);
      mret (MkPool b (accepted s) (collected s ++ [tx]) (produced s))
  | OpPayload =>
      '(b, batch) ← GeneratePayload BSize (backend s);
      mret (MkPool b (accepted s) (collected s) (produced s ++ batch))
  end.

Definition pool_run (MemSize BSize : Z) (ops : list pool_op) : outcome pool :=
  foldl (λ s op, s ← s; pool_step BSize s op) (Ok (MkPool (NewProducer MemSize) [] [] [])) ops.

Lemma pool_run_snoc MemSize BSize ops op :
  pool_run MemSize BSize (ops ++ [op]) = (s ← pool_run MemSize BSize ops; pool_step BSize s op).
Proof. unfold pool_run. by rewrite foldl_app. Qed.

Lemma take_front_spec i b batch :
  (i ≤ length (txns b))%nat →
  take_front i b batch
  = (MkBackend (drop i (txns b)) (limit b) (totalReceived b) (bloom b),
     batch ++ (Some <$> take i (txns b))).
Proof.
  revert b batch. induction i as [|i IH]; intros [ts lim tot bl] batch Hlen; simpl in *.
  - by rewrite app_nil_r.
  - destruct ts as [|tx ts]; simpl in *; [lia|]. unfold front. simpl.
    rewrite IH by (simpl; lia). simpl. by rewrite <- app_assoc.
Qed.

(** A payload is the front of the pool, up to [n] transactions. *)
Lemma some_spec n b :
  0 ≤ n →
  some n b = Ok (MkBackend (drop (Z.to_nat n) (txns b)) (limit b) (totalReceived b) (bloom b),
                 Some <$> take (Z.to_nat n) (txns b)).
Proof.
  intros Hn. unfold some, size.
  destruct (decide (n ≤ Z.of_nat (length (txns b)))) as [Hle|Hle];
    (destruct (decide (_ < 0)); [lia|]).
  - by rewrite take_front_spec by lia.
  - rewrite take_front_spec by lia. rewrite Nat2Z.id.
    by rewrite !drop_ge, !take_ge by lia.
Qed.

Lemma take_front_bloom i b batch : bloom (take_front i b batch).1 = bloom b.
Proof.
  revert b batch. induction i as [|i IH]; intros b batch; simpl; [done|].
  destruct (front b) as [b' tx] eqn:E. rewrite IH.
  unfold front in E. destruct (txns b); injection E as <- _; done.
Qed.

Lemma some_bloom n b b' batch : some n b = Ok (b', batch) → bloom b' = bloom b.
Proof.
  unfold some. destruct (decide (_ < 0)); [done|]. intros Hb. injection Hb as Hb.
  apply (f_equal (bloom ∘ fst)) in Hb. simpl in Hb. by rewrite <- Hb, take_front_bloom.
Qed.

Definition no_collect (op : pool_op) : Prop := match op with OpCollect _ => False | _ => True end.

(** What every run keeps: nothing is lost or duplicated, the order is kept when
    nothing is put back, the counter counts the accepted, the size is bounded. *)
Record pool_inv (MemSize : Z) (ops : list pool_op) (s : pool) : Prop := {
  pi_limit : limit (backend s) = MemSize;
  pi_perm : produced s ++ (Some <$> txns (backend s)) ≡ₚ Some <$> accepted s ++ collected s;
  pi_fifo : Forall no_collect ops →
            produced s ++ (Some <$> txns (backend s)) = Some <$> accepted s;
  pi_count : totalReceived (backend s) = int64 (Z.of_nat (length (accepted s)));
  pi_size : size (backend s) ≤ MemSize + 1 + Z.of_nat (length (collected s))
}.

Lemma pool_inv_step MemSize BSize ops s op :
  0 ≤ BSize → pool_inv MemSize ops s →
  ∃ s', pool_step BSize s op = Ok s' ∧ pool_inv MemSize (ops ++ [op]) s'.
Proof.
  intros HB [I1 I2 I3 I4 I5]. destruct op as [tx|tx|]; simpl.
  - unfold AddTxn, addNew. simpl. eexists. split; [done|]. case_decide as Hfull; split; simpl; try done.
    + intros [Hops _]%Forall_app. by apply I3.
    + rewrite !fmap_app. simpl. rewrite app_assoc, I2, fmap_app. solve_Permutation.
    + intros [Hops _]%Forall_app. rewrite !fmap_app, app_assoc, I3; done.
    + rewrite I4, int64_add_l, length_app. simpl. f_equal. lia.
    + unfold size in *. simpl. rewrite length_app. simpl. lia.
  - unfold CollectTxn, addOld. simpl. eexists. split; [done|]. split; simpl; try done.
    + rewrite !fmap_app in *. simpl. rewrite <- Permutation_middle, I2. solve_Permutation.
    + by intros [_ [[] _]%Forall_cons_1]%Forall_app.
    + unfold size in *. simpl. rewrite length_app. simpl. lia.
  - unfold GeneratePayload. rewrite some_spec by done. simpl. eexists. split; [done|].
    assert (∀ l : list (option Transaction),
      (l ++ (Some <$> take (Z.to_nat BSize) (txns (backend s))))
      ++ (Some <$> drop (Z.to_nat BSize) (txns (backend s)))
      = l ++ (Some <$> txns (backend s))) as Hsplit.
    { intros l. rewrite <- app_assoc, <- fmap_app. by rewrite take_drop. }
    split; simpl; rewrite ?Hsplit; try done.
    + intros [Hops _]%Forall_app. by apply I3.
    + unfold size in *. simpl. rewrite length_drop. lia.
Qed.

Lemma pool_inv_run MemSize BSize ops :
  0 ≤ MemSize → 0 ≤ BSize →
  ∃ s, pool_run MemSize BSize ops = Ok s ∧ pool_inv MemSize ops s.
Proof.
  intros HM HB. induction ops as [|op ops IH] using rev_ind.
  - eexists. split; [done|]. split; try done. unfold size. simpl. lia.
  - destruct IH as (s & Hs & I). rewrite pool_run_snoc, Hs. simpl. by apply pool_inv_step.
Qed.
End pool.

(** ** The properties *)

(** [C21] The pool never loses, duplicates or invents a transaction, and never
    panics.  After every sequence of [AddTxn], [CollectTxn] and [GeneratePayload]
    the payloads produced so far together with the pool are a permutation of the
    transactions accepted and put back; when nothing was put back they are the
    accepted transactions in the order of their arrival (first in, first out);
    [totalReceived] counts the accepted; and the pool holds at most one more than
    the configured limit, plus what was put back. *)
Theorem mempool_fifo `{BitSet} MemSize BSize ops :
  0 ≤ MemSize → 0 ≤ BSize →
  ∃ s, pool_run MemSize BSize ops = Ok s
    ∧ produced s ++ (Some <$> txns (backend s)) ≡ₚ Some <$> accepted s ++ collected s
    ∧ (Forall no_collect ops → produced s ++ (Some <$> txns (backend s)) = Some <$> accepted s)
    ∧ TotalReceivedTxNo (backend s) = int64 (Z.of_nat (length (accepted s)))
    ∧ size (backend s) ≤ MemSize + 1 + Z.of_nat (length (collected s)).
Proof.
  intros HM HB. destruct (pool_inv_run MemSize BSize ops HM HB) as (s & Hs & [? ? ? ? ?]).
  exists s. split_and!; done.
Qed.

(** The Bloom filter has no false negatives: after any sequence of the
    producer's calls, [Contains] holds of the identifier of every transaction
    passed to [AddTxn], accepted or not, unless the identifier is empty; and
    every bit it sets or tests is below the size of the bit set. *)
Theorem bloom_no_false_negatives `{BitSetLaws} MemSize BSize ops s :
  pool_run MemSize BSize ops = Ok s →
  (∀ tx, OpAdd tx ∈ ops → tx_ID tx ≠ "" → bf_Contains (bloom (backend s)) (tx_ID tx) = true)
  ∧ ∀ f value, f ∈ bf_Funcs (bloom (backend s)) → 0 ≤ hash f value < DEFAULT_SIZE.
Proof.
  intros Hs. assert (bf_Funcs (bloom (backend s)) = MkSimpleHash DEFAULT_SIZE <$> seeds ∧
    ∀ tx, OpAdd tx ∈ ops → tx_ID tx ≠ "" → bf_Contains (bloom (backend s)) (tx_ID tx) = true)
    as [Hf Hall]; [|split; [done|]].
  2:{ intros f value. rewrite Hf. intros (seed & -> & _)%list_elem_of_fmap. apply hash_range. }
  revert s Hs. induction ops as [|op ops IH] using rev_ind; intros s Hs.
  { injection Hs as <-. split; [done|]. intros tx. set_solver. }
  rewrite pool_run_snoc in Hs. apply outcome_bind_ok in Hs as (s0 & Hs0 & Hs).
  destruct (IH s0 Hs0) as [Hf0 Hin0]. clear IH.
  destruct op as [tx|tx|]; simpl in Hs.
  - injection Hs as <-.
    assert (bloom (insertBack (Some tx) (backend s0)) = bloom (backend s0)) as Hb
      by (unfold insertBack; by case_decide).
    split; [simpl; by case_decide|]. intros w Hw Hne.
    change (bf_Contains (bf_Add (bloom (insertBack (Some tx) (backend s0))) (tx_ID tx)) (tx_ID w) = true).
    rewrite Hb. apply bf_Contains_Add. split; [done|]. intros f Hfin.
    apply elem_of_app in Hw as [Hw|[= ->]%list_elem_of_singleton]; [right|left; eauto].
    specialize (Hin0 w Hw Hne). rewrite bf_Contains_spec in Hin0. by apply Hin0.
  - injection Hs as <-. simpl. split; [done|]. intros w Hw. apply Hin0. set_solver.
  - apply outcome_bind_ok in Hs as ([b batch] & Hb & Hs). injection Hs as <-. simpl.
    apply some_bloom in Hb as ->. split; [done|]. intros w Hw. apply Hin0. set_solver.
Qed.

(** A payload is the front of the pool, up to the batch size; a negative batch size
    panics. *)
Lemma GeneratePayload_spec `{BitSet} BSize b :
  GeneratePayload BSize b
  = if decide (0 ≤ BSize) then
      Ok (MkBackend (drop (Z.to_nat BSize) (txns b)) (limit b) (totalReceived b) (bloom b),
          Some <$> take (Z.to_nat BSize) (txns b))
    else Fault MakeCapOutOfRange.
Proof.
  unfold GeneratePayload. case_decide as HB; [by apply some_spec|].
  unfold some. assert (0 ≤ size b) by (unfold size; lia).
  rewrite decide_True by (case_decide; lia). done.
Qed.

(** ** A concrete bit set *)

Definition sample_bitset : BitSet :=
  {| bitset := gset Z; bitset_New := λ _, ∅; bitset_Set := λ s i, {[i]} ∪ s;
     bitset_Test := λ s i, bool_decide (i ∈ s) |}.

Definition sample_bitset_laws : @BitSetLaws sample_bitset.
Proof.
  split; simpl.
  - intros n i. apply bool_decide_eq_false. set_solver.
  - intros s i j. repeat case_bool_decide; set_solver.
Qed.

Definition sample_tx (id : string) : Transaction :=
  MkTransaction (MkCommand 1 None "c" 1) ∅ 0 "1" id.
Definition sample_ops : list pool_op :=
  [OpAdd (sample_tx "a"); OpAdd (sample_tx "b"); OpAdd (sample_tx "c"); OpPayload].

Definition sample_produced : outcome (list (option Transaction) * list Transaction) :=
  s ← @pool_run sample_bitset 1 1 sample_ops; mret (produced s, accepted s).

(** With limit 1 and batches of one: the pool accepts two transactions, one more
    than the limit, and refuses the third. *)
Lemma mempool_fifo_witness :
  ∃ s, @pool_run sample_bitset 1 1 sample_ops = Ok s
    ∧ (produced s, accepted s) = ([Some (sample_tx "a")], [sample_tx "a"; sample_tx "b"])
    ∧ produced s ++ (Some <$> txns (backend s)) = Some <$> accepted s.
Proof.
  assert (sample_produced = Ok ([Some (sample_tx "a")], [sample_tx "a"; sample_tx "b"])) as Hp
    by (vm_compute; reflexivity).
  destruct (@mempool_fifo sample_bitset 1 1 sample_ops) as (s & Hs & _ & Hfifo & _);
    [lia|lia|].
  exists s. split; [exact Hs|]. unfold sample_produced in Hp. rewrite Hs in Hp.
  injection Hp as Hp1 Hp2. rewrite Hp1, Hp2. split; [reflexivity|].
  rewrite <- Hp1, <- Hp2. apply Hfifo. repeat constructor.
Defined.

Lemma bloom_no_false_negatives_witness :
  ∃ s, @pool_run sample_bitset 1 1 sample_ops = Ok s
    ∧ @bf_Contains sample_bitset (bloom (backend s)) "c" = true.
Proof.
  destruct (@pool_inv_run sample_bitset 1 1 sample_ops) as (s & Hs & _); [done|done|].
  exists s. split; [exact Hs|].
  apply (@bloom_no_false_negatives sample_bitset sample_bitset_laws 1 1 sample_ops s Hs)
    with (tx := sample_tx "c"); [set_solver|done].
Defined.
