(* ===== verification/Chained.v ===== *)
(** * The state shared by the chained protocols

    [src/hotstuff], [src/tchs] and [src/fasthostuff] declare the same fields:
    the pacemaker, the block store, the last voted and the preferred view, the
    highest certificate, and buffers of blocks and certificates that arrived
    early.  This file has that state, the environment of a replica (identity,
    configuration, election, cryptography), and the guarantees that all three
    protocols are proved to keep.

    Certificates are shared objects (file [Types]): the state holds their store.
    The channels of committed and forked blocks are the lists of the blocks sent
    on them, and the network is the list of the messages sent.  The channels hold 100
    blocks in the code (replica.go, lines 86-87), and a commit waits for the replica to
    take blocks while one is full; the lists are not bounded. *)
From S2P Require Import Prelude Identity Sha1 Election Db Crypto Types Quorum Forest BlockChain Pacemaker.

Local Open Scope Z_scope.

(** What a handler reads and never changes: [node.Node] (identity and Byzantine
    flag), the election, the configuration (strategy and number of nodes) and the
    cryptographic environment. *)
Class ReplicaEnv := {
  re_crypto :: CryptoEnv;
  re_range :: GoRange;
  re_election :: Election;
  re_ID : NodeID;
  re_IsByz : bool;
  re_Strategy : string;
  re_N : Z
}.

Definition FORK : string := "fork".

(** The capacity of the channels of committed and of forked blocks (replica.go, lines
    86-87). *)
Definition committedBlocks_capacity : nat := 100.

(** The messages a replica sends.  A timeout message is serialised when it is
    sent, with the certificate it points to.  A vote for which the replica is the
    collector is not sent: it is processed at once, and [OwnVote] records it. *)
Inductive output :=
  | Send (to : NodeID) (vote : Vote)
  | OwnVote (vote : Vote)
  | BroadcastTmo (view : Z) (id : NodeID) (highQC : option QC)
  | BroadcastVote (vote : Vote)
  | BroadcastBlock (block : Block) (qc : option QC).

(** What the replica did: it sent a message, a vote because of the block it votes
    for, or it committed, because of the certificate [qc] (found in the block
    [carrier] where the protocol commits on the certificate of a block). *)
Inductive deed :=
  | Sent (voted : option Block) (o : output)
  | Committed (qc : QC) (carrier : option Block) (committed forked : list Block).

(** The state.  The last field is not in the code, and no operation reads it: it
    records each deed with the state in which it was decided, so that a property can
    speak of that very state. *)
#[warnings="-register-all"]
Inductive chained := MkChained {
  store : QCStore;
  pm : Pacemaker;
  lastVotedView : Z;
  preferredView : Z;
  highQC : option QCptr;
  bc : BlockChain;
  committedBlocks : list Block;
  forkedBlocks : list Block;
  bufferedQCs : gmap Identifier (option QCptr);
  bufferedBlocks : gmap Z Block;
  network : list output;
  deeds : list (chained * deed)
}.

(** Assignments to the fields. *)
Section setters.
Context (s : chained).
Definition set_store (x : QCStore) : chained :=
  MkChained x (pm s) (lastVotedView s) (preferredView s) (highQC s) (bc s) (committedBlocks s)
    (forkedBlocks s) (bufferedQCs s) (bufferedBlocks s) (network s) (deeds s).
Definition set_pm (x : Pacemaker) : chained :=
  MkChained (store s) x (lastVotedView s) (preferredView s) (highQC s) (bc s) (committedBlocks s)
    (forkedBlocks s) (bufferedQCs s) (bufferedBlocks s) (network s) (deeds s).
Definition set_lastVotedView (x : Z) : chained :=
  MkChained (store s) (pm s) x (preferredView s) (highQC s) (bc s) (committedBlocks s)
    (forkedBlocks s) (bufferedQCs s) (bufferedBlocks s) (network s) (deeds s).
Definition set_preferredView (x : Z) : chained :=
  MkChained (store s) (pm s) (lastVotedView s) x (highQC s) (bc s) (committedBlocks s)
    (forkedBlocks s) (bufferedQCs s) (bufferedBlocks s) (network s) (deeds s).
Definition set_highQC (x : option QCptr) : chained :=
  MkChained (store s) (pm s) (lastVotedView s) (preferredView s) x (bc s) (committedBlocks s)
    (forkedBlocks s) (bufferedQCs s) (bufferedBlocks s) (network s) (deeds s).
Definition set_bc (x : BlockChain) : chained :=
  MkChained (store s) (pm s) (lastVotedView s) (preferredView s) (highQC s) x (committedBlocks s)
    (forkedBlocks s) (bufferedQCs s) (bufferedBlocks s) (network s) (deeds s).
Definition set_bufferedQCs (x : gmap Identifier (option QCptr)) : chained :=
  MkChained (store s) (pm s) (lastVotedView s) (preferredView s) (highQC s) (bc s)
    (committedBlocks s) (forkedBlocks s) x (bufferedBlocks s) (network s) (deeds s).
Definition set_bufferedBlocks (x : gmap Z Block) : chained :=
  MkChained (store s) (pm s) (lastVotedView s) (preferredView s) (highQC s) (bc s)
    (committedBlocks s) (forkedBlocks s) (bufferedQCs s) x (network s) (deeds s).

(** The state as a record keeps it: all that the code has. *)
Definition snapshot : chained :=
  MkChained (store s) (pm s) (lastVotedView s) (preferredView s) (highQC s) (bc s)
    (committedBlocks s) (forkedBlocks s) (bufferedQCs s) (bufferedBlocks s) (network s) [].

(** Blocks go on the two channels; the commit was decided in the state [before]. *)
Definition send_blocks (before : chained) (qc : QC) (carrier : option Block)
    (committed forked : list Block) : chained :=
  MkChained (store s) (pm s) (lastVotedView s) (preferredView s) (highQC s) (bc s)
    (committedBlocks s ++ committed) (forkedBlocks s ++ forked) (bufferedQCs s)
    (bufferedBlocks s) (network s) (deeds s ++ [(before, Committed qc carrier committed forked)]).

(** A message is sent, a vote because of the block [voted]. *)
Definition emit (voted : option Block) (o : output) : chained :=
  MkChained (store s) (pm s) (lastVotedView s) (preferredView s) (highQC s) (bc s)
    (committedBlocks s) (forkedBlocks s) (bufferedQCs s) (bufferedBlocks s) (network s ++ [o])
    (deeds s ++ [(snapshot, Sent voted o)]).
End setters.

(** What a sequence of deeds put on the network and on the two channels. *)
Definition sent_in (h : list (chained * deed)) : list output :=
  omap (λ e, match e.2 with Sent _ o => Some o | Committed _ _ _ _ => None end) h.
Definition batches_in (h : list (chained * deed)) : list (list Block) :=
  omap (λ e, match e.2 with Committed _ _ c _ => Some c | Sent _ _ => None end) h.
Definition forks_in (h : list (chained * deed)) : list (list Block) :=
  omap (λ e, match e.2 with Committed _ _ _ f => Some f | Sent _ _ => None end) h.

(** ** Access to the parts of the state *)

(** [*p] in the store of certificates. *)
Definition deref (p : option QCptr) : prog chained QC :=
  λ s, qc ← qc_deref (store s) p; mret (s, qc).

Definition alloc (qc : QC) : prog chained (option QCptr) := λ s,
  let '(st, a) := qc_alloc (store s) qc in Ok (set_store s st, Some a).

(** An assignment [p.View = v]. *)
Definition assign_View (p : option QCptr) (v : Z) : prog chained () := λ s,
  a ← of_option NilDereference p;
  Ok (set_store s (alter (qc_with_View v) a (store s)), ()).

Definition on_pm {A} (m : prog Pacemaker A) : prog chained A := zoom pm (λ x s, set_pm s x) m.
Definition on_bc {A} (m : QCStore → prog BlockChain A) : prog chained A :=
  λ s, zoom bc (λ x s, set_bc s x) (m (store s)) s.

(** A read-only call of the block store. *)
Definition ask_bc {A} (f : QCStore → BlockChain → outcome A) : prog chained A :=
  λ s, a ← f (store s) (bc s); mret (s, a).

(** The current view of the replica. *)
Definition curView_of (s : chained) : Z := GetCurView (pm s).

(** [MakePProposal] of every protocol asks Phalanx until it has a batch (hotstuff.go,
    lines 180-188); [priori k] is the answer to the [k]-th request. *)
Fixpoint wait_priori (fuel : nat) (priori : nat → option N) (k : nat) : outcome (option N) :=
  match priori k with
  | Some b => mret (Some b)
  | None => match fuel with
            | O => Fault FuelExhausted
            | S fuel => wait_priori fuel priori (S k)
            end
  end.

(** ** The invariant

    Every view is a 64-bit integer, the forest is well formed, the highest
    certificate exists, and an early block is filed under the view before its
    own. *)
Definition typed_qc (qc : QC) : Prop := is_int64 (qc_View qc).
Definition typed_block (b : Block) : Prop := is_int64 (b_View b).
Definition typed_vote (v : Vote) : Prop := is_int64 (vote_View v).
Definition typed_tmo (t : TMO) : Prop := is_int64 (tmo_View t).

Definition high_view (s : chained) : Z :=
  match qc_deref (store s) (highQC s) with Ok qc => qc_View qc | Fault _ => min_int64 end.

Record chained_inv (s : chained) : Prop := {
  ci_store : Forall typed_qc (store s);
  ci_view : is_int64 (curView_of s);
  ci_forest : forest_inv (forrest (bc s));
  ci_blocks : ∀ id v, GetVertex (forrest (bc s)) id = Some v → typed_block v;
  ci_high : returns (qc_deref (store s) (highQC s));
  ci_buffer : ∀ k b, bufferedBlocks s !! k = Some b → typed_block b ∧ k = b_View b - 1
}.

(** ** What a handler does, as a sequence of atomic steps

    A protocol is described by its rules: for which reason it may commit a list of
    blocks and send a message in a state, and whether it leaves the stored
    certificates as they are. *)
Class Rules := {
  may_commit : chained → QC → option Block → list Block → Prop;
  may_send : chained → option Block → output → Prop;
  frozen : Prop
}.

(** A deed obeys the rules in the state it was decided in. *)
Definition obeys `{Rules} (e : chained * deed) : Prop :=
  match e.2 with
  | Sent voted o => may_send e.1 voted o
  | Committed qc carrier c _ => may_commit e.1 qc carrier c
  end.

(** What no step undoes. *)
Record mono `{Rules} (s s' : chained) : Prop := {
  mono_pm : pm_reaches (pm s) (pm s');
  mono_view : wrapped (pm s') ∨ curView_of s ≤ curView_of s';
  mono_preferred : preferredView s ≤ preferredView s';
  mono_lastVoted : lastVotedView s' = lastVotedView s;
  mono_lowest : LowestLevel (forrest (bc s)) ≤ LowestLevel (forrest (bc s'));
  mono_high : frozen → high_view s ≤ high_view s';
  mono_store : frozen → store s `prefix_of` store s'
}.

#[global] Instance mono_preorder `{Rules} : PreOrder mono.
Proof.
  split.
  - intros s. split; try reflexivity. right. lia.
  - intros s1 s2 s3 [A1 A2 A3 A4 A6 A7 A8] [B1 B2 B3 B4 B6 B7 B8].
    split; try (etrans; done);
      [|intros Hf; etrans; [by apply A7|by apply B7]|intros Hf; etrans; [by apply A8|by apply B8]].
    destruct B2 as [|B2]; [by left|]. destruct A2 as [A2|A2]; [left; by eapply wrapped_reaches|].
    right. lia.
Qed.

(** From [s] to [s'] the deeds [h] were recorded, they account for everything sent,
    committed and reported as forked, and each of them obeys the rules. *)
Record logs `{Rules} (s s' : chained) (h : list (chained * deed)) : Prop := {
  log_deeds : deeds s' = deeds s ++ h;
  log_network : network s' = network s ++ sent_in h;
  log_committed : committedBlocks s' = committedBlocks s ++ concat (batches_in h);
  log_forked : forkedBlocks s' = forkedBlocks s ++ concat (forks_in h);
  log_obeys : Forall (λ e, chained_inv e.1 ∧ obeys e) h
}.

Lemma logs_trans `{Rules} s1 s2 s3 h1 h2 : logs s1 s2 h1 → logs s2 s3 h2 → logs s1 s3 (h1 ++ h2).
Proof.
  intros [A1 A2 A3 A4 A5] [B1 B2 B3 B4 B5]. unfold sent_in, batches_in, forks_in in *.
  split; unfold sent_in, batches_in, forks_in; rewrite ?omap_app, ?concat_app, ?app_assoc; try congruence.
  by apply Forall_app.
Qed.

(** An atomic step records its deeds with the state it starts from. *)
Record atomic `{Rules} (s s' : chained) : Prop := {
  at_mono : mono s s';
  at_log : ∃ ds, logs s s' ((snapshot s,.) <$> ds)
}.

(** A step that sends and commits nothing. *)
Lemma silent `{Rules} s s' :
  deeds s' = deeds s → network s' = network s → committedBlocks s' = committedBlocks s →
  forkedBlocks s' = forkedBlocks s → ∃ ds, logs s s' ((snapshot s,.) <$> ds).
Proof. intros. exists []. split; simpl; rewrite ?app_nil_r; done. Qed.

Lemma snapshot_inv s : chained_inv s → chained_inv (snapshot s).
Proof. intros []. by split. Qed.

(** A step with one deed, which obeys the rules. *)
Lemma one_deed `{Rules} s s' d :
  chained_inv s → obeys (snapshot s, d) → deeds s' = deeds s ++ [(snapshot s, d)] →
  network s' = network s ++ sent_in [(snapshot s, d)] →
  committedBlocks s' = committedBlocks s ++ concat (batches_in [(snapshot s, d)]) →
  forkedBlocks s' = forkedBlocks s ++ concat (forks_in [(snapshot s, d)]) →
  ∃ ds, logs s s' ((snapshot s,.) <$> ds).
Proof.
  intros I Hd H1 H2 H3 H4. exists [d]. split; try done. constructor; [|constructor].
  split; [by apply snapshot_inv|done].
Qed.

(** What a handler does: a sequence of atomic steps through states with the
    invariant. *)
Definition advances `{Rules} : chained → chained → Prop :=
  rtc (λ s s', chained_inv s ∧ atomic s s').

#[global] Instance advances_preorder `{Rules} : PreOrder advances.
Proof. apply rtc_po. Qed.

Lemma advances_once `{Rules} s s' : chained_inv s → atomic s s' → advances s s'.
Proof. intros HI Ha. by apply rtc_once. Qed.

Lemma advances_mono `{Rules} s s' : advances s s' → mono s s'.
Proof.
  induction 1 as [|s1 s2 s3 [_ [Hm _]] _ IH]; [reflexivity|]. by transitivity s2.
Qed.

(** Everything sent and committed in the course of a run is recorded, and obeyed the
    rules in the state recorded with it. *)
Lemma advances_logs `{Rules} s s' : advances s s' → ∃ h, logs s s' h.
Proof.
  induction 1 as [|s1 s2 s3 [_ [_ [ds H1]]] _ [h IH]].
  - exists []. split; simpl; rewrite ?app_nil_r; done.
  - eexists. by eapply logs_trans.
Qed.

Lemma advances_committed `{Rules} s s' :
  advances s s' → committedBlocks s `prefix_of` committedBlocks s'.
Proof. intros [h [_ _ -> _ _]]%advances_logs. by eexists. Qed.

Lemma advances_network `{Rules} s s' : advances s s' → network s `prefix_of` network s'.
Proof. intros [h [_ -> _ _ _]]%advances_logs. by eexists. Qed.

(** Certificates and pointers survive the growth of the store. *)
Lemma qc_deref_prefix st st' p qc :
  st `prefix_of` st' → qc_deref st p = Ok qc → qc_deref st' p = Ok qc.
Proof.
  intros [l ->]. rewrite !qc_deref_ok. intros (a & -> & Ha). exists a. split; [done|].
  rewrite lookup_app_l; [done|]. by eapply lookup_lt_Some.
Qed.

Abbreviation keeps Φ m := (preserves chained_inv advances Φ m) (only parsing).

(** [quiet] proves [mono] for a step that leaves the other fields alone, [frame]
    an atomic step that commits and sends nothing. *)
Ltac quiet :=
  split; simpl; match goal with |- frozen → _ => intros _ | _ => idtac end; try reflexivity; try (right; reflexivity); try lia.
Ltac frame := apply advances_once; [done|]; split; [quiet|by apply silent].

Section keeps.
Context {RL : Rules}.

Lemma keeps_deref p : keeps typed_qc (deref p).
Proof.
  intros s s' qc I H. unfold deref in H. apply outcome_bind_ok in H as (q & Hq & H).
  injection H as <- <-. split_and!; [done|reflexivity|].
  apply qc_deref_ok in Hq as (a & _ & Ha). pose proof (ci_store s I) as Hst.
  rewrite Forall_forall in Hst. apply Hst, list_elem_of_lookup. eauto.
Qed.

Lemma keeps_alloc qc : typed_qc qc → keeps anything (alloc qc).
Proof.
  intros Hqc s s' p I H. unfold alloc in H. simpl in H. injection H as <- <-.
  assert (∀ q, qc_deref (store s) (highQC s) = Ok q →
    qc_deref (store s ++ [qc]) (highQC s) = Ok q) as Hkeep by (intros; by apply qc_deref_alloc).
  destruct (ci_high s I) as [h Hh]. split_and!; [| |done].
  - destruct I as [I1 I2 I3 I4 I5 I6]. split; simpl; try done; [|exists h; auto].
    apply Forall_app. split; [done|]. by constructor.
  - apply advances_once; [done|]. split; [quiet|by apply silent].
    + unfold high_view. simpl. rewrite Hh, (Hkeep h Hh). lia.
    + by eexists.
Qed.

Lemma advance_int64 view p :
  is_int64 view → is_int64 (curView p) →
  let p' := advance view p in
  is_int64 (curView p') ∧ (wrapped p' ∨ curView p ≤ curView p').
Proof.
  intros Hv Hp. unfold advance. case_decide; simpl; [split; [done|by right]|].
  split; [apply int64_range|].
  destruct (decide (view < max_int64)).
  - right. rewrite int64_succ by done. lia.
  - left. unfold wrapped. simpl. assert (view = max_int64) as -> by (unfold_ints; lia).
    apply elem_of_app. right. by apply list_elem_of_singleton.
Qed.

Lemma keeps_AdvanceView view : is_int64 view → keeps anything (on_pm (AdvanceView view)).
Proof.
  intros Hv s s' a I H. apply zoom_ok in H as (p & Hp & ->). apply modify_ok in Hp as ->.
  destruct (advance_int64 view (pm s) Hv (ci_view s I)) as (H1 & H2).
  split_and!; [by destruct I; split| |done].
  apply advances_once; [done|]. split; [|by apply silent]. split; try done.
  apply rtc_once. right. by exists view.
Qed.

Lemma keeps_pm_ProcessRemoteTmo tmo :
  keeps (λ r, ∀ tc, r.2 = Some tc → tc_View tc = tmo_View tmo) (on_pm (pm_ProcessRemoteTmo tmo)).
Proof.
  intros s s' r I H. apply zoom_ok in H as (p & Hp & ->).
  pose proof (pm_ProcessRemoteTmo_TC _ _ _ _ Hp) as Htc.
  destruct (pm_ProcessRemoteTmo_views _ _ _ _ Hp) as [H1 H2].
  assert (curView_of (set_pm s p) = curView_of s) as Hcur by exact H1.
  split_and!; [|apply advances_once; [done|]; split; [split; try done|by apply silent]|done].
  - destruct I as [I1 I2 I3 I4 I5 I6]. split; try done. by rewrite Hcur.
  - apply rtc_once. left. by exists tmo, r.
  - right. by rewrite Hcur.
Qed.

(** Calls of the block store. *)
Lemma keeps_ask_bc {A} (Φ : A → Prop) f :
  (∀ s a, chained_inv s → f (store s) (bc s) = Ok a → Φ a) → keeps Φ (ask_bc f).
Proof.
  intros Hf s s' a I H. unfold ask_bc in H. apply outcome_bind_ok in H as (x & Hx & H).
  injection H as <- <-. split_and!; [done|reflexivity|eauto].
Qed.

Definition typed_result (r : result Block) : Prop :=
  match r with Val b => typed_block b | Err _ => True end.

Lemma keeps_GetParentBlock id : keeps typed_result (ask_bc (λ st b, GetParentBlock st b id)).
Proof.
  apply keeps_ask_bc. intros s r I. unfold GetParentBlock.
  destruct (GetVertex _ id) as [v|]; [|by intros [= <-]].
  intros ([pid pl] & _ & H)%outcome_bind_ok.
  destruct (GetVertex (forrest (bc s)) pid) as [w|] eqn:E; injection H as <-; [|done].
  by eapply (ci_blocks s I).
Qed.

Lemma keeps_GetBlockByID id : keeps typed_result (gets (λ s, GetBlockByID (bc s) id)).
Proof.
  apply preserves_gets; [apply _|]. intros s I. unfold GetBlockByID.
  destruct (GetVertex _ id) as [w|] eqn:E; [|done]. by eapply (ci_blocks s I).
Qed.

(** A change of the block store that keeps its invariant. *)
Lemma advances_bc s b :
  chained_inv s → forest_inv (forrest b) →
  (∀ id v, GetVertex (forrest b) id = Some v → typed_block v) →
  LowestLevel (forrest (bc s)) ≤ LowestLevel (forrest b) →
  chained_inv (set_bc s b) ∧ advances s (set_bc s b).
Proof.
  intros I Hf Hv Hl. split; [by destruct I; split|].
  apply advances_once; [done|]. split; [quiet|by apply silent].
Qed.

Lemma keeps_AddBlock b : typed_block b → keeps anything (on_bc (λ st, AddBlock st b)).
Proof.
  intros Hb s s' a I H. apply zoom_ok in H as (c & (f & Hf & ->)%AddBlock_ok & ->).
  destruct (AddVertex_spec _ _ _ _ (ci_forest s I) Hf) as (If & Hl & Hget).
  destruct (advances_bc s (set_forrest f (bc s)) I) as [HI HA]; simpl; [done| |lia|done].
  intros id v. rewrite Hget. pose proof (ci_blocks s I id) as Hold.
  destruct (decide (_ ∧ _)); [|apply Hold]. intros [= <-].
  destruct (GetVertex _ id) as [w|]; simpl; auto.
Qed.

(** A vote changes only the collected votes, and a certificate has its view. *)
Lemma AddVote_ok `{ReplicaEnv} vote c c' r :
  AddVote vote c = Ok (c', r) →
  (∃ q, c' = set_quorum q c) ∧ ∀ qc, r.2 = Some qc → qc_View qc = vote_View vote.
Proof.
  unfold AddVote. intros (q & Hq & ->)%zoom_ok. injection Hq as Hq. split; [by eexists|]. intros qc Hqc.
  destruct (superMajority (quorum c) (vote_BlockID vote)) eqn:Hsm.
  - rewrite Add_full in Hq by done. by injection Hq as <- <-.
  - destruct (Add_stores (quorum c) vote Hsm) as [_ H2]. rewrite Hq in H2. simpl in H2.
    subst r. destruct (superMajority (stored _ _) _); [|done]. by injection Hqc as <-.
Qed.

Lemma keeps_AddVote `{ReplicaEnv} vote :
  keeps (λ r, ∀ qc, r.2 = Some qc → qc_View qc = vote_View vote)
    (on_bc (λ _, AddVote vote)).
Proof.
  intros s s' r I Hr. apply zoom_ok in Hr as (c & Hr & ->).
  apply AddVote_ok in Hr as [[q ->] Hqc].
  destruct (advances_bc s (set_quorum q (bc s)) I) as [HI HA]; simpl; [apply I|apply I|lia|done].
Qed.

(** A commit: the block store commits and the blocks go on the channels. *)
Lemma commit_step cf id view s qc carrier c r :
  chained_inv s → CommitBlock cf (store s) id view (bc s) = Ok (c, r) →
  let s' := set_bc s c in
  match r with
  | Val (committed, forked) =>
      let s' := send_blocks s' (snapshot s) qc carrier committed forked in
      chained_inv s' ∧ (may_commit (snapshot s) qc carrier committed → advances s s')
  | Err _ => chained_inv s' ∧ advances s s'
  end.
Proof.
  intros I Hr. destruct r as [[committed forked]|e].
  - apply CommitBlock_inv in Hr as (v & f' & no & _ & _ & Hp & ->); [|apply I].
    apply PruneUpToLevel_spec in Hp as (Hle & If & Hl & Hget & _); [|apply I].
    split.
    + destruct I as [I1 I2 I3 I4 I5 I6]. split; try done. simpl. intros i w. rewrite Hget.
      destruct (decide _); [done|]. apply I4.
    + intros Hc. apply advances_once; [done|]. split; [quiet|].
      apply (one_deed s _ (Committed qc carrier committed forked)); simpl; rewrite ?app_nil_r; done.
  - apply CommitBlock_err in Hr.
    apply advances_bc; rewrite ?Hr; [done|apply I|apply I|lia].
Qed.

(** A vertex is stored under its own identifier. *)
Lemma GetVertex_ID f id v : forest_inv f → GetVertex f id = Some v → b_ID v = id.
Proof.
  intros I (p & Hp & Hv)%GetVertex_Some. destruct (inv_vertex _ I _ p Hp) as (k & Hk & Hid & _).
  unfold vertex_at in Hv. rewrite Hk in Hv. simpl in Hv. rewrite <- Hid. by eapply (inv_full _ I p k v).
Qed.

(** What [GetParentBlock] found. *)
Lemma parent_found f st c id b :
  forest_inv f → forrest c = f → GetParentBlock st c id = Ok (Val b) →
  ∃ v, GetVertex f id = Some v ∧ GetVertex f (b_PrevID v) = Some b ∧ b_ID b = b_PrevID v.
Proof.
  intros I <-. unfold GetParentBlock. destruct (GetVertex (forrest c) id) as [v|]; [|done].
  intros ([pid pl] & (qc & _ & -> & _)%Parent_ok & H')%outcome_bind_ok.
  destruct (GetVertex (forrest c) (b_PrevID v)) as [w|] eqn:E; [|done].
  injection H' as <-. exists v. split_and!; [done..|].
  by eapply GetVertex_ID.
Qed.

Lemma ask_bc_ok {A} (g : QCStore → BlockChain → outcome A) s s' a :
  ask_bc g s = Ok (s', a) ↔ s' = s ∧ g (store s) (bc s) = Ok a.
Proof.
  unfold ask_bc. rewrite outcome_bind_ok. split.
  - intros (x & Hx & H'). injection H' as <- <-. done.
  - intros [-> Ha]. eauto.
Qed.

Lemma keeps_buffer_QC id p :
  keeps anything (modify (λ s, set_bufferedQCs s (<[id := p]> (bufferedQCs s)))).
Proof. apply preserves_modify. intros s I. split; [by destruct I; split|frame]. Qed.

Lemma keeps_drop_QC id :
  keeps anything (modify (λ s, set_bufferedQCs s (delete id (bufferedQCs s)))).
Proof. apply preserves_modify. intros s I. split; [by destruct I; split|frame]. Qed.

Lemma emit_keeps w o s :
  chained_inv s → may_send (snapshot s) w o →
  chained_inv (emit s w o) ∧ advances s (emit s w o).
Proof.
  intros I Ho. split; [by destruct I; split|]. apply advances_once; [done|].
  split; [quiet|]. apply (one_deed s _ (Sent w o)); simpl; rewrite ?app_nil_r; done.
Qed.

(** Buffering a block that is ahead of the next view. *)
Lemma keeps_buffer_block v b :
  is_int64 v → v < b_View b → typed_block b →
  keeps anything (modify (λ s, set_bufferedBlocks s
    (<[int64 (b_View b - 1) := b]> (bufferedBlocks s)))).
Proof.
  intros Hv Hlt Hb. apply preserves_modify. intros s [I1 I2 I3 I4 I5 I6]. split; [|frame].
  split; try done. intros k c. simpl. unfold typed_block in Hb.
  rewrite int64_id by (unfold_ints; lia). rewrite lookup_insert. case_decide; [|apply I6].
  by intros [= <-].
Qed.

Lemma keeps_drop_block k :
  keeps anything (modify (λ s, set_bufferedBlocks s (delete k (bufferedBlocks s)))).
Proof.
  apply preserves_modify. intros s [I1 I2 I3 I4 I5 I6]. split; [|frame].
  split; try done. intros i b. simpl. rewrite lookup_delete_Some. intros [_ Hb]. by apply I6.
Qed.

Lemma keeps_buffered : keeps (λ m, ∀ k b, m !! k = Some b → typed_block b ∧ k = b_View b - 1)
                         (gets bufferedBlocks).
Proof. apply preserves_gets; [apply _|]. intros s I. apply I. Qed.

(** A step that is known to obey the rules, after a handler that does. *)
Lemma keeps_then {A B} (m : prog chained A) (k : A → prog chained B) (Q : chained → Prop) s s' b :
  keeps anything m → (∀ s1, advances s s1 → Q s1) → chained_inv s → (m ≫= k) s = Ok (s', b) →
  (∀ a s1, chained_inv s1 → Q s1 → k a s1 = Ok (s', b) → chained_inv s' ∧ advances s1 s') →
  chained_inv s' ∧ advances s s'.
Proof.
  intros Hm HQ I (s1 & a & H1 & H2)%prog_bind_ok Hk.
  destruct (Hm s s1 a I H1) as (I1 & A1 & _). destruct (Hk a s1 I1 (HQ s1 A1) H2).
  split; [done|by transitivity s1].
Qed.

End keeps.

#[export] Hint Resolve keeps_deref keeps_AdvanceView keeps_pm_ProcessRemoteTmo
  keeps_GetParentBlock keeps_GetBlockByID keeps_AddBlock keeps_AddVote keeps_buffer_QC
  keeps_drop_QC keeps_drop_block : go.

(** The certificate of a received message is a new object. *)
Definition alloc_opt (qc : option QC) : prog chained (option QCptr) :=
  match qc with Some q => alloc q | None => mret None end.

Lemma keeps_alloc_opt {RL : Rules} qc :
  match qc with Some q => typed_qc q | None => True end → keeps anything (alloc_opt qc).
Proof. destruct qc; simpl; [apply keeps_alloc|]. preserve. Qed.

(** ** The buffer of early blocks *)

(** Everything but buffering leaves the buffered blocks alone. *)
Definition same_buffer (s s' : chained) : Prop := bufferedBlocks s' = bufferedBlocks s.
#[global] Instance same_buffer_preorder : PreOrder same_buffer.
Proof. unfold same_buffer. split; [done|]. intros s1 s2 s3 -> ->. done. Qed.

Abbreviation unbuffered m := (preserves (λ _, True) same_buffer anything m) (only parsing).

Lemma unbuffered_modify f : (∀ s, bufferedBlocks (f s) = bufferedBlocks s) → unbuffered (modify f).
Proof. intros Hf. apply preserves_modify. intros s _. split; [done|]. apply Hf. Qed.
Lemma unbuffered_deref p : unbuffered (deref p).
Proof. intros s s' q _ H'. apply outcome_bind_ok in H' as (? & _ & H'). by injection H' as <- <-. Qed.
Lemma unbuffered_alloc q : unbuffered (alloc q).
Proof. intros s s' a _ H'. by injection H' as <- <-. Qed.
Lemma unbuffered_pm {A} (m : prog Pacemaker A) : unbuffered (on_pm m).
Proof. intros s s' a _ H'. by apply zoom_ok in H' as (p & _ & ->). Qed.
Lemma unbuffered_bc {A} (m : QCStore → prog BlockChain A) : unbuffered (on_bc m).
Proof. intros s s' a _ H'. by apply zoom_ok in H' as (p & _ & ->). Qed.
Lemma unbuffered_ask {A} (f : QCStore → BlockChain → outcome A) : unbuffered (ask_bc f).
Proof. by intros s s' a _ [-> _]%ask_bc_ok. Qed.

#[export] Hint Resolve unbuffered_deref unbuffered_alloc unbuffered_pm unbuffered_bc unbuffered_ask : go.
#[export] Hint Extern 2 (preserves _ same_buffer _ (modify _)) => apply unbuffered_modify; reflexivity : go.

(** ** A concrete environment

    Replica 1 of four, with the static leader 2, and the blocks of a chain with
    one block per view, each carrying the certificate of the one before. *)
Definition sample_env : ReplicaEnv :=
  {| re_crypto := sample_crypto; re_range := canonical_range;
     re_election := Static.static_election (Static.NewStatic "2");
     re_ID := "1"; re_IsByz := false; re_Strategy := "silence"; re_N := 4 |}.

Definition sample_sig (id : Identifier) : Signature :=
  match @PrivSign sample_ecdsa sample_keys (IDToByte id) "1" with Ok (Val sig) => sig | _ => [] end.

Definition chain_qc (v : Z) : QC :=
  if decide (v = 0) then qc_of_view 0
  else MkQC "2" v (Z.to_N v) ["1"; "2"; "3"] (replicate 3 (sample_sig (Z.to_N v))) [].

Definition chain_block (v : Z) : Block :=
  MkBlock v None "2" 0 [] (Z.to_N (v - 1)) (sample_sig (Z.to_N v)) (Z.to_N v) None.
