(* ===== verification/Safety.v ===== *)
(** * The interface of a consensus protocol ([src/replica/safety.go])

    A replica drives a protocol through the interface [Safety].  Here it is a
    class: the methods of the Go interface, and access to the objects that the
    replica shares with the protocol (the pacemaker, the channels of committed and
    forked blocks, the store of certificates).  [cf] and [fuel] bound the commit
    loop and the recursion of the methods (files [BlockChain] and [HotStuff]).

    [SafetyLaws] is what the replica relies on: an invariant that every event
    keeps, channels that only grow, views that come from the pacemaker, and
    proposals that are for the view asked for. *)
From S2P Require Import Prelude Identity Sha1 Election Db Crypto Types Quorum Forest BlockChain Pacemaker Chained.

Local Open Scope Z_scope.

Class Safety (S : Type) := {
  sf_ProcessBlock : nat → nat → Block → prog S (result ());
  sf_ProcessVote : nat → nat → Vote → prog S ();
  sf_ProcessRemoteTmo : nat → nat → TMO → prog S ();
  sf_ProcessLocalTmo : nat → nat → Z → prog S ();
  sf_GetChainStatus : S → string;
  sf_MakeProposal : Z → list Transaction → prog S Block;
  sf_MakePProposal : nat → (nat → option N) → Z → prog S Block;
  sf_pm : S → Pacemaker;
  sf_set_pm : S → Pacemaker → S;
  sf_store : S → QCStore;
  sf_set_store : S → QCStore → S;
  sf_committed : S → list Block;
  sf_forked : S → list Block;
  (** A goroutine that the protocol has started runs. *)
  sf_goroutine : nat → prog S ()
}.

(** ** Events

    A received message was decoded from the wire, so its certificate is a new
    object.  The local timeout calls [ProcessLocalTmo] with the current view
    (replica.go, line 291).  A proposal gets the time stamp [now] and is processed
    by its proposer (replica.go, lines 246-266); [priori] are the answers of
    Phalanx.  [KickOff] is the first view change (replica.go, line 209). *)
Inductive event :=
  | RecvBlock (b : Block) (qc : option QC)
  | RecvVote (v : Vote)
  | RecvTmo (view : Z) (id : NodeID) (qc : option QC)
  | LocalTmo
  | Propose (view : Z) (payload : list Transaction) (now : Z)
  | ProposeP (tries : nat) (priori : nat → option N) (view : Z) (now : Z)
  | KickOff
  | Goroutine (k : nat).

Definition typed_event (e : event) : Prop :=
  match e with
  | RecvBlock b qc => typed_block b ∧ match qc with Some q => typed_qc q | None => True end
  | RecvVote v => typed_vote v
  | RecvTmo view _ qc => is_int64 view ∧ match qc with Some q => typed_qc q | None => True end
  | Propose view _ _ | ProposeP _ _ view _ => is_int64 view
  | LocalTmo | KickOff | Goroutine _ => True
  end.

#[global] Instance typed_event_dec e : Decision (typed_event e).
Proof.
  destruct e as [b [q|]|v|view id [q|]| |view payload now|n pr view now| |k]; simpl;
    unfold typed_block, typed_qc, typed_vote; apply _.
Defined.

Lemma typed_events es : bool_decide (Forall typed_event es) = true → Forall typed_event es.
Proof. apply bool_decide_eq_true_1. Qed.

Definition with_QC (b : Block) (p : option QCptr) : Block :=
  MkBlock (b_View b) p (b_Proposer b) (b_Timestamp b) (b_Payload b) (b_PrevID b) (b_Sig b)
    (b_ID b) (b_PBatch b).

Definition with_Timestamp (now : Z) (b : Block) : Block :=
  MkBlock (b_View b) (b_QC b) (b_Proposer b) now (b_Payload b) (b_PrevID b) (b_Sig b)
    (b_ID b) (b_PBatch b).

Section handle.
Context {S : Type} {SF : Safety S}.

Definition sf_decode (qc : option QC) : prog S (option QCptr) :=
  match qc with
  | None => mret None
  | Some q => λ s, let '(st, a) := qc_alloc (sf_store s) q in Ok (sf_set_store s st, Some a)
  end.

Definition sf_handle (cf fuel : nat) (e : event) : prog S () :=
  match e with
  | RecvBlock b qc => p ← sf_decode qc; sf_ProcessBlock cf fuel (with_QC b p);; mret ()
  | RecvVote v => sf_ProcessVote cf fuel v
  | RecvTmo view id qc => p ← sf_decode qc; sf_ProcessRemoteTmo cf fuel (MkTMO view id p)
  | LocalTmo => v ← gets (GetCurView ∘ sf_pm); sf_ProcessLocalTmo cf fuel v
  | Propose view payload now =>
      b ← sf_MakeProposal view payload; sf_ProcessBlock cf fuel (with_Timestamp now b);; mret ()
  | ProposeP tries priori view now =>
      b ← sf_MakePProposal tries priori view;
      sf_ProcessBlock cf fuel (with_Timestamp now b);; mret ()
  | KickOff => modify (λ s, sf_set_pm s (advance 0 (sf_pm s)))
  | Goroutine k => sf_goroutine k
  end.

(** The states the protocol can get to. *)
Definition sf_step (s s' : S) : Prop :=
  ∃ cf fuel e, typed_event e ∧ sf_handle cf fuel e s = Ok (s', ()).
Definition sf_run : S → S → Prop := rtc sf_step.

(** What an event never undoes: the pacemaker only makes calls for 64-bit views,
    and the channels only grow. *)
Record sf_grows (s s' : S) : Prop := {
  gr_pm : pm_reaches (sf_pm s) (sf_pm s');
  gr_committed : sf_committed s `prefix_of` sf_committed s';
  gr_forked : sf_forked s `prefix_of` sf_forked s'
}.

#[global] Instance sf_grows_preorder : PreOrder sf_grows.
Proof.
  split; [intros s; split; reflexivity|].
  intros s1 s2 s3 [A1 A2 A3] [B1 B2 B3]. split; by etrans.
Qed.
End handle.

(** ** What a replica relies on *)
Class SafetyLaws `{ReplicaEnv} (S : Type) {SF : Safety S} := {
  sf_inv : S → Prop;
  sf_keeps : ∀ cf fuel e s s', typed_event e → sf_inv s →
    sf_handle cf fuel e s = Ok (s', ()) → sf_inv s' ∧ sf_grows s s';
  sf_view : ∀ s, sf_inv s → is_int64 (GetCurView (sf_pm s));
  sf_block : ∀ view payload s s' b, sf_MakeProposal view payload s = Ok (s', b) →
    b_View b = view ∧ b_Proposer b = re_ID ∧ b_Payload b = payload;
  sf_pblock : ∀ tries priori view s s' b, sf_MakePProposal tries priori view s = Ok (s', b) →
    b_View b = view ∧ b_Proposer b = re_ID ∧ b_Payload b = []
}.

Lemma sf_run_grows `{ReplicaEnv} {S : Type} {SF : Safety S} {SL : SafetyLaws S} s s' : sf_inv s → sf_run s s' → sf_inv s' ∧ sf_grows s s'.
Proof.
  intros I Hrun. revert I. induction Hrun as [|s1 s2 s3 (cf & fuel & e & He & Hs) _ IH];
    intros I; [split; [done|reflexivity]|].
  destruct (sf_keeps cf fuel e s1 s2 He I Hs) as [I2 A2].
  destruct (IH I2) as [I3 A3]. split; [done|by transitivity s2].
Qed.

(** ** Events of the sample environment *)

Definition chain_event (n : nat) : event :=
  RecvBlock (chain_block (Z.of_nat n)) (Some (chain_qc (Z.of_nat n - 1))).

Lemma chain_event_typed n : (n < 100)%nat → typed_event (chain_event (S n)).
Proof.
  intros Hn. split; [unfold typed_block; simpl b_View; unfold_ints; lia|].
  unfold typed_qc, chain_qc. destruct (decide _); simpl qc_View; unfold_ints; lia.
Qed.
