(* ===== verification/HotStuff.v ===== *)
(** * Chained HotStuff ([src/hotstuff/hotstuff.go])

    One definition per method of the type [HotStuff], as a program over the
    state of file [Chained].  [cf] bounds the commit loop of the block store and
    [fuel] the recursion of [ProcessBlock] on buffered blocks.  Log output has no
    effect on the state and is left out, except that [log.Fatal] would exit. *)
From S2P Require Import Prelude Identity Sha1 Election Db Crypto Types Quorum Forest BlockChain Pacemaker Chained.

Local Open Scope Z_scope.

Module HotStuff.
Section hotstuff.
Context `{ReplicaEnv}.

(** Lines 35-52. *)
Definition NewHotStuff (pm : Pacemaker) : chained :=
  MkChained [qc_of_view 0] pm 0 0 (Some 0%nat) (NewBlockchain re_N) [] [] ∅ ∅ [] [].

Definition GetHighQC : prog chained (option QCptr) := gets highQC.
Definition GetChainStatus (s : chained) : string := status_of re_ID (curView_of s) (bc s).

(** Lines 234-240. *)
Definition updateHighQC (qc : option QCptr) : prog chained () :=
  q ← deref qc;
  hp ← gets highQC;
  h ← deref hp;
  if decide (qc_View h < qc_View q) then modify (λ s, set_highQC s qc) else mret ().

(** Lines 324-340. *)
Definition updatePreferredView (qc : QC) : prog chained (result ()) :=
  if decide (qc_View qc ≤ 2) then mret (Val ())
  else
    r ← gets (λ s, GetBlockByID (bc s) (qc_BlockID qc));
    match r with
    | Err _ => mret (Err "cannot update preferred view")
    | Val _ =>
        r ← ask_bc (λ st b, GetParentBlock st b (qc_BlockID qc));
        match r with
        | Err _ => mret (Err "cannot update preferred view")
        | Val grandParentBlock =>
            preferred ← gets preferredView;
            (if decide (preferred < b_View grandParentBlock)
             then modify (λ s, set_preferredView s (b_View grandParentBlock)) else mret ());;
            mret (Val ())
        end
    end.

(** Lines 301-314: the block to commit, if any. *)
Definition commitRule (qc : QC) : prog chained (result (option Block)) :=
  r ← ask_bc (λ st b, GetParentBlock st b (qc_BlockID qc));
  match r with
  | Err _ => mret (Err "cannot commit any block")
  | Val parentBlock =>
      r ← ask_bc (λ st b, GetParentBlock st b (b_ID parentBlock));
      match r with
      | Err _ => mret (Err "cannot commit any block")
      | Val grandParentBlock =>
          if decide (int64 (b_View grandParentBlock + 1) = b_View parentBlock
                     ∧ int64 (b_View parentBlock + 1) = qc_View qc)
          then mret (Val (Some grandParentBlock)) else mret (Val None)
      end
  end.

(** Lines 269-284. *)
Definition commit (cf : nat) (qc : QC) : prog chained () :=
  r ← commitRule qc;
  match r with
  | Err _ | Val None => mret ()
  | Val (Some block) =>
      before ← gets snapshot;
      curView ← gets curView_of;
      r ← on_bc (λ st, CommitBlock cf st (b_ID block) curView);
      match r with
      | Err _ => mret ()
      | Val (committed, forked) => modify (λ s, send_blocks s before qc None committed forked)
      end
  end.

(** Lines 242-285. *)
Definition processCertificate (cf : nat) (p : option QCptr) : prog chained () :=
  qc ← deref p;
  curView ← gets curView_of;
  if decide (qc_View qc < curView) then mret ()
  else
    quorumIsVerified ← (if decide (qc_Leader qc = re_ID) then mret true
                        else lift (VerifyQuorumSignature env_keys (qc_AggSig qc) (qc_BlockID qc)
                                     (qc_Signers qc)));
    if negb quorumIsVerified then mret ()
    else
      attack ← (if re_IsByz && bool_decide (re_Strategy = FORK)
                then lift (IsLeader re_ID (int64 (qc_View qc + 1))) else mret false);
      if (attack : bool) then on_pm (AdvanceView (qc_View qc))
      else
        r ← updatePreferredView qc;
        match r with
        | Err _ => modify (λ s, set_bufferedQCs s (<[qc_BlockID qc := p]> (bufferedQCs s)))
        | Val () =>
            on_pm (AdvanceView (qc_View qc));;
            updateHighQC p;;
            if decide (qc_View qc < 3) then mret () else commit cf qc
        end.

(** Lines 287-299. *)
Definition votingRule (block : Block) : prog chained (result bool) :=
  if decide (b_View block ≤ 2) then mret (Val true)
  else
    r ← ask_bc (λ st b, GetParentBlock st b (b_ID block));
    match r with
    | Err _ => mret (Err "cannot vote for block")
    | Val parentBlock =>
        lastVoted ← gets lastVotedView;
        preferred ← gets preferredView;
        if decide (b_View block ≤ lastVoted ∨ b_View parentBlock < preferred)
        then mret (Val false) else mret (Val true)
    end.

(** Lines 316-322; no method calls it. *)
Definition updateLastVotedView (targetView : Z) : prog chained (result ()) :=
  lastVoted ← gets lastVotedView;
  if decide (targetView < lastVoted)
  then mret (Err "target view is lower than the last voted view")
  else modify (λ s, set_lastVotedView s targetView);; mret (Val ()).

(** Lines 215-220. *)
Definition processTC (tc : TC) : prog chained () :=
  curView ← gets curView_of;
  if decide (tc_View tc < curView) then mret () else on_pm (AdvanceView (tc_View tc)).

(** Lines 121-147.  [PubVerify] reports no error (crypto/ecdsa.go). *)
Definition ProcessVote (cf : nat) (vote : Vote) : prog chained () :=
  voteIsVerified ← (if decide (vote_Voter vote = re_ID) then mret true
                    else lift (PubVerify env_keys (vote_Signature vote)
                                 (IDToByte (vote_BlockID vote)) (vote_Voter vote)));
  if negb voteIsVerified then mret ()
  else
    '(isBuilt, qc) ← on_bc (λ _, AddVote vote);
    if negb isBuilt then mret ()
    else
      qc ← lift (of_option NilDereference qc);
      p ← alloc (qc_with_Leader re_ID qc);
      r ← gets (λ s, GetBlockByID (bc s) (qc_BlockID qc));
      match r with
      | Err _ => modify (λ s, set_bufferedQCs s (<[qc_BlockID qc := p]> (bufferedQCs s)))
      | Val _ => processCertificate cf p
      end.

(** Lines 149-158. *)
Definition ProcessRemoteTmo (cf : nat) (tmo : TMO) : prog chained () :=
  processCertificate cf (tmo_HighQC tmo);;
  '(isBuilt, tc) ← on_pm (pm_ProcessRemoteTmo tmo);
  if negb isBuilt then mret ()
  else
    tc ← lift (of_option NilDereference tc);
    processTC tc.

(** Lines 160-169. *)
Definition ProcessLocalTmo (cf : nat) (view : Z) : prog chained () :=
  on_pm (AdvanceView view);;
  h ← GetHighQC;
  let tmo := MkTMO (int64 (view + 1)) re_ID h in
  modify (λ s, emit s None (BroadcastTmo (tmo_View tmo) (tmo_NodeID tmo) (h ≫= λ a, store s !! a)));;
  ProcessRemoteTmo cf tmo.

(** Lines 194-213: the honest choice, and the forking strategy, which overwrites
    the view of the chosen certificate. *)
Definition forkChoice : prog chained (option QCptr) :=
  if negb re_IsByz || negb (bool_decide (re_Strategy = FORK)) then GetHighQC
  else
    hp ← GetHighQC;
    h ← deref hp;
    r ← gets (λ s, GetBlockByID (bc s) (qc_BlockID h));
    parBlock ← lift (match r with Val b => Ok b | Err _ => Fault NilDereference end);
    parQC ← deref (b_QC parBlock);
    preferred ← gets preferredView;
    choice ← (if decide (qc_View parQC < preferred) then GetHighQC else mret (b_QC parBlock));
    curView ← gets curView_of;
    assign_View choice (int64 (curView - 1));;
    mret choice.

(** Lines 171-175. *)
Definition MakeProposal (view : Z) (payload : list Transaction) : prog chained Block :=
  qc ← forkChoice;
  q ← deref qc;
  st ← gets store;
  lift (MakeBlock st view qc (qc_BlockID q) payload re_ID).

(** Lines 177-192. *)
Definition MakePProposal (fuel : nat) (priori : nat → option N) (view : Z) : prog chained Block :=
  qc ← forkChoice;
  batch ← lift (wait_priori fuel priori 0);
  q ← deref qc;
  st ← gets store;
  lift (MakePBlock st view qc (qc_BlockID q) batch re_ID).

(** Lines 87-92. *)
Definition process_buffered_QC (cf : nat) (block : Block) : prog chained () :=
  m ← gets bufferedQCs;
  match m !! b_ID block with
  | None => mret ()
  | Some qc =>
      processCertificate cf qc;;
      modify (λ s, set_bufferedQCs s (delete (b_ID block) (bufferedQCs s)))
  end.

(** Lines 103-112: the vote goes to the leader of the next view; one's own goes
    straight to [ProcessVote] ([OwnVote] stands for it on the network). *)
Definition cast_vote (cf : nat) (block : Block) : prog chained () :=
  vote ← lift (MakeVote (b_View block) re_ID (b_ID block));
  voteAggregator ← lift (FindLeaderFor (int64 (b_View block + 1)));
  if decide (voteAggregator = re_ID) then modify (λ s, emit s (Some block) (OwnVote vote));; ProcessVote cf vote
  else modify (λ s, emit s (Some block) (Send voteAggregator vote)).

(** Lines 113-117: the block buffered under the view of this one. *)
Definition process_buffered_block (ProcessBlock : Block → prog chained (result ()))
    (block : Block) : prog chained () :=
  m ← gets bufferedBlocks;
  match m !! b_View block with
  | None => mret ()
  | Some b =>
      ProcessBlock b;;
      modify (λ s, set_bufferedBlocks s (delete (b_View block) (bufferedBlocks s)))
  end.

(** Lines 86-118. *)
Definition accept_block (ProcessBlock : Block → prog chained (result ())) (cf : nat)
    (block : Block) : prog chained (result ()) :=
  on_bc (λ st, AddBlock st block);;
  process_buffered_QC cf block;;
  shouldVote ← votingRule block;
  match shouldVote with
  | Err e => mret (Err e)
  | Val false => mret (Val ())
  | Val true =>
      cast_vote cf block;;
      process_buffered_block ProcessBlock block;;
      mret (Val ())
  end.

(** Lines 54-119, with the recursive call as an argument.  A failed verification
    of the signature is only logged. *)
Definition ProcessBlock_body (ProcessBlock : Block → prog chained (result ())) (cf : nat)
    (block : Block) : prog chained (result ()) :=
  curView ← gets curView_of;
  (if decide (b_Proposer block = re_ID) then mret true
   else lift (PubVerify env_keys (b_Sig block) (IDToByte (b_ID block)) (b_Proposer block)));;
  if decide (int64 (curView + 1) < b_View block) then
    modify (λ s, set_bufferedBlocks s (<[int64 (b_View block - 1) := block]> (bufferedBlocks s)));;
    mret (Val ())
  else
  match b_QC block with
  | None => mret (Err "the block should contain a QC")
  | Some qc =>
      updateHighQC (Some qc);;
      (if decide (b_Proposer block = re_ID) then mret () else processCertificate cf (Some qc));;
      curView ← gets curView_of;
      if decide (b_View block < curView) then mret (Val ())
      else
        isLeader ← lift (IsLeader (b_Proposer block) (b_View block));
        if negb isLeader then mret (Err "received a proposal from an invalid leader")
        else accept_block ProcessBlock cf block
  end.

(** The recursion, bounded by [fuel]. *)
Fixpoint ProcessBlock (cf fuel : nat) : Block → prog chained (result ()) :=
  ProcessBlock_body
    match fuel with
    | O => λ _, lift (Fault DepthExhausted)
    | S fuel => ProcessBlock cf fuel
    end cf.
End hotstuff.

(** Only a certificate of a later view replaces the highest one, whatever the
    rules. *)
Lemma keeps_updateHighQC {RL : Rules} p : keeps anything (updateHighQC p).
Proof.
  intros s s' a I H'. unfold updateHighQC, deref in H'.
  apply prog_bind_ok in H' as (s1 & q & H1 & H'). apply outcome_bind_ok in H1 as (? & Hq & H1).
  injection H1 as <- <-. apply prog_bind_ok in H' as (s1 & hp & H1 & H').
  apply gets_ok in H1 as [-> ->]. apply prog_bind_ok in H' as (s1 & h & H1 & H').
  apply outcome_bind_ok in H1 as (? & Hh & H1). injection H1 as <- <-.
  case_decide; [|apply ret_ok in H' as [-> _]; split_and!; [done|reflexivity|done]].
  apply modify_ok in H' as ->. split_and!; [|frame|done].
  - destruct I as [I1 I2 I3 I4 I5 I6]. split; try done. simpl. by eexists.
  - unfold high_view. simpl. rewrite Hh, Hq. lia.
Qed.

(** ** The rules of the protocol *)

(** The certificates [processCertificate] accepts (lines 247-256): those whose
    signatures verify, and, unverified, all whose [Leader] names the replica.  The
    replica writes its name there in the certificates it builds, but the field is not
    signed, so a certificate that was received can carry it too. *)
Definition certified `{ReplicaEnv} (qc : QC) : Prop :=
  qc_Leader qc = re_ID
  ∨ VerifyQuorumSignature env_keys (qc_AggSig qc) (qc_BlockID qc) (qc_Signers qc) = Ok true.

(** The three-chain rule: [c] is the walk from a block whose child and grandchild
    follow it in consecutive views, the grandchild being the block of the accepted
    certificate [qc]. *)
Definition three_chain `{ReplicaEnv} (s : chained) (qc : QC) (c : list Block) : Prop :=
  let f := forrest (bc s) in
  qc ∈ store s ∧ certified qc ∧ 3 ≤ qc_View qc
  ∧ ∃ b2 b1 b0,
      GetVertex f (qc_BlockID qc) = Some b2 ∧ GetVertex f (b_PrevID b2) = Some b1
      ∧ GetVertex f (b_PrevID b1) = Some b0
      ∧ int64 (b_View b0 + 1) = b_View b1 ∧ int64 (b_View b1 + 1) = qc_View qc
      ∧ walk f b0 c.

(** The condition under which [votingRule] answers yes. *)
Definition may_vote (s : chained) (b : Block) : Prop :=
  2 < b_View b →
  lastVotedView s < b_View b
  ∧ ∃ stored parent, GetVertex (forrest (bc s)) (b_ID b) = Some stored
      ∧ GetVertex (forrest (bc s)) (b_PrevID stored) = Some parent
      ∧ preferredView s ≤ b_View parent.

(** The vote [v] for the block [b], which the leader of its view proposed, sent to
    the leader of the next view, obeys the voting rule. *)
Definition votes_by_rule `{ReplicaEnv} (s : chained) (b : Block) (to : NodeID) (v : Vote) : Prop :=
  MakeVote (b_View b) re_ID (b_ID b) = Ok v
  ∧ IsLeader (b_Proposer b) (b_View b) = Ok true
  ∧ FindLeaderFor (int64 (b_View b + 1)) = Ok to ∧ may_vote s b.

Definition hs_may_send `{ReplicaEnv} (s : chained) (voted : option Block) (o : output) : Prop :=
  match o, voted with
  | Send to v, Some b => to ≠ re_ID ∧ votes_by_rule s b to v
  | OwnVote v, Some b => votes_by_rule s b re_ID v
  | BroadcastTmo view id qc, None => id = re_ID ∧ qc = (highQC s ≫= λ a, store s !! a)
  | _, _ => False
  end.

#[export] Instance hs_rules `{ReplicaEnv} : Rules :=
  {| may_commit := λ s qc carrier c, carrier = None ∧ three_chain s qc c;
     may_send := hs_may_send; frozen := True |}.

(** ** The invariant and the guarantees, operation by operation *)

Section keeps.
Context `{ReplicaEnv}.

Lemma keeps_updatePreferredView qc : keeps anything (updatePreferredView qc).
Proof.
  unfold updatePreferredView. case_decide; [preserve|].
  eapply preserves_bind; [apply _|apply keeps_GetBlockByID|]. intros [b|e] _; [|preserve].
  eapply preserves_bind; [apply _|apply keeps_GetParentBlock|]. intros [g|e] _; [|preserve].
  intros s s' a I H'. apply prog_bind_ok in H' as (s1 & pv & H1 & H').
  apply gets_ok in H1 as [-> ->]. apply prog_bind_ok in H' as (s1 & u & H1 & H').
  apply ret_ok in H' as [-> ->]. case_decide.
  - apply modify_ok in H1 as ->. split_and!; [by destruct I; split|frame|done].
  - apply ret_ok in H1 as [-> _]. split_and!; [done|reflexivity|done].
Qed.

Lemma commitRule_ok qc s s' r :
  chained_inv s → commitRule qc s = Ok (s', r) →
  s' = s ∧ ∀ b0, r = Val (Some b0) → ∃ b2 b1,
    GetVertex (forrest (bc s)) (qc_BlockID qc) = Some b2
    ∧ GetVertex (forrest (bc s)) (b_PrevID b2) = Some b1
    ∧ GetVertex (forrest (bc s)) (b_PrevID b1) = Some b0
    ∧ b_ID b0 = b_PrevID b1
    ∧ int64 (b_View b0 + 1) = b_View b1 ∧ int64 (b_View b1 + 1) = qc_View qc.
Proof.
  intros I H'. unfold commitRule in H'. apply prog_bind_ok in H' as (s1 & r1 & H1 & H').
  apply ask_bc_ok in H1 as [-> H1]. destruct r1 as [b1|e]; [|apply ret_ok in H' as [-> ->]; by split].
  apply prog_bind_ok in H' as (s1 & r2 & H2 & H'). apply ask_bc_ok in H2 as [-> H2].
  destruct r2 as [b0|e]; [|apply ret_ok in H' as [-> ->]; by split].
  case_decide as Hd; apply ret_ok in H' as [-> ->]; [|by split]. split; [done|].
  intros ? [= <-]. apply (parent_found _ _ _ _ _ (ci_forest s I) eq_refl) in H1 as (b2 & Hb2 & Hb1 & Hid).
  apply (parent_found _ _ _ _ _ (ci_forest s I) eq_refl) in H2 as (b1' & Hb1' & Hb0 & Hid0).
  rewrite Hid, Hb1 in Hb1'. injection Hb1' as <-. exists b2, b1. split_and!; tauto.
Qed.

(** A commit obeys the three-chain rule. *)
Lemma commit_keeps cf qc s s' u :
  chained_inv s → qc ∈ store s → certified qc → 3 ≤ qc_View qc → commit cf qc s = Ok (s', u) →
  chained_inv s' ∧ advances s s'.
Proof.
  intros I Hin Hcert Hge H'. unfold commit in H'. apply prog_bind_ok in H' as (s1 & r & H1 & H').
  destruct (commitRule_ok qc s s1 r I H1) as [-> Hrule].
  destruct r as [[b0|]|e]; [|by apply ret_ok in H' as [-> _]..].
  destruct (Hrule b0 eq_refl) as (b2 & b1 & Hb2 & Hb1 & Hb0 & Hid & Hv1 & Hv2).
  do 2 (apply prog_bind_ok in H' as (s1 & v & H2 & H'); apply gets_ok in H2 as [-> ->]).
  apply prog_bind_ok in H' as (s1 & r & H2 & H'). apply zoom_ok in H2 as (c & H2 & ->).
  pose proof (commit_step cf _ _ s qc None c r I H2) as Hstep.
  destruct r as [[committed forked]|e]; [|apply ret_ok in H' as [-> _]; exact Hstep].
  apply modify_ok in H' as ->. destruct Hstep as [I' Hadv]. split; [done|]. apply Hadv.
  apply CommitBlock_inv in H2 as (v & f' & no & Hv & Hw & _ & _); [|apply I].
  rewrite Hid, Hb0 in Hv. injection Hv as <-.
  split; [done|]. split_and!; [done..|]. exists b2, b1, b0. split_and!; done.
Qed.

Hint Resolve keeps_updateHighQC keeps_updatePreferredView : go.

Lemma keeps_processCertificate cf p : keeps anything (processCertificate cf p).
Proof.
  intros s s' u I H'. cut (chained_inv s' ∧ advances s s'); [by intros []|]. revert H'.
  unfold processCertificate. intros (s1 & qc & H1 & H')%prog_bind_ok.
  destruct (keeps_deref p s s1 qc I H1) as (_ & _ & Hqc).
  apply outcome_bind_ok in H1 as (q & Hq & H1). injection H1 as <- <-.
  assert (q ∈ store s) as Hin.
  { apply qc_deref_ok in Hq as (a & _ & Ha). apply list_elem_of_lookup. eauto. }
  apply prog_bind_ok in H' as (s1 & v & H1 & H'). apply gets_ok in H1 as [-> ->].
  case_decide; [by apply ret_ok in H' as [-> _]|].
  apply prog_bind_ok in H' as (s1 & ok & H1 & H').
  assert (s1 = s ∧ (ok = true → certified q)) as [-> Hcert].
  { destruct (decide (qc_Leader q = re_ID)); [apply ret_ok in H1 as [-> ->]; split; [done|]; by left|].
    apply lift_ok in H1 as [-> H1]. split; [done|]. intros ->. by right. }
  destruct ok; simpl in H'; [|by apply ret_ok in H' as [-> _]]. specialize (Hcert eq_refl). clear H1.
  apply prog_bind_ok in H' as (s1 & attack & H1 & H').
  assert (s1 = s) as -> by (destruct (_ && _); [by apply lift_ok in H1 as [-> _]|by apply ret_ok in H1 as [-> _]]).
  clear H1.
  destruct attack; [by destruct (keeps_AdvanceView (qc_View q) Hqc s s' u I H') as (? & ? & _)|].
  apply prog_bind_ok in H' as (s1 & r & H1 & H').
  destruct (keeps_updatePreferredView q s s1 r I H1) as (I1 & A1 & _).
  destruct r as [[]|e];
    [|destruct (keeps_buffer_QC (qc_BlockID q) p s1 s' u I1 H') as (? & A2 & _);
      split; [done|by transitivity s1]].
  cut (chained_inv s' ∧ advances s1 s'); [intros [? ?]; split; [done|by transitivity s1]|].
  eapply keeps_then with (Q := advances s1);
    [by apply keeps_AdvanceView|done|done|exact H'|]. clear H'. intros u2 s2 I2 A2 H'.
  eapply keeps_then with (Q := advances s2);
    [by apply keeps_updateHighQC|done|done|exact H'|]. clear H'. intros u3 s3 I3 A3 H'.
  case_decide; [by apply ret_ok in H' as [-> _]|].
  eapply commit_keeps; [done| |done|lia|done].
  assert (mono s s3) as [_ _ _ _ _ _ Hst]
    by (apply advances_mono; transitivity s1; [done|]; by transitivity s2).
  destruct (Hst Logic.I) as [l ->]. set_solver.
Qed.
Hint Resolve keeps_processCertificate : go.

(** [votingRule] reads the state and answers yes only under [may_vote]. *)
Lemma votingRule_ok b s s' r :
  chained_inv s → votingRule b s = Ok (s', r) → s' = s ∧ (r = Val true → may_vote s b).
Proof.
  intros I H'. unfold votingRule in H'. case_decide as Hd.
  { apply ret_ok in H' as [-> ->]. split; [done|]. intros _ Hgt. lia. }
  apply prog_bind_ok in H' as (s1 & r1 & H1 & H'). apply ask_bc_ok in H1 as [-> H1].
  destruct r1 as [par|e]; [|apply ret_ok in H' as [-> ->]; by split].
  apply prog_bind_ok in H' as (s1 & lv & H2 & H'). apply gets_ok in H2 as [-> ->].
  apply prog_bind_ok in H' as (s1 & pv & H2 & H'). apply gets_ok in H2 as [-> ->].
  case_decide as Hc; apply ret_ok in H' as [-> ->]; [by split|]. split; [done|]. intros _ _.
  apply (parent_found _ _ _ _ _ (ci_forest s I) eq_refl) in H1 as (v & Hv & Hp & _).
  split; [lia|]. exists v, par. split_and!; [done..|lia].
Qed.

Lemma keeps_processTC tc : is_int64 (tc_View tc) → keeps anything (processTC tc).
Proof. unfold processTC. preserve. Qed.

Lemma keeps_ProcessVote cf v : typed_vote v → keeps anything (ProcessVote cf v).
Proof.
  intros Hv. unfold ProcessVote. preserve_step; [preserve|].
  preserve_step; [preserve|]. eapply preserves_bind; [apply _|apply keeps_AddVote|].
  intros [isBuilt qc] Hqc. simpl in Hqc. preserve_step; [preserve|].
  eapply preserves_bind; [apply _|apply preserves_lift with (Φ := typed_qc)|]; [apply _| |].
  { intros q Hq%of_option_ok. unfold typed_qc. by rewrite (Hqc q Hq). }
  intros q Hq. eapply preserves_bind; [apply _|by apply keeps_alloc|]. preserve.
Qed.
Hint Resolve keeps_processTC keeps_ProcessVote : go.

Lemma keeps_ProcessRemoteTmo cf tmo : typed_tmo tmo → keeps anything (ProcessRemoteTmo cf tmo).
Proof.
  intros Ht. unfold ProcessRemoteTmo. preserve_step.
  eapply preserves_bind; [apply _|apply keeps_pm_ProcessRemoteTmo|].
  intros [isBuilt tc] Htc. simpl in Htc. preserve_step; [preserve|].
  eapply preserves_bind; [apply _|apply preserves_lift with (Φ := λ tc, tc_View tc = tmo_View tmo)|];
    [apply _|by intros q Hq%of_option_ok; auto|].
  intros q Hq. simpl in Hq. apply keeps_processTC. by rewrite Hq.
Qed.

Lemma keeps_ProcessLocalTmo cf view : is_int64 view → keeps anything (ProcessLocalTmo cf view).
Proof.
  intros Hv. unfold ProcessLocalTmo, GetHighQC. preserve_step. intros s s' u I H'.
  apply prog_bind_ok in H' as (s1 & h & H1 & H'). apply gets_ok in H1 as [-> ->].
  apply prog_bind_ok in H' as (s1 & [] & H1 & H'). apply modify_ok in H1 as ->.
  match type of H' with _ (emit s ?w ?o) = _ => destruct (emit_keeps w o s I) as [I1 A1]; [done|] end.
  eapply keeps_ProcessRemoteTmo in H' as (I2 & A2 & _); [|apply int64_range|done].
  split_and!; [done|by etrans|done].
Qed.

Lemma keeps_process_buffered_QC cf b : keeps anything (process_buffered_QC cf b).
Proof. unfold process_buffered_QC. preserve. Qed.

(** Casting a vote obeys the voting rule. *)
Lemma cast_vote_keeps cf b s s' u :
  chained_inv s → typed_block b → may_vote s b → IsLeader (b_Proposer b) (b_View b) = Ok true →
  cast_vote cf b s = Ok (s', u) → chained_inv s' ∧ advances s s'.
Proof.
  intros I Hb Hmay Hlead H'. unfold cast_vote in H'.
  apply prog_bind_ok in H' as (s1 & v & H1 & H'). apply lift_ok in H1 as [-> H1].
  apply prog_bind_ok in H' as (s1 & to & H2 & H'). apply lift_ok in H2 as [-> H2].
  case_decide as Hto.
  - apply prog_bind_ok in H' as (s1 & [] & H3 & H'). apply modify_ok in H3 as ->. subst to.
    destruct (emit_keeps (Some b) (OwnVote v) s I) as [I1 A1]; [split_and!; done|].
    destruct (MakeVote_ok _ _ _ _ H1) as (Hview & _).
    eapply keeps_ProcessVote in H' as (? & ? & _); [|unfold typed_vote; by rewrite Hview|done].
    split; [done|by etrans].
  - apply modify_ok in H' as ->. apply emit_keeps; [done|]. split_and!; done.
Qed.

Hint Resolve keeps_process_buffered_QC : go.

Lemma keeps_ProcessBlock_body rec cf b :
  (∀ c, typed_block c → keeps anything (rec c)) → typed_block b →
  keeps anything (ProcessBlock_body rec cf b).
Proof.
  intros Hrec Hb.
  assert (keeps anything (process_buffered_block rec b)) as Hbuf.
  { unfold process_buffered_block. eapply preserves_bind; [apply _|apply keeps_buffered|].
    intros m Hm. destruct (m !! b_View b) as [c|] eqn:E; [|preserve].
    destruct (Hm _ c E) as [Hc _]. eapply preserves_bind; [apply _|by apply Hrec|]. preserve. }
  assert (IsLeader (b_Proposer b) (b_View b) = Ok true → keeps anything (accept_block rec cf b)) as Hacc.
  { intros Hlead. unfold accept_block. do 2 preserve_step. intros s s' u I Hrun.
    apply prog_bind_ok in Hrun as (s1 & r & Hvote & Hrun).
    destruct (votingRule_ok b s s1 r I Hvote) as [-> Hmay].
    destruct r as [[]|e]; [|apply ret_ok in Hrun as [-> _]; split_and!; [done|reflexivity|done]..].
    apply prog_bind_ok in Hrun as (s1 & [] & Hcast & Hrun).
    destruct (cast_vote_keeps cf b s s1 () I Hb (Hmay eq_refl) Hlead Hcast) as [I1 A1].
    assert (keeps anything (process_buffered_block rec b;; mret (Val () : result ()))) as Hk by preserve.
    destruct (Hk s1 s' u I1 Hrun) as (I2 & A2 & _). split_and!; [done|by etrans|done]. }
  assert (keeps anything (isLeader ← lift (IsLeader (b_Proposer b) (b_View b));
    if negb isLeader then mret (Err "received a proposal from an invalid leader")
    else accept_block rec cf b)) as Htail.
  { eapply preserves_bind; [apply _|apply preserves_lift with
      (Φ := λ l, IsLeader (b_Proposer b) (b_View b) = Ok l); [apply _|done]|].
    intros [] Hl; simpl; [by apply Hacc|preserve]. }
  unfold ProcessBlock_body. preserve.
  eapply keeps_buffer_block; [apply int64_range|done..].
Qed.

Lemma keeps_ProcessBlock cf fuel b : typed_block b → keeps anything (ProcessBlock cf fuel b).
Proof.
  revert b. induction fuel as [|fuel IH]; intros b Hb; simpl;
    apply keeps_ProcessBlock_body; done.
Qed.
End keeps.
End HotStuff.
