(* ===== verification/HotStuffProps.v ===== *)
(** * Properties of the HotStuff replica

    A replica is driven by messages from the network, by its timer and by its
    own proposals.  The theorems are about every sequence of such events: the
    invariant of the state, what never moves backwards, which blocks are
    committed, which votes are sent, and how deep the recursion of
    [ProcessBlock] goes. *)
From S2P Require Import Prelude Identity Sha1 Election Db Crypto Types Quorum Forest BlockChain Pacemaker Chained Safety HotStuff.

Local Open Scope Z_scope.
Import HotStuff.

Section props.
Context `{ReplicaEnv}.

(** The replica does not run the forking attack. *)
Definition honest : Prop := re_IsByz = false ∨ re_Strategy ≠ FORK.

(** The protocol behind the interface of the replica. *)
Definition hs_safety : Safety chained :=
  {| sf_ProcessBlock := ProcessBlock; sf_ProcessVote := λ cf _, ProcessVote cf;
     sf_ProcessRemoteTmo := λ cf _, ProcessRemoteTmo cf;
     sf_ProcessLocalTmo := λ cf _, ProcessLocalTmo cf;
     sf_GetChainStatus := GetChainStatus; sf_MakeProposal := MakeProposal; sf_MakePProposal := MakePProposal;
     sf_pm := pm; sf_set_pm := set_pm; sf_store := store; sf_set_store := set_store;
     sf_committed := committedBlocks; sf_forked := forkedBlocks; sf_goroutine := λ _, mret () |}.

Definition handle : nat → nat → event → prog chained () := sf_handle (SF := hs_safety).

(** The states a replica can get to from [s]. *)
Definition hs_step : chained → chained → Prop := sf_step (SF := hs_safety).
Definition hs_run : chained → chained → Prop := rtc hs_step.

Definition initial : chained := NewHotStuff (NewPacemaker re_N).

Lemma initial_inv : chained_inv initial.
Proof.
  split; simpl; try done.
  - by repeat constructor.
  - apply forest_inv_new.
  - by eexists.
Qed.

(** An honest proposal extends the highest certificate. *)
Lemma keeps_forkChoice : honest → keeps anything forkChoice.
Proof.
  intros Hh s s' p I H1. assert (s' = s) as ->; [|split_and!; [done|reflexivity|done]].
  unfold forkChoice in H1. replace (negb re_IsByz || _) with true in H1.
  - by apply gets_ok in H1 as [-> _].
  - destruct Hh as [->|Hs]; [done|]. rewrite bool_decide_eq_false_2 by done. by rewrite orb_true_r.
Qed.
Hint Resolve keeps_forkChoice : go.

Lemma keeps_MakeProposal view payload :
  honest → is_int64 view → keeps typed_block (MakeProposal view payload).
Proof.
  intros Hh Hv. unfold MakeProposal. preserve. apply preserves_lift; [apply _|].
  intros b (Hview & _)%MakeBlock_ok. unfold typed_block. by rewrite Hview.
Qed.

Lemma keeps_MakePProposal tries priori view :
  honest → is_int64 view → keeps typed_block (MakePProposal tries priori view).
Proof.
  intros Hh Hv. unfold MakePProposal. preserve. apply preserves_lift; [apply _|].
  intros b (Hview & _)%MakePBlock_ok. unfold typed_block. by rewrite Hview.
Qed.

Lemma keeps_handle cf fuel e : honest → typed_event e → keeps anything (handle cf fuel e).
Proof.
  intros Hh He. destruct e as [b qc|v|view id qc| |view payload now|n pr view now| |k].
  - destruct He as [Hb Hq]. eapply preserves_bind; [apply _|by apply (keeps_alloc_opt qc)|]. intros p _.
    eapply preserves_bind; [apply _|by apply keeps_ProcessBlock|]. preserve.
  - by apply keeps_ProcessVote.
  - destruct He as [Hv Hq]. eapply preserves_bind; [apply _|by apply (keeps_alloc_opt qc)|]. intros p _.
    by apply keeps_ProcessRemoteTmo.
  - eapply preserves_bind; [apply _|apply preserves_gets with (Φ := is_int64); [apply _|]|].
    + intros s I. apply I.
    + intros v Hv. by apply keeps_ProcessLocalTmo.
  - eapply preserves_bind; [apply _|by apply keeps_MakeProposal|]. intros b Hb.
    eapply preserves_bind; [apply _|by apply keeps_ProcessBlock|]. preserve.
  - eapply preserves_bind; [apply _|by apply keeps_MakePProposal|]. intros b Hb.
    eapply preserves_bind; [apply _|by apply keeps_ProcessBlock|]. preserve.
  - by apply (keeps_AdvanceView 0).
  - change (keeps anything (mret () : prog chained ())). preserve.
Qed.

Lemma hs_run_keeps s s' :
  honest → chained_inv s → hs_run s s' → chained_inv s' ∧ advances s s'.
Proof.
  intros Hh I Hrun. revert I. induction Hrun as [|s1 s2 s3 (cf & fuel & e & He & Hs) _ IH];
    intros I; [split; [done|reflexivity]|].
  destruct (keeps_handle cf fuel e Hh He s1 s2 () I Hs) as (I2 & A2 & _).
  destruct (IH I2) as [I3 A3]. split; [done|by transitivity s2].
Qed.

(** ** The depth of the recursion *)

Lemma unbuffered_updateHighQC p : unbuffered (updateHighQC p).
Proof. unfold updateHighQC. preserve. Qed.
Lemma unbuffered_updatePreferredView qc : unbuffered (updatePreferredView qc).
Proof. unfold updatePreferredView. preserve. Qed.
Lemma unbuffered_commit cf qc : unbuffered (commit cf qc).
Proof. unfold commit, commitRule. preserve. Qed.
Hint Resolve unbuffered_updateHighQC unbuffered_updatePreferredView unbuffered_commit : go.
Lemma unbuffered_processCertificate cf p : unbuffered (processCertificate cf p).
Proof. unfold processCertificate. preserve. Qed.
Hint Resolve unbuffered_processCertificate : go.
Lemma unbuffered_ProcessVote cf v : unbuffered (ProcessVote cf v).
Proof. unfold ProcessVote. preserve. Qed.
Hint Resolve unbuffered_ProcessVote : go.
Lemma unbuffered_cast_vote cf b : unbuffered (cast_vote cf b).
Proof. unfold cast_vote. preserve. Qed.
Lemma unbuffered_process_buffered_QC cf b : unbuffered (process_buffered_QC cf b).
Proof. unfold process_buffered_QC. preserve. Qed.
Lemma unbuffered_votingRule b : unbuffered (votingRule b).
Proof. unfold votingRule. preserve. Qed.

(** [ProcessBlock] calls itself at most on the block buffered under its view, and
    the buffer is then still the one it started with. *)
Lemma ProcessBlock_body_ext rec1 rec2 cf b s :
  (∀ c s1, bufferedBlocks s1 = bufferedBlocks s → bufferedBlocks s !! b_View b = Some c →
     rec1 c s1 = rec2 c s1) →
  ProcessBlock_body rec1 cf b s = ProcessBlock_body rec2 cf b s.
Proof.
  intros Hrec. unfold ProcessBlock_body. apply prog_bind_ext. intros s1 v [-> ->]%gets_ok.
  apply prog_bind_ext. intros s1 ok Hok.
  assert (s1 = s) as -> by (destruct (decide (b_Proposer b = re_ID));
    [by apply ret_ok in Hok as [-> _]|by apply lift_ok in Hok as [-> _]]). clear Hok.
  destruct (decide (_ < b_View b)); [done|]. destruct (b_QC b) as [qc|]; [|done].
  apply prog_bind_ext. intros s1 u1 (_ & B1 & _)%unbuffered_updateHighQC; [|done].
  apply prog_bind_ext. intros s2 u2 H2.
  assert (same_buffer s1 s2) as B2.
  { destruct (decide (b_Proposer b = re_ID)); [by apply ret_ok in H2 as [-> _]|].
    by apply unbuffered_processCertificate in H2 as (_ & ? & _). }
  apply prog_bind_ext. intros s3 v [-> ->]%gets_ok. destruct (decide (b_View b < curView_of s2)); [done|].
  apply prog_bind_ext. intros s3 l [-> _]%lift_ok. destruct (negb l); [done|].
  unfold accept_block. apply prog_bind_ext. intros s3 u3 (_ & B3 & _)%unbuffered_bc; [|done].
  apply prog_bind_ext. intros s4 u4 (_ & B4 & _)%unbuffered_process_buffered_QC; [|done].
  apply prog_bind_ext. intros s5 r (_ & B5 & _)%unbuffered_votingRule; [|done].
  destruct r as [[]|e]; [|done|done].
  apply prog_bind_ext. intros s6 u6 (_ & B6 & _)%unbuffered_cast_vote; [|done].
  unfold same_buffer in *. assert (bufferedBlocks s6 = bufferedBlocks s) as B by congruence.
  assert (process_buffered_block rec1 b s6 = process_buffered_block rec2 b s6) as Heq;
    [|unfold mbind, prog_bind; by rewrite Heq].
  unfold process_buffered_block. apply prog_bind_ext. intros s7 m [-> ->]%gets_ok.
  destruct (bufferedBlocks s6 !! b_View b) as [c|] eqn:E; [|done].
  assert (rec1 c s6 = rec2 c s6) as Hc by (apply Hrec; [done|by rewrite <- B]).
  unfold mbind, prog_bind. by rewrite Hc.
Qed.

(** How many buffered blocks are filed at or after a view. *)
Definition ahead (m : gmap Z Block) (v : Z) : nat := base.size (filter (λ kb, v ≤ kb.1) m).

Lemma ahead_le m v : (ahead m v ≤ base.size m)%nat.
Proof. apply map_subseteq_size, map_filter_subseteq. Qed.

Lemma ahead_next m v c : m !! v = Some c → (ahead m (v + 1) < ahead m v)%nat.
Proof.
  intros Hc. unfold ahead. apply map_subset_size. split.
  - apply map_subseteq_spec. intros k b. rewrite !map_lookup_filter_Some. simpl. intros [? ?].
    split; [done|lia].
  - intros Hsub. rewrite map_subseteq_spec in Hsub. specialize (Hsub v c).
    rewrite !map_lookup_filter_Some in Hsub. simpl in Hsub.
    destruct Hsub as [_ ?]; [split; [done|lia]|lia].
Qed.

(** The recursion unrolled [fuel] times, with [bottom] below. *)
Definition unrolled (cf fuel : nat) (bottom : Block → prog chained (result ()))
  : Block → prog chained (result ()) :=
  Nat.iter fuel (λ rec, ProcessBlock_body rec cf) bottom.

Lemma ProcessBlock_unrolled cf fuel :
  ProcessBlock cf fuel = unrolled cf (S fuel) (λ _, lift (Fault DepthExhausted)).
Proof. induction fuel as [|fuel IH]; [done|]. simpl. by rewrite IH. Qed.

Lemma unrolled_bottom cf fuel b s bottom1 bottom2 :
  (∀ k c, bufferedBlocks s !! k = Some c → k = b_View c - 1) →
  (ahead (bufferedBlocks s) (b_View b) < fuel)%nat →
  unrolled cf fuel bottom1 b s = unrolled cf fuel bottom2 b s.
Proof.
  revert b s. induction fuel as [|fuel IH]; intros b s Hbuf Hlen; [lia|]. simpl.
  apply ProcessBlock_body_ext. intros c s1 Hs1 Hc. apply IH; rewrite Hs1; [done|].
  pose proof (ahead_next _ _ _ Hc). specialize (Hbuf _ c Hc).
  replace (b_View c) with (b_View b + 1) by lia. lia.
Qed.

(** [C38] The recursion of [ProcessBlock] on buffered blocks terminates: in a
    well-formed state, once unrolled more often than there are blocks in the
    buffer, the result no longer depends on what lies below, so the recursion
    never gets there; in particular more fuel never changes the result. *)
Theorem ProcessBlock_depth cf fuel b s bottom :
  chained_inv s → (base.size (bufferedBlocks s) ≤ fuel)%nat →
  ProcessBlock cf fuel b s = unrolled cf (S fuel) bottom b s
  ∧ ∀ fuel', (fuel ≤ fuel')%nat → ProcessBlock cf fuel' b s = ProcessBlock cf fuel b s.
Proof.
  intros I Hlen. pose proof (ahead_le (bufferedBlocks s) (b_View b)) as Ha.
  assert (∀ k c, bufferedBlocks s !! k = Some c → k = b_View c - 1) as Hbuf
    by (intros k c Hc; by apply (ci_buffer s I)).
  split; [rewrite ProcessBlock_unrolled; apply unrolled_bottom; [done|lia]|].
  intros fuel' Hle. rewrite !ProcessBlock_unrolled.
  replace (S fuel') with (S fuel + (fuel' - fuel))%nat by lia.
  unfold unrolled at 1. rewrite Nat.iter_add.
  apply (unrolled_bottom cf (S fuel) b s); [done|lia].
Qed.

(** [C7] In every run of an honest HotStuff replica, over any sequence of
    messages, timeouts and proposals, the state stays well formed (the block
    forest, the certificate store, the buffers), and nothing moves backwards: the
    current view (unless the largest 64-bit view is passed), the preferred view,
    the view of the highest certificate and the lowest retained level never
    decrease, and committed blocks are never retracted. *)
Theorem hotstuff_monotone s s' :
  honest → hs_run initial s → hs_run s s' →
  chained_inv s'
  ∧ (wrapped (pm s') ∨ curView_of s ≤ curView_of s')
  ∧ preferredView s ≤ preferredView s' ∧ high_view s ≤ high_view s'
  ∧ LowestLevel (forrest (bc s)) ≤ LowestLevel (forrest (bc s'))
  ∧ committedBlocks s `prefix_of` committedBlocks s'.
Proof.
  intros Hh H1 H2. destruct (hs_run_keeps _ _ Hh initial_inv H1) as [I1 _].
  destruct (hs_run_keeps _ _ Hh I1 H2) as [I2 A2].
  destruct (advances_mono _ _ A2) as [_ Hv Hp _ Hl Hhi _].
  split_and!; [done..|by apply Hhi|done|]. by apply advances_committed.
Qed.

(** What a run recorded, from the initial state. *)
Lemma hs_run_logs s : honest → hs_run initial s → logs initial s (deeds s).
Proof.
  intros Hh H1. destruct (hs_run_keeps _ _ Hh initial_inv H1) as [_ [h Hl]%advances_logs].
  by rewrite (log_deeds _ _ _ Hl).
Qed.

(** [C3] HotStuff commits only by its three-chain rule.  In every run of an
    honest replica, the blocks on the committed channel are exactly the batches of
    the recorded commits, in order, and those on the forked channel their forked
    blocks.  Each commit is recorded with the certificate that caused it and with the
    state just before it; in that state the certificate is stored, its view is at
    least 3, and it was accepted (its signatures verify, or its unsigned [Leader]
    field names the replica, in which case the code does not verify them); the forest
    holds the certified block, its parent and its grandparent, the grandparent's and
    the parent's views and the view of the certificate are consecutive, and the batch
    is the walk from the grandparent through the stored parents down to the last
    committed level. *)
Theorem hotstuff_commits_by_three_chain s :
  honest → hs_run initial s →
  committedBlocks s = concat (batches_in (deeds s))
  ∧ forkedBlocks s = concat (forks_in (deeds s))
  ∧ ∀ sm qc carrier c f, (sm, Committed qc carrier c f) ∈ deeds s →
      chained_inv sm ∧ three_chain sm qc c.
Proof.
  intros Hh [_ _ H2 H3 H4]%hs_run_logs; [|done]. split_and!; [done..|].
  intros sm qc w c f Hin. rewrite Forall_forall in H4. by destruct (H4 _ Hin) as [? [_ ?]].
Qed.

(** [C6] What a HotStuff replica sends.  In every run of an honest replica, the
    messages on the network are exactly the recorded ones, in order; each is
    recorded with the state in which it was sent and, for a vote, with the block voted
    for.  A vote, sent or counted by the replica itself, is its signed vote for that
    block, whose proposer is the leader of the block's view; it goes to the leader of
    the next view; and if the view is above 2, then in that state it is above the
    last voted view and the parent of the stored block is stored and at or above
    the preferred view.  A timeout message carries the replica's own identity and its
    highest certificate of that state. *)
Theorem hotstuff_sends_by_rule s :
  honest → hs_run initial s →
  network s = sent_in (deeds s)
  ∧ ∀ sm voted o, (sm, Sent voted o) ∈ deeds s → chained_inv sm ∧ hs_may_send sm voted o.
Proof.
  intros Hh [_ H2 _ _ H4]%hs_run_logs; [|done]. split; [done|].
  intros sm w o Hin. rewrite Forall_forall in H4. exact (H4 _ Hin).
Qed.

(** The replica never records what it voted for: [lastVotedView] is still 0
    after every run, so the first condition of the voting rule never stops a vote
    for a positive view. *)
Theorem hotstuff_lastVotedView_unused s :
  honest → hs_run initial s → lastVotedView s = 0.
Proof.
  intros Hh H1. destruct (hs_run_keeps _ _ Hh initial_inv H1) as [I1 A1].
  by destruct (advances_mono _ _ A1) as [_ _ _ -> _ _ _].
Qed.
End props.

(** ** A run

    Replica 1 of the sample environment receives four blocks in a row; the fourth
    brings the certificate that commits the first. *)
Definition run_event (e : event) (s : chained) : chained :=
  match @handle sample_env 10 10 e s with Ok (s', _) => s' | Fault _ => s end.

Definition sample_initial : chained := @initial sample_env.

Fixpoint sample_after (n : nat) : chained :=
  match n with
  | O => sample_initial
  | S n => run_event (chain_event (S n)) (sample_after n)
  end.

Lemma run_event_step e s :
  typed_event e → match @handle sample_env 10 10 e s with Ok _ => True | Fault _ => False end →
  @hs_step sample_env s (run_event e s).
Proof.
  intros He Hs. exists 10%nat, 10%nat, e. split; [done|]. unfold run_event.
  change (sf_handle 10 10 e s) with (@handle sample_env 10 10 e s).
  by destruct (@handle sample_env 10 10 e s) as [[s' []]|].
Qed.

Lemma sample_step n :
  (n < 100)%nat →
  match @handle sample_env 10 10 (chain_event (S n)) (sample_after n) with
  | Ok _ => True | Fault _ => False end →
  @hs_step sample_env (sample_after n) (sample_after (S n)).
Proof. intros Hn Hs. apply run_event_step; [by apply chain_event_typed|exact Hs]. Qed.

Lemma sample_steps n : (n < 4)%nat → @hs_step sample_env (sample_after n) (sample_after (S n)).
Proof.
  intros Hn. apply sample_step; [lia|].
  destruct n as [|[|[|[|n]]]]; [vm_compute; exact Logic.I..|lia].
Qed.

Lemma sample_reachable_upto n :
  (n ≤ 4)%nat → @hs_run sample_env sample_initial (sample_after n).
Proof.
  induction n as [|n IH]; intros Hn; [apply rtc_refl|].
  eapply rtc_r; [apply IH; lia|]. apply sample_steps. lia.
Qed.

Lemma sample_reachable : @hs_run sample_env sample_initial (sample_after 4).
Proof. apply sample_reachable_upto. lia. Qed.

Lemma sample_honest : @honest sample_env.
Proof. by left. Qed.

Lemma hotstuff_monotone_witness :
  @hs_run sample_env sample_initial (sample_after 4) ∧ curView_of (sample_after 4) = 4
  ∧ chained_inv (sample_after 4).
Proof.
  split; [exact sample_reachable|]. split; [vm_compute; reflexivity|].
  apply (@hotstuff_monotone sample_env sample_initial (sample_after 4) sample_honest
           (rtc_refl _ _) sample_reachable).
Defined.

Lemma hotstuff_commits_by_three_chain_witness :
  fmap (M:=list) b_ID <$> batches_in (deeds (sample_after 4)) = [[1%N]]
  ∧ ∀ sm qc carrier c f, (sm, Committed qc carrier c f) ∈ deeds (sample_after 4) →
      @three_chain sample_env sm qc c.
Proof.
  split; [vm_compute; reflexivity|]. intros sm qc carrier c f Hin.
  exact (proj2 (proj2 (proj2 (@hotstuff_commits_by_three_chain sample_env (sample_after 4)
    sample_honest sample_reachable)) sm qc carrier c f Hin)).
Defined.

Lemma hotstuff_sends_by_rule_witness :
  length (network (sample_after 4)) = 4%nat
  ∧ ∀ sm voted o, (sm, Sent voted o) ∈ deeds (sample_after 4) →
      @hs_may_send sample_env sm voted o.
Proof.
  split; [vm_compute; reflexivity|]. intros sm voted o Hin.
  exact (proj2 (proj2 (@hotstuff_sends_by_rule sample_env (sample_after 4)
    sample_honest sample_reachable) sm voted o Hin)).
Defined.

Lemma hotstuff_lastVotedView_unused_witness : lastVotedView (sample_after 4) = 0.
Proof.
  exact (@hotstuff_lastVotedView_unused sample_env (sample_after 4) sample_honest sample_reachable).
Defined.

(** The third block arrives before the second: it is buffered. *)
Definition sample_early : chained := run_event (chain_event 3) (sample_after 1).

Lemma sample_early_inv : chained_inv sample_early.
Proof.
  apply (@hs_run_keeps sample_env sample_initial); [exact sample_honest|apply (@initial_inv sample_env)|].
  eapply rtc_r; [apply (sample_reachable_upto 1); lia|].
  apply run_event_step; [apply (chain_event_typed 2); lia|vm_compute; exact Logic.I].
Qed.

(** One level of recursion is enough there, and it is used: the buffer is empty
    at the end and both blocks are stored. *)
Lemma ProcessBlock_depth_witness :
  base.size (bufferedBlocks sample_early) = 1%nat
  ∧ @ProcessBlock sample_env 10 7 (with_QC (chain_block 2) (Some 0%nat)) sample_early
    = @ProcessBlock sample_env 10 1 (with_QC (chain_block 2) (Some 0%nat)) sample_early.
Proof.
  split; [vm_compute; reflexivity|].
  apply (@ProcessBlock_depth sample_env 10 1 (with_QC (chain_block 2) (Some 0%nat)) sample_early
           (λ _, lift (Fault DepthExhausted)) sample_early_inv); [|lia].
  replace (base.size (bufferedBlocks sample_early)) with 1%nat; [lia|vm_compute; reflexivity].
Defined.

(** ** What the protocol does not check *)

(** Another block for view 3, by the same leader. *)
Definition twin : event :=
  RecvBlock (MkBlock 3 None "2" 0 [] 2 (sample_sig 33) 33 None) (Some (chain_qc 2)).
Definition sample_twin : chained := run_event twin (sample_after 3).

Definition votes_sent (s : chained) : list Vote :=
  omap (λ o, match o with Send _ v => Some v | _ => None end) (network s).

(** A certificate for view 50 of a block nobody knows, with made-up signatures. *)
Definition forged_qc : QC := MkQC "3" 50 77 ["1"; "2"; "3"] (replicate 3 ["0"; "0"]) [].
Definition forged : event :=
  RecvBlock (MkBlock 3 None "3" 0 [] 77 ["0"; "0"] 78 None) (Some forged_qc).
Definition sample_forged : chained := run_event forged (sample_after 2).

(** A certificate without signers for the largest view, in a timeout message. *)
Definition overflow : event := RecvTmo 5 "3" (Some (MkQC "3" max_int64 2 [] [] [])).
Definition sample_overflow : chained := run_event overflow (sample_after 3).

Lemma sample_extend n e :
  (n ≤ 4)%nat → typed_event e →
  match @handle sample_env 10 10 e (sample_after n) with Ok _ => True | Fault _ => False end →
  @hs_run sample_env sample_initial (run_event e (sample_after n)).
Proof.
  intros Hn He Hs. eapply rtc_r; [by apply sample_reachable_upto|]. by apply run_event_step.
Qed.

(** An honest HotStuff replica can be made to vote twice in a view: a leader
    that proposes two blocks for view 3 gets a vote for each of them from the same
    replica.  The last voted view that the voting rule compares with is never
    recorded. *)
Theorem hotstuff_double_vote :
  @honest sample_env ∧ @hs_run sample_env sample_initial sample_twin
  ∧ ∃ v1 v2, v1 ∈ votes_sent sample_twin ∧ v2 ∈ votes_sent sample_twin
    ∧ vote_Voter v1 = vote_Voter v2 ∧ vote_View v1 = vote_View v2 ∧ vote_BlockID v1 ≠ vote_BlockID v2.
Proof.
  split; [exact sample_honest|]. split.
  { apply sample_extend; [lia|by vm_compute|vm_compute; exact Logic.I]. }
  exists (MkVote 3 "1" 3 (sample_sig 3)), (MkVote 3 "1" 33 (sample_sig 33)).
  assert (votes_sent sample_twin
    = (λ id, MkVote (if decide (id = 33%N) then 3 else Z.of_N id) "1" id (sample_sig id))
      <$> [1; 2; 3; 33]%N) as -> by (vm_compute; reflexivity).
  split_and!; [apply list_elem_of_fmap; exists 3%N; split; [vm_compute; reflexivity|set_solver]
    |apply list_elem_of_fmap; exists 33%N; split; [vm_compute; reflexivity|set_solver]|done..].
Qed.

(** The highest certificate of an honest HotStuff replica need not be
    certified: a block from a node that is not the leader, with an invalid
    signature and a certificate whose signatures do not verify, makes that
    certificate, for a far later view, the one the replica will propose on. *)
Theorem hotstuff_unverified_highQC :
  @honest sample_env ∧ @hs_run sample_env sample_initial sample_forged
  ∧ high_view sample_forged = 50
  ∧ ∃ a, highQC sample_forged = Some a ∧ store sample_forged !! a = Some forged_qc
    ∧ @VerifyQuorumSignature sample_ecdsa sample_keys (qc_AggSig forged_qc)
        (qc_BlockID forged_qc) (qc_Signers forged_qc) = Ok false.
Proof.
  split; [exact sample_honest|]. split.
  { apply sample_extend; [lia|by vm_compute|vm_compute; exact Logic.I]. }
  split; [vm_compute; reflexivity|]. exists 3%nat. split_and!; vm_compute; reflexivity.
Qed.

(** One timeout message takes an honest HotStuff replica back to the smallest
    view: a certificate that names no signers verifies, and advancing past the
    largest 64-bit view wraps around. *)
Theorem hotstuff_view_wraps :
  @honest sample_env ∧ @hs_run sample_env sample_initial sample_overflow
  ∧ curView_of (sample_after 3) = 3 ∧ curView_of sample_overflow = min_int64.
Proof.
  split; [exact sample_honest|]. split.
  { apply sample_extend; [lia|by vm_compute|vm_compute; exact Logic.I]. }
  split; vm_compute; reflexivity.
Qed.
