(* ===== verification/HotStuffLive.v ===== *)
(** * Progress of a HotStuff replica

    What the leader of a quiet period achieves: a replica that is sent the blocks of a
    certified chain, one block per view, in whatever order the network delivers them,
    votes for each of them once, in the order of their views, and commits all of them
    but the last three.  The blocks that arrive early go through the buffer of
    [ProcessBlock].  The leader's own part is in file [HotStuffLead]. *)
From S2P Require Import Prelude Identity Sha1 Election Db Crypto Types Quorum Forest BlockChain Pacemaker Chained Safety HotStuff HotStuffProps.

Local Open Scope Z_scope.
Import HotStuff.

(** A chain: [blk i] is the block of view [i] and [qc i] the certificate inside it. *)
Record certified_chain `{ReplicaEnv} (n : nat) (blk : nat → Block) (qc : nat → QC) : Prop := {
  cc_bound : Z.of_nat n < max_int64;
  cc_view i : (1 ≤ i ≤ n)%nat → b_View (blk i) = Z.of_nat i;
  cc_parent i : (1 ≤ i < n)%nat → b_PrevID (blk (S i)) = b_ID (blk i);
  cc_ids i j : (1 ≤ i ≤ n)%nat → (1 ≤ j ≤ n)%nat → b_ID (blk i) = b_ID (blk j) → i = j;
  cc_genesis i : (1 ≤ i ≤ n)%nat → b_PrevID (blk 1%nat) ≠ b_ID (blk i);
  cc_qc_view i : (1 ≤ i ≤ n)%nat → qc_View (qc i) = Z.of_nat i - 1;
  cc_qc_block i : (1 ≤ i ≤ n)%nat → qc_BlockID (qc i) = b_PrevID (blk i);
  cc_qc_verified i : (1 ≤ i ≤ n)%nat →
    VerifyQuorumSignature env_keys (qc_AggSig (qc i)) (qc_BlockID (qc i)) (qc_Signers (qc i))
    = Ok true
}.

(** A replica for which the blocks up to view [m] are the proposals of others:
    [vote i] is its vote and [agg i] the node that collects the votes, maybe itself.
    Its own vote is not a quorum. *)
Record followed `{ReplicaEnv} (m : nat) (blk : nat → Block) (vote : nat → Vote) (agg : nat → NodeID)
  : Prop := {
  fl_signed i : (1 ≤ i ≤ m)%nat →
    PubVerify env_keys (b_Sig (blk i)) (IDToByte (b_ID (blk i))) (b_Proposer (blk i)) = Ok true;
  fl_leader i : (1 ≤ i ≤ m)%nat →
    IsLeader (b_Proposer (blk i)) (Z.of_nat i) = Ok true ∧ b_Proposer (blk i) ≠ re_ID;
  fl_vote i : (1 ≤ i ≤ m)%nat → MakeVote (Z.of_nat i) re_ID (b_ID (blk i)) = Ok (vote i);
  fl_agg i : (1 ≤ i ≤ m)%nat → FindLeaderFor (Z.of_nat i + 1) = Ok (agg i);
  fl_alone : 1 ≤ threshold re_N
}.

(** The block of view [i] as a replica holds it: with a pointer to its
    certificate. *)
Definition holds (blk : nat → Block) (qc : nat → QC) (st : QCStore) (i : nat) (b : Block) : Prop :=
  ∃ a, b = with_QC (blk i) (Some a) ∧ st !! a = Some (qc i).

(** A vote that is not enough for a certificate only changes the collection. *)
Lemma AddVote_small `{ReplicaEnv} w s :
  total (quorum (bc s)) = re_N → let ms := votes_of (quorum (bc s)) (vote_BlockID w) in
  Z.of_nat (base.size (<[vote_Voter w := w]> ms)) ≤ threshold re_N →
  on_bc (λ _, AddVote w) s = Ok (set_bc s (set_quorum (stored (quorum (bc s)) w) (bc s)), (false, None)).
Proof.
  intros Ht ms Hs.
  assert (superMajority (quorum (bc s)) (vote_BlockID w) = false) as H1.
  { unfold superMajority, Quorum.size. rewrite Ht. fold ms. apply bool_decide_eq_false_2.
    pose proof (map_size_insert (vote_Voter w) w ms) as Hi. destruct (ms !! vote_Voter w); simpl in Hi; lia. }
  destruct (Add_stores (quorum (bc s)) w H1) as [E1 E2].
  assert (superMajority (stored (quorum (bc s)) w) (vote_BlockID w) = false) as H2.
  { unfold superMajority, Quorum.size. rewrite votes_of_stored, decide_True by done. fold ms. simpl. rewrite Ht.
    apply bool_decide_eq_false_2. lia. }
  rewrite H2 in E2. unfold on_bc, AddVote, zoom. destruct (Add _ _) as [q r]. simpl in E1, E2. by subst.
Qed.

Section live.
Context `{ReplicaEnv} (n : nat) (blk : nat → Block) (qc : nat → QC).
Context (C : certified_chain n blk qc).
Abbreviation holds := (holds blk qc).

Lemma holds_prefix st st' i b : st `prefix_of` st' → holds st i b → holds st' i b.
Proof.
  intros [k ->] (a & -> & Ha). exists a. split; [done|]. by apply lookup_app_l_Some.
Qed.

Lemma chain_level i : (1 ≤ i ≤ n)%nat → uint64 (Z.of_nat i) = Z.of_nat i.
Proof. intros. pose proof (cc_bound _ _ _ C). apply uint64_id. unfold_ints. lia. Qed.

Lemma chain_int64 z : 0 ≤ z ≤ Z.of_nat n + 1 → int64 z = z.
Proof. intros. pose proof (cc_bound _ _ _ C). apply int64_id. unfold_ints. lia. Qed.

Lemma holds_spec st i b :
  (1 ≤ i ≤ n)%nat → holds st i b →
  b_View b = Z.of_nat i ∧ Level b = Z.of_nat i ∧ b_ID b = b_ID (blk i)
  ∧ b_PrevID b = b_PrevID (blk i) ∧ qc_deref st (b_QC b) = Ok (qc i)
  ∧ b_Proposer b = b_Proposer (blk i).
Proof.
  intros Hi (a & -> & Ha). simpl. unfold Level. simpl. rewrite (cc_view _ _ _ C) by done.
  rewrite chain_level by done. split_and!; try done. apply qc_deref_ok. eauto.
Qed.

(** ** The forest of a follower: one block per level

    The levels from [low] to [k] hold one block each, apart from level 0, whose
    container for the parent of the first block is empty. *)
Record line (st : QCStore) (low k : nat) (f : LevelledForest) : Prop := {
  ln_inv : forest_inv f;
  ln_low : LowestLevel f = Z.of_nat low;
  ln_at i : (1 ≤ i)%nat → (low ≤ i ≤ k)%nat →
    ∃ p b, at_level f (Z.of_nat i) = [p] ∧ vertex_at f p = Some b ∧ holds st i b;
  ln_above l : Z.of_nat k < l → at_level f l = [];
  ln_zero p : p ∈ at_level f 0 → vertex_at f p = None;
  ln_fresh i : (k < i ≤ n)%nat → vertices f !! b_ID (blk i) = None
}.

Lemma line_store st st' low k f : st `prefix_of` st' → line st low k f → line st' low k f.
Proof.
  intros Hp [L1 L2 L3 L4 L5 L6]. split; try done. intros i H1 H2.
  destruct (L3 i H1 H2) as (p & b & ? & ? & ?). exists p, b. split_and!; try done.
  by eapply holds_prefix.
Qed.

Lemma line_get st low k f i :
  line st low k f → (k ≤ n)%nat → (1 ≤ i)%nat → (low ≤ i ≤ k)%nat →
  ∃ b, GetVertex f (b_ID (blk i)) = Some b ∧ holds st i b.
Proof.
  intros L Hk Hi Hl. destruct (ln_at _ _ _ _ L i Hi Hl) as (p & b & Hat & Hv & Hb).
  exists b. split; [|done]. apply GetVertex_Some. exists p. split; [|done].
  destruct (inv_level f (ln_inv _ _ _ _ L) (Z.of_nat i) p) as (c & Hc & _ & Hid);
    [rewrite Hat; set_solver|].
  unfold vertex_at in Hv. rewrite Hc in Hv. simpl in Hv.
  pose proof (inv_full f (ln_inv _ _ _ _ L) p c b Hc Hv) as E.
  destruct (holds_spec st i b) as (_ & _ & Eid & _); [lia|done|].
  unfold VertexID in E. congruence.
Qed.

(** Every registered container lies on one of the levels. *)
Lemma line_level st low k f l p :
  line st low k f → p ∈ at_level f l →
  l = 0 ∨ ∃ i, l = Z.of_nat i ∧ (1 ≤ i)%nat ∧ (low ≤ i ≤ k)%nat.
Proof.
  intros L Hp. destruct (decide (l = 0)); [by left|right].
  destruct (decide (Z.of_nat k < l)); [rewrite (ln_above _ _ _ _ L) in Hp by done; set_solver|].
  destruct (decide (l < LowestLevel f)) as [Hlow|].
  { rewrite (inv_lowest f (ln_inv _ _ _ _ L)) in Hp by done. set_solver. }
  pose proof (ln_low _ _ _ _ L). exists (Z.to_nat l). lia.
Qed.

Lemma line_only st low k f id b :
  line st low k f → (k ≤ n)%nat → GetVertex f id = Some b →
  ∃ i, (1 ≤ i)%nat ∧ (low ≤ i ≤ k)%nat ∧ holds st i b ∧ id = b_ID (blk i).
Proof.
  intros L Hk (p & Hp & Hv)%GetVertex_Some.
  destruct (inv_vertex f (ln_inv _ _ _ _ L) id p Hp) as (c & Hc & Hid & Hin).
  destruct (line_level _ _ _ _ _ _ L Hin) as [E|(i & E & Hi & Hl)]; rewrite E in Hin.
  { by rewrite (ln_zero _ _ _ _ L p Hin) in Hv. }
  destruct (ln_at _ _ _ _ L i Hi Hl) as (q & b' & Hat & Hv' & Hb).
  rewrite Hat in Hin. apply list_elem_of_singleton in Hin as <-.
  assert (b' = b) as -> by congruence. exists i. split_and!; try (done || lia).
  destruct (holds_spec st i b) as (_ & _ & Eid & _); [lia|done|].
  unfold vertex_at in Hv. rewrite Hc in Hv. simpl in Hv.
  pose proof (inv_full f (ln_inv _ _ _ _ L) p c b Hc Hv) as E'. unfold VertexID in E'. congruence.
Qed.

Lemma line_genesis st low k f :
  line st low k f → (k ≤ n)%nat → GetVertex f (b_PrevID (blk 1%nat)) = None.
Proof.
  intros L Hk. apply eq_None_not_Some. intros [b (i & Hi & Hl & _ & E)%(line_only _ _ _ _ _ _ L Hk)].
  apply (cc_genesis _ _ _ C i); [lia|done].
Qed.

(** The parent in the forest of the block of view [S i]. *)
Lemma line_parent st low k f i w :
  line st low k f → (k ≤ n)%nat → (S i ≤ n)%nat → GetVertex f (b_PrevID (blk (S i))) = Some w →
  (1 ≤ i)%nat ∧ (low ≤ i ≤ k)%nat ∧ holds st i w.
Proof.
  intros L Hk Hi Hw. destruct i as [|i].
  { rewrite (line_genesis _ _ _ _ L Hk) in Hw. done. }
  rewrite (cc_parent _ _ _ C) in Hw by lia.
  destruct (line_only _ _ _ _ _ _ L Hk Hw) as (j & Hj & Hl & Hb & E).
  apply (cc_ids _ _ _ C) in E as ->; [done|lia|lia].
Qed.

Lemma line_linked st low k f : line st low k f → (k ≤ n)%nat → well_linked st f.
Proof.
  intros L Hk l p Hp. destruct (line_level _ _ _ _ _ _ L Hp) as [->|(i & -> & Hi & Hl)].
  { rewrite (ln_zero _ _ _ _ L p Hp). split; [lia|done]. }
  destruct (ln_at _ _ _ _ L i Hi Hl) as (q & b & Hat & Hv & Hb).
  rewrite Hat in Hp. apply list_elem_of_singleton in Hp as ->. rewrite Hv.
  split; [by eexists|]. intros ? [= <-].
  destruct (holds_spec st i b) as (_ & Hlev & _ & Hprev & Hqc & _); [lia|done|].
  split_and!; [done|by eexists|]. intros w Hw. rewrite Hprev in Hw.
  destruct i as [|i]; [lia|]. destruct (line_parent _ _ _ _ i w L Hk ltac:(lia) Hw) as (? & ? & Hb').
  destruct (holds_spec st i w) as (_ & -> & _); [lia|done|]. lia.
Qed.

(** The walk from the block just above the lowest level is that block alone. *)
Lemma line_walk st low k f b :
  line st low k f → (k ≤ n)%nat → (S low ≤ k)%nat → holds st (S low) b → walk f b [b].
Proof.
  intros L Hk Hlow Hb. destruct (holds_spec st (S low) b) as (Hv & Hlev & _ & Hprev & _); [lia|done|].
  pose proof (ln_low _ _ _ _ L) as Hl. unfold Level in Hlev.
  destruct (GetVertex f (b_PrevID b)) as [w|] eqn:Hw; [|constructor; [lia|done]].
  econstructor; [lia|done|]. constructor.
  rewrite Hprev in Hw. destruct (line_parent _ _ _ _ low w L Hk ltac:(lia) Hw) as (? & ? & Hb').
  destruct (holds_spec st low w) as (_ & E & _); [lia|done|]. unfold Level in E. lia.
Qed.

(** Adding the next block. *)
Lemma line_first st b f' :
  (1 ≤ n)%nat → holds st 1 b → AddVertex st NewLevelledForest b = Ok f' → line st 0 1 f'.
Proof.
  intros Hn Hb Hf'. destruct (AddVertex_spec st _ b f' forest_inv_new Hf') as (I' & Hlow & _).
  destruct (holds_spec st 1 b) as (Hv & Hlev & Hid & Hprev & Hqc & _); [lia|done|].
  unfold AddVertex in Hf'. rewrite Hlev in Hf'. simpl in Hf'.
  unfold getOrCreateVertexContainer at 1 in Hf'. simpl in Hf'. rewrite lookup_empty in Hf'. simpl in Hf'.
  unfold registerWithParent, Parent in Hf'. simpl in Hf'. rewrite Hqc in Hf'. simpl in Hf'.
  rewrite (cc_qc_view _ _ _ C) in Hf' by lia. simpl in Hf'.
  change (uint64 (Z.of_nat 1 - 1)) with 0 in Hf'.
  unfold getOrCreateVertexContainer in Hf'. simpl in Hf'.
  rewrite lookup_insert_ne in Hf'.
  2:{ unfold VertexID. rewrite Hid, Hprev. intros E. by apply (cc_genesis _ _ _ C 1%nat); [lia|]. }
  rewrite lookup_empty in Hf'. simpl in Hf'. injection Hf' as <-. split; try done.
  - intros i H1 H2. assert (i = 1%nat) as -> by lia. exists 0%nat, b. split_and!; try done.
  - intros l Hl. unfold at_level. simpl. rewrite !lookup_insert_ne by lia.
    by rewrite lookup_empty.
  - intros p Hp. unfold at_level in Hp. simpl in Hp. apply list_elem_of_singleton in Hp as ->. done.
  - intros i Hi. simpl. rewrite !lookup_insert_ne; [done| |].
    + unfold VertexID. rewrite Hid. intros E%(cc_ids _ _ _ C); lia.
    + rewrite Hprev. apply (cc_genesis _ _ _ C). lia.
Qed.

Lemma line_next st low k f b f' :
  line st low k f → (low ≤ k)%nat → (1 ≤ k < n)%nat → holds st (S k) b →
  AddVertex st f b = Ok f' → line st low (S k) f'.
Proof.
  intros L Hlk Hk Hb Hf'. pose proof L as [L1 L2 L3 L4 L5 L6].
  destruct (AddVertex_spec st f b f' L1 Hf') as (I' & Hlow & _).
  destruct (holds_spec st (S k) b) as (Hv & Hlev & Hid & Hprev & Hqc & _); [lia|done|].
  destruct (line_get st low k f k L) as (w & Hw & _); [lia..|].
  rewrite <- (cc_parent _ _ _ C), <- Hprev in Hw by lia.
  destruct (AddVertex_fresh st f b w (qc (S k)) f' L1) as (Hat & Hvx & Hvs); try done.
  { unfold VertexID. rewrite Hid. apply L6. lia. }
  { rewrite L2, Hlev. lia. }
  { rewrite L2, (cc_qc_view _ _ _ C) by lia.
    replace (Z.of_nat (S k) - 1) with (Z.of_nat k) by lia. rewrite chain_level by lia. lia. }
  assert (∀ l q, q ∈ at_level f l → q ≠ length (containers f)) as Hold.
  { intros l q Hq ->. destruct (inv_level f L1 l _ Hq) as (c & Hc & _). apply lookup_lt_Some in Hc. lia. }
  rewrite Hlev in Hat. split; [done|by rewrite Hlow| | | |].
  - intros i H1 H2. rewrite Hat. destruct (decide (i = S k)) as [->|].
    + rewrite decide_True, L4 by lia. exists (length (containers f)), b. rewrite Hvx, decide_True by done. done.
    + rewrite decide_False by lia. destruct (L3 i H1 ltac:(lia)) as (p & b' & Hp & Hb' & ?).
      exists p, b'. rewrite Hvx, decide_False; [done|]. intros E. apply (Hold (Z.of_nat i) p); [rewrite Hp; set_solver|done].
  - intros l Hl. rewrite Hat, decide_False by lia. apply L4. lia.
  - intros p. rewrite Hat, decide_False by lia. intros Hp.
    rewrite Hvx, decide_False by (intros E; by apply (Hold 0 p)). by apply L5.
  - intros i Hi. rewrite Hvs. unfold VertexID. rewrite Hid, lookup_insert_ne; [apply L6; lia|].
    intros E%(cc_ids _ _ _ C); lia.
Qed.

(** Pruning up to the next level drops no fork. *)
Lemma committed_levels_grows fuel st f l acc res :
  committed_levels fuel st f l acc = Ok res → acc ⊆ res.
Proof.
  revert l acc. induction fuel as [|fuel IH]; intros l acc; simpl; (case_decide; [|by intros [= <-]]); [done|].
  intros (p & _ & H1)%outcome_bind_ok. apply outcome_bind_ok in H1 as (c & _ & H1).
  apply outcome_bind_ok in H1 as (v & _ & H1). apply outcome_bind_ok in H1 as ([id pv] & _ & H1).
  destruct (GetVertex f id) as [w|]; [|by injection H1 as <-].
  destruct (decide (Level w < LowestLevel f)); [by injection H1 as <-|]. apply IH in H1. set_solver.
Qed.

Lemma line_committed st low k f fuel res :
  line st low k f → (k ≤ n)%nat → (1 ≤ low < k)%nat →
  committed_levels fuel st f (Z.of_nat (S low)) ∅ = Ok res → Z.of_nat low ∈ res.
Proof.
  intros L Hk Hlow. destruct fuel as [|fuel]; cbn [committed_levels];
    (rewrite decide_True by (rewrite (ln_low _ _ _ _ L); lia)); [done|].
  destruct (ln_at _ _ _ _ L (S low)) as (p & b & Hat & Hv & Hb); [lia..|].
  destruct (holds_spec st (S low) b) as (_ & _ & _ & Hprev & Hqc & _); [lia|done|].
  unfold vertex_at in Hv. destruct (containers f !! p) as [c|] eqn:Hc; [|done]. simpl in Hv.
  rewrite Hat. unfold container. simpl. rewrite Hc. simpl. rewrite Hv. simpl.
  unfold Parent. rewrite Hqc. simpl. rewrite Hprev, (cc_parent _ _ _ C) by lia.
  destruct (line_get st low k f low L) as (w & Hw & Hb'); [lia..|]. rewrite Hw.
  destruct (holds_spec st low w) as (_ & Hlev & _); [lia|done|]. rewrite Hlev, (ln_low _ _ _ _ L).
  rewrite decide_False by lia. intros Hres%committed_levels_grows. set_solver.
Qed.

Lemma line_prune st low k f fuel :
  line st low k f → (k ≤ n)%nat → (low < k)%nat → (S low < fuel)%nat →
  ∃ f' no, PruneUpToLevel fuel st f (Z.of_nat (S low)) = Ok (f', Val ([], no)) ∧ line st (S low) k f'.
Proof.
  intros L Hk Hlow Hfuel. pose proof (ln_inv _ _ _ _ L) as I.
  pose proof (line_linked _ _ _ _ L Hk) as W. pose proof (ln_low _ _ _ _ L) as Hl.
  destruct (PruneUpToLevel_returns st f (Z.of_nat (S low)) fuel I W) as (f' & fk & no & Hpr); [lia| |lia|].
  { destruct (ln_at _ _ _ _ L (S low)) as (p & b & -> & _); [lia..|done]. }
  destruct (PruneUpToLevel_spec _ _ _ _ _ _ _ I Hpr) as (_ & I' & Hl' & _ & _ & committed & Hcom & ->).
  destruct (PruneUpToLevel_shape _ _ _ _ _ _ I Hpr) as (Hc & Hat & Hvs).
  exists f', no. split.
  - rewrite Hpr. do 3 f_equal. rewrite Hl. replace (Z.of_nat (S low) - Z.of_nat low) with 1 by lia.
    simpl. rewrite app_nil_r. destruct (decide (_ ∧ _)) as [[Hnin Hlt]|]; [|done]. f_equal.
    destruct Hnin. replace (Z.of_nat low + 0) with (Z.of_nat low) by lia.
    eapply line_committed; [done..|lia|done].
  - split; [done|done| | | |].
    + intros i H1 H2. rewrite Hat, decide_False by lia. unfold vertex_at. rewrite Hc.
      apply (ln_at _ _ _ _ L); lia.
    + intros l Hll. rewrite Hat. destruct (decide _); [done|]. by apply (ln_above _ _ _ _ L).
    + intros p. rewrite Hat. destruct (decide _); [set_solver|]. unfold vertex_at. rewrite Hc.
      apply (ln_zero _ _ _ _ L).
    + intros i Hi. apply Hvs, (ln_fresh _ _ _ _ L). lia.
Qed.

Context (vote : nat → Vote) (agg : nat → NodeID).

(** What is sent for the block of view [i]. *)
Definition out (i : nat) : output :=
  if decide (agg i = re_ID) then OwnVote (vote i) else Send (agg i) (vote i).

(** The votes collected for the block of view [i]. *)
Definition ballots (i : nat) (s : chained) : gmap NodeID Vote := votes_of (quorum (bc s)) (b_ID (blk i)).

(** ** The state of a follower

    [at_view got v k s]: the follower has stored the chain up to view [k] and is
    in view [v] (one more while it handles the certificate of the next block);
    [got] are the views of the blocks delivered so far, of which those after [v]
    wait in the buffer. *)
Record at_view (got : gset nat) (v k : nat) (s : chained) : Prop := {
  av_view : curView_of s = Z.of_nat v;
  av_empty : k = 0%nat → forrest (bc s) = NewLevelledForest;
  av_line : line (store s) (v - 3) k (forrest (bc s));
  av_qcs : bufferedQCs s = ∅;
  av_voted : lastVotedView s = 0;
  av_preferred : preferredView s ≤ Z.of_nat (v - 1);
  av_high : ∃ h, qc_deref (store s) (highQC s) = Ok h ∧ qc_View h < Z.of_nat (Nat.max 1 v);
  av_buffer j : (v ≤ j)%nat →
    match bufferedBlocks s !! Z.of_nat j with
    | Some b => S j ∈ got ∧ holds (store s) (S j) b
    | None => S j ∉ got
    end;
  av_committed : Forall2 (holds (store s)) (seq 1 (v - 3)) (committedBlocks s);
  av_forked : forkedBlocks s = [];
  av_network : network s = out <$> seq 1 k;
  av_quorum : total (quorum (bc s)) = re_N ∧ ∀ i, (k < i ≤ n)%nat → ballots i s = ∅;
  av_chan : newViewChan (pm s) = Z.of_nat <$> seq 1 v
}.

(** The replica's own vote for the last block, if it collects the votes. *)
Definition own_ballot (k : nat) (s : chained) : Prop :=
  (1 ≤ k)%nat → ballots k s = if decide (agg k = re_ID) then {[re_ID := vote k]} else ∅.

Lemma updateHighQC_run p s q h :
  qc_deref (store s) p = Ok q → qc_deref (store s) (highQC s) = Ok h →
  ∃ p', updateHighQC p s = Ok (set_highQC s p', ()) ∧ (p' = p ∨ p' = highQC s).
Proof.
  intros Hq Hh. unfold updateHighQC, deref, mbind, prog_bind, gets. rewrite Hq. simpl.
  rewrite Hh. simpl. case_decide; [by exists p; auto|]. exists (highQC s). by destruct s; auto.
Qed.

Lemma line_GetParentBlock st low k b i :
  line st low k (forrest b) → (k ≤ n)%nat → (1 ≤ i)%nat → (low ≤ i)%nat → (S i ≤ k)%nat →
  ∃ p, GetParentBlock st b (b_ID (blk (S i))) = Ok (Val p) ∧ holds st i p
    ∧ GetVertex (forrest b) (b_ID (blk i)) = Some p.
Proof.
  intros L Hk Hi Hlow Hle. unfold GetParentBlock.
  destruct (line_get _ _ _ _ (S i) L) as (v & -> & Hv); [lia..|].
  destruct (holds_spec st (S i) v) as (_ & _ & _ & Hprev & Hqc & _); [lia|done|].
  unfold Parent. rewrite Hqc. simpl. rewrite Hprev, (cc_parent _ _ _ C) by lia.
  destruct (line_get _ _ _ _ i L) as (w & Hw & Hh); [lia..|]. exists w. by rewrite Hw.
Qed.

Lemma qc_of_next k : (1 ≤ k < n)%nat → qc_BlockID (qc (S k)) = b_ID (blk k).
Proof. intros. rewrite (cc_qc_block _ _ _ C), (cc_parent _ _ _ C) by lia. done. Qed.

Lemma updatePreferredView_run got k s :
  at_view got k k s → (k < n)%nat → ∀ p,
  ∃ v, updatePreferredView (qc (S k)) (set_highQC s p) = Ok (set_highQC (set_preferredView s v) p, Val ())
    ∧ v ≤ Z.of_nat k.
Proof.
  intros A Hk p. unfold updatePreferredView. rewrite (cc_qc_view _ _ _ C) by lia.
  pose proof (av_preferred _ _ _ _ A) as Hp.
  case_decide; [exists (preferredView s); split; [by destruct s|lia]|].
  pose proof (av_line _ _ _ _ A) as L. rewrite qc_of_next by lia. destruct k as [|k]; [lia|].
  destruct (line_get _ _ _ _ (S k) L) as (b & Hb & _); [lia..|].
  destruct (line_GetParentBlock _ _ _ (bc s) k L) as (w & Hw & Hh & _); [lia..|].
  destruct (holds_spec (store s) k w) as (Hv & _); [lia|done|].
  unfold mbind, prog_bind, gets, ask_bc, GetBlockByID. cbn [bc store set_highQC]. rewrite Hb. cbv beta iota. cbn [bc store set_highQC]. rewrite Hw. simpl. rewrite Hv.
  case_decide; [by exists (Z.of_nat k); split; [|lia]|].
  exists (preferredView s). split; [by destruct s|lia].
Qed.

(** The commit on the certificate of the block of view [S (S (S low))]. *)
Lemma commit_run cf low s :
  line (store s) low (3 + low) (forrest (bc s)) → (3 + low < n)%nat → (S low < cf)%nat →
  ∃ b c, commit cf (qc (4 + low)) s
    = Ok (send_blocks (set_bc s c) (snapshot s) (qc (4 + low)) None [b] [], ())
    ∧ holds (store s) (S low) b ∧ line (store s) (S low) (3 + low) (forrest c)
    ∧ quorum c = MkQuorum (total (quorum (bc s))) (delete (b_ID (blk (S low))) (votes (quorum (bc s)))).
Proof.
  intros L Hn Hcf. unfold commit, commitRule, ask_bc, mbind, prog_bind.
  change (4 + low)%nat with (S (3 + low)). rewrite qc_of_next by lia.
  destruct (line_GetParentBlock _ _ _ (bc s) (2 + low) L) as (b2 & Hb2 & H2 & _); [lia..|].
  destruct (line_GetParentBlock _ _ _ (bc s) (1 + low) L) as (b1 & Hb1 & H1 & Hget); [lia..|].
  destruct (holds_spec (store s) (2 + low) b2) as (Hv2 & _ & Hid2 & _); [lia|done|].
  destruct (holds_spec (store s) (1 + low) b1) as (Hv1 & Hl1 & Hid1 & _); [lia|done|].
  change (3 + low)%nat with (S (2 + low)). rewrite Hb2. simpl. rewrite Hid2.
  change (2 + low)%nat with (S (1 + low)). rewrite Hb1. simpl.
  rewrite Hv1, Hv2, (cc_qc_view _ _ _ C) by lia.
  rewrite decide_True by (rewrite !chain_int64 by lia; lia). simpl.
  destruct (line_prune _ _ _ _ cf L) as (f' & no & Hpr & L'); [lia..|].
  pose proof (line_walk _ _ _ _ b1 L ltac:(lia) ltac:(lia) H1) as Hw.
  change (1 + low)%nat with (S low) in *. rewrite <- Hl1 in Hpr.
  unfold on_bc, zoom, gets. simpl. rewrite Hid1.
  rewrite (CommitBlock_run _ _ _ _ _ _ _ _ _ _ Hget Hw) with (2 := Hpr) by (simpl; lia).
  simpl. eexists b1, _. split_and!; [done..|]. simpl. by rewrite Hid1.
Qed.

(** Entering the next view announces it. *)
Lemma chan_advance k p :
  curView p = Z.of_nat k → (k < n)%nat → newViewChan p = Z.of_nat <$> seq 1 k →
  newViewChan (advance (Z.of_nat k) p) = Z.of_nat <$> seq 1 (S k).
Proof.
  intros Hv Hk Hc. unfold advance. rewrite decide_False by lia. cbn [newViewChan].
  rewrite Hc, chain_int64 by lia. rewrite seq_S, fmap_app. simpl. do 2 f_equal. lia.
Qed.

(** What the certificate of the next block does before the commit. *)
Lemma at_view_advance got k s v p :
  at_view got k k s → (k < n)%nat → v ≤ Z.of_nat k →
  (∃ h, qc_deref (store s) p = Ok h ∧ qc_View h < Z.of_nat (S k)) →
  let s1 := set_highQC (set_pm (set_preferredView s v) (advance (Z.of_nat k) (pm s))) p in
  curView_of s1 = Z.of_nat (S k)
  ∧ (line (store s) (S k - 3) k (forrest (bc s1)) →
     Forall2 (holds (store s)) (seq 1 (S k - 3)) (committedBlocks s) → at_view got (S k) k s1).
Proof.
  intros A Hk Hv Hp s1. pose proof A as [A1 A2 A3 A4 A5 A6 A7 A8 A9 A10 A11 A12 A14].
  assert (curView_of s1 = Z.of_nat (S k)) as Hview.
  { unfold s1, curView_of, GetCurView, advance in *. simpl. rewrite decide_False by lia. simpl.
    rewrite chain_int64 by lia. lia. }
  split; [done|]. intros L Hc. split; try done; simpl.
  - lia.
  - intros j Hj. apply A8. lia.
  - by apply chan_advance.
Qed.

Lemma at_view_commit got k s c b before q :
  at_view got k k s → (3 ≤ k ≤ n)%nat → ∀ s1, curView_of s1 = Z.of_nat (S k) →
  store s1 = store s → bufferedQCs s1 = ∅ → lastVotedView s1 = 0 → preferredView s1 ≤ Z.of_nat k →
  (∃ h, qc_deref (store s1) (highQC s1) = Ok h ∧ qc_View h < Z.of_nat (S k)) →
  bufferedBlocks s1 = bufferedBlocks s →
  committedBlocks s1 = committedBlocks s → forkedBlocks s1 = [] → network s1 = network s →
  newViewChan (pm s1) = Z.of_nat <$> seq 1 (S k) →
  holds (store s) (S (k - 3)) b → line (store s) (S (k - 3)) k (forrest c) →
  quorum c = MkQuorum (total (quorum (bc s))) (delete (b_ID (blk (S (k - 3)))) (votes (quorum (bc s)))) →
  at_view got (S k) k (send_blocks (set_bc s1 c) before q None [b] [])
  ∧ ballots k (send_blocks (set_bc s1 c) before q None [b] []) = ballots k s.
Proof.
  intros [A1 A2 A3 A4 A5 A6 A7 A8 A9 A10 A11 [A12 A13] A14] Hk s1 Hview Hst Hq Hl Hp Hh Hbuf Hcom Hfk Hnet Hch Hb L Hc.
  assert (∀ i, (k ≤ i ≤ n)%nat → ballots i (send_blocks (set_bc s1 c) before q None [b] []) = ballots i s) as Hbal.
  { intros i Hi. unfold ballots, votes_of. simpl. rewrite Hc. simpl. rewrite lookup_delete_ne; [done|].
    intros E%(cc_ids _ _ _ C); lia. }
  split; [|apply Hbal; lia].
  replace (S (k - 3)) with (S k - 3)%nat in * by lia. split; simpl; rewrite ?Hst; try done.
  - lia.
  - lia.
  - by rewrite <- Hst.
  - intros j Hj. rewrite Hbuf. apply A8. lia.
  - replace (k - 2)%nat with (k - 3 + 1)%nat by lia. rewrite seq_app, Hcom.
    apply Forall2_app; [done|]. replace (1 + (k - 3))%nat with (S k - 3)%nat by lia. by repeat constructor.
  - by rewrite Hfk.
  - by rewrite Hnet.
  - rewrite Hc. split; [done|]. intros i Hi. rewrite <- (A13 i Hi). apply Hbal. lia.
Qed.

(** Handling the certificate of the block of view [k], after it may have become the
    highest one. *)
Lemma processCertificate_run cf got k s a p0 h :
  honest → at_view got k k s → (k < n)%nat → (k < cf)%nat → store s !! a = Some (qc (S k)) →
  qc_deref (store s) p0 = Ok h → qc_View h < Z.of_nat (S k) →
  ∃ s' p, processCertificate cf (Some a) (set_highQC s p0) = Ok (s', ()) ∧ at_view got (S k) k s'
    ∧ store s' = store s ∧ ballots k s' = ballots k s ∧ pm s' = advance (Z.of_nat k) (pm s)
    ∧ highQC s' = p ∧ p = (if decide (qc_View h < Z.of_nat k) then Some a else p0).
Proof.
  intros Hh A Hk Hcf Ha H0 Hlt.
  assert (qc_deref (store s) (Some a) = Ok (qc (S k))) as Hqc by (apply qc_deref_ok; eauto).
  pose proof (cc_qc_view _ _ _ C (S k) ltac:(lia)) as Hv.
  unfold processCertificate. rewrite (prog_bind_run (deref (Some a)) _ (set_highQC s p0) (set_highQC s p0) (qc (S k)))
    by (unfold deref; simpl store; by rewrite Hqc).
  rewrite (prog_bind_run (gets curView_of) _ (set_highQC s p0) (set_highQC s p0) (curView_of s)) by done.
  rewrite (av_view _ _ _ _ A), Hv, decide_False by lia.
  erewrite (prog_bind_run _ _ (set_highQC s p0) (set_highQC s p0) true).
  2:{ case_decide; [done|]. by rewrite (cc_qc_verified _ _ _ C) by lia. }
  cbv beta iota delta [negb].
  erewrite (prog_bind_run _ _ (set_highQC s p0) (set_highQC s p0) false).
  2:{ destruct Hh as [->|Hs]; [done|]. rewrite bool_decide_eq_false_2 by done. by rewrite andb_false_r. }
  destruct (updatePreferredView_run got k s A Hk p0) as (v & Hu & Hvk).
  cbv beta iota. rewrite (prog_bind_run _ _ _ _ _ Hu). cbv beta iota.
  replace (Z.of_nat (S k) - 1) with (Z.of_nat k) by lia.
  erewrite (prog_bind_run (on_pm (AdvanceView (Z.of_nat k)))) by reflexivity.
  set (p := if decide (qc_View h < Z.of_nat k) then Some a else p0).
  set (s1 := set_highQC (set_pm (set_preferredView s v) (advance (Z.of_nat k) (pm s))) p).
  erewrite (prog_bind_run (updateHighQC (Some a)) _ _ s1 ()).
  2:{ unfold updateHighQC, deref, mbind, prog_bind, gets. simpl. rewrite Hqc. simpl. rewrite H0. simpl.
      rewrite Hv. replace (Z.of_nat (S k) - 1) with (Z.of_nat k) by lia. unfold s1, p.
      by destruct (decide (qc_View h < Z.of_nat k)). }
  assert (∃ h, qc_deref (store s) p = Ok h ∧ qc_View h < Z.of_nat (S k)) as Hp.
  { unfold p. destruct (decide _); [exists (qc (S k)); split; [done|lia]|by exists h]. }
  destruct (at_view_advance got k s v p A Hk Hvk Hp) as [Hview Hadv].
  pose proof (av_line _ _ _ _ A) as L. case_decide as H3.
  - exists s1, p. split; [reflexivity|]. split_and!; [|done..]. apply Hadv.
    + replace (S k - 3)%nat with (k - 3)%nat by lia. exact L.
    + replace (S k - 3)%nat with (k - 3)%nat by lia. apply A.
  - destruct (commit_run cf (k - 3) s1) as (b & c & Hc & Hb & L' & Hq);
      [by replace (3 + (k - 3))%nat with k by lia|lia..|].
    replace (4 + (k - 3))%nat with (S k) in Hc by lia. replace (3 + (k - 3))%nat with k in L' by lia.
    destruct (at_view_commit got k s c b (snapshot s1) (qc (S k)) A ltac:(lia) s1 Hview) as [A' Hbal];
      try done; try apply A; [apply chan_advance; [apply A|lia|apply A]|].
    exists (send_blocks (set_bc s1 c) (snapshot s1) (qc (S k)) None [b] []), p. by split_and!.
Qed.

Lemma AddBlock_run got k s b :
  at_view got (S k) k s → (k < n)%nat → holds (store s) (S k) b →
  ∃ c, on_bc (λ st, AddBlock st b) s = Ok (set_bc s c, ())
    ∧ line (store s) (S k - 3) (S k) (forrest c) ∧ quorum c = quorum (bc s).
Proof.
  intros A Hk Hb. pose proof (av_line _ _ _ _ A) as L.
  destruct (holds_spec (store s) (S k) b ltac:(lia) Hb) as (_ & _ & _ & _ & Hqc & _).
  destruct (AddVertex_returns (store s) (forrest (bc s)) b _ (ln_inv _ _ _ _ L) Hqc) as [f' Hf'].
  exists (set_forrest f' (bc s)). split.
  - unfold on_bc, AddBlock, zoom. by rewrite Hf'.
  - split; [|done]. simpl forrest. destruct (decide (k = 0%nat)) as [->|Hk0].
    + rewrite (av_empty _ _ _ _ A) in Hf' by done. apply (line_first _ _ _ ltac:(lia) Hb Hf').
    + eapply line_next; [exact L|lia..|done|done].
Qed.

Lemma votingRule_run s b k :
  (S k ≤ n)%nat → holds (store s) (S k) b → line (store s) (S k - 3) (S k) (forrest (bc s)) →
  lastVotedView s = 0 → preferredView s ≤ Z.of_nat k → votingRule b s = Ok (s, Val true).
Proof.
  intros Hk Hb L Hl Hp. destruct (holds_spec (store s) (S k) b ltac:(lia) Hb) as (Hv & _ & Hid & _).
  unfold votingRule. rewrite Hv. case_decide; [done|].
  destruct (line_GetParentBlock _ _ _ (bc s) k L) as (w & Hw & Hh & _); [lia..|].
  destruct (holds_spec (store s) k w) as (Hwv & _); [lia|done|].
  unfold ask_bc, gets, mbind, prog_bind. rewrite Hid, Hw. simpl. rewrite Hl, Hwv.
  rewrite decide_False; [done|lia].
Qed.

Lemma ballots_stored w s i j :
  vote_BlockID w = b_ID (blk i) → (1 ≤ i ≤ n)%nat → (1 ≤ j ≤ n)%nat →
  ballots j (set_bc s (set_quorum (stored (quorum (bc s)) w) (bc s)))
  = if decide (i = j) then <[vote_Voter w := w]> (ballots i s) else ballots j s.
Proof.
  intros Hw Hi Hj. unfold ballots. simpl. rewrite votes_of_stored, Hw.
  destruct (decide (i = j)) as [->|Hne]; [by rewrite decide_True|]. rewrite decide_False; [done|].
  by intros E%(cc_ids _ _ _ C).
Qed.

(** ** Following the chain *)
Context (m : nat) (F : followed m blk vote agg) (Hm : (m ≤ n)%nat).

Lemma cast_vote_run cf s b k :
  (S k ≤ m)%nat → holds (store s) (S k) b → total (quorum (bc s)) = re_N →
  (∀ i, (k < i ≤ n)%nat → ballots i s = ∅) →
  ∃ q, let s' := set_bc (emit s (Some b) (out (S k))) (set_quorum q (bc s)) in
    cast_vote cf b s = Ok (s', ()) ∧ total q = re_N
    ∧ (∀ i, (S k < i ≤ n)%nat → ballots i s' = ∅) ∧ own_ballot (S k) s'.
Proof.
  intros Hk Hb Ht Hfresh. destruct (holds_spec (store s) (S k) b ltac:(lia) Hb) as (Hv & _ & Hid & _).
  pose proof (fl_agg _ _ _ _ F (S k) ltac:(lia)) as Hagg.
  pose proof (fl_vote _ _ _ _ F (S k) ltac:(lia)) as Hvote.
  destruct (MakeVote_ok _ _ _ _ Hvote) as (_ & Hvoter & Hbid & _).
  unfold cast_vote, mbind, prog_bind, out, own_ballot. rewrite Hv, Hid, Hvote.
  simpl lift. cbv iota beta. rewrite chain_int64 by lia. rewrite Hagg. simpl.
  destruct (decide (agg (S k) = re_ID)) as [Hself|Hne].
  - set (s1 := emit s (Some b) (OwnVote (vote (S k)))). exists (stored (quorum (bc s)) (vote (S k))).
    unfold ProcessVote. rewrite Hvoter, decide_True by done.
    rewrite (prog_bind_run (mret true) _ s1 s1 true) by done. cbv beta iota delta [negb].
    rewrite (prog_bind_run _ _ s1 (set_bc s1 (set_quorum (stored (quorum (bc s)) (vote (S k))) (bc s))) (false, None)).
    2:{ apply (AddVote_small (vote (S k)) s1); [done|]. rewrite Hbid. change (votes_of _ _) with (ballots (S k) s).
        rewrite Hfresh by lia. rewrite insert_empty, map_size_singleton. pose proof (fl_alone _ _ _ _ F). lia. }
    assert (∀ j, (1 ≤ j ≤ n)%nat → ballots j (set_bc s1 (set_quorum (stored (quorum (bc s)) (vote (S k))) (bc s)))
      = if decide (S k = j) then <[re_ID := vote (S k)]> (ballots (S k) s) else ballots j s) as Hbal.
    { intros j Hj. rewrite <- Hvoter. apply (ballots_stored (vote (S k)) s (S k) j); [done|lia|done]. }
    split_and!; [done|done| |].
    + intros i Hi. rewrite Hbal, decide_False by lia. apply Hfresh. lia.
    + intros _. rewrite Hbal, decide_True, Hfresh by lia. by rewrite insert_empty.
  - exists (quorum (bc s)). set (s1 := emit s (Some b) (Send (agg (S k)) (vote (S k)))).
    assert (set_bc s1 (set_quorum (quorum (bc s)) (bc s)) = s1) as -> by (by destruct s as [? ? ? ? ? []]).
    split_and!; [done|done| |].
    + intros i Hi. apply (Hfresh i). lia.
    + intros _. apply (Hfresh (S k)). lia.
Qed.

(** Storing and voting for the next block; the buffer comes last. *)
Lemma accept_run PB cf got k s b :
  at_view got (S k) k s → (k < m)%nat → holds (store s) (S k) b →
  ∃ s', accept_block PB cf b s = (process_buffered_block PB b;; mret (Val ())) s'
    ∧ at_view got (S k) (S k) s' ∧ store s' = store s ∧ own_ballot (S k) s'.
Proof.
  intros A Hk Hb. destruct (AddBlock_run got k s b A ltac:(lia) Hb) as (c & Hadd & L & Hq).
  pose proof A as [A1 A2 A3 A4 A5 A6 A7 A8 A9 A10 A11 [A12 A13] A14].
  unfold accept_block. rewrite (prog_bind_run _ _ _ _ _ Hadd).
  rewrite (prog_bind_run (process_buffered_QC cf b) _ (set_bc s c) (set_bc s c) ()).
  2:{ unfold process_buffered_QC, mbind, prog_bind, gets. simpl. by rewrite A4, lookup_empty. }
  rewrite (prog_bind_run (votingRule b) _ (set_bc s c) (set_bc s c) (Val true)).
  2:{ apply votingRule_run with k; [lia|done..|]. simpl. lia. }
  cbv beta iota.
  destruct (cast_vote_run cf (set_bc s c) b k) as (q & Hcast & Hqt & Hfr & Hown); [lia|done|simpl; by rewrite Hq| |].
  { intros i Hi. unfold ballots. simpl. rewrite Hq. by apply A13. }
  rewrite (prog_bind_run _ _ _ _ _ Hcast). eexists. split; [reflexivity|]. split_and!; [|done|done].
  assert (network s ++ [out (S k)] = out <$> seq 1 (S k)) as Hnet by (by rewrite A11, seq_S, fmap_app).
  split; simpl; try done.
Qed.

(** A block of the next view is accepted. *)
Lemma body_run PB cf got k s b :
  honest → at_view got k k s → (k < m)%nat → (k < cf)%nat → holds (store s) (S k) b →
  ∃ s', ProcessBlock_body PB cf b s = (process_buffered_block PB b ;; mret (Val ())) s'
    ∧ at_view got (S k) (S k) s' ∧ own_ballot (S k) s'.
Proof.
  intros Hh A Hk Hcf Hb. destruct (holds_spec (store s) (S k) b ltac:(lia) Hb) as (Hv & _ & Hid & _ & Hqc & Hprop).
  destruct (fl_leader _ _ _ _ F (S k) ltac:(lia)) as [Hlead Hne].
  pose proof Hb as (a & Eb & Ha). assert (b_QC b = Some a) as Eqc by (by rewrite Eb).
  unfold ProcessBlock_body. rewrite (prog_bind_run (gets curView_of) _ s s (curView_of s)) by done.
  erewrite (prog_bind_run _ _ s s true).
  2:{ rewrite Hprop, decide_False by done. rewrite Hid, Eb. simpl b_Sig.
      by rewrite (fl_signed _ _ _ _ F) by lia. }
  cbv beta iota. rewrite (av_view _ _ _ _ A), Hv, decide_False by (rewrite chain_int64 by lia; lia).
  rewrite Eqc. destruct (av_high _ _ _ _ A) as (h & Hhigh & Hhv). rewrite Eqc in Hqc.
  destruct (updateHighQC_run (Some a) s _ h Hqc Hhigh) as (p & Hup & Hp).
  rewrite (prog_bind_run _ _ _ _ _ Hup). rewrite Hprop, decide_False by done.
  assert (∃ h', qc_deref (store s) p = Ok h' ∧ qc_View h' < Z.of_nat (S k)) as (h' & Hp' & Hlt).
  { destruct Hp as [->| ->]; [exists (qc (S k)); split; [done|rewrite (cc_qc_view _ _ _ C) by lia; lia]|exists h; split; [done|lia]]. }
  destruct (processCertificate_run cf got k s a p h' Hh A ltac:(lia) Hcf Ha Hp' Hlt) as (s1 & p1 & H1 & A1 & Hst & _).
  rewrite (prog_bind_run _ _ _ _ _ H1).
  rewrite (prog_bind_run (gets curView_of) _ s1 s1 (curView_of s1)) by done.
  rewrite (av_view _ _ _ _ A1), decide_False by lia.
  rewrite (prog_bind_run _ _ s1 s1 true) by (by rewrite Hlead). cbv beta iota delta [negb].
  destruct (accept_run PB cf got k s1 b A1 Hk) as (s2 & H2 & A2 & _ & Hown); [by rewrite Hst|].
  exists s2. done.
Qed.

(** One block, and the buffered ones that follow it. *)
Lemma ProcessBlock_run cf got fuel k s b :
  honest → at_view got k k s → (k < m)%nat → (m < cf)%nat → (m - k ≤ S fuel)%nat →
  (∀ i, i ∈ got → (i ≤ m)%nat) → holds (store s) (S k) b →
  ∃ s' k', ProcessBlock cf fuel b s = Ok (s', Val ()) ∧ (k < k' ≤ m)%nat
    ∧ at_view got k' k' s' ∧ (S k' ∉ got) ∧ (∀ i, (S k < i ≤ k')%nat → i ∈ got) ∧ own_ballot k' s'.
Proof.
  intros Hh. revert k s b. induction fuel as [|fuel IH]; intros k s b A Hk Hcf Hfuel Hgot Hb;
    [set (PB := λ _ : Block, lift (Fault DepthExhausted) : prog chained (result ()))
    |set (PB := ProcessBlock cf fuel)];
    (destruct (body_run PB cf got k s b) as (s1 & H1 & A1 & O1); [done..|lia|done|]);
    (change (ProcessBlock cf _ b s) with (ProcessBlock_body PB cf b s); rewrite H1; clear H1);
    destruct (holds_spec (store s) (S k) b ltac:(lia) Hb) as (Hv & _);
    unfold process_buffered_block, gets, mbind, prog_bind; rewrite Hv;
    pose proof (av_buffer _ _ _ _ A1 (S k) ltac:(lia)) as Hbuf;
    (destruct (bufferedBlocks s1 !! Z.of_nat (S k)) as [b2|];
     [destruct Hbuf as [Hin Hb2]; specialize (Hgot _ Hin) as Hle
     |exists s1, (S k); split_and!; [done|lia..|done|done|lia|done]]); [lia|].
  destruct (IH (S k) s1 b2) as (s2 & k' & H2 & Hk' & A2 & Hnot & Hall & O2); [done|lia..|done|done|].
  unfold PB. rewrite H2.
  exists (set_bufferedBlocks s2 (delete (Z.of_nat (S k)) (bufferedBlocks s2))), k'.
  split_and!; [done|lia..| |done| |].
  - destruct A2 as [B1 B2 B3 B4 B5 B6 B7 B8 B9 B10 B11 B12 B14]. split; try done.
    intros j Hj. simpl. rewrite lookup_delete_ne by lia. by apply B8.
  - intros i Hi. destruct (decide (i = S (S k))) as [->|]; [done|]. apply Hall. lia.
  - exact O2.
Qed.

(** ** Deliveries *)

Definition deliver (i : nat) : event := RecvBlock (blk i) (Some (qc i)).

(** What has been delivered when the follower waits in view [k]. *)
Record delivered (got : gset nat) (k : nat) (s : chained) : Prop := {
  dl_at : at_view got k k s;
  dl_range i : i ∈ got → (1 ≤ i ≤ m)%nat;
  dl_all i : (1 ≤ i ≤ k)%nat → i ∈ got;
  dl_next : S k ∉ got;
  dl_le : (k ≤ m)%nat;
  dl_own : own_ballot k s
}.

Lemma at_view_alloc got k s q :
  at_view got k k s → at_view got k k (set_store s (store s ++ [q])).
Proof.
  assert (store s `prefix_of` store s ++ [q]) as Hp by (by exists [q]).
  intros [A1 A2 A3 A4 A5 A6 (h & A7 & Ah) A8 A9 A10 A11 A12 A14]. split; simpl; try done.
  - by eapply line_store.
  - exists h. split; [by apply qc_deref_alloc|done].
  - intros j Hj. specialize (A8 j Hj). destruct (bufferedBlocks s !! Z.of_nat j); [|done].
    destruct A8. split; [done|]. by eapply holds_prefix.
  - eapply Forall2_impl; [done|]. intros i b. by apply holds_prefix.
Qed.

(** A block of a view after the next goes to the buffer. *)
Lemma early_run cf fuel got k s b i :
  at_view got k k s → (S k < i ≤ m)%nat → holds (store s) i b →
  ∃ s', ProcessBlock cf fuel b s = Ok (s', Val ()) ∧ at_view ({[i]} ∪ got) k k s' ∧ bc s' = bc s.
Proof.
  intros A Hi Hb. destruct (holds_spec (store s) i b ltac:(lia) Hb) as (Hv & _ & Hid & _ & _ & Hprop).
  destruct (fl_leader _ _ _ _ F i ltac:(lia)) as [_ Hne]. pose proof Hb as (a & Eb & Ha).
  exists (set_bufferedBlocks s (<[Z.of_nat (i - 1) := b]> (bufferedBlocks s))). split.
  - destruct fuel; cbn [ProcessBlock]; unfold ProcessBlock_body;
      rewrite (prog_bind_run (gets curView_of) _ s s (curView_of s)) by done;
      (erewrite (prog_bind_run _ _ s s true);
       [|rewrite Hprop, decide_False, Hid, Eb by done; simpl b_Sig; by rewrite (fl_signed _ _ _ _ F) by lia]);
      cbv beta iota; rewrite (av_view _ _ _ _ A), Hv, decide_True by (rewrite chain_int64 by lia; lia);
      rewrite (chain_int64 (Z.of_nat i - 1)) by lia;
      by replace (Z.of_nat i - 1) with (Z.of_nat (i - 1)) by lia.
  - split; [|done]. destruct A as [A1 A2 A3 A4 A5 A6 A7 A8 A9 A10 A11 A12 A14]. split; try done. intros j Hj. simpl.
    destruct (decide (j = i - 1)%nat) as [->|].
    + rewrite lookup_insert_eq. replace (S (i - 1)) with i by lia. split; [set_solver|done].
    + rewrite lookup_insert_ne by lia. specialize (A8 j Hj). assert (S j ≠ i) by lia.
      destruct (bufferedBlocks s !! Z.of_nat j); set_solver.
Qed.

Lemma deliver_run cf fuel got k s i :
  honest → delivered got k s → (1 ≤ i ≤ m)%nat → i ∉ got → (m < cf)%nat → (m ≤ fuel)%nat →
  ∃ s' k', handle cf fuel (deliver i) s = Ok (s', ()) ∧ delivered ({[i]} ∪ got) k' s'.
Proof.
  intros Hh [D1 D2 D3 D4 D5 D6] Hi Hnew Hcf Hfuel.
  set (s1 := set_store s (store s ++ [qc i])). set (b := with_QC (blk i) (Some (length (store s)))).
  assert (holds (store s1) i b) as Hb.
  { exists (length (store s)). split; [done|]. simpl. by rewrite list_lookup_middle. }
  pose proof (at_view_alloc got k s (qc i) D1) as A1.
  assert (k < i)%nat as Hki by (destruct (decide (i ≤ k)%nat); [destruct Hnew; apply D3; lia|lia]).
  assert (∀ s' k', ProcessBlock cf fuel b s1 = Ok (s', Val ()) → delivered ({[i]} ∪ got) k' s' →
    ∃ s' k', handle cf fuel (deliver i) s = Ok (s', ()) ∧ delivered ({[i]} ∪ got) k' s') as Hdone.
  { intros s' k' Hs' Hd. exists s', k'. split; [|done]. unfold handle, sf_handle, deliver, sf_decode.
    unfold mbind, prog_bind. simpl. fold s1 b. by rewrite Hs'. }
  destruct (decide (i = S k)) as [->|].
  - destruct (ProcessBlock_run cf got fuel k s1 b) as (s' & k' & Hs' & Hk' & A' & Hnot & Hall & O');
      [done..|lia|lia|lia|intros j Hj; apply D2 in Hj; lia|done|].
    apply (Hdone s' k' Hs'). split; [| |intros j Hj| |lia|done].
    + destruct A' as [B1 B2 B3 B4 B5 B6 B7 B8 B9 B10 B11 B12 B14]. split; try done. intros j Hj.
      specialize (B8 j Hj). assert (S j ≠ S k) by lia.
      destruct (bufferedBlocks s' !! Z.of_nat j); set_solver.
    + intros j [->%elem_of_singleton|Hj]%elem_of_union; [lia|by apply D2].
    + destruct (decide (j = S k)) as [->|]; [set_solver|]. apply elem_of_union_r.
      destruct (decide (j ≤ k)%nat); [apply D3; lia|apply Hall; lia].
    + assert (S k' ≠ S k) by lia. set_solver.
  - destruct (early_run cf fuel got k s1 b i A1) as (s' & Hs' & A' & Hbc); [lia|done|].
    apply (Hdone s' k Hs'). split; [done| |intros j Hj; apply elem_of_union_r, D3; lia| |done|].
    + intros j [->%elem_of_singleton|Hj]%elem_of_union; [lia|by apply D2].
    + assert (S k ≠ i) by lia. set_solver.
    + unfold own_ballot, ballots in *. by rewrite Hbc.
Qed.

(** A sequence of deliveries. *)
Fixpoint run_events (cf fuel : nat) (es : list event) : prog chained () :=
  match es with
  | [] => mret ()
  | e :: es => handle cf fuel e ;; run_events cf fuel es
  end.

Lemma deliveries_run cf fuel order got k s :
  honest → delivered got k s → NoDup order → (∀ i, i ∈ order → (1 ≤ i ≤ m)%nat ∧ i ∉ got) →
  (m < cf)%nat → (m ≤ fuel)%nat →
  ∃ s' k', run_events cf fuel (deliver <$> order) s = Ok (s', ())
    ∧ delivered (list_to_set order ∪ got) k' s'.
Proof.
  intros Hh D Hnd Hin Hcf Hfuel. revert got k s D Hin.
  induction Hnd as [|i order Hi Hnd IH]; intros got k s D Hin; simpl.
  { exists s, k. split; [done|]. by rewrite (left_id_L ∅ (∪)). }
  destruct (Hin i) as [Hri Hnew]; [set_solver|].
  destruct (deliver_run cf fuel got k s i) as (s1 & k1 & H1 & D1); [done..|].
  destruct (IH ({[i]} ∪ got) k1 s1 D1) as (s' & k' & H2 & D2).
  { intros j Hj. destruct (Hin j) as [? ?]; [set_solver|]. split; [done|]. set_solver. }
  exists s', k'. split; [by rewrite (prog_bind_run _ _ _ _ _ H1)|].
  by replace ({[i]} ∪ list_to_set order ∪ got) with (list_to_set order ∪ ({[i]} ∪ got)) by set_solver.
Qed.

Lemma delivered_initial : delivered ∅ 0 initial.
Proof.
  split; [|set_solver|lia|set_solver|lia|by intros ?%Nat.nle_gt; lia]. split; simpl; try done.
  - split; try done; [apply forest_inv_new|lia].
  - by eexists.
  - intros j _. rewrite lookup_empty. set_solver.
Qed.

(** All the blocks up to view [m]. *)
Lemma chain_delivered cf fuel order :
  honest → order ≡ₚ seq 1 m → (m < cf)%nat → (m ≤ fuel)%nat →
  ∃ s, run_events cf fuel (deliver <$> order) initial = Ok (s, ()) ∧ delivered (list_to_set order ∪ ∅) m s.
Proof.
  intros Hh Hperm Hcf Hfuel.
  destruct (deliveries_run cf fuel order ∅ 0 initial) as (s & k & Hs & D);
    [done|by eapply delivered_initial|rewrite Hperm; apply NoDup_seq| |done|done|].
  { intros i Hi. rewrite Hperm in Hi. apply elem_of_seq in Hi. split; [lia|set_solver]. }
  exists s. split; [done|]. destruct (decide (k = m)) as [<-|]; [done|].
  destruct (dl_next _ _ _ D). pose proof (dl_le _ _ _ D). apply elem_of_union_l, elem_of_list_to_set.
  rewrite Hperm. apply elem_of_seq. lia.
Qed.
End live.

(** [C8] Progress: a replica that is sent the blocks of a certified chain of
    length [n], in any order and each once, handles them all without a fault.  At
    the end it is in view [n], it has given one vote for every block to the leader
    of the next view, maybe itself, in the order of the views, and it has committed
    every block but the last three, in order, and reported no fork.  The recursion on
    buffered blocks is at most [n] deep and the commit loop at most [n] long.  The
    views entered are announced one by one; for [n] at most 100 they fit, all of them,
    in the channel of new views, and the committed blocks in theirs, so that no send
    waits even if nothing is taken from the channels meanwhile. *)
Theorem hotstuff_chain_commits `{ReplicaEnv} n blk qc vote agg order cf fuel :
  certified_chain n blk qc → followed n blk vote agg → honest → order ≡ₚ seq 1 n →
  (n < cf)%nat → (n ≤ fuel)%nat → (n ≤ newViewChan_capacity)%nat →
  ∃ s, run_events cf fuel (deliver blk qc <$> order) initial = Ok (s, ())
    ∧ curView_of s = Z.of_nat n
    ∧ newViewChan (pm s) = Z.of_nat <$> seq 1 n ∧ (length (newViewChan (pm s)) ≤ newViewChan_capacity)%nat
    ∧ network s = out vote agg <$> seq 1 n
    ∧ Forall2 (holds blk qc (store s)) (seq 1 (n - 3)) (committedBlocks s)
    ∧ (length (committedBlocks s) ≤ committedBlocks_capacity)%nat ∧ forkedBlocks s = [].
Proof.
  intros C F Hh Hperm Hcf Hfuel Hcap.
  destruct (chain_delivered n blk qc C vote agg n F ltac:(done) cf fuel order) as (s & Hs & D); [done..|].
  exists s. pose proof (dl_at _ _ _ _ _ _ _ _ _ D) as A. 
  assert (length (newViewChan (pm s)) = n) as Hl by (by rewrite (av_chan _ _ _ _ _ _ _ _ _ A), length_fmap, length_seq).
  pose proof (Forall2_length _ _ _ (av_committed _ _ _ _ _ _ _ _ _ A)) as Hc. rewrite length_seq in Hc.
  split_and!; [done|apply A|apply A|by rewrite Hl|apply A|apply A| |apply A].
  unfold committedBlocks_capacity, newViewChan_capacity in *. lia.
Qed.

(** *** The hypotheses can hold: a chain of length five in a mixed order *)

Definition live_blk (i : nat) : Block := chain_block (Z.of_nat i).
Definition live_qc (i : nat) : QC := chain_qc (Z.of_nat i - 1).
Definition live_vote (i : nat) : Vote :=
  MkVote (Z.of_nat i) "1" (N.of_nat i) (sample_sig (N.of_nat i)).

Lemma five_cases (P : nat → Prop) :
  P 1%nat → P 2%nat → P 3%nat → P 4%nat → P 5%nat → ∀ i, (1 ≤ i ≤ 5)%nat → P i.
Proof. intros ? ? ? ? ? i Hi. by destruct i as [|[|[|[|[|[|i]]]]]]; try lia. Qed.

Lemma live_chain : @certified_chain sample_env 5 live_blk live_qc.
Proof.
  split; try (apply five_cases; by vm_compute).
  - by vm_compute.
  - intros i Hi. assert (i = 1 ∨ i = 2 ∨ i = 3 ∨ i = 4)%nat as [->|[->|[->| ->]]] by lia; by vm_compute.
  - intros i j _ _ E. unfold live_blk, chain_block in E. cbn [b_ID] in E. lia.
Qed.

Lemma live_followed : @followed sample_env 5 live_blk live_vote (λ _, "2").
Proof. split; try (apply five_cases; by vm_compute). by vm_compute. Qed.

Lemma hotstuff_chain_commits_witness :
  ∃ s, @run_events sample_env 6 5 (deliver live_blk live_qc <$> [3; 1; 5; 2; 4]%nat)
         (@initial sample_env) = Ok (s, ())
    ∧ curView_of s = 5 ∧ length (network s) = 5%nat ∧ length (committedBlocks s) = 2%nat.
Proof.
  destruct (@hotstuff_chain_commits sample_env 5 live_blk live_qc live_vote (λ _, "2")
              [3; 1; 5; 2; 4]%nat 6 5 live_chain live_followed) as (s & Hs & Hv & _ & _ & Hn & Hc & _);
    [left; reflexivity|apply (bool_decide_unpack _); vm_compute; exact Logic.I|lia|lia|by vm_compute; lia|].
  exists s. split; [exact Hs|]. split; [exact Hv|]. rewrite Hn.
  split; [reflexivity|]. by apply Forall2_length in Hc.
Defined.
