(* ===== verification/HotStuffLead.v ===== *)
(** * Progress of a HotStuff leader

    The other half of a quiet period (file [HotStuffLive]): the leader of the next
    view, which has followed the chain so far, collects the votes for its last block.
    With the last vote it needs it builds the certificate, enters the next view,
    commits as the followers do, and proposes a block that extends the chain; the
    longer chain is again one that followers commit. *)
From S2P Require Import Prelude Identity Sha1 Election Db Crypto Types Quorum Forest BlockChain Pacemaker Chained Safety HotStuff HotStuffProps HotStuffLive.

Local Open Scope Z_scope.
Import HotStuff.

(** A sequence with the value at [S n] replaced. *)
Definition extend {A} (n : nat) (f : nat → A) (x : A) (i : nat) : A := if decide (i = S n) then x else f i.

Lemma extend_old {A} n (f : nat → A) x i : (i ≤ n)%nat → extend n f x i = f i.
Proof. intros Hi. unfold extend. rewrite decide_False by lia. done. Qed.
Lemma extend_new {A} n (f : nat → A) x : extend n f x (S n) = x.
Proof. unfold extend. by rewrite decide_True. Qed.

(** The certificate that the collected votes [ms] make. *)
Definition certificate `{ReplicaEnv} (view : Z) (id : Identifier) (ms : gmap NodeID Vote) : QC :=
  let l := range ms in
  MkQC re_ID view id ((λ kv, vote_Voter kv.2) <$> l) ((λ kv, vote_Signature kv.2) <$> l) [].

(** The votes in the order of their arrival. *)
Definition add_ballots (ms : gmap NodeID Vote) (ws : list Vote) : gmap NodeID Vote :=
  foldl (λ ms w, <[vote_Voter w := w]> ms) ms ws.

Lemma add_ballots_elem ms ws voter w :
  add_ballots ms ws !! voter = Some w → ms !! voter = Some w ∨ w ∈ ws ∧ vote_Voter w = voter.
Proof.
  revert ms. induction ws as [|w' ws IH]; intros ms Hw; [by left|]. simpl in Hw.
  destruct (IH _ Hw) as [Hl|[Hin Hv]]; [|right; split; [by right|done]].
  destruct (decide (vote_Voter w' = voter)) as [<-|Hne].
  - rewrite lookup_insert_eq in Hl. injection Hl as <-. right. split; [by left|done].
  - rewrite lookup_insert_ne in Hl by done. by left.
Qed.

Section lead.
Context `{ReplicaEnv}.

Lemma certificate_verified view id ms :
  (∀ voter w, ms !! voter = Some w → vote_Voter w = voter
     ∧ PubVerify env_keys (vote_Signature w) (IDToByte id) voter = Ok true) →
  VerifyQuorumSignature env_keys (qc_AggSig (certificate view id ms)) id
    (qc_Signers (certificate view id ms)) = Ok true.
Proof.
  intros Hms. apply VerifyQuorumSignature_true. intros i signer Hi. unfold certificate in *. cbn [qc_Signers qc_AggSig] in *.
  rewrite list_lookup_fmap in Hi. apply fmap_Some in Hi as ([voter w] & Hi & ->).
  assert (ms !! voter = Some w) as Hw by (apply elem_of_range, list_elem_of_lookup; eauto).
  destruct (Hms voter w Hw) as [Hv Hp]. exists (vote_Signature w). simpl. rewrite Hv. split; [|done].
  by rewrite list_lookup_fmap, Hi.
Qed.

(** A longer chain. *)
Lemma chain_extend n blk qc b q :
  certified_chain n blk qc → (1 ≤ n)%nat → Z.of_nat (S n) < max_int64 →
  b_View b = Z.of_nat (S n) → b_PrevID b = b_ID (blk n) →
  (∀ i, (1 ≤ i ≤ n)%nat → b_ID b ≠ b_ID (blk i)) → b_ID b ≠ b_PrevID (blk 1%nat) →
  qc_View q = Z.of_nat n → qc_BlockID q = b_ID (blk n) →
  VerifyQuorumSignature env_keys (qc_AggSig q) (qc_BlockID q) (qc_Signers q) = Ok true →
  certified_chain (S n) (extend n blk b) (extend n qc q).
Proof.
  intros [C1 C2 C3 C4 C5 C6 C7 C8] Hn Hmax Hv Hprev Hids Hgen Hqv Hqb Hver.
  assert (∀ i, (1 ≤ i ≤ S n)%nat → i = S n ∨ (1 ≤ i ≤ n)%nat) as Hcase by lia.
  split; [lia|..].
  - intros i [->|Hi]%Hcase; [by rewrite extend_new|rewrite extend_old by lia; auto].
  - intros i Hi. destruct (decide (i = n)) as [->|]; [by rewrite extend_new, extend_old|].
    rewrite !extend_old by lia. apply C3. lia.
  - intros i j [->|Hi]%Hcase [->|Hj]%Hcase; [done|..]; rewrite ?extend_new, ?extend_old by lia; intros E.
    + by destruct (Hids j Hj).
    + by destruct (Hids i Hi).
    + by apply C4.
  - intros i [->|Hi]%Hcase; rewrite ?extend_new, ?extend_old by lia; [done|by apply C5].
  - intros i [->|Hi]%Hcase; rewrite ?extend_new, ?extend_old by lia; [lia|by apply C6].
  - intros i [->|Hi]%Hcase; rewrite ?extend_new, ?extend_old by lia; [congruence|by apply C7].
  - intros i [->|Hi]%Hcase; rewrite ?extend_new, ?extend_old by lia; [done|by apply C8].
Qed.

Lemma followed_extend m blk b vote agg :
  followed m blk vote agg → followed m (extend m blk b) vote agg.
Proof. intros [F1 F2 F3 F4 F5]. split; try done; intros i Hi; rewrite extend_old by lia; auto. Qed.

(** ** Collecting the votes *)
Context (n : nat) (blk : nat → Block) (qc : nat → QC) (C : certified_chain n blk qc).
Context (vote : nat → Vote) (agg : nat → NodeID).
Abbreviation at_view := (at_view n blk qc vote agg).
Abbreviation ballots := (ballots blk).

(** A vote of another node for the block of view [k]. *)
Record good_vote (k : nat) (w : Vote) : Prop := {
  gv_view : vote_View w = Z.of_nat k;
  gv_block : vote_BlockID w = b_ID (blk k);
  gv_other : vote_Voter w ≠ re_ID;
  gv_signed : PubVerify env_keys (vote_Signature w) (IDToByte (b_ID (blk k))) (vote_Voter w) = Ok true
}.

(** Only the collected votes change. *)
Lemma at_view_stored got k s w :
  at_view got k k s → vote_BlockID w = b_ID (blk k) → (1 ≤ k ≤ n)%nat →
  let s' := set_bc s (set_quorum (stored (quorum (bc s)) w) (bc s)) in
  at_view got k k s' ∧ ballots k s' = <[vote_Voter w := w]> (ballots k s).
Proof.
  intros [A1 A2 A3 A4 A5 A6 A7 A8 A9 A10 A11 [A12 A13] A14] Hw Hk s'.
  assert (∀ j, (1 ≤ j ≤ n)%nat → ballots j s' = if decide (k = j) then <[vote_Voter w := w]> (ballots k s) else ballots j s)
    as Hb by (intros j Hj; by eapply ballots_stored).
  split; [|by rewrite Hb, decide_True]. split; try done. split; [done|]. intros i Hi.
  rewrite Hb, decide_False by lia. auto.
Qed.

Lemma verified_vote {A} k w s (f : bool → prog chained A) :
  good_vote k w →
  ((if decide (vote_Voter w = re_ID) then mret true
    else lift (PubVerify env_keys (vote_Signature w) (IDToByte (vote_BlockID w)) (vote_Voter w))) ≫= f) s = f true s.
Proof.
  intros [G1 G2 G3 G4]. rewrite decide_False, G2 by done. unfold mbind, prog_bind. by rewrite G4.
Qed.

Lemma small_vote_run cf got k w s :
  at_view got k k s → good_vote k w →
  Z.of_nat (base.size (<[vote_Voter w := w]> (ballots k s))) ≤ threshold re_N →
  ProcessVote cf w s = Ok (set_bc s (set_quorum (stored (quorum (bc s)) w) (bc s)), ()).
Proof.
  intros A G Hsize. unfold ProcessVote. rewrite (verified_vote k) by done. cbv beta iota delta [negb].
  erewrite (prog_bind_run (on_bc _)); [|apply AddVote_small].
  - done.
  - apply (av_quorum _ _ _ _ _ _ _ _ _ A).
  - rewrite (gv_block _ _ G). exact Hsize.
Qed.

Lemma collect_run cf fuel got k ws s :
  at_view got k k s → (1 ≤ k ≤ n)%nat → Forall (good_vote k) ws →
  NoDup (vote_Voter <$> ws) → (∀ w, w ∈ ws → ballots k s !! vote_Voter w = None) →
  Z.of_nat (base.size (ballots k s) + length ws) ≤ threshold re_N →
  ∃ s', run_events cf fuel (RecvVote <$> ws) s = Ok (s', ()) ∧ at_view got k k s'
    ∧ ballots k s' = add_ballots (ballots k s) ws ∧ base.size (ballots k s') = (base.size (ballots k s) + length ws)%nat
    ∧ store s' = store s ∧ pm s' = pm s.
Proof.
  intros A Hk Hgood. revert s A. induction Hgood as [|w ws Hw _ IH]; intros s A Hnd Hnew Hsize.
  { exists s. simpl. by rewrite Nat.add_0_r. }
  apply NoDup_cons in Hnd as [Hout Hnd]. simpl in Hsize.
  destruct (at_view_stored got k s w A (gv_block _ _ Hw) Hk) as [A1 B1].
  set (s1 := set_bc s (set_quorum (stored (quorum (bc s)) w) (bc s))) in *.
  assert (base.size (ballots k s1) = S (base.size (ballots k s))) as Hs1.
  { rewrite B1. rewrite map_size_insert_None; [done|]. apply Hnew. by left. }
  destruct (IH s1 A1 Hnd) as (s' & H2 & A2 & B2 & Hs2 & Hst & Hpm).
  { intros w' Hw'. rewrite B1, lookup_insert_ne; [apply Hnew; by right|].
    intros E. apply Hout. rewrite E. by apply list_elem_of_fmap_2. }
  { lia. }
  exists s'. split_and!; [|done|by rewrite B2, B1|simpl; lia|done|done].
  change ((handle cf fuel (RecvVote w);; run_events cf fuel (RecvVote <$> ws)) s = Ok (s', ())).
  erewrite (prog_bind_run (handle cf fuel (RecvVote w))); [exact H2|].
  apply (small_vote_run cf got k w s A Hw). rewrite <- B1. lia.
Qed.

(** The vote that completes the quorum. *)
Lemma last_vote_run cf got k w s :
  honest → at_view got k k s → (1 ≤ k < n)%nat → (k < cf)%nat → good_vote k w →
  let ms := <[vote_Voter w := w]> (ballots k s) in
  Z.of_nat (base.size (ballots k s)) ≤ threshold re_N < Z.of_nat (base.size ms) →
  qc (S k) = certificate (Z.of_nat k) (b_ID (blk k)) ms →
  ∃ s', ProcessVote cf w s = Ok (s', ()) ∧ at_view got (S k) k s'
    ∧ highQC s' = Some (length (store s)) ∧ store s' = store s ++ [qc (S k)]
    ∧ pm s' = advance (Z.of_nat k) (pm s).
Proof.
  intros Hh A Hk Hcf G ms Hsize Hqc. destruct (av_quorum _ _ _ _ _ _ _ _ _ A) as [Ht _].
  unfold ProcessVote. rewrite (verified_vote k) by done. cbv beta iota delta [negb].
  assert (superMajority (quorum (bc s)) (vote_BlockID w) = false) as H1.
  { unfold superMajority, Quorum.size. rewrite Ht, (gv_block _ _ G). apply bool_decide_eq_false_2.
    change (votes_of _ _) with (ballots k s). lia. }
  destruct (Add_stores (quorum (bc s)) w H1) as [E1 E2].
  assert (superMajority (stored (quorum (bc s)) w) (vote_BlockID w) = true) as H2.
  { unfold superMajority, Quorum.size. rewrite votes_of_stored, decide_True by done. simpl. rewrite Ht, (gv_block _ _ G).
    apply bool_decide_eq_true_2. change (votes_of _ _) with (ballots k s). apply Hsize. }
  rewrite H2 in E2. rewrite (gv_block _ _ G), (gv_view _ _ G) in E2. change (votes_of _ _) with (ballots k s) in E2.
  destruct (at_view_stored got k s w A (gv_block _ _ G) ltac:(lia)) as [A1 _].
  set (s1 := set_bc s (set_quorum (stored (quorum (bc s)) w) (bc s))) in *.
  erewrite (prog_bind_run (on_bc _) _ s s1).
  2:{ unfold on_bc, AddVote, zoom. destruct (Add _ _) as [q r]. simpl in E1, E2. by subst. }
  cbv beta iota zeta. erewrite (prog_bind_run (lift _)) by reflexivity.
  set (s2 := set_store s1 (store s1 ++ [qc (S k)])).
  erewrite (prog_bind_run (alloc _) _ s1 s2 (Some (length (store s)))).
  2:{ unfold alloc, qc_alloc, s2. rewrite Hqc. done. }
  pose proof (at_view_alloc _ _ _ _ _ _ _ _ (qc (S k)) A1) as A2. fold s2 in A2.
  erewrite (prog_bind_run (gets _)) by reflexivity. cbn [qc_BlockID].
  destruct (line_get n blk qc C _ _ _ _ k (av_line _ _ _ _ _ _ _ _ _ A2)) as (b & Hb & _); [lia..|].
  unfold GetBlockByID. rewrite Hb. cbv beta iota.
  destruct (av_high _ _ _ _ _ _ _ _ _ A2) as (h & Hhigh & Hlt).
  destruct (processCertificate_run n blk qc C vote agg cf got k s2 (length (store s)) (highQC s2) h)
    as (s' & p & H3 & A3 & Hst & _ & Hpm & Hp & Ep); [done|done|lia|done| |done|lia|].
  { simpl. by rewrite list_lookup_middle. }
  replace (set_highQC s2 (highQC s2)) with s2 in H3 by done. exists s'. split_and!; [exact H3|done| |done|done].
  rewrite Hp, Ep. by rewrite decide_True by lia.
Qed.
End lead.

Lemma run_events_app `{ReplicaEnv} cf fuel l1 l2 s s1 r :
  run_events cf fuel l1 s = Ok (s1, ()) → run_events cf fuel l2 s1 = r → run_events cf fuel (l1 ++ l2) s = r.
Proof.
  revert s. induction l1 as [|e l1 IH]; intros s H1 H2; [by apply ret_ok in H1 as [<- _]|].
  apply prog_bind_ok in H1 as (s2 & [] & He & H1).
  change ((handle cf fuel e;; run_events cf fuel (l1 ++ l2)) s = r).
  rewrite (prog_bind_run _ _ _ _ _ He). by apply IH.
Qed.

Lemma honest_forkChoice `{ReplicaEnv} s : honest → forkChoice s = Ok (s, highQC s).
Proof.
  intros [E|E]; unfold forkChoice; [by rewrite E|]. rewrite (bool_decide_eq_false_2 (re_Strategy = FORK)) by done.
  by rewrite orb_true_r.
Qed.

(** The block that a proposal makes of a certificate. *)
Lemma proposals `{ReplicaEnv} s a q view :
  honest → highQC s = Some a → store s !! a = Some q →
  (∀ payload, MakeProposal view payload s
     = lift (MakeBlock (store s) view (Some a) (qc_BlockID q) payload re_ID) s)
  ∧ ∀ tries priori batch, wait_priori tries priori 0 = Ok batch →
      MakePProposal tries priori view s = lift (MakePBlock (store s) view (Some a) (qc_BlockID q) batch re_ID) s.
Proof.
  intros Hh Ha Hq. assert (qc_deref (store s) (Some a) = Ok q) as Hd by (apply qc_deref_ok; eauto).
  split; intros; unfold MakeProposal, MakePProposal; rewrite (prog_bind_run _ _ _ _ _ (honest_forkChoice s Hh)), Ha.
  - unfold deref, mbind, prog_bind, gets. by rewrite Hd.
  - unfold deref, mbind, prog_bind, gets. rewrite H0. simpl. by rewrite Hd.
Qed.

Section theorem.
Context `{ReplicaEnv} (n : nat) (blk : nat → Block) (qc : nat → QC) (vote : nat → Vote) (agg : nat → NodeID).

(** A block with an identifier that the chain does not have. *)
Definition next_id : Identifier := fresh (b_PrevID (blk 1%nat) :: (b_ID ∘ blk <$> seq 1 n)).
Definition next_block : Block := MkBlock (Z.of_nat (S n)) None "" 0 [] (b_ID (blk n)) [] next_id None.

Lemma next_id_fresh :
  (∀ i, (1 ≤ i ≤ n)%nat → next_id ≠ b_ID (blk i)) ∧ next_id ≠ b_PrevID (blk 1%nat).
Proof.
  pose proof (infinite_is_fresh (b_PrevID (blk 1%nat) :: (b_ID ∘ blk <$> seq 1 n))) as Hf. fold next_id in Hf.
  split.
  - intros i Hi E. apply Hf. right. rewrite E. apply (list_elem_of_fmap_2 (b_ID ∘ blk)). apply elem_of_seq. lia.
  - intros E. apply Hf. rewrite E. by left.
Qed.

Lemma deliver_extend b q (order : list nat) :
  (∀ i, i ∈ order → (1 ≤ i ≤ n)%nat) →
  deliver (extend n blk b) (extend n qc q) <$> order = deliver blk qc <$> order.
Proof.
  intros Ho. apply list_fmap_ext. intros j i Hi. apply list_elem_of_lookup_2, Ho in Hi.
  unfold deliver. by rewrite !extend_old by lia.
Qed.

(** The certificate of the leader: its own vote and those of the others. *)
Definition leader_qc (ws : list Vote) : QC :=
  certificate (Z.of_nat n) (b_ID (blk n)) (add_ballots {[re_ID := vote n]} ws).

Lemma leader_qc_verified ws :
  followed n blk vote agg → (1 ≤ n)%nat →
  PubVerify env_keys (vote_Signature (vote n)) (IDToByte (b_ID (blk n))) re_ID = Ok true →
  Forall (good_vote blk n) ws →
  VerifyQuorumSignature env_keys (qc_AggSig (leader_qc ws)) (qc_BlockID (leader_qc ws)) (qc_Signers (leader_qc ws))
  = Ok true.
Proof.
  intros F Hn Hown Hgood. apply certificate_verified. intros voter w [Hw|[Hin <-]]%add_ballots_elem.
  - apply lookup_singleton_Some in Hw as [<- <-]. split; [|done].
    by destruct (MakeVote_ok _ _ _ _ (fl_vote _ _ _ _ F n ltac:(lia))) as (_ & ? & _).
  - split; [done|]. rewrite Forall_forall in Hgood. apply (Hgood w Hin).
Qed.

(** From the end of the chain to the next view. *)
Lemma leader_collects ws cf fuel s0 got :
  let blk' := extend n blk next_block in let qc' := extend n qc (leader_qc ws) in
  certified_chain (S n) blk' qc' → followed n blk vote agg → honest → (1 ≤ n)%nat → agg n = re_ID →
  Forall (good_vote blk n) ws → NoDup (vote_Voter <$> ws) → Z.of_nat (length ws) = threshold re_N → (n < cf)%nat →
  at_view (S n) blk' qc' vote agg got n n s0 → own_ballot blk' vote agg n s0 →
  ∃ s, run_events cf fuel (RecvVote <$> ws) s0 = Ok (s, ()) ∧ at_view (S n) blk' qc' vote agg got (S n) n s
    ∧ highQC s = Some (length (store s0)) ∧ store s = store s0 ++ [leader_qc ws]
    ∧ pm s = advance (Z.of_nat n) (pm s0).
Proof.
  intros blk' qc' C' F Hh Hn Hself Hgood Hnd Hlen Hcf A0 Hown. pose proof (fl_alone _ _ _ _ F) as Halone.
  assert (blk' n = blk n) as Eb by (by apply extend_old).
  assert (∀ w, good_vote blk n w → good_vote blk' n w) as Hg by (intros w [G1 G2 G3 G4]; by split; rewrite ?Eb).
  specialize (Hown Hn). rewrite decide_True in Hown by done.
  destruct ws as [|w ws _] using rev_ind; [simpl in Hlen; lia|].
  rewrite length_app in Hlen. simpl in Hlen. apply Forall_app in Hgood as [Hgood [Hw _]%Forall_cons_1].
  rewrite fmap_app in Hnd. apply NoDup_app in Hnd as (Hnd & Hout & _).
  destruct (collect_run (S n) blk' qc' C' vote agg cf fuel got n ws s0) as (s1 & H1 & A1 & B1 & Hs1 & Hst1 & Hpm1);
    [done|lia|by eapply Forall_impl|done| | |].
  { intros w' Hw'. rewrite Hown. apply lookup_singleton_None. rewrite Forall_forall in Hgood.
    intros E. by apply (gv_other _ _ _ (Hgood w' Hw')). }
  { rewrite Hown, map_size_singleton. lia. }
  rewrite Hown, map_size_singleton in Hs1. rewrite Hown in B1.
  assert (ballots blk' n s1 !! vote_Voter w = None) as Hfresh.
  { apply eq_None_not_Some. intros [w' Hw']. rewrite B1 in Hw'. apply add_ballots_elem in Hw' as [Hw'|[Hin E]].
    - apply lookup_singleton_Some in Hw' as [E _]. by apply (gv_other _ _ _ Hw).
    - apply (Hout (vote_Voter w)); [rewrite <- E; by apply list_elem_of_fmap_2|by left]. }
  destruct (last_vote_run (S n) blk' qc' C' vote agg cf got n w s1) as (s & H2 & A2 & Hhigh & Hst & Hpm);
    [done|done|lia|done|by apply Hg|rewrite map_size_insert_None by done; lia| |].
  { unfold qc'. rewrite extend_new. unfold leader_qc, add_ballots. rewrite foldl_app, Eb, B1. done. }
  exists s. rewrite Hst1 in Hhigh. split_and!; [|done|done| |by rewrite Hpm, Hpm1].
  - rewrite fmap_app. eapply run_events_app; [exact H1|].
    change ((handle cf fuel (RecvVote w);; mret ()) s1 = Ok (s, ())).
    by rewrite (prog_bind_run (handle cf fuel (RecvVote w)) _ _ _ _ H2).
  - rewrite Hst, Hst1. unfold qc'. by rewrite extend_new.
Qed.

(** [C9] Progress of the leader.  A replica that has followed a certified chain of length
    [n], whose blocks came in any order, and that collects the votes for its last block
    receives as many votes of other nodes as the threshold says.  With the last of them
    it builds a certificate of all the votes and enters view [n + 1]; it has committed
    all but the last two blocks.  Its proposals for that view have the last block as
    their parent and this certificate, and the chain with such a proposal, if its
    identifier is new, is again a certified chain of which [hotstuff_chain_commits]
    speaks.  For [n] below 100 the views it announced and the blocks it committed fit in
    their channels, so that no send waits even if nothing is taken from them. *)
Theorem hotstuff_leader_extends (order : list nat) ws cf fuel :
  certified_chain n blk qc → followed n blk vote agg → honest → (1 ≤ n)%nat → Z.of_nat (S n) < max_int64 →
  order ≡ₚ seq 1 n → agg n = re_ID →
  PubVerify env_keys (vote_Signature (vote n)) (IDToByte (b_ID (blk n))) re_ID = Ok true →
  Forall (good_vote blk n) ws → NoDup (vote_Voter <$> ws) → Z.of_nat (length ws) = threshold re_N →
  (n < cf)%nat → (n ≤ fuel)%nat → (S n ≤ newViewChan_capacity)%nat →
  ∃ s a, run_events cf fuel ((deliver blk qc <$> order) ++ (RecvVote <$> ws)) initial = Ok (s, ())
    ∧ curView_of s = Z.of_nat (S n) ∧ newViewChan (pm s) = Z.of_nat <$> seq 1 (S n)
    ∧ (length (newViewChan (pm s)) ≤ newViewChan_capacity)%nat
    ∧ (length (committedBlocks s) ≤ committedBlocks_capacity)%nat ∧ forkedBlocks s = []
    ∧ network s = out vote agg <$> seq 1 n
    ∧ Forall2 (holds blk qc (store s)) (seq 1 (n - 2)) (committedBlocks s)
    ∧ highQC s = Some a ∧ store s !! a = Some (leader_qc ws)
    ∧ (∀ payload, MakeProposal (Z.of_nat (S n)) payload s
         = lift (MakeBlock (store s) (Z.of_nat (S n)) (Some a) (b_ID (blk n)) payload re_ID) s)
    ∧ (∀ tries priori batch, wait_priori tries priori 0 = Ok batch →
         MakePProposal tries priori (Z.of_nat (S n)) s
         = lift (MakePBlock (store s) (Z.of_nat (S n)) (Some a) (b_ID (blk n)) batch re_ID) s)
    ∧ ∀ b, b_View b = Z.of_nat (S n) → b_PrevID b = b_ID (blk n) →
        (∀ i, (1 ≤ i ≤ n)%nat → b_ID b ≠ b_ID (blk i)) → b_ID b ≠ b_PrevID (blk 1%nat) →
        certified_chain (S n) (extend n blk b) (extend n qc (leader_qc ws)).
Proof.
  intros C F Hh Hn Hmax Hperm Hself Hown Hgood Hnd Hlen Hcf Hfuel Hcap.
  assert (∀ b, b_View b = Z.of_nat (S n) → b_PrevID b = b_ID (blk n) →
        (∀ i, (1 ≤ i ≤ n)%nat → b_ID b ≠ b_ID (blk i)) → b_ID b ≠ b_PrevID (blk 1%nat) →
        certified_chain (S n) (extend n blk b) (extend n qc (leader_qc ws))) as Hext.
  { intros b H1 H2 H3 H4. apply chain_extend; try done. by apply leader_qc_verified. }
  destruct next_id_fresh as [Hf1 Hf2].
  pose proof (Hext next_block eq_refl eq_refl Hf1 Hf2) as C'. pose proof (followed_extend n blk next_block vote agg F) as F'.
  destruct (chain_delivered (S n) _ _ C' vote agg n F' ltac:(lia) cf fuel order Hh Hperm Hcf Hfuel) as (s0 & H0 & D).
  rewrite deliver_extend in H0 by (intros i Hi; rewrite Hperm in Hi; apply elem_of_seq in Hi; lia).
  destruct (leader_collects ws cf fuel s0 (list_to_set order ∪ ∅) C' F Hh Hn Hself Hgood Hnd Hlen Hcf)
    as (s & Hrun & A & Hhigh & Hst & Hpm); [by eapply dl_at|by eapply dl_own|].
  assert (store s !! length (store s0) = Some (leader_qc ws)) as Ha by (by rewrite Hst, list_lookup_middle).
  exists s, (length (store s0)). destruct (proposals s _ _ (Z.of_nat (S n)) Hh Hhigh Ha) as [P1 P2].
  pose proof (Forall2_length _ _ _ (av_committed _ _ _ _ _ _ _ _ _ A)) as Hcl. rewrite length_seq in Hcl.
  split_and!; [by eapply run_events_app|apply A|apply A| | |apply A|apply A| |done|done|exact P1|exact P2|done].
  - by rewrite (av_chan _ _ _ _ _ _ _ _ _ A), length_fmap, length_seq.
  - unfold committedBlocks_capacity, newViewChan_capacity in *. lia.
  - pose proof (av_committed _ _ _ _ _ _ _ _ _ A) as Hc. replace (S n - 3)%nat with (n - 2)%nat in Hc by lia.
    rewrite Forall2_same_length_lookup in Hc |- *. destruct Hc as [Hl Hc]. split; [done|]. intros j i b Hi Hb.
    destruct (Hc j i b Hi Hb) as (x & Hx & Hq). apply list_elem_of_lookup_2, elem_of_seq in Hi.
    exists x. rewrite extend_old in Hx by lia. rewrite extend_old in Hq by lia. done.
Qed.
End theorem.

(** *** The hypotheses can hold: replica 1 leads view 4, replica 2 the views before *)
Definition turn (view : Z) : NodeID := if decide (view = 4) then "1" else "2".
Definition turn_election : Election :=
  {| IsLeader := λ id view, Ok (bool_decide (id = turn view)); FindLeaderFor := λ view, Ok (turn view) |}.
Definition lead_env : ReplicaEnv :=
  {| re_crypto := sample_crypto; re_range := canonical_range; re_election := turn_election;
     re_ID := "1"; re_IsByz := false; re_Strategy := "silence"; re_N := 4 |}.
Definition lead_agg (i : nat) : NodeID := if decide (i = 3%nat) then "1" else "2".
Definition lead_votes : list Vote := [MkVote 3 "2" 3 (sample_sig 3); MkVote 3 "3" 3 (sample_sig 3)].

Lemma three_cases (P : nat → Prop) : P 1%nat → P 2%nat → P 3%nat → ∀ i, (1 ≤ i ≤ 3)%nat → P i.
Proof. intros ? ? ? i Hi. by destruct i as [|[|[|[|i]]]]; try lia. Qed.

Lemma lead_chain : @certified_chain lead_env 3 live_blk live_qc.
Proof.
  split; try (apply three_cases; by vm_compute).
  - by vm_compute.
  - intros i Hi. assert (i = 1 ∨ i = 2)%nat as [->| ->] by lia; by vm_compute.
  - intros i j _ _ E. unfold live_blk, chain_block in E. cbn [b_ID] in E. lia.
Qed.

Lemma lead_followed : @followed lead_env 3 live_blk live_vote lead_agg.
Proof. split; try (apply three_cases; by vm_compute). by vm_compute. Qed.

Lemma lead_good : Forall (@good_vote lead_env live_blk 3) lead_votes.
Proof. repeat constructor; by vm_compute. Qed.

Lemma hotstuff_leader_extends_witness :
  ∃ s a, @run_events lead_env 4 3 ((deliver live_blk live_qc <$> [2; 1; 3]%nat) ++ (RecvVote <$> lead_votes))
           (@initial lead_env) = Ok (s, ())
    ∧ curView_of s = 4 ∧ length (committedBlocks s) = 1%nat ∧ highQC s = Some a
    ∧ (qc_Signers <$> store s !! a) = Some ["3"; "1"; "2"].
Proof.
  destruct (@hotstuff_leader_extends lead_env 3 live_blk live_qc live_vote lead_agg [2; 1; 3]%nat lead_votes 4 3
              lead_chain lead_followed) as (s & a & Hs & Hv & _ & _ & _ & _ & _ & Hc & Ha & Hq & _);
    [left; reflexivity|lia|by vm_compute|apply (bool_decide_unpack _); vm_compute; exact Logic.I|reflexivity
    |by vm_compute|exact lead_good|apply (bool_decide_unpack _); vm_compute; exact Logic.I|by vm_compute|lia|lia|by vm_compute; lia|].
  exists s, a. split; [exact Hs|]. split; [exact Hv|]. split; [by apply Forall2_length in Hc|].
  split; [exact Ha|]. rewrite Hq. vm_compute. reflexivity.
Defined.
