(* ===== verification/Careful.v ===== *)
(** * Careful networks

    The argument behind the agreement of the chained protocols, for all of them.
    Part one is about votes: a tree of blocks, certificates backed by the votes of
    more than two thirds of the nodes, and what follows when honest nodes vote in
    increasing views.  Part two is the invariant of a replica that does not depend
    on its commit rule: certificates, stored and buffered blocks, collected and cast
    votes are what they claim to be.  Part three is a cluster of replicas of any
    protocol with the interface [Safety] whose messages pass the checks that the
    code leaves out.  A protocol provides an invariant with the laws of [Careful];
    then the votes of every reachable cluster are disciplined and what its replicas
    commit is decided by them.  Files [Agreement] and [TchsAgreement] do this for
    HotStuff and two-chain HotStuff. *)
From S2P Require Import Prelude Identity Sha1 Election Db Crypto Types Quorum Forest BlockChain Pacemaker Chained Safety HotStuff HotStuffProps.
From stdpp Require Import sorting.

Local Open Scope Z_scope.
Import HotStuff.

(** ** Labels of the containers of a forest *)

(** The identifier and the level of every container satisfy [P]. *)
Definition labelled (P : Identifier → Z → Prop) (f : LevelledForest) : Prop :=
  ∀ p c, containers f !! p = Some c → P (vc_id c) (vc_level c).

Lemma labelled_create P f id l : labelled P f → P id l → labelled P (getOrCreateVertexContainer f id l).1.
Proof.
  intros Hf Hid p c. unfold getOrCreateVertexContainer. destruct (vertices f !! id); [apply Hf|]. simpl.
  rewrite lookup_app_Some, list_lookup_singleton_Some. intros [?|(_ & _ & <-)]; [by eapply Hf|done].
Qed.

Lemma labelled_upd P f g p :
  (∀ c, vc_id (g c) = vc_id c ∧ vc_level (g c) = vc_level c) →
  labelled P f → labelled P (upd_container g p f).
Proof.
  intros Hg Hf q c. rewrite container_upd. case_decide; [|apply Hf].
  intros (d & Hd & ->)%fmap_Some. destruct (Hg d) as [-> ->]. by eapply Hf.
Qed.

Lemma AddVertex_labelled P st f v f' :
  labelled P f → P (VertexID v) (Level v) → (∀ id l, Parent st v = Ok (id, l) → P id l) →
  AddVertex st f v = Ok f' → labelled P f'.
Proof.
  intros Hf Hv Hp. unfold AddVertex. case_decide; [by intros [= <-]|].
  pose proof (labelled_create P f (VertexID v) (Level v) Hf Hv) as Hg.
  destruct (getOrCreateVertexContainer f (VertexID v) (Level v)) as [g p]. simpl in Hg.
  intros (c & Hc & H')%outcome_bind_ok. destruct (isEmptyContainer c); [|by injection H' as <-].
  assert (labelled P (upd_container (set_vertex v) p g)) as Hg2 by (by apply labelled_upd).
  assert (vc_vertex <$> containers (upd_container (set_vertex v) p g) !! p = Some (Some v)) as Hc2.
  { unfold container in Hc. apply of_option_ok in Hc. by rewrite container_upd, decide_True, Hc. }
  revert Hg2 Hc2 H'. generalize (upd_container (set_vertex v) p g). intros g2 Hg2 Hc2. unfold registerWithParent.
  intros (c2 & Hc3 & H')%outcome_bind_ok. apply of_option_ok in Hc3. rewrite Hc3 in Hc2. injection Hc2 as Hc2.
  destruct (decide (vc_level c2 ≤ _)); [by injection H' as <-|].
  apply outcome_bind_ok in H' as (w & Hw & H'). apply of_option_ok in Hw. rewrite Hc2 in Hw. injection Hw as <-.
  apply outcome_bind_ok in H' as ([pid pl] & Hpar & H').
  destruct (decide (pl < _)); [by injection H' as <-|].
  pose proof (labelled_create P g2 pid pl Hg2 (Hp _ _ Hpar)) as Hg3.
  destruct (getOrCreateVertexContainer g2 pid pl) as [g3 pp]. injection H' as <-. by apply labelled_upd.
Qed.

Lemma labelled_level P f id l : labelled P f → forest_inv f → level_of f id = Some l → P id l.
Proof.
  intros Hf I. unfold level_of. intros (p & Hp & (c & Hc & ->)%fmap_Some)%bind_Some.
  destruct (inv_vertex f I id p Hp) as (c' & Hc' & Hid & _). rewrite Hc in Hc'. injection Hc' as <-.
  subst id. by eapply Hf.
Qed.

(** ** The tree of blocks, votes and certificates *)
Section tree.
(** The nodes, and the view and the parent of the block with an identifier. *)
Context (nodes byz : gset NodeID) (U : Identifier → option (Z * Identifier)).

(** A tree: views are positive and increase; the root has no block. *)
Record tree : Prop := {
  tr_root : U 0%N = None;
  tr_view : ∀ id v p, U id = Some (v, p) → 1 ≤ v < max_int64;
  tr_down : ∀ id v p v' p', U id = Some (v, p) → U p = Some (v', p') → v' < v
}.

(** The fault assumption. *)
Record cluster : Prop := {
  cl_size : Z.of_nat (base.size nodes) ≤ 4611686018427387903;
  cl_byz : 3 * Z.of_nat (base.size byz) < Z.of_nat (base.size nodes)
}.

Definition parent (x y : Identifier) : Prop := ∃ v, U x = Some (v, y).
(** [extends x y]: [y] is [x] or an ancestor of it. *)
Definition extends : Identifier → Identifier → Prop := rtc parent.

Abbreviation voting := (gmap NodeID (list Vote)).
Implicit Types V W : voting.

(** A block is backed by the votes [V] of the honest nodes if more than two thirds
    of the nodes, honest ones with a vote for it, can have signed it. *)
Definition backed V (id : Identifier) : Prop :=
  ∃ Q : gset NodeID, Q ⊆ nodes ∧ threshold (Z.of_nat (base.size nodes)) < Z.of_nat (base.size Q)
    ∧ ∀ x l, x ∈ Q → V !! x = Some l → ∃ v, v ∈ l ∧ vote_BlockID v = id.

Definition good_qc V (qc : QC) : Prop :=
  (qc_BlockID qc = 0%N ∧ qc_View qc = 0)
  ∨ (backed V (qc_BlockID qc) ∧ ∃ p, U (qc_BlockID qc) = Some (qc_View qc, p)).

Definition in_tree (b : Block) : Prop := U (b_ID b) = Some (b_View b, b_PrevID b).

Definition good_block V (b : Block) : Prop := in_tree b ∧ (b_PrevID b = 0%N ∨ backed V (b_PrevID b)).

(** A vote for a block of the tree. *)
Definition named (v : Vote) : Prop := ∃ p, U (vote_BlockID v) = Some (vote_View v, p).
(** A vote for a block on a certified one; in the first two views on the root. *)
Definition good_vote V (v : Vote) : Prop :=
  ∃ p, U (vote_BlockID v) = Some (vote_View v, p) ∧ (p = 0%N ∧ vote_View v ≤ 2 ∨ backed V p).

Definition increasing (l : list Vote) : Prop := StronglySorted (λ v1 v2, vote_View v1 < vote_View v2) l.

#[global] Instance increasing_dec l : Decision (increasing l).
Proof.
  unfold increasing. induction l as [|v l IH]; [left; constructor|].
  destruct IH as [IH|IH]; [|right; inversion 1; auto].
  destruct (decide (Forall (λ w, vote_View v < vote_View w) l)); [left; by constructor|right; by inversion 1].
Defined.

(** *** More votes *)

(** The same voters with more votes. *)
Definition more V V' : Prop :=
  ∀ x l', V' !! x = Some l' → ∃ l, V !! x = Some l ∧ l `prefix_of` l'.

Lemma more_backed V V' id : more V V' → backed V id → backed V' id.
Proof.
  intros HV (Q & H1 & H2 & H3). exists Q. split_and!; [done..|]. intros x l' Hx Hl'.
  destruct (HV x l' Hl') as (l & Hl & [k ->]). destruct (H3 x l Hx Hl) as (v & Hv & Hid). exists v. set_solver.
Qed.
Lemma more_good_qc V V' q : more V V' → good_qc V q → good_qc V' q.
Proof. intros HV [?|[? ?]]; [by left|]. right. split; [by eapply more_backed|done]. Qed.
Lemma more_good_block V V' b : more V V' → good_block V b → good_block V' b.
Proof. intros HV [? [?|?]]; (split; [done|]); [by left|]. right. by eapply more_backed. Qed.
Lemma more_good_vote V V' v : more V V' → good_vote V v → good_vote V' v.
Proof. intros HV (p & ? & [?|?]); exists p; (split; [done|]); [by left|]. right. by eapply more_backed. Qed.
Lemma good_named V v : good_vote V v → named v.
Proof. intros (p & ? & _). by exists p. Qed.

Lemma increasing_app l1 l2 : increasing (l1 ++ l2) → increasing l1.
Proof.
  unfold increasing. induction l1 as [|v l1 IH]; [constructor|]. simpl. inversion 1; subst.
  constructor; [by apply IH|]. by apply Forall_app in H3 as [? _].
Qed.

Lemma increasing_same l v1 v2 :
  increasing l → v1 ∈ l → v2 ∈ l → vote_View v1 = vote_View v2 → v1 = v2.
Proof.
  unfold increasing. induction 1 as [|v l Hl IH Hall]; [set_solver|]. rewrite Forall_forall in Hall.
  rewrite !elem_of_cons. intros [->|H1] [->|H2] E; [done| | |by apply IH];
    [specialize (Hall _ H2)|specialize (Hall _ H1)]; lia.
Qed.

(** Two certified blocks share an honest voter. *)
Lemma backed_share V id1 id2 :
  cluster → (∀ x, x ∈ nodes → x ∉ byz → is_Some (V !! x)) → backed V id1 → backed V id2 →
  ∃ x l v1 v2, V !! x = Some l ∧ v1 ∈ l ∧ v2 ∈ l ∧ vote_BlockID v1 = id1 ∧ vote_BlockID v2 = id2.
Proof.
  intros [C1 C2] Hhon (Q1 & A1 & A2 & A3) (Q2 & B1 & B2 & B3).
  rewrite threshold_small in A2, B2 by lia.
  destruct (quorums_share_honest nodes byz Q1 Q2) as (h & Hn & Hb & H1 & H2); [done..|].
  destruct (Hhon h Hn Hb) as [l Hh].
  destruct (A3 h l H1 Hh) as (v1 & E1 & <-), (B3 h l H2 Hh) as (v2 & E2 & <-). by exists h, l, v1, v2.
Qed.

(** Certified blocks of one view are equal: their common voter votes once per view. *)
Lemma backed_unique V id1 id2 v p1 p2 :
  cluster → (∀ x, x ∈ nodes → x ∉ byz → is_Some (V !! x)) →
  (∀ x l, V !! x = Some l → increasing l ∧ Forall named l) →
  backed V id1 → backed V id2 → U id1 = Some (v, p1) → U id2 = Some (v, p2) → id1 = id2.
Proof.
  intros C Hhon Hl K1 K2 U1 U2. destruct (backed_share V id1 id2 C Hhon K1 K2) as (h & l & v1 & v2 & Hh & E1 & E2 & <- & <-).
  destruct (Hl h l Hh) as [Hinc Hgood].
  rewrite Forall_forall in Hgood. destruct (Hgood v1 E1) as (p & Hv1), (Hgood v2 E2) as (p' & Hv2).
  f_equal. apply (increasing_same l); [done..|]. congruence.
Qed.

(** *** The argument *)

(** The ancestors of a block form a chain. *)
Lemma extends_chain x a b : extends x a → extends x b → extends a b ∨ extends b a.
Proof.
  intros Ha. revert b. induction Ha as [x|x y a [v Hxy] Ha IH]; intros b Hb; [by left|].
  inversion Hb as [|? z ? [v' Hxz] Hz]; subst.
  - right. eapply rtc_l; [by exists v|done].
  - rewrite Hxy in Hxz. injection Hxz as _ <-. by apply IH.
Qed.

Lemma extends_view x y v p v' p' :
  tree → extends x y → U x = Some (v, p) → U y = Some (v', p') → v' ≤ v ∧ (v' = v → x = y).
Proof.
  intros T Hxy. revert v p. induction Hxy as [x|x z y [w Hxz] Hzy IH]; intros v p Hx Hy.
  { split; [|done]. rewrite Hx in Hy. injection Hy as -> _. lia. }
  rewrite Hx in Hxz. injection Hxz as -> ->.
  destruct (U z) as [[vz pz]|] eqn:Hz.
  - pose proof (tr_down T _ _ _ _ _ Hx Hz). destruct (IH vz pz eq_refl Hy) as [? _]. split; lia.
  - inversion Hzy as [|? z' ? [? Hz'] _]; subst; congruence.
Qed.

(** In a list that is sorted in two ways. *)
Lemma sorted_related (R : Vote → Vote → Prop) l v1 v2 :
  increasing l → StronglySorted R l → v1 ∈ l → v2 ∈ l → vote_View v1 < vote_View v2 → R v1 v2.
Proof.
  unfold increasing. intros Hinc. induction 1 as [|v l Hl IH Hall]; [set_solver|]. inversion Hinc as [|? ? Hinc' Hview]; subst.
  rewrite Forall_forall in Hall, Hview. rewrite !elem_of_cons. intros [->|H1] [->|H2] E; [lia|by apply Hall| |by apply IH].
  specialize (Hview _ H1). lia.
Qed.

(** What the votes of the honest nodes look like: each vote and every later one of
    the same node are related by [R]. *)
Record disciplined (R : Vote → Vote → Prop) V : Prop := {
  di_honest : ∀ x, x ∈ nodes → x ∉ byz → is_Some (V !! x);
  di_increasing : ∀ x l, V !! x = Some l → increasing l;
  di_good : ∀ x l, V !! x = Some l → Forall (good_vote V) l;
  di_respects : ∀ x l, V !! x = Some l → StronglySorted R l
}.

Lemma disciplined_unique R V id1 id2 v p1 p2 :
  cluster → disciplined R V → backed V id1 → backed V id2 →
  U id1 = Some (v, p1) → U id2 = Some (v, p2) → id1 = id2.
Proof.
  intros C D. apply backed_unique; [done|apply D|]. intros x l Hx. split; [by eapply di_increasing|].
  eapply Forall_impl; [by eapply di_good|]. intros ?. by eapply good_named.
Qed.

(** Of the votes of a common voter for two certified blocks the later one is related
    to the earlier one. *)
Lemma disciplined_voter R V id1 id2 v1 v2 p1 p2 :
  cluster → disciplined R V → backed V id1 → backed V id2 →
  U id1 = Some (v1, p1) → U id2 = Some (v2, p2) → v1 < v2 →
  ∃ w1 w2, vote_BlockID w1 = id1 ∧ vote_View w1 = v1 ∧ vote_BlockID w2 = id2 ∧ vote_View w2 = v2
    ∧ R w1 w2 ∧ (p2 = 0%N ∧ v2 ≤ 2 ∨ backed V p2).
Proof.
  intros C D K1 K2 U1 U2 Hlt. destruct (backed_share V id1 id2 C (di_honest _ _ D) K1 K2)
    as (h & l & w1 & w2 & Hh & E1 & E2 & <- & <-). exists w1, w2.
  pose proof (di_good _ _ D h l Hh) as Hgood. rewrite Forall_forall in Hgood.
  destruct (Hgood w1 E1) as (q1 & Hw1 & _), (Hgood w2 E2) as (q2 & Hw2 & Hq2).
  rewrite U1 in Hw1. injection Hw1 as -> ->. rewrite U2 in Hw2. injection Hw2 as -> ->.
  split_and!; [done..| |done]. apply (sorted_related _ l); [by eapply di_increasing|by eapply di_respects|done..].
Qed.

(** If the later one of two heads extends the other one, blocks below heads agree. *)
Lemma heads_agree a b va vb a0 b0 :
  tree → in_tree a → in_tree b →
  (va ≤ vb → extends b0 a0) → (vb ≤ va → extends a0 b0) →
  extends a0 (b_ID a) → extends b0 (b_ID b) →
  (extends (b_ID a) (b_ID b) ∨ extends (b_ID b) (b_ID a))
  ∧ (b_View a = b_View b → b_ID a = b_ID b).
Proof.
  intros T Ta Tb Hab Hba Ea Eb.
  assert (extends (b_ID a) (b_ID b) ∨ extends (b_ID b) (b_ID a)) as H.
  { destruct (Z.le_ge_cases va vb) as [Hle|Hle].
    - apply (extends_chain b0); [|done]. transitivity a0; [|done]. by apply Hab.
    - apply (extends_chain a0); [done|]. transitivity b0; [|done]. by apply Hba. }
  split; [done|]. intros E.
  destruct H as [H|H]; [|symmetry]; destruct (extends_view _ _ _ _ _ _ T H ltac:(done) ltac:(done)) as [_ Heq]; auto.
Qed.
End tree.

(** ** The invariant of a replica *)

(** The votes that a replica has cast, in order. *)
Definition cast_vote_of (o : output) : option Vote :=
  match o with Send _ v | OwnVote v => Some v | _ => None end.
Definition cast_votes (s : chained) : list Vote := omap cast_vote_of (network s).

Section replica.
Context `{ReplicaEnv} (nodes byz : gset NodeID) (U : Identifier → option (Z * Identifier)).
(** The votes of the honest nodes; those of this one are taken from its state. *)
Context (W : gmap NodeID (list Vote)).
(** Which blocks are decided by the votes, and which certificates a replica of the
    given current view may hold. *)
Context (dec : gmap NodeID (list Vote) → Block → Prop) (okqc : gmap NodeID (list Vote) → Z → QC → Prop).

Definition known_votes (s : chained) : gmap NodeID (list Vote) := <[re_ID := cast_votes s]> W.
Abbreviation V := known_votes.

(** A container is at the level of its block. *)
Definition level_ok (id : Identifier) (l : Z) : Prop := id = 0%N ∨ ∃ p, U id = Some (l, p).

(** A block with the certificate of its parent. *)
Definition carries (st : QCStore) (b : Block) : Prop :=
  ∃ q, qc_deref st (b_QC b) = Ok q ∧ qc_BlockID q = b_PrevID b.

(** A vote that a replica may have received. *)
Definition fair_vote (X : gmap NodeID (list Vote)) (v : Vote) : Prop :=
  vote_Voter v ∈ nodes ∧ named U v ∧ ∀ l, X !! vote_Voter v = Some l → v ∈ l.

Record sound (s : chained) : Prop := {
  i_store : Forall (λ q, okqc (V s) (curView_of s) q ∧ certified q) (store s);
  i_blocks : ∀ id b, GetVertex (forrest (bc s)) id = Some b → good_block nodes U (V s) b;
  i_buffered : ∀ k b, bufferedBlocks s !! k = Some b →
    good_block nodes U (V s) b ∧ carries (store s) b ∧ (b_Proposer b = re_ID → b_View b ≤ curView_of s);
  i_votes : ∀ id x v, votes_of (quorum (bc s)) id !! x = Some v →
    vote_BlockID v = id ∧ vote_Voter v = x ∧ fair_vote (V s) v;
  i_total : Quorum.total (quorum (bc s)) = Z.of_nat (base.size nodes);
  i_cast : Forall (good_vote nodes U (V s)) (cast_votes s);
  i_committed : Forall (dec (V s)) (committedBlocks s)
}.

Context (T : tree U) (C : cluster nodes byz) (Hself : re_ID ∈ nodes).
Context (HN : re_N = Z.of_nat (base.size nodes)).
Context (Hothers : ∀ x l, W !! x = Some l → x ≠ re_ID → increasing l ∧ Forall (named U) l).
Context (Hall : ∀ x, x ∈ nodes → x ∉ byz → x = re_ID ∨ is_Some (W !! x)).
Context (Hdec : ∀ X X' b, more X X' → dec X b → dec X' b).
Context (Hok : ∀ X X' v v' q, more X X' → v ≤ v' → okqc X v q → okqc X' v' q).

Lemma more_refl (X : gmap NodeID (list Vote)) : more X X.
Proof. intros x l Hl. by exists l. Qed.

Lemma known_same s s' : network s' = network s → V s' = V s ∧ cast_votes s' = cast_votes s.
Proof. intros E. unfold V, known_votes, cast_votes. by rewrite E. Qed.

Lemma unique_here s id1 id2 v p1 p2 :
  sound s → increasing (cast_votes s) → backed nodes (V s) id1 → backed nodes (V s) id2 →
  U id1 = Some (v, p1) → U id2 = Some (v, p2) → id1 = id2.
Proof.
  intros I1 Hinc. eapply backed_unique; [exact C| |].
  - intros x Hx Hb. unfold V, known_votes. destruct (decide (x = re_ID)) as [->|Hne]; [rewrite lookup_insert_eq; by eexists|].
    rewrite lookup_insert_ne by done. by destruct (Hall x Hx Hb).
  - intros x l. unfold V, known_votes. destruct (decide (x = re_ID)) as [->|Hne].
    + rewrite lookup_insert_eq. intros [= <-]. split; [done|]. eapply Forall_impl; [apply (i_cast _ I1)|].
      intros v0. by eapply good_named.
    + rewrite lookup_insert_ne by done. intros Hl. by apply (Hothers x).
Qed.

(** A step that does not touch the blocks and the votes. *)
Lemma sound_frame s s' :
  store s' = store s → bc s' = bc s → cast_votes s' = cast_votes s → curView_of s ≤ curView_of s' →
  committedBlocks s' = committedBlocks s →
  (∀ k b, bufferedBlocks s' !! k = Some b → bufferedBlocks s !! k = Some b) → sound s → sound s'.
Proof.
  intros E1 E2 E3 E4 E5 Hb [I1 I2 I4 I5 I6 I7 I8].
  assert (V s' = V s) as EV by (unfold V, known_votes; by rewrite E3).
  split; rewrite ?EV, ?E1, ?E2, ?E5, ?E3; try done.
  - eapply Forall_impl; [exact I1|]. intros q [? ?]. split; [|done]. by eapply Hok; [apply more_refl|..].
  - intros k b Hk. destruct (I4 k b (Hb k b Hk)) as (? & ? & Ho). split_and!; [done..|]. intros E. specialize (Ho E). lia.
Qed.

(** *** Certificates *)

Lemma carries_prefix st st' b : st `prefix_of` st' → carries st b → carries st' b.
Proof. intros Hst (q & Hq & E). exists q. split; [by eapply qc_deref_prefix|done]. Qed.

Lemma deref_in st p q : qc_deref st p = Ok q → q ∈ st.
Proof. intros (a & _ & Ha)%qc_deref_ok. apply list_elem_of_lookup. eauto. Qed.

Lemma sound_qc s p q : sound s → qc_deref (store s) p = Ok q → okqc (V s) (curView_of s) q ∧ certified q.
Proof. intros I1 Hq%deref_in. pose proof (i_store _ I1) as Hst. rewrite Forall_forall in Hst. by apply Hst. Qed.

Lemma good_qc_view X q : good_qc nodes U X q → 0 ≤ qc_View q < max_int64.
Proof.
  intros [[_ ->]|(_ & p & Hu)]; [by split|]. destruct (tr_view _ T _ _ _ Hu). lia.
Qed.

Lemma sound_alloc s q :
  okqc (V s) (curView_of s) q → certified q → sound s → sound (set_store s (store s ++ [q])).
Proof.
  intros Hq Hc [I1 I2 I4 I5 I6 I7 I8]. split; try done; simpl.
  - apply Forall_app. split; [done|]. by constructor.
  - intros k b Hk. destruct (I4 k b Hk) as (? & Hcar & ?). split_and!; [done| |done].
    eapply carries_prefix; [|done]. by eexists.
Qed.

(** *** Commits *)

Lemma tree_block s id b :
  chained_inv s → sound s → GetVertex (forrest (bc s)) id = Some b →
  U id = Some (b_View b, b_PrevID b) ∧ b_ID b = id ∧ (b_PrevID b = 0%N ∨ backed nodes (V s) (b_PrevID b)).
Proof.
  intros CI I1 Hb. destruct (i_blocks _ I1 id b Hb) as [Ht Hk].
  pose proof (GetVertex_ID _ _ _ (ci_forest s CI) Hb) as Hid. unfold in_tree in Ht. by rewrite Hid in Ht.
Qed.

(** A stored block whose child is stored is certified. *)
Lemma parent_backed s b p :
  chained_inv s → sound s → good_block nodes U (V s) b → GetVertex (forrest (bc s)) (b_PrevID b) = Some p →
  backed nodes (V s) (b_PrevID b).
Proof.
  intros CI I1 [_ [E|Hk]] Hp; [|done]. destruct (tree_block s _ p CI I1 Hp) as (Hu & _).
  by rewrite E, (tr_root _ T) in Hu.
Qed.

Lemma walk_extends s b l :
  chained_inv s → sound s → good_block nodes U (V s) b → walk (forrest (bc s)) b l →
  Forall (λ x, in_tree U x ∧ extends U (b_ID b) (b_ID x) ∧ b_View x ≤ b_View b) l.
Proof.
  intros CI I1 Hb Hw. revert Hb. induction Hw as [b Hlow|b Hlow Hp|b p l Hlow Hp Hw IH]; intros Hb.
  - constructor.
  - constructor; [|constructor]. split_and!; [apply Hb|reflexivity|lia].
  - destruct (tree_block s _ p CI I1 Hp) as (Hu & Hid & _).
    constructor; [split_and!; [apply Hb|reflexivity|lia]|].
    eapply Forall_impl; [apply IH; by apply (i_blocks _ I1 (b_PrevID b))|].
    intros x (Hx & Hext & Hle). destruct Hb as [Hb _]. split_and!; [done| |].
    + eapply rtc_l; [by exists (b_View b)|]. by rewrite <- Hid.
    + pose proof (tr_down _ T _ _ _ _ _ Hb Hu). lia.
Qed.

(** The level of a stored block is its view. *)
Lemma stored_level s id b v p l :
  chained_inv s → labelled level_ok (forrest (bc s)) → GetVertex (forrest (bc s)) id = Some b → U id = Some (v, p) →
  level_of (forrest (bc s)) id = Some l → l = v.
Proof.
  intros CI Hlab Hb Hu Hl.
  destruct (labelled_level _ _ _ _ Hlab (ci_forest s CI) Hl) as [->|(q & Hq)].
  - by rewrite (tr_root _ T) in Hu.
  - congruence.
Qed.

Lemma view_level id v p : U id = Some (v, p) → uint64 v = v.
Proof. intros Hu. apply uint64_of_view. destruct (tr_view _ T _ _ _ Hu). lia. Qed.

(** A smaller set of votes and a pruned forest. *)
Lemma sound_bc s c before q w committed forked :
  sound s → Quorum.total (quorum c) = Quorum.total (quorum (bc s)) →
  (∀ i x v, votes_of (quorum c) i !! x = Some v → votes_of (quorum (bc s)) i !! x = Some v) →
  (∀ id b, GetVertex (forrest c) id = Some b → GetVertex (forrest (bc s)) id = Some b) →
  Forall (dec (V s)) committed →
  sound (send_blocks (set_bc s c) before q w committed forked).
Proof.
  intros [I1 I2 I4 I5 I6 I7 I8] Ht Hv Hg Hnew. split; try done; simpl.
  - intros id b Hb. by eapply I2, Hg.
  - intros id x v Hx. by apply I5, Hv.
  - by rewrite Ht.
  - by apply Forall_app.
Qed.

(** What a call of [CommitBlock] leaves: blocks above the level of the committed one
    stay, and what is committed is on its chain. *)
Lemma sound_commit cf b0 view s c r :
  chained_inv s → sound s → GetVertex (forrest (bc s)) (b_ID b0) = Some b0 →
  (∀ x, in_tree U x → extends U (b_ID b0) (b_ID x) → b_View x ≤ b_View b0 → dec (V s) x) →
  CommitBlock cf (store s) (b_ID b0) view (bc s) = Ok (c, r) →
  (∀ id b, GetVertex (forrest c) id = Some b → GetVertex (forrest (bc s)) id = Some b)
  ∧ containers (forrest c) = containers (forrest (bc s))
  ∧ (∀ id b v p, labelled level_ok (forrest (bc s)) → GetVertex (forrest (bc s)) id = Some b →
       U id = Some (v, p) → b_View b0 < v → GetVertex (forrest c) id = Some b)
  ∧ match r with
    | Val (committed, forked) =>
        ∀ before q carrier, sound (send_blocks (set_bc s c) before q carrier committed forked)
    | Err _ => sound (set_bc s c)
    end.
Proof.
  intros CI I1 Hb0 Hd H2. destruct (CommitBlock_votes _ _ _ _ _ _ _ H2) as [Ht Hvotes].
  destruct (tree_block s _ b0 CI I1 Hb0) as (T0 & E0 & _).
  destruct r as [[committed forked]|e].
  - apply CommitBlock_inv in H2 as (w & f' & no & Hw & Hwalk & Hprune & ->); [|apply CI].
    rewrite Hb0 in Hw. injection Hw as <-.
    destruct (PruneUpToLevel_shape _ _ _ _ _ _ (ci_forest s CI) Hprune) as (Hcont & _).
    apply PruneUpToLevel_spec in Hprune as (_ & _ & _ & Hget & _); [|apply CI].
    assert (∀ id b, GetVertex f' id = Some b → GetVertex (forrest (bc s)) id = Some b) as Hsub.
    { intros id b. rewrite Hget. by case_decide. }
    split_and!; [done|done| |].
    + intros id b v p Hlab Hb Hu Hlt. simpl. rewrite Hget, decide_False; [done|]. unfold level_sat.
      destruct (level_of _ id) as [l|] eqn:Hl; [|by intros []]. unfold Level.
      rewrite (stored_level s id b _ _ l CI Hlab Hb Hu Hl), (view_level _ _ _ T0). lia.
    + intros before q carrier. apply sound_bc; try done.
      eapply Forall_impl; [eapply walk_extends; [done|done|by eapply (i_blocks _ I1)|exact Hwalk]|].
      intros x (? & ? & ?). by apply Hd.
  - pose proof (CommitBlock_err _ _ _ _ _ _ _ H2) as Hf. rewrite Hf. split_and!; [done..|].
    set (s1 := send_blocks (set_bc s c) s (qc_of_view 0) None [] []). assert (sound s1) as HJ'.
    { apply sound_bc; rewrite ?Hf; try done. }
    eapply (sound_frame s1); try done. simpl. by rewrite app_nil_r.
Qed.

(** *** Blocks *)

Lemma good_parent X b q :
  in_tree U b → good_qc nodes U X q → qc_BlockID q = b_PrevID b → good_block nodes U X b.
Proof. intros Hb [[E _]|[Hk _]] Hid; rewrite Hid in *; (split; [done|]); [by left|by right]. Qed.

(** What the handling of a certificate or a block leaves alone. *)
Record settled (s s' : chained) : Prop := {
  st_network : network s' = network s;
  st_store : store s' = store s;
  st_blocks : ∀ id b, GetVertex (forrest (bc s')) id = Some b → GetVertex (forrest (bc s)) id = Some b;
  st_view : curView_of s ≤ curView_of s'
}.

Lemma sound_AddBlock b s s' u :
  chained_inv s → sound s → good_block nodes U (V s) b → on_bc (λ st, AddBlock st b) s = Ok (s', u) →
  sound s' ∧ (∃ c, s' = set_bc s c)
  ∧ (∀ id c, GetVertex (forrest (bc s')) id = Some c → GetVertex (forrest (bc s)) id = Some c ∨ id = b_ID b)
  ∧ (∀ id c, GetVertex (forrest (bc s)) id = Some c → GetVertex (forrest (bc s')) id = Some c).
Proof.
  intros CI I Hb H'. apply zoom_ok in H' as (c & (f & Hf & ->)%AddBlock_ok & ->).
  destruct (AddVertex_spec _ _ _ _ (ci_forest s CI) Hf) as (_ & _ & Hget).
  assert (∀ id c, GetVertex f id = Some c → GetVertex (forrest (bc s)) id = Some c ∨ (id = b_ID b ∧ c = b)) as Hnew.
  { intros id c. rewrite Hget. destruct (decide (_ ∧ _)) as [[_ ->]|]; [|by left].
    destruct (GetVertex _ (VertexID b)) as [w|]; simpl; intros [= <-]; [by left|by right]. }
  split_and!.
  - destruct I as [I1 I2 I4 I5 I6 I7 I8]. split; try done; simpl.
    intros id c Hc. destruct (Hnew id c Hc) as [Hc'|[-> ->]]; [by eapply I2|done].
  - by eexists.
  - simpl. intros id c Hc. destruct (Hnew id c Hc) as [?|[? _]]; [by left|by right].
  - simpl. intros id c Hc. rewrite Hget, Hc. by destruct (decide (_ ∧ _)).
Qed.

(** Levels stay right if the certificate has the view of the parent. *)
Lemma levels_AddBlock b q s s' u :
  labelled level_ok (forrest (bc s)) → in_tree U b → qc_deref (store s) (b_QC b) = Ok q →
  qc_BlockID q = b_PrevID b → level_ok (qc_BlockID q) (uint64 (qc_View q)) →
  on_bc (λ st, AddBlock st b) s = Ok (s', u) → labelled level_ok (forrest (bc s')).
Proof.
  intros Hlab Hb Hq Hprev Hlev H'. apply zoom_ok in H' as (c & (f & Hf & ->)%AddBlock_ok & ->). simpl.
  eapply (AddVertex_labelled _ _ _ _ _ Hlab); [| |exact Hf].
  - right. exists (b_PrevID b). unfold VertexID, Level. by rewrite (view_level _ _ _ Hb).
  - intros id l (q' & Hq' & -> & ->)%Parent_ok. rewrite Hq in Hq'. injection Hq' as <-. by rewrite <- Hprev.
Qed.

Lemma sound_buffer s k b :
  sound s → good_block nodes U (V s) b → carries (store s) b → (b_Proposer b = re_ID → b_View b ≤ curView_of s) →
  sound (set_bufferedBlocks s (<[k := b]> (bufferedBlocks s))).
Proof.
  intros [I1 I2 I4 I5 I6 I7 I8] Hb Hc Ho. split; try done. simpl.
  intros i c. rewrite lookup_insert. case_decide; [intros [= <-]; by split_and!|apply I4].
Qed.

(** *** Votes *)

Lemma sound_AddVote v s s' built qc :
  sound s → fair_vote (V s) v → on_bc (λ _, AddVote v) s = Ok (s', (built, qc)) →
  sound s' ∧ (∃ Q, s' = set_bc s (set_quorum Q (bc s)))
  ∧ ∀ q, built = true → qc = Some q → good_qc nodes U (V s) q.
Proof.
  intros [I1 I2 I4 I5 I6 I7 I8] Hv H'. apply zoom_ok in H' as (c & H1 & ->). unfold AddVote in H1.
  apply zoom_ok in H1 as (q' & H1 & ->). injection H1 as Hadd.
  assert (∀ Q, Quorum.total Q = Quorum.total (quorum (bc s)) →
    (∀ id x w, votes_of Q id !! x = Some w → vote_BlockID w = id ∧ vote_Voter w = x ∧ fair_vote (V s) w) →
    sound (set_bc s (set_quorum Q (bc s)))) as Hset.
  { intros Q Ht HQ. split; try done. by rewrite <- I6. }
  destruct (superMajority (quorum (bc s)) (vote_BlockID v)) eqn:Hsm.
  { rewrite Add_full in Hadd by done. injection Hadd as <- <- <-. split_and!; [by apply Hset|by eexists|done]. }
  destruct (Add_stores (quorum (bc s)) v Hsm) as [E1 E2].
  assert (∀ id x w, votes_of (stored (quorum (bc s)) v) id !! x = Some w →
    vote_BlockID w = id ∧ vote_Voter w = x ∧ fair_vote (V s) w) as Hst.
  { intros id x w. rewrite votes_of_stored. case_decide as Hid; [|apply I5].
    rewrite lookup_insert. case_decide as Hx; [intros [= <-]; by split_and!|]. subst id. apply I5. }
  rewrite Hadd in E1. simpl in E1. subst q'. split_and!; [by apply Hset|by eexists|].
  intros q -> ->. destruct (Add_qc_inv (quorum (bc s)) v q) as (_ & Hmaj & _ & ->); [by rewrite Hadd|].
  right. simpl. destruct Hv as (_ & [p Hp] & _). split; [|by exists p].
  set (m := votes_of (stored (quorum (bc s)) v) (vote_BlockID v)) in *.
  exists (dom m). unfold superMajority in Hmaj. apply bool_decide_eq_true in Hmaj.
  rewrite size_dom in Hmaj. fold m in Hmaj. simpl in Hmaj. rewrite I6 in Hmaj. split_and!; [|done|].
  - intros x [w Hw]%elem_of_dom. destruct (Hst _ x w Hw) as (_ & <- & Hfair & _). done.
  - intros x l [w Hw]%elem_of_dom Hl. destruct (Hst _ x w Hw) as (Hid & <- & _ & _ & Hfair).
    exists w. split; [by apply Hfair|done].
Qed.

Lemma sorted_snoc (R : Vote → Vote → Prop) l v :
  StronglySorted R l → Forall (λ x, R x v) l → StronglySorted R (l ++ [v]).
Proof.
  induction 1 as [|x l Hl IH Hx]; simpl; [by repeat constructor|]. inversion 1; subst.
  constructor; [by apply IH|]. apply Forall_app. split; [done|]. by constructor.
Qed.

Lemma cast_emit s w o v : cast_vote_of o = Some v → cast_votes (emit s w o) = cast_votes s ++ [v].
Proof. intros Ho. unfold cast_votes. simpl. rewrite omap_app. simpl. by rewrite Ho. Qed.

Lemma more_cast s s' : cast_votes s `prefix_of` cast_votes s' → more (V s) (V s').
Proof.
  intros Hp x l'. unfold V, known_votes. destruct (decide (x = re_ID)) as [->|Hne].
  - rewrite !lookup_insert_eq. intros [= <-]. eauto.
  - rewrite !lookup_insert_ne by done. intros Hl. by exists l'.
Qed.

Lemma more_fair X X' v : more X X' → fair_vote X v → fair_vote X' v.
Proof.
  intros HX (H1 & H2 & H3). split_and!; [done..|]. intros l' Hl'. destruct (HX _ _ Hl') as (l & Hl & [k ->]).
  apply elem_of_app. left. by apply H3.
Qed.

(** A vote for a block that, from view 3 on, is on a stored one. *)
Lemma sound_emit b v w o s :
  chained_inv s → sound s → good_block nodes U (V s) b → may_vote s b → cast_vote_of o = Some v →
  vote_View v = b_View b → vote_BlockID v = b_ID b → sound (emit s w o).
Proof.
  intros CI I1 Hb Hmay Ho Hview Hid. pose proof (cast_emit s w o v Ho) as Ec.
  assert (more (V s) (V (emit s w o))) as HV by (apply more_cast; rewrite Ec; by eexists).
  pose proof Hb as [Ht Hprev].
  assert (b_PrevID b = 0%N ∧ b_View b ≤ 2 ∨ backed nodes (V s) (b_PrevID b)) as Hgv.
  { destruct Hprev as [E|]; [|by right]. destruct (decide (b_View b ≤ 2)); [by left|].
    destruct (Hmay ltac:(lia)) as (_ & st & par & Hst & Hpar & _).
    destruct (tree_block s _ st CI I1 Hst) as (Tst & _ & _). unfold in_tree in Ht. rewrite Tst in Ht. injection Ht as _ Ep.
    destruct (tree_block s _ par CI I1 Hpar) as (Tpar & _ & _). by rewrite Ep, E, (tr_root _ T) in Tpar. }
  destruct I1 as [I1 I2 I4 I5 I6 I7 I8]. split; try done; simpl.
  - eapply Forall_impl; [exact I1|]. intros q [? ?]. split; [|done]. by eapply Hok; [..|reflexivity|].
  - intros id c Hc. eapply more_good_block; [done|by eapply I2].
  - intros k c Hc. destruct (I4 k c Hc) as (? & ? & ?). split_and!; [by eapply more_good_block|done..].
  - intros id x w' Hw. destruct (I5 id x w' Hw) as (? & ? & ?). split_and!; [done..|by eapply more_fair].
  - rewrite Ec. apply Forall_app. split.
    + eapply Forall_impl; [exact I7|]. intros w'. by apply more_good_vote.
    + constructor; [|constructor]. exists (b_PrevID b). rewrite Hid, Hview. split; [done|].
      destruct Hgv as [?|?]; [by left|right]. by eapply more_backed.
  - eapply Forall_impl; [exact I8|]. intros c. by apply Hdec.
Qed.

(** The own vote may be counted at once. *)
Lemma own_vote_fair b v w o s :
  good_block nodes U (V s) b → cast_vote_of o = Some v → vote_View v = b_View b → vote_BlockID v = b_ID b →
  vote_Voter v = re_ID → fair_vote (V (emit s w o)) v.
Proof.
  intros Hb Ho Hview Hid Hvoter.
  split_and!; [by rewrite Hvoter|exists (b_PrevID b); rewrite Hview, Hid; apply Hb|].
  intros l. unfold V, known_votes. rewrite Hvoter, lookup_insert_eq. intros [= <-].
  rewrite (cast_emit s w _ v) by done. apply elem_of_app. right. by apply list_elem_of_singleton.
Qed.

(** *** Events *)

(** An event of a network with the checks, with or without timeouts. *)
Definition fair_event (timeouts : bool) (SF : Safety chained) (s : chained) (e : event) : Prop :=
  match e with
  | RecvBlock b (Some qc) =>
      in_tree U b ∧ good_qc nodes U (V s) qc ∧ certified qc ∧ qc_BlockID qc = b_PrevID b ∧ b_Proposer b ≠ re_ID
  | RecvVote v => fair_vote (V s) v
  | Propose view payload _ =>
      view ≤ curView_of s ∧ ∀ s' b, sf_MakeProposal view payload s = Ok (s', b) → in_tree U b
  | ProposeP tries priori view _ =>
      view ≤ curView_of s ∧ ∀ s' b, sf_MakePProposal tries priori view s = Ok (s', b) → in_tree U b
  | RecvTmo view _ (Some qc) => timeouts = true ∧ view < max_int64 ∧ good_qc nodes U (V s) qc ∧ certified qc
  | LocalTmo => timeouts = true ∧ curView_of s < max_int64 - 2
  | KickOff => True
  | _ => False
  end.

Lemma sound_initial s :
  store s = [qc_of_view 0] → bc s = NewBlockchain re_N → network s = [] → bufferedBlocks s = ∅ →
  committedBlocks s = [] → okqc (V s) (curView_of s) (qc_of_view 0) → sound s.
Proof.
  intros E1 E2 E3 E4 E5 E6. assert (cast_votes s = []) as Ec by (unfold cast_votes; by rewrite E3).
  split; rewrite ?E1, ?E2, ?E4, ?E5, ?Ec; simpl; try done; try constructor.
  - split; [done|by right].
  - constructor.
Qed.
End replica.

(** Only the votes of the others matter, and they may become more. *)
Lemma sound_more `{ReplicaEnv} nodes U W W' dec okqc s :
  (∀ X X' b, more X X' → dec X b → dec X' b) →
  (∀ X X' v v' q, more X X' → v ≤ v' → okqc X v q → okqc X' v' q) →
  more (known_votes W s) (known_votes W' s) → sound nodes U W dec okqc s → sound nodes U W' dec okqc s.
Proof.
  intros Hdec Hok HV [I1 I2 I4 I5 I6 I7 I8]. split; try done.
  - eapply Forall_impl; [exact I1|]. intros q [? ?]. split; [|done]. by eapply Hok; [..|reflexivity|].
  - intros id b Hb. eapply more_good_block; [done|by eapply I2].
  - intros k b Hb. destruct (I4 k b Hb) as (? & ? & ?). split_and!; [by eapply more_good_block|done..].
  - intros id x v Hv. destruct (I5 id x v Hv) as (? & ? & Hf). split_and!; [done..|].
    by eapply more_fair.
  - eapply Forall_impl; [exact I7|]. intros v. by apply more_good_vote.
  - eapply Forall_impl; [exact I8|]. intros b. by apply Hdec.
Qed.

(** ** The cluster *)

(** What a protocol provides: its initial state, the blocks that the votes decide, a
    relation between the votes of a replica and its later votes, a property of every
    vote, and an invariant that every event of a careful network keeps, with or without
    timeouts. *)
Class Careful (P : ∀ E : ReplicaEnv, Safety chained) := {
  ca_initial : ReplicaEnv → chained;
  ca_dec : gset NodeID → (Identifier → option (Z * Identifier)) → gmap NodeID (list Vote) → Block → Prop;
  ca_respects : (Identifier → option (Z * Identifier)) → Vote → Vote → Prop;
  ca_vote : (Identifier → option (Z * Identifier)) → Vote → Prop;
  ca_timeouts : bool;
  ca_okqc : gset NodeID → (Identifier → option (Z * Identifier)) → gmap NodeID (list Vote) → Z → QC → Prop;
  ca_J : ReplicaEnv → gset NodeID → (Identifier → option (Z * Identifier)) → gmap NodeID (list Vote) → chained → Prop;
  ca_inv : ∀ E, chained_inv (ca_initial E);
  ca_keeps : ∀ E cf fuel e s s', @honest E → typed_event e → chained_inv s →
    sf_handle (SF := P E) cf fuel e s = Ok (s', ()) → chained_inv s' ∧ cast_votes s `prefix_of` cast_votes s';
  ca_start : ∀ E nodes U W, @re_N E = Z.of_nat (base.size nodes) → ca_J E nodes U W (ca_initial E);
  ca_sound : ∀ E nodes U W s, ca_J E nodes U W s → @sound E nodes U W (ca_dec nodes U) (ca_okqc nodes U) s;
  ca_sorted : ∀ E nodes U W s, ca_J E nodes U W s → increasing (cast_votes s) →
    StronglySorted (ca_respects U) (cast_votes s);
  ca_votes : ∀ E nodes U W s, ca_J E nodes U W s → Forall (ca_vote U) (cast_votes s);
  ca_more : ∀ E nodes U W W' s, more (@known_votes E W s) (@known_votes E W' s) →
    ca_J E nodes U W s → ca_J E nodes U W' s;
  ca_handle : ∀ E nodes byz U W cf fuel e s s', tree U → cluster nodes byz → @re_ID E ∈ nodes → @honest E →
    @re_N E = Z.of_nat (base.size nodes) →
    (∀ x l, W !! x = Some l → x ≠ @re_ID E → increasing l ∧ Forall (named U) l) →
    (∀ x, x ∈ nodes → x ∉ byz → x = @re_ID E ∨ is_Some (W !! x)) →
    chained_inv s → ca_J E nodes U W s → typed_event e → @fair_event E nodes U W ca_timeouts (P E) s e →
    sf_handle (SF := P E) cf fuel e s = Ok (s', ()) → ca_J E nodes U W s'
}.

(** Every node knows its name and the size of the cluster. *)
Record deployed (env : NodeID → ReplicaEnv) (nodes byz : gset NodeID) : Prop := {
  de_id : ∀ id, @re_ID (env id) = id;
  de_N : ∀ id, @re_N (env id) = Z.of_nat (base.size nodes);
  de_honest : ∀ id, id ∈ nodes → id ∉ byz → @honest (env id)
}.

Definition one_vote_per_view (sys : gmap NodeID chained) : Prop :=
  ∀ id s, sys !! id = Some s → increasing (cast_votes s).

(** The hypothesis on the votes, computed. *)
Lemma one_vote_dec (sys : gmap NodeID chained) :
  bool_decide (map_Forall (λ _ s, increasing (cast_votes s)) sys) = true → one_vote_per_view sys.
Proof. intros H%bool_decide_eq_true. exact H. Qed.

Definition committed_by (sys : gmap NodeID chained) (id : NodeID) : list Block :=
  match sys !! id with Some s => committedBlocks s | None => [] end.

(** *** What can arrive *)
Section possible.
(** The environment of a node: they differ in the identity. *)
Context (env : NodeID → ReplicaEnv).

(** The states of the honest replicas; every other node is Byzantine. *)
Abbreviation system := (gmap NodeID chained).

(** A signature for a certificate: of a Byzantine node, or of a vote for the block
    that its voter has cast. *)
Definition signed_by (sys : system) (qc : QC) (entry : NodeID * Signature) : bool :=
  match sys !! entry.1 with
  | None => true
  | Some s =>
      existsb (λ v, bool_decide (vote_BlockID v = qc_BlockID qc ∧ vote_View v = qc_View qc
                                 ∧ vote_Signature v = entry.2)) (cast_votes s)
  end.

(** A certificate that can exist: the initial one, or more than two thirds of
    distinct signers with a signature each. *)
Definition justified (n : Z) (sys : system) (qc : QC) : bool :=
  bool_decide (qc = qc_of_view 0)
  || bool_decide (NoDup (qc_Signers qc) ∧ length (qc_AggSig qc) = length (qc_Signers qc)
                  ∧ threshold n < Z.of_nat (length (qc_Signers qc)))
     && forallb (signed_by sys qc) (zip (qc_Signers qc) (qc_AggSig qc)).

(** The messages that can reach a replica. *)
Definition possible (id : NodeID) (sys : system) (e : event) : bool :=
  match e with
  | RecvBlock b (Some qc) =>
      justified (@re_N (env id)) sys qc
      && match @PubVerify _ (@env_keys (@re_crypto (env id))) (b_Sig b) (IDToByte (b_ID b)) (b_Proposer b) with
         | Ok ok => ok | Fault _ => false end
  | RecvVote v =>
      match sys !! vote_Voter v with None => true | Some s => bool_decide (v ∈ cast_votes s) end
  | RecvTmo _ _ (Some qc) => justified (@re_N (env id)) sys qc
  | Propose view _ _ | ProposeP _ _ view _ =>
      match sys !! id with Some s => bool_decide (view ≤ curView_of s) | None => false end
  | LocalTmo | KickOff => true
  | _ => false
  end.
End possible.

Section careful.
Context (P : ∀ E : ReplicaEnv, Safety chained) (env : NodeID → ReplicaEnv).
Context (nodes byz : gset NodeID) (U : Identifier → option (Z * Identifier)).

(** *** What a careful receiver would check *)

(** A block or a vote of the view of its identifier. *)
Definition of_view (id : Identifier) (view : Z) : bool :=
  match U id with Some (v, _) => bool_decide (v = view) | None => false end.

Definition checked_block (b : Block) : bool := bool_decide (U (b_ID b) = Some (b_View b, b_PrevID b)).

(** The initial certificate, or one of nodes of the cluster that verifies, of the
    view of the block. *)
Definition checked_qc (id : NodeID) (qc : QC) : bool :=
  bool_decide (qc = qc_of_view 0)
  || of_view (qc_BlockID qc) (qc_View qc) && bool_decide (Forall (λ x, x ∈ nodes) (qc_Signers qc))
     && match @VerifyQuorumSignature _ (@env_keys (@re_crypto (env id))) (qc_AggSig qc) (qc_BlockID qc) (qc_Signers qc) with
        | Ok ok => ok | Fault _ => false end.

Definition checked (timeouts : bool) (id : NodeID) (s : chained) (e : event) : bool :=
  match e with
  | RecvBlock b (Some qc) =>
      checked_block b && checked_qc id qc && bool_decide (qc_BlockID qc = b_PrevID b)
      && bool_decide (b_Proposer b ≠ id)
  | RecvVote v => bool_decide (vote_Voter v ∈ nodes) && of_view (vote_BlockID v) (vote_View v)
  | RecvTmo view _ (Some qc) => timeouts && checked_qc id qc && bool_decide (view < max_int64)
  | LocalTmo => timeouts && bool_decide (curView_of s < max_int64 - 2)
  | Propose view payload _ =>
      match @sf_MakeProposal _ (P (env id)) view payload s with Ok (_, b) => checked_block b | Fault _ => false end
  | ProposeP tries priori view _ =>
      match @sf_MakePProposal _ (P (env id)) tries priori view s with Ok (_, b) => checked_block b | Fault _ => false end
  | KickOff => true
  | _ => false
  end.

(** A possible event that passes the checks. *)
Inductive careful_step (timeouts : bool) : gmap NodeID chained → gmap NodeID chained → Prop :=
  | careful_event id cf fuel e s s' sys :
      sys !! id = Some s → typed_event e → possible env id sys e = true → checked timeouts id s e = true →
      sf_handle (SF := P (env id)) cf fuel e s = Ok (s', ()) → careful_step timeouts sys (<[id := s']> sys).

Definition careful_run (timeouts : bool) : gmap NodeID chained → gmap NodeID chained → Prop :=
  rtc (careful_step timeouts).

(** The same for a list of deliveries. *)
Definition careful_do (timeouts : bool) (sys : gmap NodeID chained) (d : NodeID * event) : option (gmap NodeID chained) :=
  s ← sys !! d.1;
  if bool_decide (typed_event d.2) && possible env d.1 sys d.2 && checked timeouts d.1 s d.2 then
    match sf_handle (SF := P (env d.1)) 10 10 d.2 s with Ok (s', _) => Some (<[d.1 := s']> sys) | Fault _ => None end
  else None.

Fixpoint careful_exec timeouts (ds : list (NodeID * event)) (sys : gmap NodeID chained) : option (gmap NodeID chained) :=
  match ds with [] => Some sys | d :: ds => sys ← careful_do timeouts sys d; careful_exec timeouts ds sys end.

Lemma careful_exec_run timeouts ds sys sys' :
  careful_exec timeouts ds sys = Some sys' → careful_run timeouts sys sys'.
Proof.
  revert sys. induction ds as [|d ds IH]; intros sys; simpl; [intros [= <-]; apply rtc_refl|].
  destruct (careful_do timeouts sys d) as [sys1|] eqn:Hd; simpl; [|done]. intros Hds.
  eapply rtc_l; [|by apply IH]. unfold careful_do in Hd.
  destruct (sys !! d.1) as [s|] eqn:Hs; [|done]. simpl in Hd.
  destruct (bool_decide _ && _ && _) eqn:Hp; [|done]. rewrite !andb_true_iff, bool_decide_eq_true in Hp.
  destruct Hp as [[? ?] ?].
  destruct (sf_handle 10 10 d.2 s) as [[s' []]|] eqn:Hh; [|done]. injection Hd as <-.
  by eapply careful_event.
Qed.

Context {CP : Careful P}.

Definition start (ids : list NodeID) : gmap NodeID chained :=
  list_to_map ((λ id, (id, ca_initial (env id))) <$> ids).

(** *** The invariant of the cluster *)
Abbreviation voting_of sys := (cast_votes <$> sys : gmap NodeID (list Vote)).

Record system_inv (sys : gmap NodeID chained) : Prop := {
  sy_dom : dom sys = nodes ∖ byz;
  sy_inv : ∀ id s, sys !! id = Some s → chained_inv s;
  sy_J : one_vote_per_view sys → ∀ id s, sys !! id = Some s → ca_J (env id) nodes U (voting_of sys) s
}.

Context (D : deployed env nodes byz) (T : tree U) (C : cluster nodes byz).

Lemma own_votes (sys : gmap NodeID chained) id s :
  sys !! id = Some s → @known_votes (env id) (voting_of sys) s = voting_of sys.
Proof.
  intros Hs. unfold known_votes. rewrite (de_id _ _ _ D). apply insert_id. by rewrite lookup_fmap, Hs.
Qed.

Lemma of_view_true id v : of_view id v = true ↔ ∃ p, U id = Some (v, p).
Proof.
  unfold of_view. destruct (U id) as [[w p]|]; [|naive_solver]. rewrite bool_decide_eq_true. naive_solver.
Qed.

(** A certificate that can exist and passes the checks is good. *)
Lemma checked_good (sys : gmap NodeID chained) id qc :
  justified (@re_N (env id)) sys qc = true → checked_qc id qc = true →
  good_qc nodes U (voting_of sys) qc ∧ @certified (env id) qc.
Proof.
  unfold justified, checked_qc. case_bool_decide as Hinit; simpl; [intros _ _; subst qc; split; [by left|by right]|].
  rewrite !andb_true_iff, bool_decide_eq_true, forallb_forall. intros [(Hnd & Hlen & Hth) Hsig].
  intros [[Hview Hnodes] Hver]. split.
  - right. split; [|by apply of_view_true]. exists (list_to_set (qc_Signers qc)). rewrite (de_N _ _ _ D) in Hth.
    rewrite bool_decide_eq_true, Forall_forall in Hnodes. split_and!.
    + intros x Hx%elem_of_list_to_set. by apply Hnodes.
    + by rewrite size_list_to_set.
    + intros x l Hx%elem_of_list_to_set. rewrite lookup_fmap. intros (s & Hs & ->)%fmap_Some.
      apply list_elem_of_lookup in Hx as [i Hi].
      destruct (lookup_lt_is_Some_2 (qc_AggSig qc) i) as [sg Hsg]; [rewrite Hlen; by eapply lookup_lt_Some|].
      specialize (Hsig (x, sg)). unfold signed_by in Hsig. simpl in Hsig. rewrite Hs in Hsig.
      apply existsb_exists in Hsig as (v & Hv & Hb).
      * exists v. split; [by apply list_elem_of_In|]. apply bool_decide_eq_true in Hb. tauto.
      * apply list_elem_of_In, list_elem_of_lookup. exists i. by rewrite lookup_zip_with, Hi; simpl; rewrite Hsg.
  - right. destruct (VerifyQuorumSignature _ _ _ _) as [[]|]; done.
Qed.

Lemma checked_fair timeouts (sys : gmap NodeID chained) id s e :
  sys !! id = Some s → possible env id sys e = true → checked timeouts id s e = true →
  @fair_event (env id) nodes U (voting_of sys) timeouts (P (env id)) s e.
Proof.
  intros Hs Hp Hc. unfold fair_event. rewrite (own_votes sys id s Hs), (de_id _ _ _ D).
  destruct e as [b [qc|]|v|? ? [?|]| |view payload now|n pr view now| |]; try done; simpl in Hp, Hc.
  - rewrite !andb_true_iff, !bool_decide_eq_true in Hc. destruct Hc as [[[Hb Hq] Hid] Hprop].
    apply andb_true_iff in Hp as [Hjust _]. destruct (checked_good sys id qc Hjust Hq).
    split_and!; [by apply bool_decide_eq_true in Hb|done..].
  - apply andb_true_iff in Hc as [Hn Hv]. split_and!; [by apply bool_decide_eq_true in Hn|by apply of_view_true|].
    intros l. rewrite lookup_fmap. intros (s' & Hs' & ->)%fmap_Some. rewrite Hs' in Hp. by apply bool_decide_eq_true in Hp.
  - rewrite !andb_true_iff, bool_decide_eq_true in Hc. destruct Hc as [[-> Hq] Hlt]. by destruct (checked_good sys id _ Hp Hq).
  - by rewrite andb_true_iff, bool_decide_eq_true in Hc.
  - rewrite Hs in Hp. apply bool_decide_eq_true in Hp. split; [done|]. intros s' b Hb. rewrite Hb in Hc.
    by apply bool_decide_eq_true in Hc.
  - rewrite Hs in Hp. apply bool_decide_eq_true in Hp. split; [done|]. intros s' b Hb. rewrite Hb in Hc.
    by apply bool_decide_eq_true in Hc.
Qed.

(** The votes after a step. *)
Lemma step_votes (sys : gmap NodeID chained) id s' :
  @known_votes (env id) (voting_of sys) s' = voting_of (<[id := s']> sys).
Proof. unfold known_votes. by rewrite (de_id _ _ _ D), fmap_insert. Qed.

Lemma step_more (sys : gmap NodeID chained) id s s' :
  sys !! id = Some s → cast_votes s `prefix_of` cast_votes s' →
  more (voting_of sys) (voting_of (<[id := s']> sys)).
Proof.
  intros Hs Hp x l'. rewrite !lookup_fmap. destruct (decide (x = id)) as [->|Hne].
  - rewrite lookup_insert_eq, Hs. intros [= <-]. eauto.
  - rewrite lookup_insert_ne by done. intros Hl. by exists l'.
Qed.

(** The conditions under which the laws of the protocol apply. *)
Lemma others_named (sys : gmap NodeID chained) x l :
  system_inv sys → one_vote_per_view sys → voting_of sys !! x = Some l →
  increasing l ∧ Forall (good_vote nodes U (voting_of sys)) l ∧ StronglySorted (ca_respects U) l.
Proof.
  intros I Hone. rewrite lookup_fmap. intros (s & Hs & ->)%fmap_Some. specialize (Hone x s Hs) as Hinc.
  pose proof (sy_J _ I Hone x s Hs) as HJ. pose proof (i_cast _ _ _ _ _ _ (ca_sound _ _ _ _ _ HJ)) as Hc.
  rewrite (own_votes sys x s Hs) in Hc. split_and!; [done..|]. by eapply ca_sorted.
Qed.

Lemma honest_present (sys : gmap NodeID chained) x :
  system_inv sys → x ∈ nodes → x ∉ byz → is_Some (voting_of sys !! x).
Proof.
  intros I Hx Hb. rewrite lookup_fmap. assert (x ∈ dom sys) as [s ->]%elem_of_dom; [|by eexists].
  rewrite (sy_dom _ I). by apply elem_of_difference.
Qed.

Lemma system_inv_step (sys sys' : gmap NodeID chained) :
  careful_step ca_timeouts sys sys' → system_inv sys → system_inv sys'.
Proof.
  intros [id cf fuel e s s' sys0 Hs He Hp Hc H'] I. clear sys sys'. rename sys0 into sys.
  assert (id ∈ nodes ∖ byz) as [Hn Hb]%elem_of_difference
    by (rewrite <- (sy_dom _ I); by apply elem_of_dom_2 in Hs).
  pose proof (de_honest _ _ _ D id Hn Hb) as Hh.
  destruct (ca_keeps (env id) cf fuel e s s' Hh He (sy_inv _ I id s Hs) H') as [CI' Hpre].
  pose proof (step_more sys id s s' Hs Hpre) as Hmore. split.
  - rewrite dom_insert_L, <- (sy_dom _ I). apply elem_of_dom_2 in Hs. set_solver.
  - intros x t. rewrite lookup_insert_Some. intros [[_ <-]|[_ Hx]]; [done|by eapply (sy_inv _ I)].
  - intros Hone'. assert (one_vote_per_view sys) as Hone.
    { intros x t Hx. destruct (decide (x = id)) as [->|Hne].
      - rewrite Hs in Hx. injection Hx as <-. destruct Hpre as [k Hk]. apply (increasing_app _ k). rewrite <- Hk.
        apply (Hone' id s'). apply lookup_insert_eq.
      - apply (Hone' x t). by rewrite lookup_insert_ne. }
    intros x t Hx. pose proof (own_votes _ x t Hx) as Eown. destruct (decide (x = id)) as [->|Hne].
    + rewrite lookup_insert_eq in Hx. injection Hx as <-.
      apply (ca_more _ _ _ (voting_of sys)); [rewrite Eown, (step_votes sys id s'); by intros ? l ?; exists l|].
      eapply (ca_handle (env id) nodes byz U (voting_of sys) cf fuel e s s' T C); [|exact Hh|exact (de_N _ _ _ D id)|..|exact H'].
      * by rewrite (de_id _ _ _ D).
      * intros y l Hy _. destruct (others_named sys y l I Hone Hy) as (? & Hgood & _). split; [done|].
        eapply Forall_impl; [exact Hgood|]. intros ?. by eapply good_named.
      * intros y Hy Hyb. right. by apply honest_present.
      * by eapply (sy_inv _ I).
      * by eapply (sy_J _ I).
      * done.
      * by eapply checked_fair.
    + rewrite lookup_insert_ne in Hx by done.
      apply (ca_more _ _ _ (voting_of sys)); [|by eapply (sy_J _ I)]. by rewrite Eown, (own_votes sys x t Hx).
Qed.

Lemma system_inv_start ids : list_to_set ids = nodes ∖ byz → system_inv (start ids).
Proof.
  intros Hids. unfold start.
  assert (∀ id s, (list_to_map ((λ id, (id, ca_initial (env id))) <$> ids) : gmap NodeID chained) !! id = Some s →
    s = ca_initial (env id)) as Hinit.
  { intros id s Hs%elem_of_list_to_map_2. apply list_elem_of_fmap in Hs as (y & [= -> ->] & _). done. }
  split.
  - rewrite dom_list_to_map_L, <- list_fmap_compose, <- Hids. f_equal. apply list_fmap_id.
  - intros id s ->%Hinit. apply ca_inv.
  - intros _ id s ->%Hinit. apply ca_start, (de_N _ _ _ D).
Qed.

Lemma system_inv_run ids sys :
  list_to_set ids = nodes ∖ byz → careful_run ca_timeouts (start ids) sys → system_inv sys.
Proof.
  intros Hids Hrun. remember (start ids) as sys0 eqn:E.
  assert (system_inv sys0) as I by (subst; by apply system_inv_start). clear E.
  induction Hrun as [|sys1 sys2 sys3 Hstep _ IH]; [done|]. by apply IH, (system_inv_step sys1).
Qed.

(** The votes of a reachable cluster are disciplined. *)
Lemma system_disciplined (sys : gmap NodeID chained) :
  system_inv sys → one_vote_per_view sys → disciplined nodes byz U (ca_respects U) (voting_of sys).
Proof.
  intros I Hone. split.
  - intros x. by apply honest_present.
  - intros x l Hl. by apply (others_named sys x l).
  - intros x l Hl. by apply (others_named sys x l).
  - intros x l Hl. by apply (others_named sys x l).
Qed.

Lemma system_votes (sys : gmap NodeID chained) x l :
  system_inv sys → one_vote_per_view sys → voting_of sys !! x = Some l → Forall (ca_vote U) l.
Proof.
  intros I Hone. rewrite lookup_fmap. intros (s & Hs & ->)%fmap_Some. by eapply ca_votes, (sy_J _ I Hone x s).
Qed.

(** What its replicas commit is decided by them. *)
Lemma system_decided (sys : gmap NodeID chained) id b :
  system_inv sys → one_vote_per_view sys → b ∈ committed_by sys id → ca_dec nodes U (voting_of sys) b.
Proof.
  intros I Hone. unfold committed_by. destruct (sys !! id) as [s|] eqn:Hs; [|by intros ?%elem_of_nil]. intros Hb.
  pose proof (i_committed _ _ _ _ _ _ (ca_sound _ _ _ _ _ (sy_J _ I Hone id s Hs))) as Hall.
  rewrite (own_votes sys id s Hs), Forall_forall in Hall. by apply Hall.
Qed.
End careful.
