(* ===== verification/System.v ===== *)
(** * Several HotStuff replicas

    The honest replicas of a cluster, each with its protocol state, and a network
    that may deliver any message that can exist: blocks with the signature of
    their proposer and certificates whose honest signers really voted, votes that
    were cast, timeouts.  A replica proposes for views it has entered.  The rest is
    up to the Byzantine nodes.

    The theorem of this file is negative: with one Byzantine node of four, two
    honest replicas commit different blocks of the same view.  Behind it is the
    last voted view, which is compared with and never set (hotstuff.go, line 316),
    so an honest replica votes for both blocks of an equivocating leader. *)
From S2P Require Import Prelude Identity Sha1 Election Db Crypto Types Quorum Forest BlockChain Pacemaker Chained Safety HotStuff HotStuffProps Careful.

Local Open Scope Z_scope.

Section system.
(** The environment of a node: they differ in the identity. *)
Context (env : NodeID → ReplicaEnv).

(** The states of the honest replicas; every other node is Byzantine. *)
Abbreviation system := (gmap NodeID chained).

Inductive sys_step : system → system → Prop :=
  | sys_event id cf fuel e s s' sys :
      sys !! id = Some s → typed_event e → possible env id sys e = true →
      @handle (env id) cf fuel e s = Ok (s', ()) → sys_step sys (<[id := s']> sys).

Definition sys_run : system → system → Prop := rtc sys_step.

Definition sys_initial (ids : list NodeID) : system :=
  list_to_map ((λ id, (id, @initial (env id))) <$> ids).
End system.

(** ** The run *)

(** Four nodes, node 2 is the leader of every view and Byzantine. *)
Definition node_env (id : NodeID) : ReplicaEnv :=
  {| re_crypto := sample_crypto; re_range := canonical_range;
     re_election := Static.static_election (Static.NewStatic "2");
     re_ID := id; re_IsByz := false; re_Strategy := "silence"; re_N := 4 |}.

Definition honest_ids : list NodeID := ["1"; "3"; "4"].

(** Two chains: the block of view [v] has the identifier [v] or [100 + v], and the
    certificate of the one before. *)
Definition fork_id (left : bool) (v : Z) : Identifier := if left then Z.to_N v else Z.to_N (100 + v).
Definition fork_qc (left : bool) (v : Z) : QC :=
  if decide (v = 0) then qc_of_view 0
  else MkQC "2" v (fork_id left v) ["1"; "2"; "3"] (replicate 3 (sample_sig (fork_id left v))) [].
Definition fork_block (left : bool) (v : Z) : event :=
  RecvBlock (MkBlock v None "2" 0 [] (if decide (v = 1) then 0%N else fork_id left (v - 1))
               (sample_sig (fork_id left v)) (fork_id left v) None) (Some (fork_qc left (v - 1))).

(** Both honest replicas get both blocks of the views 1 to 3, in different orders,
    and one block of view 4 each. *)
Definition fork_deliveries : list (NodeID * event) :=
  concat ((λ v, [("1", fork_block true v); ("3", fork_block false v);
                 ("1", fork_block false v); ("3", fork_block true v)]) <$> [1; 2; 3])
  ++ [("1", fork_block true 4); ("3", fork_block false 4)].

Definition sys_do (sys : gmap NodeID chained) (d : NodeID * event) : option (gmap NodeID chained) :=
  s ← sys !! d.1;
  if possible node_env d.1 sys d.2 && bool_decide (typed_event d.2) then
    match @handle (node_env d.1) 10 10 d.2 s with Ok (s', _) => Some (<[d.1 := s']> sys) | Fault _ => None end
  else None.

Fixpoint sys_exec (ds : list (NodeID * event)) (sys : gmap NodeID chained) : option (gmap NodeID chained) :=
  match ds with [] => Some sys | d :: ds => sys ← sys_do sys d; sys_exec ds sys end.

Lemma sys_exec_run ds sys sys' : sys_exec ds sys = Some sys' → sys_run node_env sys sys'.
Proof.
  revert sys. induction ds as [|d ds IH]; intros sys; simpl; [intros [= <-]; apply rtc_refl|].
  destruct (sys_do sys d) as [sys1|] eqn:Hd; simpl; [|done]. intros Hds.
  eapply rtc_l; [|by apply IH]. unfold sys_do in Hd.
  destruct (sys !! d.1) as [s|] eqn:Hs; [|done]. simpl in Hd.
  destruct (possible node_env d.1 sys d.2) eqn:Hp; [|done]. simpl in Hd. case_bool_decide; [|done].
  destruct (@handle (node_env d.1) 10 10 d.2 s) as [[s' []]|] eqn:Hh; [|done]. injection Hd as <-.
  by eapply sys_event.
Qed.

Definition forked_system : gmap NodeID chained :=
  default ∅ (sys_exec fork_deliveries (sys_initial node_env honest_ids)).

(** [C12] HotStuff as implemented does not agree with one Byzantine node of four:
    there is a run of three honest replicas, in which every certificate is made of
    votes that were really sent and every block is signed by the leader, and at the
    end two of them have committed different blocks of view 1. *)
Theorem hotstuff_disagreement :
  ∃ sys b b', sys_run node_env (sys_initial node_env honest_ids) sys
    ∧ committed_by sys "1" = [b] ∧ committed_by sys "3" = [b']
    ∧ b_View b = 1 ∧ b_View b' = 1 ∧ b_ID b ≠ b_ID b'.
Proof.
  assert (sys_exec fork_deliveries (sys_initial node_env honest_ids) = Some forked_system) as Hrun
    by (vm_compute; reflexivity).
  exists forked_system. eexists _, _. split; [by apply sys_exec_run in Hrun|]. clear Hrun.
  split; [vm_compute; reflexivity|]. split; [vm_compute; reflexivity|].
  split; [reflexivity|]. split; [reflexivity|]. discriminate.
Qed.
