(* ===== verification/Agreement.v ===== *)
(** * Agreement of HotStuff replicas

    File [System] shows that the replicas of the code need not agree.  This file
    says when they do.  It considers the networks of file [Careful], with the checks
    that the code leaves out: a block is named by its identifier, extends the block
    that its certificate certifies, and is of a later view; a certificate has the view
    of its block, is signed by distinct nodes of the cluster and verifies.  Two
    theorems:

    - [hotstuff_agreement]: if moreover every honest replica votes in increasing
      views (what the last voted view was meant for) and views change by
      certificates only, any two blocks of view 3 or later that honest replicas
      commit are on one chain (the voting rule and the preferred view skip views 1
      and 2);
    - [hotstuff_timeout_disagreement]: with timeouts this fails, although every
      replica votes once per view: [processCertificate] ignores a certificate of an
      earlier view, so a replica that timed out votes for a block without taking its
      lock.

    The proof of the first follows the usual one: certified blocks of one view are
    equal by quorum intersection, and every certified block of a view after a
    three-chain extends its first block, by induction on the view.  The invariant
    of a replica says what it has locked when it votes. *)
From S2P Require Import Prelude Identity Sha1 Election Db Crypto Types Quorum Forest BlockChain Pacemaker Chained Safety HotStuff HotStuffProps Careful System.
From stdpp Require Import sorting.

Local Open Scope Z_scope.
Import HotStuff.

(** ** Three-chains *)
Section three.
Context (nodes byz : gset NodeID) (U : Identifier → option (Z * Identifier)).
Implicit Types V : gmap NodeID (list Vote).

(** The first block of a three-chain. *)
Definition three V (v : Z) (b0 : Identifier) : Prop :=
  ∃ p b1 b2, U b0 = Some (v, p) ∧ U b1 = Some (v + 1, b0) ∧ U b2 = Some (v + 2, b1)
    ∧ backed nodes V b0 ∧ backed nodes V b1 ∧ backed nodes V b2.

Definition decided V (b : Block) : Prop :=
  in_tree U b ∧ ∃ v b0, three V v b0 ∧ extends U b0 (b_ID b) ∧ b_View b ≤ v.

(** A vote locks its grandparent if the three are of consecutive views. *)
Definition locks (v : Vote) : Prop :=
  5 ≤ vote_View v ∧ ∃ p pp q, U (vote_BlockID v) = Some (vote_View v, p)
    ∧ U p = Some (vote_View v - 1, pp) ∧ U pp = Some (vote_View v - 2, q).

(** A later vote respects the lock of an earlier one. *)
Definition respects (v1 v2 : Vote) : Prop :=
  locks v1 → 2 < vote_View v2 →
  ∃ p pv pp, U (vote_BlockID v2) = Some (vote_View v2, p) ∧ U p = Some (pv, pp)
    ∧ vote_View v1 - 2 ≤ pv.

Lemma more_decided V V' b : more V V' → decided V b → decided V' b.
Proof.
  intros HV (? & v & b0 & (p & b1 & b2 & ? & ? & ? & ? & ? & ?) & ? & ?). split; [done|]. exists v, b0.
  split; [|done]. exists p, b1, b2. split_and!; [done..|by eapply more_backed|by eapply more_backed|by eapply more_backed].
Qed.

(** Every certified block from the view of a three-chain on extends it. *)
Lemma three_extends V v b0 id w p :
  tree U → cluster nodes byz → disciplined nodes byz U respects V → three V v b0 → 3 ≤ v →
  backed nodes V id → U id = Some (w, p) → v ≤ w → extends U id b0.
Proof.
  intros T C D Hthree Hv. revert id p. induction (Z.lt_wf 0 w) as [w _ IH]. intros id p Hid Hu Hw.
  destruct Hthree as (p0 & b1 & b2 & U0 & U1 & U2 & K0 & K1 & K2).
  pose proof (disciplined_unique nodes byz U respects V) as Huniq.
  destruct (decide (w = v)) as [->|]; [rewrite (Huniq id b0 v p p0); done|].
  destruct (decide (w = v + 1)) as [->|].
  { rewrite (Huniq id b1 (v + 1) p b0) by done. apply rtc_once. by eexists. }
  destruct (decide (w = v + 2)) as [->|].
  { rewrite (Huniq id b2 (v + 2) p b1) by done. eapply rtc_l; [by eexists|]. apply rtc_once. by eexists. }
  destruct (disciplined_voter nodes byz U respects V b2 id (v + 2) w b1 p C D K2 Hid U2 Hu ltac:(lia))
    as (w1 & w2 & E1 & F1 & E2 & F2 & Hres & Hq).
  destruct Hres as (p' & pv & pp & Hp & Hpp & Hle).
  { split; [lia|]. exists b1, b0, p0. rewrite E1, F1.
    split_and!; [done|by rewrite U1; do 2 f_equal; lia|by rewrite U0; do 2 f_equal; lia]. }
  { lia. }
  rewrite E2, Hu in Hp. injection Hp as _ <-. rewrite F1 in Hle.
  eapply rtc_l; [by exists w|]. pose proof (tr_down _ T _ _ _ _ _ Hu Hpp).
  eapply (IH pv); [split|..|exact Hpp|]; [|lia| |lia].
  - destruct (tr_view _ T _ _ _ Hpp). lia.
  - destruct Hq as [[-> _]|]; [|done]. by rewrite (tr_root _ T) in Hpp.
Qed.

(** Decided blocks agree. *)
Lemma decided_agree V a b :
  tree U → cluster nodes byz → disciplined nodes byz U respects V → decided V a → decided V b →
  3 ≤ b_View a → 3 ≤ b_View b →
  (extends U (b_ID a) (b_ID b) ∨ extends U (b_ID b) (b_ID a))
  ∧ (b_View a = b_View b → b_ID a = b_ID b).
Proof.
  intros T C D (Ta & va & a0 & Ha & Ea & La) (Tb & vb & b0 & Hb & Eb & Lb) Hva Hvb.
  pose proof Ha as (pa & a1 & a2 & Ua & _ & _ & Ka & _). pose proof Hb as (pb & b1 & b2 & Ub & _ & _ & Kb & _).
  eapply (heads_agree U a b va vb a0 b0); try done.
  - intros Hle. eapply (three_extends V va a0 b0 vb pb); try done. lia.
  - intros Hle. eapply (three_extends V vb b0 a0 va pa); try done. lia.
Qed.
End three.

(** ** The invariant of a replica *)
Section replica.
Context `{ReplicaEnv} (nodes byz : gset NodeID) (U : Identifier → option (Z * Identifier)).
Context (W : gmap NodeID (list Vote)).
Abbreviation V := (known_votes W).
(** A replica holds certificates of the view of their block. *)
Definition exact_qc (X : gmap NodeID (list Vote)) (view : Z) (q : QC) : Prop := good_qc nodes U X q.
Abbreviation dcd := (decided nodes U).

(** The block of the last view is stored, and its parent is locked; so are the
    grandparents of the votes; and the votes respect the locks. *)
Record locked (s : chained) : Prop := {
  i_lock : 4 ≤ curView_of s → ∃ id p b, U id = Some (curView_of s - 1, p) ∧ backed nodes (V s) id
    ∧ GetVertex (forrest (bc s)) id = Some b ∧ ∀ v q, U p = Some (v, q) → v ≤ preferredView s;
  i_locked : Forall (λ v, locks U v → vote_View v - 2 ≤ preferredView s) (cast_votes s);
  i_order : StronglySorted (respects U) (cast_votes s)
}.

Definition J (s : chained) : Prop :=
  sound nodes U W dcd exact_qc s ∧ labelled (level_ok U) (forrest (bc s))
  ∧ (increasing (cast_votes s) → locked s).

Lemma exact_more X X' v v' q : more X X' → v ≤ v' → exact_qc X v q → exact_qc X' v' q.
Proof. intros HX _. by apply more_good_qc. Qed.

Context (T : tree U) (C : cluster nodes byz) (Hself : re_ID ∈ nodes) (Hh : honest).
Context (Hothers : ∀ x l, W !! x = Some l → x ≠ re_ID → increasing l ∧ Forall (named U) l).
Context (Hall : ∀ x, x ∈ nodes → x ∉ byz → x = re_ID ∨ is_Some (W !! x)).

(** A step that leaves the votes and the lock alone and keeps the block of the last
    view. *)
Lemma locked_frame s s' :
  network s' = network s → curView_of s' = curView_of s → preferredView s ≤ preferredView s' →
  (∀ id b p, GetVertex (forrest (bc s)) id = Some b → U id = Some (curView_of s - 1, p) →
     GetVertex (forrest (bc s')) id = Some b) → locked s → locked s'.
Proof.
  intros E3 E4 Hp Hkeep [L1 L2 L3]. destruct (known_same W s s' E3) as [EV Ec]. split; rewrite ?Ec; [|..|done].
  - rewrite E4, EV. intros Hv. destruct (L1 Hv) as (id & p & b & ? & ? & ? & Hle). exists id, p, b.
    split_and!; [done..|by eapply Hkeep|]. intros v q Hq. specialize (Hle v q Hq). lia.
  - eapply Forall_impl; [exact L2|]. intros v Hl Hlocks. specialize (Hl Hlocks). lia.
Qed.

(** A step that does not touch the blocks, the votes and the current view. *)
Lemma J_frame s s' :
  store s' = store s → bc s' = bc s → network s' = network s → curView_of s' = curView_of s →
  committedBlocks s' = committedBlocks s → preferredView s ≤ preferredView s' →
  (∀ k b, bufferedBlocks s' !! k = Some b → bufferedBlocks s !! k = Some b) → J s → J s'.
Proof.
  intros E1 E2 E3 E4 E5 Hp Hb [I1 [Lv J2]]. destruct (known_same W s s' E3) as [_ Ec].
  split_and!; [by apply (sound_frame nodes U W dcd exact_qc exact_more s); [..|lia|done|done|done]|by rewrite E2|].
  rewrite Ec. intros Hinc. apply (locked_frame s); [done..| |by apply J2].
  by rewrite E2.
Qed.

(** *** Certificates *)

Lemma J_alloc s q :
  good_qc nodes U (V s) q → certified q → J s → J (set_store s (store s ++ [q])).
Proof.
  intros Hq Hc [I1 [Lv J2]]. split_and!; [by apply sound_alloc|done|]. intros Hinc. by apply (locked_frame s), J2.
Qed.

Lemma J_updateHighQC p s s' u : J s → updateHighQC p s = Ok (s', u) →
  J s' ∧ store s' = store s ∧ bc s' = bc s ∧ network s' = network s ∧ pm s' = pm s
  ∧ bufferedBlocks s' = bufferedBlocks s.
Proof.
  intros HJ H'. unfold updateHighQC, deref in H'.
  apply prog_bind_ok in H' as (s1 & q & H1 & H'). apply outcome_bind_ok in H1 as (? & _ & H1).
  injection H1 as <- <-. apply prog_bind_ok in H' as (s1 & hp & H1 & H').
  apply gets_ok in H1 as [-> ->]. apply prog_bind_ok in H' as (s1 & h & H1 & H').
  apply outcome_bind_ok in H1 as (? & _ & H1). injection H1 as <- <-.
  case_decide; [apply modify_ok in H' as ->|by apply ret_ok in H' as [-> _]].
  split_and!; try done. by apply (J_frame s).
Qed.

(** The preferred view is raised exactly if the block and its parent are stored. *)
Lemma J_updatePreferredView qc s s' r :
  chained_inv s → J s → updatePreferredView qc s = Ok (s', r) →
  J s' ∧ (∃ v, s' = set_preferredView s v)
  ∧ (2 < qc_View qc → r = Val () → ∃ b g, GetVertex (forrest (bc s)) (qc_BlockID qc) = Some b
      ∧ GetVertex (forrest (bc s)) (b_PrevID b) = Some g ∧ b_View g ≤ preferredView s')
  ∧ (∀ b g, GetVertex (forrest (bc s)) (qc_BlockID qc) = Some b →
      GetVertex (forrest (bc s)) (b_PrevID b) = Some g → r = Val ()).
Proof.
  intros CI HJ H'. unfold updatePreferredView in H'.
  assert (s = set_preferredView s (preferredView s)) as Es by (by destruct s).
  case_decide as Hv.
  { apply ret_ok in H' as [-> ->]. split_and!; [done|by eexists|lia|done]. }
  apply prog_bind_ok in H' as (s1 & r1 & H1 & H'). apply gets_ok in H1 as [-> ->].
  unfold GetBlockByID in H'. destruct (GetVertex (forrest (bc s)) (qc_BlockID qc)) as [b|] eqn:Hb.
  2:{ apply ret_ok in H' as [-> ->]. split_and!; [done|by eexists|done|by intros]. }
  apply prog_bind_ok in H' as (s1 & r2 & H2 & H'). apply ask_bc_ok in H2 as [-> H2].
  destruct r2 as [g|e].
  - apply (parent_found _ _ _ _ _ (ci_forest s CI) eq_refl) in H2 as (b' & Hb' & Hg & _).
    rewrite Hb in Hb'. injection Hb' as <-.
    apply prog_bind_ok in H' as (s1 & pv & H2 & H'). apply gets_ok in H2 as [-> ->].
    apply prog_bind_ok in H' as (s1 & u & H2 & H'). apply ret_ok in H' as [-> ->].
    case_decide as Hlt.
    + apply modify_ok in H2 as ->. split_and!; [|by eexists| |done].
      * apply (J_frame s); try done. simpl. lia.
      * intros _ _. exists b, g. split_and!; [done..|simpl; lia].
    + apply ret_ok in H2 as [-> _]. split_and!; [done|by eexists| |done].
      intros _ _. exists b, g. split_and!; [done..|lia].
  - apply ret_ok in H' as [-> ->]. split_and!; [done|by eexists|done|].
    intros b' g [= <-] Hg. unfold GetParentBlock in H2. rewrite Hb in H2.
    apply outcome_bind_ok in H2 as ([pid pl] & Hpar & H2). apply Parent_ok in Hpar as (? & _ & -> & _).
    by rewrite Hg in H2.
Qed.

(** Advancing to the view after a certified block whose parent is locked. *)
Lemma J_advance s view :
  0 ≤ view < max_int64 → J s →
  (3 ≤ view → ∃ id p b, U id = Some (view, p) ∧ backed nodes (V s) id
     ∧ GetVertex (forrest (bc s)) id = Some b ∧ ∀ v q, U p = Some (v, q) → v ≤ preferredView s) →
  J (set_pm s (advance view (pm s))).
Proof.
  intros Hv HJ Hlock. unfold advance. case_decide as Hd; [by apply (J_frame s)|].
  destruct HJ as [I1 [Lv J2]]. split_and!; [|done|].
  { apply (sound_frame nodes U W dcd exact_qc exact_more s); try done. unfold curView_of, GetCurView. simpl.
    rewrite int64_succ by (unfold_ints; lia). lia. }
  intros Hinc.
  destruct (J2 Hinc) as [L1 L2 L3]. split; [|done..]. unfold curView_of, GetCurView. simpl.
  rewrite int64_succ by (unfold_ints; lia). intros Hge. destruct Hlock as (id & p & b & Hid); [lia|].
  exists id, p, b. by replace (view + 1 - 1) with view by lia.
Qed.
(** *** Commits *)

Lemma J_commit cf qc s s' u :
  chained_inv s → J s → qc ∈ store s → 3 ≤ qc_View qc < curView_of s →
  commit cf qc s = Ok (s', u) →
  J s' ∧ network s' = network s ∧ pm s' = pm s ∧ store s' = store s
  ∧ ∀ id b, GetVertex (forrest (bc s')) id = Some b → GetVertex (forrest (bc s)) id = Some b.
Proof.
  intros CI HJ Hin Hv H'. pose proof HJ as [I1 [Lv J2]].
  assert (good_qc nodes U (V s) qc) as Hq.
  { pose proof (i_store _ _ _ _ _ _ I1) as Hst. rewrite Forall_forall in Hst. by apply Hst. }
  unfold commit in H'. apply prog_bind_ok in H' as (s1 & r & H1 & H').
  destruct (commitRule_ok qc s s1 r CI H1) as [-> Hrule].
  destruct r as [[b0|]|e]; [|apply ret_ok in H' as [-> _]; by split_and!..].
  destruct (Hrule b0 eq_refl) as (b2 & b1 & Hb2 & Hb1 & Hb0 & Hid & Hv1 & Hv2).
  do 2 (apply prog_bind_ok in H' as (s1 & v & H2 & H'); apply gets_ok in H2 as [-> ->]).
  apply prog_bind_ok in H' as (s1 & r & H2 & H'). apply zoom_ok in H2 as (c & H2 & ->).
  destruct (tree_block nodes U W dcd exact_qc s _ b2 CI I1 Hb2) as (T2 & E2 & _).
  destruct (tree_block nodes U W dcd exact_qc s _ b1 CI I1 Hb1) as (T1 & E1 & _).
  destruct (tree_block nodes U W dcd exact_qc s _ b0 CI I1 Hb0) as (T0 & E0 & _).
  destruct (tr_view _ T _ _ _ T0), (tr_view _ T _ _ _ T1), (tr_view _ T _ _ _ T2).
  rewrite int64_id in Hv1, Hv2 by (unfold_ints; lia).
  assert (three nodes U (V s) (b_View b0) (b_ID b0)) as Hth.
  { rewrite E0. exists (b_PrevID b0), (b_PrevID b2), (qc_BlockID qc). rewrite T2, T1, T0, Hv1.
    replace (b_View b0 + 2) with (b_View b2).
    - split_and!; try done.
      + eapply (parent_backed nodes U W dcd exact_qc T s b1); [done|done|apply (i_blocks _ _ _ _ _ _ I1 _ _ Hb1)|exact Hb0].
      + eapply (parent_backed nodes U W dcd exact_qc T s b2); [done|done|apply (i_blocks _ _ _ _ _ _ I1 _ _ Hb2)|exact Hb1].
      + destruct Hq as [[_ ?]|[? _]]; [lia|done].
    - destruct Hq as [[_ ?]|[_ [p Hq]]]; [lia|]. rewrite T2 in Hq. injection Hq as -> _. lia. }
  destruct (sound_commit nodes U W dcd exact_qc T exact_more cf b0 (curView_of s) s c r) as (Hsub & Hcont & Hkeep & Hs); [done|done|by rewrite E0| |done|].
  { intros x Hx Hext Hle. split; [done|]. by exists (b_View b0), (b_ID b0). }
  assert (∀ t, network t = network s → curView_of t = curView_of s → bc t = c → preferredView t = preferredView s →
    increasing (cast_votes t) → locked t) as Hl.
  { intros t F1 F2 F3 F4. destruct (known_same W s t F1) as [_ ->]. intros Hinc.
    apply (locked_frame s); [done|done|lia| |by apply J2]. intros id b p Hb Hu. rewrite F3. eapply Hkeep; [done..|lia]. }
  destruct r as [[committed forked]|e].
  - apply modify_ok in H' as ->. split_and!; try done. split_and!; [done| |by apply Hl].
    intros p k. simpl. rewrite Hcont. apply Lv.
  - apply ret_ok in H' as [-> _]. split_and!; try done. split_and!; [done| |by apply Hl].
    intros p k. simpl. rewrite Hcont. apply Lv.
Qed.

(** A certificate that is not of an earlier view takes the replica to the next view,
    if the certified block and its parent are stored. *)
Lemma J_processCertificate cf p s s' u :
  chained_inv s → J s → processCertificate cf p s = Ok (s', u) →
  J s' ∧ settled s s'
  ∧ ∀ q b g, qc_deref (store s) p = Ok q → curView_of s ≤ qc_View q →
      GetVertex (forrest (bc s)) (qc_BlockID q) = Some b →
      GetVertex (forrest (bc s)) (b_PrevID b) = Some g → curView_of s' = qc_View q + 1.
Proof.
  intros CI HJ H'. unfold processCertificate in H'. apply prog_bind_ok in H' as (s1 & qc & H1 & H').
  apply outcome_bind_ok in H1 as (q & Hq & H1). injection H1 as <- <-. rewrite Hq.
  pose proof (deref_in _ _ _ Hq) as Hin.
  destruct (sound_qc nodes U W dcd exact_qc s _ q (proj1 HJ) Hq) as [Hgood Hcert].
  destruct (good_qc_view nodes U T _ _ Hgood) as [Hv0 Hv1].
  assert (settled s s) as Hrefl by (by split).
  apply prog_bind_ok in H' as (s1 & v & H1 & H'). apply gets_ok in H1 as [-> ->].
  case_decide as Hold; [apply ret_ok in H' as [-> _]; split_and!; [done..|]; intros ? ? ? [= <-]; lia|].
  apply prog_bind_ok in H' as (s1 & ok & H1 & H').
  assert (s1 = s ∧ ok = true) as [-> ->].
  { destruct (decide (qc_Leader q = re_ID)) as [|Hne]; [by apply ret_ok in H1 as [-> ->]|].
    apply lift_ok in H1 as [-> H1]. split; [done|]. destruct Hcert as [|Hcert]; [done|].
    rewrite Hcert in H1. by injection H1. }
  simpl in H'. clear H1. apply prog_bind_ok in H' as (s1 & attack & H1 & H').
  assert (s1 = s ∧ attack = false) as [-> ->].
  { replace (re_IsByz && _) with false in H1; [by apply ret_ok in H1 as [-> ->]|].
    destruct Hh as [->|Hs]; [done|]. rewrite bool_decide_eq_false_2 by done. by rewrite andb_false_r. }
  clear H1. apply prog_bind_ok in H' as (s1 & r & H1 & H').
  destruct (J_updatePreferredView q s s1 r CI HJ H1) as (J1 & [pv ->] & Hlock & Hfound).
  destruct (keeps_updatePreferredView q s _ r CI H1) as (CI1 & _ & _).
  destruct r as [[]|e].
  2:{ apply modify_ok in H' as ->. split_and!; [by apply (J_frame (set_preferredView s pv))|by split|].
      intros q' b g [= <-] _ Hb Hg. by specialize (Hfound b g Hb Hg). }
  apply prog_bind_ok in H' as (s2 & [] & H2 & H').
  destruct (keeps_AdvanceView (qc_View q) ltac:(unfold_ints; lia) _ s2 () CI1 H2) as (CI2 & _ & _).
  apply zoom_ok in H2 as (pm' & Hpm & ->). apply modify_ok in Hpm as ->.
  change (pm (set_preferredView s pv)) with (pm s) in *.
  assert (J (set_pm (set_preferredView s pv) (advance (qc_View q) (pm s)))) as J2.
  { apply (J_advance (set_preferredView s pv)); [done|done|]. intros Hge. destruct (Hlock ltac:(lia) eq_refl) as (b & g & Hb & Hg & Hle).
    destruct (tree_block nodes U W dcd exact_qc s _ b CI (proj1 HJ) Hb) as (Tb & _ & _).
    destruct (tree_block nodes U W dcd exact_qc s _ g CI (proj1 HJ) Hg) as (Tg & _ & _).
    destruct Hgood as [[_ ?]|[Hback [p' Hu]]]; [lia|]. exists (qc_BlockID q), (b_PrevID b), b.
    rewrite Tb in Hu. injection Hu as Hview _. rewrite Tb, Hview. split_and!; [done..|].
    intros v q'. rewrite Tg. intros [= <- _]. done. }
  revert H'. set (s2 := set_pm _ _) in *. intros H'.
  assert (curView_of s2 = qc_View q + 1) as Hcur.
  { unfold s2, curView_of, GetCurView, advance. simpl. rewrite decide_False by (unfold curView_of, GetCurView in Hold; lia). simpl.
    apply int64_succ; unfold_ints; lia. }
  apply prog_bind_ok in H' as (s3 & [] & H3 & H').
  destruct (J_updateHighQC _ _ _ _ J2 H3) as (J3 & E1 & E2 & E3 & E4 & _).
  destruct (keeps_updateHighQC _ _ _ _ CI2 H3) as (CI3 & _ & _).
  assert (curView_of s3 = qc_View q + 1) as Hcur3 by (unfold curView_of; by rewrite E4).
  case_decide as Hlt.
  - apply ret_ok in H' as [-> _]. split_and!; [done| |by intros ? ? ? [= <-]].
    split; rewrite ?E1, ?E2, ?E3; try done. rewrite Hcur3. lia.
  - destruct (J_commit cf q s3 s' u CI3 J3) as (J4 & F1 & F2 & F3 & F4); [by rewrite E1|lia|done|].
    assert (curView_of s' = qc_View q + 1) as Hcur4 by (unfold curView_of; by rewrite F2).
    split_and!; [done| |by intros ? ? ? [= <-]].
    split; rewrite ?F1, ?F3, ?E1, ?E3; try done; [|rewrite Hcur4; lia].
    intros id b Hb. apply F4 in Hb. by rewrite E2 in Hb.
Qed.
(** *** Votes *)

Lemma J_ProcessVote cf v s s' u :
  chained_inv s → typed_vote v → J s → fair_vote nodes U (V s) v → ProcessVote cf v s = Ok (s', u) → J s'.
Proof.
  intros CI Htv HJ Hv H'. unfold ProcessVote in H'. apply prog_bind_ok in H' as (s1 & ok & H1 & H').
  assert (s1 = s) as ->.
  { destruct (decide (vote_Voter v = re_ID)); [by apply ret_ok in H1 as [-> _]|by apply lift_ok in H1 as [-> _]]. }
  clear H1. destruct ok; simpl in H'; [|by apply ret_ok in H' as [-> _]].
  apply prog_bind_ok in H' as (s1 & [built qc] & H1 & H').
  destruct (sound_AddVote nodes U W dcd exact_qc v s s1 built qc (proj1 HJ) Hv H1) as (I1 & [Q E1] & Hqc).
  assert (J s1) as J1.
  { split_and!; [done|subst s1; apply HJ|]. subst s1. intros Hinc. by apply (locked_frame s), HJ. }
  destruct (keeps_AddVote v s s1 _ CI H1) as (CI1 & _ & Hview).
  destruct built; simpl in H'; [|by apply ret_ok in H' as [-> _]].
  apply prog_bind_ok in H' as (s2 & q & H2 & H'). apply lift_ok in H2 as [-> H2]. apply of_option_ok in H2 as ->.
  specialize (Hqc q eq_refl eq_refl). assert (V s1 = V s) as EV by (by subst s1).
  rewrite <- EV in Hqc. apply prog_bind_ok in H' as (s2 & p & H2 & H').
  destruct (keeps_alloc (qc_with_Leader re_ID q)) with (s := s1) (s' := s2) (a := p) as (CI2 & _ & _);
    [unfold typed_qc; simpl; by rewrite (Hview q eq_refl)|done|done|].
  unfold alloc in H2. simpl in H2. injection H2 as <- <-.
  assert (J (set_store s1 (store s1 ++ [qc_with_Leader re_ID q]))) as J2 by (apply J_alloc; [done|by left|done]).
  apply prog_bind_ok in H' as (s2 & r & H2 & H'). apply gets_ok in H2 as [-> ->].
  destruct (GetBlockByID _ _) as [b|e].
  - by eapply J_processCertificate.
  - apply modify_ok in H' as ->. by eapply (J_frame (set_store s1 _)).
Qed.
(** *** Casting a vote *)

(** A vote for a stored block that obeys the voting rule, once its lock is taken. *)
Lemma J_emit b v w o s :
  chained_inv s → J s → good_block nodes U (V s) b → may_vote s b → cast_vote_of o = Some v →
  vote_View v = b_View b → vote_BlockID v = b_ID b →
  (increasing (cast_votes s) → locks U v → vote_View v - 2 ≤ preferredView s) →
  J (emit s w o).
Proof.
  intros CI [I1 [Lv J2]] Hb Hmay Ho Hview Hid Hlock. pose proof (cast_emit s w o v Ho) as Ec.
  assert (more (V s) (V (emit s w o))) as HV by (apply more_cast; rewrite Ec; by eexists).
  split; [by apply (sound_emit nodes U W dcd exact_qc T (more_decided nodes U) exact_more b v)|].
  split; [done|]. rewrite Ec. intros Hinc. pose proof (increasing_app _ _ Hinc) as Hinc1. destruct (J2 Hinc1) as [L1 L2 L3].
  split; rewrite ?Ec; simpl.
  - intros Hge. destruct (L1 Hge) as (id & p & c & ? & ? & ? & ?). exists id, p, c.
    split_and!; [done|by eapply more_backed|done..].
  - apply Forall_app. split; [done|]. constructor; [by apply Hlock|constructor].
  - apply sorted_snoc; [done|]. eapply Forall_impl; [exact L2|]. intros v1 Hv1 Hlocks Hgt.
    rewrite Hview in Hgt. destruct (Hmay Hgt) as (_ & st & par & Hst & Hpar & Hle).
    destruct (tree_block nodes U W dcd exact_qc s _ st CI I1 Hst) as (Tst & _ & _).
    destruct (tree_block nodes U W dcd exact_qc s _ par CI I1 Hpar) as (Tpar & _ & _). pose proof Hb as [Ht _].
    exists (b_PrevID st), (b_View par), (b_PrevID par). rewrite Hid, Hview. unfold in_tree in Ht.
    rewrite Tst in Ht. injection Ht as Ev _. split_and!; [by rewrite Tst, Ev|done|]. specialize (Hv1 Hlocks). lia.
Qed.

Lemma J_cast_vote cf b s s' u :
  chained_inv s → typed_block b → J s → good_block nodes U (V s) b → may_vote s b →
  IsLeader (b_Proposer b) (b_View b) = Ok true →
  (∀ v, vote_View v = b_View b → vote_BlockID v = b_ID b →
     increasing (cast_votes s) → locks U v → vote_View v - 2 ≤ preferredView s) →
  cast_vote cf b s = Ok (s', u) → J s'.
Proof.
  intros CI Htb HJ Hb Hmay Hlead Hlock H'. unfold cast_vote in H'.
  apply prog_bind_ok in H' as (s1 & v & H1 & H'). apply lift_ok in H1 as [-> H1].
  destruct (MakeVote_ok _ _ _ _ H1) as (Hview & Hvoter & Hid & _).
  apply prog_bind_ok in H' as (s1 & to & H2 & H'). apply lift_ok in H2 as [-> H2]. case_decide as Hto.
  - apply prog_bind_ok in H' as (s1 & [] & H3 & H'). apply modify_ok in H3 as ->. subst to.
    destruct (emit_keeps (Some b) (OwnVote v) s CI) as [CI1 _]; [split_and!; done|].
    assert (J (emit s (Some b) (OwnVote v))) as J1 by (eapply (J_emit b v); try done; by apply Hlock).
    eapply J_ProcessVote; [exact CI1|unfold typed_vote; by rewrite Hview|done|by eapply (own_vote_fair nodes U W Hself b)|exact H'].
  - apply modify_ok in H' as ->. eapply (J_emit b v); try done. by apply Hlock.
Qed.

(** The lock of a vote: a replica in the view of the block has it from the last
    certificate; one that is a view behind would have taken it from the certificate
    in the block. *)
Lemma lock_taken s s2 b v q :
  chained_inv s → J s → J s2 → settled s s2 → good_block nodes U (V s) b →
  qc_deref (store s) (b_QC b) = Ok q → qc_BlockID q = b_PrevID b →
  b_View b ≤ curView_of s + 1 → curView_of s2 ≤ b_View b →
  (curView_of s = b_View b ∨
   ∀ c g, curView_of s ≤ qc_View q → GetVertex (forrest (bc s)) (qc_BlockID q) = Some c →
     GetVertex (forrest (bc s)) (b_PrevID c) = Some g → curView_of s2 = qc_View q + 1) →
  (∃ c, GetVertex (forrest (bc s2)) (b_PrevID b) = Some c) →
  vote_View v = b_View b → vote_BlockID v = b_ID b →
  increasing (cast_votes s) → locks U v → vote_View v - 2 ≤ preferredView s2.
Proof.
  intros CI HJ HJ2 [N1 N2 N3 N4] Hb Hq Hqid Hlo Hhi Hcert [P HP] Hv Hid Hinc (H5 & p & pp & q' & U1 & U2 & U3).
  destruct (known_same W s s2 N1) as [EV Ec].
  rewrite Hid in U1. rewrite Hv in *. pose proof (N3 _ _ HP) as HPs. destruct HJ as [I1 [_ J1]], HJ2 as [I2 [_ J2]].
  specialize (J1 Hinc). rewrite Ec in J2. specialize (J2 Hinc).
  pose proof (parent_backed nodes U W dcd exact_qc T s b P CI I1 Hb HPs) as Kp. destruct Hb as [Tb _]. unfold in_tree in Tb.
  rewrite Tb in U1. injection U1 as <-.
  destruct (tree_block nodes U W dcd exact_qc s _ P CI I1 HPs) as (TP & EP & KP). rewrite TP in U2. injection U2 as HvP <-.
  assert (backed nodes (V s) (b_PrevID P)) as Kpp.
  { destruct KP as [E|]; [|done]. by rewrite E, (tr_root _ T) in U3. }
  assert (curView_of s2 = b_View b) as Hcur.
  { destruct Hcert as [E|Hcert]; [lia|]. destruct (decide (curView_of s = b_View b)); [lia|].
    destruct (i_lock _ J1) as (id & p' & G & T1 & K1 & HG & _); [lia|].
    assert (id = b_PrevID P) as ->.
    { eapply (unique_here nodes byz U W dcd exact_qc C Hothers Hall s); [done..|exact T1|]. rewrite U3. do 2 f_equal. lia. }
    assert (qc_View q = b_View b - 1) as Hqv.
    { destruct (sound_qc nodes U W dcd exact_qc s _ q I1 Hq) as [[[E _]|(_ & x & Hx)] _].
      - rewrite <- Hqid, E, (tr_root _ T) in TP. done.
      - rewrite Hqid, TP in Hx. injection Hx as <- _. lia. }
    rewrite (Hcert P G); [lia|lia|by rewrite Hqid|done]. }
  destruct (i_lock _ J2) as (id & p' & G & T1 & K1 & HG & Hle); [lia|]. rewrite EV in K1.
  assert (id = b_PrevID b) as ->.
  { eapply (unique_here nodes byz U W dcd exact_qc C Hothers Hall s); [done..|exact T1|]. rewrite TP. do 2 f_equal. lia. }
  rewrite TP in T1. injection T1 as _ <-. by eapply Hle.
Qed.
(** *** The handlers *)

Lemma J_buffer s k b :
  J s → good_block nodes U (V s) b → carries (store s) b → (b_Proposer b = re_ID → b_View b ≤ curView_of s) →
  J (set_bufferedBlocks s (<[k := b]> (bufferedBlocks s))).
Proof.
  intros [I1 [Lv J2]] Hb Hc Ho. split_and!; [by apply sound_buffer|done|]. intros Hinc. by apply (locked_frame s), J2.
Qed.

Lemma J_process_buffered_QC cf b s s' u :
  chained_inv s → J s → process_buffered_QC cf b s = Ok (s', u) → J s' ∧ settled s s' ∧ preferredView s ≤ preferredView s'.
Proof.
  intros CI HJ H'. pose proof H' as Hk.
  destruct (keeps_process_buffered_QC cf b s s' u CI Hk) as (_ & A & _). destruct (advances_mono _ _ A) as [_ _ Hp _ _ _ _].
  unfold process_buffered_QC in H'. apply prog_bind_ok in H' as (s1 & m & H1 & H'). apply gets_ok in H1 as [-> ->].
  destruct (bufferedQCs s !! b_ID b) as [q|]; [|apply ret_ok in H' as [-> _]; split_and!; [done|by split|lia]].
  apply prog_bind_ok in H' as (s1 & [] & H1 & H'). apply modify_ok in H' as ->.
  destruct (J_processCertificate cf q s s1 () CI HJ H1) as (J1 & [N1 N2 N3 N4] & _).
  split_and!; [by apply (J_frame s1)|by split|done].
Qed.

Definition handles_block (rec : Block → prog chained (result ())) : Prop :=
  ∀ b s s' r, chained_inv s → typed_block b → J s → good_block nodes U (V s) b → carries (store s) b →
    (b_Proposer b = re_ID → b_View b ≤ curView_of s) → rec b s = Ok (s', r) → J s'.

Lemma J_accept rec cf b q s s2 s' r :
  handles_block rec → (∀ c, typed_block c → keeps anything (rec c)) →
  chained_inv s → chained_inv s2 → typed_block b → J s → J s2 → settled s s2 →
  good_block nodes U (V s) b →
  qc_deref (store s) (b_QC b) = Ok q → qc_BlockID q = b_PrevID b →
  b_View b ≤ curView_of s + 1 → curView_of s2 ≤ b_View b →
  (curView_of s = b_View b ∨
   ∀ c g, curView_of s ≤ qc_View q → GetVertex (forrest (bc s)) (qc_BlockID q) = Some c →
     GetVertex (forrest (bc s)) (b_PrevID c) = Some g → curView_of s2 = qc_View q + 1) →
  IsLeader (b_Proposer b) (b_View b) = Ok true →
  accept_block rec cf b s2 = Ok (s', r) → J s'.
Proof.
  intros Hrec Hkeep CI CI2 Htb HJ HJ2 Hset Hb Hq Hqid Hlo Hhi Hcert Hlead H'. unfold accept_block in H'.
  destruct (known_same W s s2 (st_network _ _ Hset)) as [EV2 Ec2].
  apply prog_bind_ok in H' as (s3 & u3 & H3 & H').
  destruct (keeps_AddBlock b Htb s2 s3 u3 CI2 H3) as (CI3 & _ & _).
  destruct (sound_AddBlock nodes U W dcd exact_qc b s2 s3 u3) as (I3 & [bc3 E3] & G3 & O3); [done|apply HJ2|by rewrite EV2|done|].
  assert (network s3 = network s2 ∧ curView_of s3 = curView_of s2 ∧ preferredView s3 = preferredView s2) as (N3 & P3 & Q3)
    by (by subst s3).
  destruct (known_same W s2 s3 N3) as [EV3 Ec3].
  assert (J s3) as HJ3.
  { split_and!; [done| |rewrite Ec3; intros Hinc; apply (locked_frame s2); [done|done|lia|eauto|by apply HJ2]].
    eapply (levels_AddBlock nodes U T b q s2 s3 u3); [apply HJ2|apply Hb|by rewrite (st_store _ _ Hset)|done| |done].
    destruct (sound_qc nodes U W dcd exact_qc s _ q (proj1 HJ) Hq) as [[[E _]|(_ & p & Hu)] _]; [by left|right].
    exists p. by rewrite (view_level nodes U T _ _ _ Hu). }
  apply prog_bind_ok in H' as (s4 & u4 & H4 & H').
  destruct (keeps_process_buffered_QC cf b s3 s4 u4 CI3 H4) as (CI4 & _ & _).
  destruct (J_process_buffered_QC cf b s3 s4 u4 CI3 HJ3 H4) as (HJ4 & Hset4 & Hpref).
  destruct (known_same W s3 s4 (st_network _ _ Hset4)) as [EV4 Ec4].
  apply prog_bind_ok in H' as (s5 & shouldVote & H5 & H').
  destruct (votingRule_ok b s4 s5 shouldVote CI4 H5) as [-> Hmay].
  destruct shouldVote as [[]|e]; [|by apply ret_ok in H' as [-> _]..]. specialize (Hmay eq_refl).
  apply prog_bind_ok in H' as (s5 & [] & H6 & H').
  assert (chained_inv s5) as CI5 by (by eapply cast_vote_keeps).
  assert (J s5) as HJ5.
  { eapply (J_cast_vote cf b s4 s5); [done..|by rewrite EV4, EV3, EV2|done|done| |done].
    intros v Hv Hid Hinc Hlocks. rewrite Ec4, Ec3, Ec2 in Hinc. destruct (Hmay ltac:(destruct Hlocks; lia)) as (_ & st & par & Hst & Hpar & _).
    destruct (tree_block nodes U W dcd exact_qc s4 _ st CI4 (proj1 HJ4) Hst) as (Tst & _ & _).
    destruct (tree_block nodes U W dcd exact_qc s4 _ par CI4 (proj1 HJ4) Hpar) as (Tpar & _ & _).
    destruct Hb as [Tb Kb]. unfold in_tree in Tb. rewrite Tst in Tb. injection Tb as Ev Ep.
    assert (GetVertex (forrest (bc s2)) (b_PrevID b) = Some par) as Hpar2.
    { rewrite <- Ep. destruct (G3 _ _ (st_blocks _ _ Hset4 _ _ Hpar)) as [|E]; [done|].
      rewrite E, Tst in Tpar. injection Tpar as E1 E2. pose proof (tr_down _ T _ _ _ (b_View st) (b_PrevID st) Tst).
      rewrite E, Tst in *. specialize (H0 eq_refl). lia. }
    transitivity (preferredView s2); [|lia].
    eapply (lock_taken s s2 b v q); try done; [split; [unfold in_tree; by rewrite Tst, Ev, Ep|done]|by eexists]. }
  apply prog_bind_ok in H' as (s6 & u6 & H7 & H'). apply ret_ok in H' as [-> _].
  unfold process_buffered_block in H7. apply prog_bind_ok in H7 as (s7 & m & H8 & H7). apply gets_ok in H8 as [-> ->].
  destruct (bufferedBlocks s5 !! b_View b) as [c|] eqn:Hc; [|by apply ret_ok in H7 as [-> _]].
  apply prog_bind_ok in H7 as (s7 & r7 & H8 & H7). apply modify_ok in H7 as ->.
  destruct (i_buffered _ _ _ _ _ _ (proj1 HJ5) _ c Hc) as (Hgc & Hcc & Hoc). destruct (ci_buffer s5 CI5 _ c Hc) as [Htc _].
  assert (J s7) as HJ7 by (by eapply Hrec).
  apply (J_frame s7); try done. simpl. intros k x. rewrite lookup_delete_Some. by intros [_ ?].
Qed.

Lemma J_ProcessBlock_body rec cf :
  handles_block rec → (∀ c, typed_block c → keeps anything (rec c)) → handles_block (ProcessBlock_body rec cf).
Proof.
  intros Hrec Hkeep b s s' r CI Htb HJ Hb Hc Hown H'. unfold ProcessBlock_body in H'.
  apply prog_bind_ok in H' as (s1 & v & H1 & H'). apply gets_ok in H1 as [-> ->].
  apply prog_bind_ok in H' as (s1 & ok & H1 & H').
  assert (s1 = s) as ->.
  { destruct (decide (b_Proposer b = re_ID)); [by apply ret_ok in H1 as [-> _]|by apply lift_ok in H1 as [-> _]]. }
  clear H1. case_decide as Hahead.
  { apply prog_bind_ok in H' as (s1 & [] & H1 & H'). apply modify_ok in H1 as ->. apply ret_ok in H' as [-> _].
    by apply J_buffer. }
  destruct Hc as (q & Hq & Hqid). destruct (b_QC b) as [qc|] eqn:Hqc; [|by apply ret_ok in H' as [-> _]].
  apply prog_bind_ok in H' as (s1 & [] & H1 & H').
  destruct (J_updateHighQC _ _ _ _ HJ H1) as (J1 & S1 & B1 & N1 & P1 & _).
  destruct (keeps_updateHighQC _ _ _ _ CI H1) as (CI1 & _ & _).
  destruct (known_same W s s1 N1) as [EV1 _].
  assert (curView_of s1 = curView_of s) as Ecur by (unfold curView_of; by rewrite P1).
  assert (b_View b ≤ curView_of s + 1) as Hlo.
  { pose proof (ci_view s CI) as Hcv. destruct (tr_view _ T _ _ _ (proj1 Hb)).
    destruct (decide (curView_of s < max_int64)); [rewrite int64_succ in Hahead by done; lia|].
    unfold_ints. lia. }
  apply prog_bind_ok in H' as (s2 & u2 & H2 & H').
  assert (J s2 ∧ chained_inv s2 ∧ settled s1 s2 ∧
    (b_Proposer b = re_ID ∧ s2 = s1 ∨
     ∀ c g, curView_of s1 ≤ qc_View q → GetVertex (forrest (bc s1)) (qc_BlockID q) = Some c →
       GetVertex (forrest (bc s1)) (b_PrevID c) = Some g → curView_of s2 = qc_View q + 1)) as (J2 & CI2 & Hset & Hcert).
  { destruct (decide (b_Proposer b = re_ID)).
    - apply ret_ok in H2 as [-> _]. split_and!; [done..|by split|by left].
    - destruct (J_processCertificate cf _ s1 s2 u2 CI1 J1 H2) as (J2 & Hset & Hcert).
      destruct (keeps_processCertificate cf _ s1 s2 u2 CI1 H2) as (CI2 & _ & _).
      split_and!; [done..|]. right. intros c g. apply Hcert. by rewrite S1. }
  clear H2. apply prog_bind_ok in H' as (s3 & v & H2 & H'). apply gets_ok in H2 as [-> ->].
  case_decide as Hold; [by apply ret_ok in H' as [-> _]|].
  apply prog_bind_ok in H' as (s3 & lead & H2 & H'). apply lift_ok in H2 as [-> Hlead].
  destruct lead; simpl in H'; [|by apply ret_ok in H' as [-> _]].
  eapply (J_accept rec cf b q s1 s2); try done; [by rewrite EV1|by rewrite S1, Hqc|lia|lia|].
  destruct Hcert as [[Ho ->]|Hcert]; [left|by right]. specialize (Hown Ho). lia.
Qed.

Lemma J_ProcessBlock cf fuel : handles_block (ProcessBlock cf fuel).
Proof.
  induction fuel as [|fuel IH]; simpl; apply J_ProcessBlock_body; try done.
  intros c Hc. by apply keeps_ProcessBlock.
Qed.

(** *** Events *)

Lemma forkChoice_high s s' p : forkChoice s = Ok (s', p) → s' = s ∧ p = highQC s.
Proof.
  intros H1. unfold forkChoice in H1. replace (negb re_IsByz || _) with true in H1; [by apply gets_ok in H1 as [-> ->]|].
  destruct Hh as [->|Hs]; [done|]. rewrite bool_decide_eq_false_2 by done. by rewrite orb_true_r.
Qed.

(** A replica that handles its own proposal. *)
Lemma J_own_block cf fuel b p q now s s' r :
  chained_inv s → J s → typed_block b → in_tree U b → b_View b ≤ curView_of s →
  b_QC b = p → qc_deref (store s) p = Ok q → b_PrevID b = qc_BlockID q →
  ProcessBlock cf fuel (with_Timestamp now b) s = Ok (s', r) → J s'.
Proof.
  intros CI HJ Htb Hb Hle <- Hq Hprev H'.
  destruct (sound_qc nodes U W dcd exact_qc s _ q (proj1 HJ) Hq) as [Hgood _].
  eapply (J_ProcessBlock cf fuel (with_Timestamp now b)); [done|done|done| | |done|exact H'].
  - by eapply (good_parent nodes U _ b q).
  - by exists q.
Qed.

Lemma J_handle cf fuel e s s' :
  chained_inv s → J s → typed_event e → fair_event nodes U W false hs_safety s e → handle cf fuel e s = Ok (s', ()) → J s'.
Proof.
  intros CI HJ Ht He H'. destruct e as [b [qc|]|v|? ? [?|]| |view payload now|n pr view now| |]; try done; simpl in He; try (by destruct He).
  - destruct He as (Hb & Hq & Hc & Hid & Hp), Ht as [Htb Htq]. cbn in H'.
    apply prog_bind_ok in H' as (s1 & a & H1 & H'). injection H1 as <- <-.
    apply prog_bind_ok in H' as (s1 & r & H1 & H'). apply ret_ok in H' as [-> _].
    destruct (keeps_alloc qc Htq s (set_store s (store s ++ [qc])) (Some (length (store s))) CI) as (CI1 & _ & _); [reflexivity|].
    eapply (J_ProcessBlock cf fuel (with_QC b (Some (length (store s))))); [exact CI1|done|by apply J_alloc| | |done|exact H1].
    + by eapply (good_parent nodes U _ b qc).
    + exists qc. split; [|done]. apply qc_deref_ok. eexists. split; [done|]. by apply list_lookup_middle.
  - eapply (J_ProcessVote cf v s); [done|done|done|done|exact H'].
  - destruct He as [Hle Hb]. apply prog_bind_ok in H' as (s1 & b & H1 & H').
    specialize (Hb s1 b H1). destruct (keeps_MakeProposal view payload Hh Ht s s1 b CI H1) as (_ & _ & Htb).
    change (MakeProposal view payload s = Ok (s1, b)) in H1.
    apply prog_bind_ok in H1 as (s2 & p & H2 & H1). apply forkChoice_high in H2 as [-> ->].
    apply prog_bind_ok in H1 as (s2 & q & H2 & H1). apply outcome_bind_ok in H2 as (q' & Hq & H2). injection H2 as <- <-.
    apply prog_bind_ok in H1 as (s2 & st & H2 & H1). apply gets_ok in H2 as [-> ->]. apply lift_ok in H1 as [-> H1].
    apply MakeBlock_ok in H1 as (Hv & Hqc & Hprev & _). apply prog_bind_ok in H' as (s2 & r & H' & H2). apply ret_ok in H2 as [-> _].
    eapply (J_own_block cf fuel b); try done. lia.
  - destruct He as [Hle Hb]. apply prog_bind_ok in H' as (s1 & b & H1 & H').
    specialize (Hb s1 b H1). destruct (keeps_MakePProposal n pr view Hh Ht s s1 b CI H1) as (_ & _ & Htb).
    change (MakePProposal n pr view s = Ok (s1, b)) in H1.
    apply prog_bind_ok in H1 as (s2 & p & H2 & H1). apply forkChoice_high in H2 as [-> ->].
    apply prog_bind_ok in H1 as (s2 & batch & H2 & H1). apply lift_ok in H2 as [-> _].
    apply prog_bind_ok in H1 as (s2 & q & H2 & H1). apply outcome_bind_ok in H2 as (q' & Hq & H2). injection H2 as <- <-.
    apply prog_bind_ok in H1 as (s2 & st & H2 & H1). apply gets_ok in H2 as [-> ->]. apply lift_ok in H1 as [-> H1].
    apply MakePBlock_ok in H1 as (Hv & Hqc & Hprev & _). apply prog_bind_ok in H' as (s2 & r & H' & H2). apply ret_ok in H2 as [-> _].
    eapply (J_own_block cf fuel b); try done. lia.
  - apply modify_ok in H' as ->. apply (J_advance s 0); [by unfold_ints|done|lia].
Qed.

End replica.

Lemma J_initial `{ReplicaEnv} nodes U W : re_N = Z.of_nat (base.size nodes) → J nodes U W initial.
Proof. intros HN. split_and!; [by apply sound_initial; [..|left]|by intros ? ?|]. intros _. split; [done|constructor..]. Qed.

Lemma J_more `{ReplicaEnv} nodes U W W' s :
  more (known_votes W s) (known_votes W' s) → J nodes U W s → J nodes U W' s.
Proof.
  intros HV [I1 [Lv J2]]. split_and!; [by eapply sound_more; [apply more_decided|apply exact_more|..]|done|].
  intros Hinc. destruct (J2 Hinc) as [L1 L2 L3]. split; try done. intros Hge.
  destruct (L1 Hge) as (id & p & b & ? & ? & ? & ?). exists id, p, b. split_and!; [done|by eapply more_backed|done..].
Qed.

Lemma hs_keeps `{ReplicaEnv} cf fuel e s s' :
  honest → typed_event e → chained_inv s → handle cf fuel e s = Ok (s', ()) →
  chained_inv s' ∧ cast_votes s `prefix_of` cast_votes s'.
Proof.
  intros Hh He CI H'. destruct (keeps_handle cf fuel e Hh He s s' () CI H') as (CI' & A & _). split; [done|].
  destruct (advances_network _ _ A) as [os E]. unfold cast_votes. rewrite E, omap_app. by eexists.
Qed.

#[export] Instance hs_careful : Careful (@hs_safety) := {
  ca_initial := @initial;
  ca_dec := decided;
  ca_respects := respects;
  ca_vote := λ _ _, True;
  ca_timeouts := false;
  ca_okqc := exact_qc;
  ca_J := @J;
  ca_inv := @initial_inv;
  ca_keeps := @hs_keeps;
  ca_start := @J_initial;
  ca_sound := λ E nodes U W s HJ, proj1 HJ;
  ca_sorted := λ E nodes U W s HJ Hinc, i_order _ _ _ _ (proj2 (proj2 HJ) Hinc);
  ca_votes := λ E nodes U W s _, Forall_true _ _ (λ _, I);
  ca_more := @J_more;
  ca_handle := λ E nodes byz U W cf fuel e s s' T C Hself Hh _ Ho Ha CI HJ He Hf H',
    @J_handle E nodes byz U W T C Hself Hh Ho Ha cf fuel e s s' CI HJ He Hf H'
}.

(** [C1] Agreement.  In a cluster of which less than a third is Byzantine, with a
    network whose blocks and certificates pass the checks that the code leaves out,
    without timeouts, and if every honest replica has voted in increasing views: two
    blocks of view 3 or later that honest replicas have committed are on one chain,
    and equal if they are of one view. *)
Theorem hotstuff_agreement env nodes byz U ids sys id1 id2 b1 b2 :
  deployed env nodes byz → tree U → cluster nodes byz → list_to_set ids = nodes ∖ byz →
  careful_run (@hs_safety) env nodes U false (start (@hs_safety) env ids) sys → one_vote_per_view sys →
  b1 ∈ committed_by sys id1 → b2 ∈ committed_by sys id2 → 3 ≤ b_View b1 → 3 ≤ b_View b2 →
  (extends U (b_ID b1) (b_ID b2) ∨ extends U (b_ID b2) (b_ID b1))
  ∧ (b_View b1 = b_View b2 → b_ID b1 = b_ID b2).
Proof.
  intros D T C Hids Hrun Hone H1 H2 Hv1 Hv2.
  pose proof (system_inv_run (@hs_safety) env nodes byz U D T C ids sys Hids Hrun) as I.
  apply (decided_agree nodes byz U (cast_votes <$> sys)); try done;
    [exact (system_disciplined (@hs_safety) env nodes byz U D sys I Hone)
    |exact (system_decided (@hs_safety) env nodes byz U D sys id1 b1 I Hone H1)
    |exact (system_decided (@hs_safety) env nodes byz U D sys id2 b2 I Hone H2)].
Qed.

(** ** Two runs of four nodes

    Node 2 is the leader of every view; the honest nodes are 1, 3 and 4. *)

Definition four_nodes : gset NodeID := {["1"; "2"; "3"; "4"]}.
Definition leader_only : gset NodeID := {["2"]}.

(** The block of a tree, and its certificate with the given signers. *)
Definition tree_block_of (U : Identifier → option (Z * Identifier)) (signers : list NodeID) (id : Identifier) : event :=
  let '(view, par) := default (0, 0%N) (U id) in
  let qc := match U par with
            | Some (v, _) => MkQC "2" v par signers (replicate (length signers) (sample_sig par)) []
            | None => qc_of_view 0
            end in
  RecvBlock (MkBlock view None "2" 0 [] par (sample_sig id) id None) (Some qc).

Lemma four_deployed : deployed node_env four_nodes leader_only.
Proof. split; try done. intros id _ _. by left. Qed.
Lemma four_cluster : cluster four_nodes leader_only.
Proof. split; vm_compute; done. Qed.
Lemma four_honest : list_to_set honest_ids = four_nodes ∖ leader_only.
Proof. vm_compute. reflexivity. Qed.

(** *** One chain *)

Definition line (id : Identifier) : option (Z * Identifier) :=
  if bool_decide (1 ≤ id ≤ 100)%N then Some (Z.of_N id, N.pred id) else None.

Lemma line_tree : tree line.
Proof.
  split; [done|..]; unfold line; intros *; repeat case_bool_decide; try done; intros [= <- <-]; [unfold_ints; lia|].
  intros [= <- <-]. lia.
Qed.

(** Replicas 1 and 3 get the blocks of views 1 to 6, and replica 1 that of view 7. *)
Definition line_deliveries : list (NodeID * event) :=
  concat ((λ id, [("1", tree_block_of line ["1"; "2"; "3"] id); ("3", tree_block_of line ["1"; "2"; "3"] id)])
            <$> [1; 2; 3; 4; 5; 6]%N)
  ++ [("1", tree_block_of line ["1"; "2"; "3"] 7%N)].

Definition line_system : gmap NodeID chained :=
  default ∅ (careful_exec (@hs_safety) node_env four_nodes line false line_deliveries (start (@hs_safety) node_env honest_ids)).

(** *** Two branches after timeouts *)

(** Blocks 1 to 6 are a chain, block 16 is a second child of block 2. *)
Definition branches (id : Identifier) : option (Z * Identifier) :=
  if bool_decide (1 ≤ id ≤ 6)%N then Some (Z.of_N id, N.pred id)
  else if bool_decide (id = 16)%N then Some (6, 2%N)
  else if bool_decide (17 ≤ id ≤ 19)%N then Some (Z.of_N id - 10, N.pred id) else None.

Lemma branches_tree : tree branches.
Proof.
  split; [done|..]; unfold branches; intros *; repeat case_bool_decide; intros [= <- <-]; try (unfold_ints; lia);
    repeat case_bool_decide; intros [= <- <-]; lia.
Qed.

(** Replicas 1 and 3 vote for the blocks of views 1 to 4, time out in view 4 and vote
    for block 5; replica 1 then commits block 3.  Replicas 3 and 4 vote for the
    branch of block 16, and replica 3 commits it. *)
Definition branch_deliveries : list (NodeID * event) :=
  concat ((λ id, [("1", tree_block_of branches ["1"; "2"; "3"] id); ("3", tree_block_of branches ["1"; "2"; "3"] id)])
            <$> [1; 2; 3; 4]%N)
  ++ [("1", LocalTmo); ("3", LocalTmo); ("1", tree_block_of branches ["1"; "2"; "3"] 5%N);
      ("3", tree_block_of branches ["1"; "2"; "3"] 5%N); ("1", tree_block_of branches ["1"; "2"; "3"] 6%N);
      ("4", tree_block_of branches ["1"; "2"; "3"] 1%N); ("4", tree_block_of branches ["1"; "2"; "3"] 2%N);
      ("4", LocalTmo); ("4", LocalTmo); ("4", LocalTmo); ("4", LocalTmo); ("3", LocalTmo)]
  ++ concat ((λ id, [("3", tree_block_of branches (if bool_decide (id = 16)%N then ["1"; "2"; "3"] else ["2"; "3"; "4"]) id);
                     ("4", tree_block_of branches (if bool_decide (id = 16)%N then ["1"; "2"; "3"] else ["2"; "3"; "4"]) id)])
               <$> [16; 17; 18; 19]%N).

Definition branch_system : gmap NodeID chained :=
  default ∅ (careful_exec (@hs_safety) node_env four_nodes branches true branch_deliveries (start (@hs_safety) node_env honest_ids)).

(** The committed block with an identifier. *)
Definition committed_block (sys : gmap NodeID chained) (node : NodeID) (id : Identifier) : option Block :=
  find (λ b, bool_decide (b_ID b = id)) (committed_by sys node).

Lemma committed_block_in sys node id b : committed_block sys node id = Some b → b ∈ committed_by sys node.
Proof. intros [H _]%find_some. by apply list_elem_of_In. Qed.

Lemma extends_up U x y : extends U x y → x = y ∨ ∃ v p, U x = Some (v, p) ∧ extends U p y.
Proof. intros H. inversion H as [|? p ? [v Hp] Hy]; subst; [by left|right; eauto]. Qed.

(** Follows the only path from a block to its ancestors. *)
Ltac climb :=
  repeat match goal with
  | H : extends _ _ _ |- _ =>
      let v := fresh in let p := fresh in let Hp := fresh in
      apply extends_up in H as [H|(v & p & Hp & H)]; [discriminate H|];
      vm_compute in Hp; first [discriminate Hp|injection Hp as <- <-]
  end.

Lemma hotstuff_agreement_witness :
  ∃ b1 b2, b1 ∈ committed_by line_system "1" ∧ b2 ∈ committed_by line_system "3"
    ∧ b_View b1 = 4 ∧ b_View b2 = 3
    ∧ (extends line (b_ID b1) (b_ID b2) ∨ extends line (b_ID b2) (b_ID b1)).
Proof.
  assert (careful_exec (@hs_safety) node_env four_nodes line false line_deliveries (start (@hs_safety) node_env honest_ids) = Some line_system) as Hrun
    by (vm_compute; reflexivity).
  apply careful_exec_run in Hrun.
  destruct (committed_block line_system "1" 4%N) as [b1|] eqn:H1; [|vm_compute in H1; discriminate H1].
  destruct (committed_block line_system "3" 3%N) as [b2|] eqn:H2; [|vm_compute in H2; discriminate H2].
  assert (b_View b1 = 4 ∧ b_View b2 = 3) as [V1 V2].
  { vm_compute in H1, H2. injection H1 as <-. injection H2 as <-. by split. }
  exists b1, b2. apply committed_block_in in H1, H2. split_and!; [done..|].
  apply (hotstuff_agreement node_env four_nodes leader_only line honest_ids line_system "1" "3" b1 b2);
    [apply four_deployed|apply line_tree|apply four_cluster|apply four_honest|exact Hrun| |exact H1|exact H2|lia|lia].
  apply one_vote_dec. vm_compute. reflexivity.
Defined.

(** [C13] With timeouts agreement fails, although every hypothesis of the agreement
    holds: the network passes the checks, less than a third of the nodes is
    Byzantine and every honest replica votes once per view.  A replica whose view a
    timeout has advanced ignores the certificate in the next block
    ([processCertificate], line 244) and votes for the block without updating its
    preferred view, so a three-chain does not bind its voters. *)
Theorem hotstuff_timeout_disagreement :
  deployed node_env four_nodes leader_only ∧ tree branches ∧ cluster four_nodes leader_only
  ∧ list_to_set honest_ids = four_nodes ∖ leader_only
  ∧ ∃ sys b1 b2, careful_run (@hs_safety) node_env four_nodes branches true (start (@hs_safety) node_env honest_ids) sys
      ∧ one_vote_per_view sys ∧ b1 ∈ committed_by sys "1" ∧ b2 ∈ committed_by sys "3"
      ∧ 3 ≤ b_View b1 ∧ 3 ≤ b_View b2
      ∧ ¬ extends branches (b_ID b1) (b_ID b2) ∧ ¬ extends branches (b_ID b2) (b_ID b1).
Proof.
  split_and!; [apply four_deployed|apply branches_tree|apply four_cluster|apply four_honest|].
  assert (careful_exec (@hs_safety) node_env four_nodes branches true branch_deliveries (start (@hs_safety) node_env honest_ids) = Some branch_system) as Hrun
    by (vm_compute; reflexivity).
  destruct (committed_block branch_system "1" 3%N) as [b1|] eqn:H1; [|vm_compute in H1; discriminate H1].
  destruct (committed_block branch_system "3" 16%N) as [b2|] eqn:H2; [|vm_compute in H2; discriminate H2].
  assert (b_View b1 = 3 ∧ b_ID b1 = 3%N ∧ b_View b2 = 6 ∧ b_ID b2 = 16%N) as (V1 & E1 & V2 & E2).
  { vm_compute in H1, H2. injection H1 as <-. injection H2 as <-. by split_and!. }
  apply committed_block_in in H1, H2. exists branch_system, b1, b2. rewrite E1, E2.
  split_and!; [by apply careful_exec_run in Hrun| |done|done|lia|lia|..].
  - apply one_vote_dec. vm_compute. reflexivity.
  - intros H. climb.
  - intros H. climb.
Qed.
