(* ===== verification/Tchs.v ===== *)
(** * Two-chain HotStuff ([src/tchs/tchs.go])

    One definition per method of the type [Tchs], over the state of file
    [Chained].  The protocol differs from HotStuff in when it commits (in
    [ProcessBlock], on the certificate inside the block), in its preferred view
    (that of the certificate), in its timeouts, and in [forkChoice], which
    overwrites the view of the highest certificate for every proposal. *)
From S2P Require Import Prelude Identity Sha1 Election Db Crypto Types Quorum Forest BlockChain Pacemaker Chained HotStuff.

Local Open Scope Z_scope.

Module Tchs.
Section tchs.
Context `{ReplicaEnv}.

(** Lines 35-52. *)
Definition NewTchs (pm : Pacemaker) : chained :=
  MkChained [qc_of_view 0] pm 0 0 (Some 0%nat) (NewBlockchain re_N) [] [] ∅ ∅ [] [].

Definition GetHighQC : prog chained (option QCptr) := gets highQC.
Definition GetChainStatus (s : chained) : string := status_of re_ID (curView_of s) (bc s).

(** Lines 243-249. *)
Definition updateHighQC (qc : option QCptr) : prog chained () :=
  q ← deref qc;
  hp ← gets highQC;
  h ← deref hp;
  if decide (qc_View h < qc_View q) then modify (λ s, set_highQC s qc) else mret ().

(** Lines 314-327. *)
Definition updatePreferredView (qc : QC) : prog chained (result ()) :=
  if decide (qc_View qc < 2) then mret (Val ())
  else
    r ← gets (λ s, GetBlockByID (bc s) (qc_BlockID qc));
    match r with
    | Err _ => mret (Err "cannot update preferred view")
    | Val _ =>
        preferred ← gets preferredView;
        (if decide (preferred < qc_View qc)
         then modify (λ s, set_preferredView s (qc_View qc)) else mret ());;
        mret (Val ())
    end.

(** Lines 251-275. *)
Definition processCertificate (p : option QCptr) : prog chained () :=
  qc ← deref p;
  curView ← gets curView_of;
  if decide (qc_View qc < curView) then mret ()
  else
    quorumIsVerified ← (if decide (qc_Leader qc = re_ID) then mret true
                        else lift (VerifyQuorumSignature env_keys (qc_AggSig qc) (qc_BlockID qc)
                                     (qc_Signers qc)));
    if negb quorumIsVerified then mret ()
    else
      attack ← (if re_IsByz && bool_decide (re_Strategy = FORK)
                then lift (IsLeader re_ID (int64 (qc_View qc + 1))) else mret false);
      if (attack : bool) then on_pm (AdvanceView (qc_View qc))
      else
        r ← updatePreferredView qc;
        match r with
        | Err _ => modify (λ s, set_bufferedQCs s (<[qc_BlockID qc := p]> (bufferedQCs s)))
        | Val () => updateHighQC p;; on_pm (AdvanceView (qc_View qc))
        end.

(** Lines 277-292. *)
Definition votingRule (block : Block) : prog chained (result bool) :=
  if decide (b_View block ≤ 2) then mret (Val true)
  else
    r ← ask_bc (λ st b, GetParentBlock st b (b_ID block));
    match r with
    | Err _ => mret (Err "cannot vote for block")
    | Val parentBlock =>
        lastVoted ← gets lastVotedView;
        preferred ← gets preferredView;
        if decide (b_View block ≤ lastVoted ∨ b_View parentBlock < preferred)
        then mret (Val false) else mret (Val true)
    end.

(** Lines 294-304. *)
Definition commitRule (block : Block) : prog chained (result (option Block)) :=
  qc ← deref (b_QC block);
  r ← ask_bc (λ st b, GetParentBlock st b (qc_BlockID qc));
  match r with
  | Err _ => mret (Err "cannot commit any block")
  | Val parentBlock =>
      if decide (int64 (b_View parentBlock + 1) = qc_View qc)
      then mret (Val (Some parentBlock)) else mret (Val None)
  end.

(** Lines 306-312; no method calls it. *)
Definition updateLastVotedView (targetView : Z) : prog chained (result ()) :=
  lastVoted ← gets lastVotedView;
  if decide (targetView < lastVoted)
  then mret (Err "target view is lower than the last voted view")
  else modify (λ s, set_lastVotedView s targetView);; mret (Val ()).

(** Lines 224-229. *)
Definition processTC (tc : TC) : prog chained () :=
  curView ← gets curView_of;
  if decide (tc_View tc < curView) then mret () else on_pm (AdvanceView (tc_View tc)).

(** Lines 141-166.  [PubVerify] reports no error (crypto/ecdsa.go). *)
Definition ProcessVote (vote : Vote) : prog chained () :=
  voteIsVerified ← (if decide (re_ID = vote_Voter vote) then mret true
                    else lift (PubVerify env_keys (vote_Signature vote)
                                 (IDToByte (vote_BlockID vote)) (vote_Voter vote)));
  if negb voteIsVerified then mret ()
  else
    '(isBuilt, qc) ← on_bc (λ _, AddVote vote);
    if negb isBuilt then mret ()
    else
      qc ← lift (of_option NilDereference qc);
      p ← alloc (qc_with_Leader re_ID qc);
      r ← gets (λ s, GetBlockByID (bc s) (qc_BlockID qc));
      match r with
      | Err _ => modify (λ s, set_bufferedQCs s (<[qc_BlockID qc := p]> (bufferedQCs s)))
      | Val _ => processCertificate p
      end.

(** Lines 168-180. *)
Definition ProcessRemoteTmo (tmo : TMO) : prog chained () :=
  curView ← gets curView_of;
  if decide (tmo_View tmo < curView) then mret ()
  else
    '(isBuilt, tc) ← on_pm (pm_ProcessRemoteTmo tmo);
    if negb isBuilt then mret ()
    else
      tc ← lift (of_option NilDereference tc);
      processTC tc.

(** Lines 182-192. *)
Definition ProcessLocalTmo (view : Z) : prog chained () :=
  on_pm (AdvanceView (int64 (view + 1)));;
  h ← GetHighQC;
  let tmo := MkTMO (int64 (view + 1)) re_ID h in
  modify (λ s, emit s None (BroadcastTmo (tmo_View tmo) (tmo_NodeID tmo) (h ≫= λ a, store s !! a)));;
  ProcessRemoteTmo tmo.

(** Lines 217-222: the view of the highest certificate is overwritten. *)
Definition forkChoice : prog chained (option QCptr) :=
  choice ← GetHighQC;
  curView ← gets curView_of;
  assign_View choice (int64 (curView - 1));;
  mret choice.

(** Lines 194-198. *)
Definition MakeProposal (view : Z) (payload : list Transaction) : prog chained Block :=
  qc ← forkChoice;
  q ← deref qc;
  st ← gets store;
  lift (MakeBlock st view qc (qc_BlockID q) payload re_ID).

(** Lines 200-215. *)
Definition MakePProposal (fuel : nat) (priori : nat → option N) (view : Z) : prog chained Block :=
  qc ← forkChoice;
  batch ← lift (wait_priori fuel priori 0);
  q ← deref qc;
  st ← gets store;
  lift (MakePBlock st view qc (qc_BlockID q) batch re_ID).

(** Lines 87-104: [inr] when [ProcessBlock] returns here. *)
Definition check_commit (cf : nat) (block : Block) : prog chained (() + result ()) :=
  qc ← deref (b_QC block);
  if decide (2 ≤ qc_View qc ∧ int64 (qc_View qc + 1) = b_View block) then
    r ← commitRule block;
    match r with
    | Err _ | Val None => mret (inr (Val ()))
    | Val (Some b) =>
        before ← gets snapshot;
        curView ← gets curView_of;
        r ← on_bc (λ st, CommitBlock cf st (b_ID b) curView);
        match r with
        | Err _ => mret (inr (Err "cannot commit blocks"))
        | Val (committed, forked) =>
            modify (λ s, send_blocks s before qc (Some block) committed forked);; mret (inl ())
        end
    end
  else mret (inl ()).

(** Lines 106-111. *)
Definition process_buffered_QC (block : Block) : prog chained () :=
  m ← gets bufferedQCs;
  match m !! b_ID block with
  | None => mret ()
  | Some qc =>
      processCertificate qc;;
      modify (λ s, set_bufferedQCs s (delete (b_ID block) (bufferedQCs s)))
  end.

(** Lines 122-129; [OwnVote] stands for one's own vote on the network. *)
Definition cast_vote (block : Block) : prog chained () :=
  vote ← lift (MakeVote (b_View block) re_ID (b_ID block));
  voteAggregator ← lift (FindLeaderFor (int64 (b_View block + 1)));
  if decide (voteAggregator = re_ID) then modify (λ s, emit s (Some block) (OwnVote vote));; ProcessVote vote
  else modify (λ s, emit s (Some block) (Send voteAggregator vote)).

(** Lines 113-138; the block buffered under the view of this one is processed and
    stays in the buffer. *)
Definition vote_and_continue (ProcessBlock : Block → prog chained (result ())) (block : Block)
  : prog chained (result ()) :=
  shouldVote ← votingRule block;
  match shouldVote with
  | Err e => mret (Err e)
  | Val false => mret (Val ())
  | Val true =>
      cast_vote block;;
      m ← gets bufferedBlocks;
      match m !! b_View block with
      | None => mret (Val ())
      | Some b => ProcessBlock b
      end
  end.

(** Lines 85-138. *)
Definition accept_block (ProcessBlock : Block → prog chained (result ())) (cf : nat)
    (block : Block) : prog chained (result ()) :=
  on_bc (λ st, AddBlock st block);;
  r ← check_commit cf block;
  match r with
  | inr r => mret r
  | inl () => process_buffered_QC block;; vote_and_continue ProcessBlock block
  end.

(** Lines 54-139, with the recursive call as an argument. *)
Definition ProcessBlock_body (ProcessBlock : Block → prog chained (result ())) (cf : nat)
    (block : Block) : prog chained (result ()) :=
  curView ← gets curView_of;
  (if decide (b_Proposer block = re_ID) then mret true
   else lift (PubVerify env_keys (b_Sig block) (IDToByte (b_ID block)) (b_Proposer block)));;
  if decide (int64 (curView + 1) < b_View block) then
    modify (λ s, set_bufferedBlocks s (<[int64 (b_View block - 1) := block]> (bufferedBlocks s)));;
    mret (Val ())
  else
  match b_QC block with
  | None => mret (Err "the block should contain a QC")
  | Some qc =>
      updateHighQC (Some qc);;
      (if decide (b_Proposer block = re_ID) then mret () else processCertificate (Some qc));;
      curView ← gets curView_of;
      if decide (b_View block < curView) then mret (Val ())
      else
        isLeader ← lift (IsLeader (b_Proposer block) (b_View block));
        if negb isLeader then mret (Err "received a proposal from an invalid leader")
        else accept_block ProcessBlock cf block
  end.

(** The recursion, bounded by [fuel]. *)
Fixpoint ProcessBlock (cf fuel : nat) : Block → prog chained (result ()) :=
  ProcessBlock_body
    match fuel with
    | O => λ _, lift (Fault DepthExhausted)
    | S fuel => ProcessBlock cf fuel
    end cf.
End tchs.
End Tchs.
