(* ===== verification/TchsProps.v ===== *)
(** * Properties of the two-chain HotStuff replica

    The same analysis as for HotStuff (file [HotStuffProps]), with the rules of
    [Tchs]: commits by two-chains, and certificates whose view a proposal may
    overwrite. *)
From S2P Require Import Prelude Identity Sha1 Election Db Crypto Types Quorum Forest BlockChain Pacemaker Chained Safety HotStuff Tchs.

Local Open Scope Z_scope.
Import Tchs.

(** ** The rules of the protocol *)

(** The two-chain rule: [c] is the walk from the parent of the block that the
    certificate [qc] names, the parent being in the view before the certificate's; [qc]
    is the one inside the block [carrier], which the leader of its view, the next one,
    proposed.  Nothing is said of the signatures of the certificate: the code commits
    also when they were not checked or do not verify. *)
Definition two_chain `{ReplicaEnv} (s : chained) (qc : QC) (carrier : option Block) (c : list Block)
  : Prop :=
  let f := forrest (bc s) in
  2 ≤ qc_View qc
  ∧ (∃ b, carrier = Some b ∧ qc_deref (store s) (b_QC b) = Ok qc
      ∧ int64 (qc_View qc + 1) = b_View b ∧ IsLeader (b_Proposer b) (b_View b) = Ok true)
  ∧ ∃ b1 b0, GetVertex f (qc_BlockID qc) = Some b1 ∧ GetVertex f (b_PrevID b1) = Some b0
      ∧ int64 (b_View b0 + 1) = qc_View qc ∧ walk f b0 c.

#[export] Instance tchs_rules `{ReplicaEnv} : Rules :=
  {| may_commit := two_chain; may_send := HotStuff.hs_may_send; frozen := False |}.

Section keeps.
Context `{ReplicaEnv}.

Lemma tchs_updateHighQC p : keeps anything (updateHighQC p).
Proof. exact (HotStuff.keeps_updateHighQC p). Qed.

Lemma tchs_updatePreferredView qc : keeps anything (updatePreferredView qc).
Proof.
  unfold updatePreferredView. case_decide; [preserve|].
  eapply preserves_bind; [apply _|apply keeps_GetBlockByID|]. intros [b|e] _; [|preserve].
  intros s s' a I H'. apply prog_bind_ok in H' as (s1 & pv & H1 & H').
  apply gets_ok in H1 as [-> ->]. apply prog_bind_ok in H' as (s1 & u & H1 & H').
  apply ret_ok in H' as [-> ->]. case_decide.
  - apply modify_ok in H1 as ->. split_and!; [by destruct I; split|frame|done].
  - apply ret_ok in H1 as [-> _]. split_and!; [done|reflexivity|done].
Qed.

Hint Resolve tchs_updateHighQC tchs_updatePreferredView : go.

Lemma tchs_processCertificate p : keeps anything (processCertificate p).
Proof.
  unfold processCertificate. eapply preserves_bind; [apply _|apply keeps_deref|].
  intros qc Hqc. unfold typed_qc in Hqc. preserve.
Qed.
Hint Resolve tchs_processCertificate : go.

Lemma tchs_processTC tc : is_int64 (tc_View tc) → keeps anything (processTC tc).
Proof. unfold processTC. preserve. Qed.

Lemma tchs_ProcessVote v : typed_vote v → keeps anything (ProcessVote v).
Proof.
  intros Hv. unfold ProcessVote. preserve_step; [preserve|].
  preserve_step; [preserve|]. eapply preserves_bind; [apply _|apply keeps_AddVote|].
  intros [isBuilt qc] Hqc. simpl in Hqc. preserve_step; [preserve|].
  eapply preserves_bind; [apply _|apply preserves_lift with (Φ := typed_qc)|]; [apply _| |].
  { intros q Hq%of_option_ok. unfold typed_qc. by rewrite (Hqc q Hq). }
  intros q Hq. eapply preserves_bind; [apply _|by apply keeps_alloc|]. preserve.
Qed.

Lemma tchs_ProcessRemoteTmo tmo : typed_tmo tmo → keeps anything (ProcessRemoteTmo tmo).
Proof.
  intros Ht. unfold ProcessRemoteTmo. preserve_step; [preserve|]. preserve_step; [preserve|].
  eapply preserves_bind; [apply _|apply keeps_pm_ProcessRemoteTmo|].
  intros [isBuilt tc] Htc. simpl in Htc. preserve_step; [preserve|].
  eapply preserves_bind; [apply _|apply preserves_lift with (Φ := λ tc, tc_View tc = tmo_View tmo)|];
    [apply _|by intros q Hq%of_option_ok; auto|].
  intros q Hq. simpl in Hq. apply tchs_processTC. by rewrite Hq.
Qed.

Lemma tchs_ProcessLocalTmo view : is_int64 view → keeps anything (ProcessLocalTmo view).
Proof.
  intros Hv. unfold ProcessLocalTmo, GetHighQC.
  eapply preserves_bind; [apply _|apply keeps_AdvanceView, int64_range|]. intros _ _ s s' u I H'.
  apply prog_bind_ok in H' as (s1 & h & H1 & H'). apply gets_ok in H1 as [-> ->].
  apply prog_bind_ok in H' as (s1 & [] & H1 & H'). apply modify_ok in H1 as ->.
  match type of H' with _ (emit s ?w ?o) = _ => destruct (emit_keeps w o s I) as [I1 A1]; [done|] end.
  eapply tchs_ProcessRemoteTmo in H' as (I2 & A2 & _); [|apply int64_range|done].
  split_and!; [done|by etrans|done].
Qed.

Lemma tchs_process_buffered_QC b : keeps anything (process_buffered_QC b).
Proof. unfold process_buffered_QC. preserve. Qed.
Hint Resolve tchs_process_buffered_QC : go.

(** The commit inside [ProcessBlock] obeys the two-chain rule. *)
Lemma tchs_check_commit cf b :
  IsLeader (b_Proposer b) (b_View b) = Ok true → keeps anything (check_commit cf b).
Proof.
  intros Hlead s s' r I Hrun. cut (chained_inv s' ∧ advances s s'); [by intros []|].
  unfold check_commit in Hrun. apply prog_bind_ok in Hrun as (s1 & qc & H1 & Hrun).
  apply outcome_bind_ok in H1 as (q & Hq & H1). injection H1 as <- <-.
  destruct (decide (2 ≤ qc_View q ∧ _)) as [[Hge Hnext]|]; [|by apply ret_ok in Hrun as [-> _]].
  apply prog_bind_ok in Hrun as (s1 & rule & Hrule & Hrun). unfold commitRule in Hrule.
  apply prog_bind_ok in Hrule as (s2 & q' & H2 & Hrule).
  apply outcome_bind_ok in H2 as (q2 & Hq2 & H2). injection H2 as <- <-.
  assert (q2 = q) as -> by congruence. clear Hq2.
  apply prog_bind_ok in Hrule as (s2 & par & H3 & Hrule). apply ask_bc_ok in H3 as [-> H3].
  destruct par as [b0|e]; [|apply ret_ok in Hrule as [-> ->]; by apply ret_ok in Hrun as [-> _]].
  destruct (decide (int64 (b_View b0 + 1) = qc_View q)) as [Hview|];
    apply ret_ok in Hrule as [-> ->]; [|by apply ret_ok in Hrun as [-> _]].
  do 2 (apply prog_bind_ok in Hrun as (s1 & v & H4 & Hrun); apply gets_ok in H4 as [-> ->]).
  apply prog_bind_ok in Hrun as (s1 & rc & H4 & Hrun). apply zoom_ok in H4 as (c & H4 & ->).
  pose proof (commit_step cf _ _ s q (Some b) c rc I H4) as Hstep.
  destruct rc as [[committed forked]|e]; [|apply ret_ok in Hrun as [-> _]; exact Hstep].
  apply prog_bind_ok in Hrun as (s1 & [] & H5 & Hrun). apply modify_ok in H5 as ->.
  apply ret_ok in Hrun as [-> _]. destruct Hstep as [I' Hadv]. split; [done|]. apply Hadv.
  apply (parent_found _ _ _ _ _ (ci_forest s I) eq_refl) in H3 as (b1 & Hb1 & Hb0 & Hid).
  apply CommitBlock_inv in H4 as (w & f' & no & Hw & Hwalk & _); [|apply I].
  rewrite Hid, Hb0 in Hw. injection Hw as <-.
  split_and!; [done|by exists b|]. exists b1, b0. split_and!; done.
Qed.
Hint Resolve tchs_check_commit : go.

Lemma tchs_vote rec b :
  (∀ c, typed_block c → keeps anything (rec c)) → typed_block b →
  IsLeader (b_Proposer b) (b_View b) = Ok true → keeps anything (vote_and_continue rec b).
Proof.
  intros Hrec Hb Hlead s s' u I Hrun. unfold vote_and_continue in Hrun.
  apply prog_bind_ok in Hrun as (s1 & r & Hvote & Hrun).
  destruct (HotStuff.votingRule_ok b s s1 r I Hvote) as [-> Hmay].
  destruct r as [[]|e]; [|apply ret_ok in Hrun as [-> _]; split_and!; [done|reflexivity|done]..].
  apply prog_bind_ok in Hrun as (s1 & [] & Hcast & Hrun).
  assert (chained_inv s1 ∧ advances s s1) as [I1 A1].
  { unfold cast_vote in Hcast. apply prog_bind_ok in Hcast as (s2 & v & H1 & Hcast).
    apply lift_ok in H1 as [-> H1]. apply prog_bind_ok in Hcast as (s2 & to & H2 & Hcast).
    apply lift_ok in H2 as [-> H2]. destruct (decide (to = re_ID)).
    - apply prog_bind_ok in Hcast as (s2 & [] & H3 & Hcast). apply modify_ok in H3 as ->. subst to.
      destruct (emit_keeps (Some b) (OwnVote v) s I) as [I1 A1]; [split_and!; [done..|by apply Hmay]|].
      destruct (MakeVote_ok _ _ _ _ H1) as (Hview & _).
      eapply tchs_ProcessVote in Hcast as (? & ? & _); [|unfold typed_vote; by rewrite Hview|done].
      split; [done|by etrans].
    - apply modify_ok in Hcast as ->. apply emit_keeps; [done|]. split; [done|].
      split_and!; [done..|by apply Hmay]. }
  apply prog_bind_ok in Hrun as (s2 & m & H1 & Hrun). apply gets_ok in H1 as [-> ->].
  destruct (bufferedBlocks s1 !! b_View b) as [c|] eqn:E;
    [|apply ret_ok in Hrun as [-> _]; split_and!; done].
  destruct (ci_buffer s1 I1 _ c E) as [Hc _].
  destruct (Hrec c Hc s1 s' u I1 Hrun) as (I2 & A2 & _). split_and!; [done|by etrans|done].
Qed.

Lemma tchs_ProcessBlock_body rec cf b :
  (∀ c, typed_block c → keeps anything (rec c)) → typed_block b →
  keeps anything (ProcessBlock_body rec cf b).
Proof.
  intros Hrec Hb.
  assert (keeps anything (isLeader ← lift (IsLeader (b_Proposer b) (b_View b));
    if negb isLeader then mret (Err "received a proposal from an invalid leader")
    else accept_block rec cf b)) as Htail.
  { eapply preserves_bind; [apply _|apply preserves_lift with
      (Φ := λ l, IsLeader (b_Proposer b) (b_View b) = Ok l); [apply _|done]|].
    intros [] Hl; simpl; [|preserve].
    pose proof (tchs_vote rec b Hrec Hb Hl) as Hvote. pose proof (tchs_check_commit cf b Hl) as Hcom.
    unfold accept_block. preserve. }
  unfold ProcessBlock_body. preserve.
  eapply keeps_buffer_block; [apply int64_range|done..].
Qed.

Lemma tchs_ProcessBlock cf fuel b : typed_block b → keeps anything (ProcessBlock cf fuel b).
Proof.
  revert b. induction fuel as [|fuel IH]; intros b Hb; simpl; apply tchs_ProcessBlock_body; done.
Qed.

(** Overwriting the view of a certificate. *)
Lemma tchs_assign_View p v : is_int64 v → keeps anything (assign_View p v).
Proof.
  intros Hv s s' u I Hrun. unfold assign_View in Hrun.
  apply outcome_bind_ok in Hrun as (a & _ & Hrun). injection Hrun as <-.
  split_and!; [|apply advances_once; [done|]; split; [quiet|by apply silent]|done].
  destruct I as [I1 I2 I3 I4 I5 I6]. split; simpl; try done.
  - apply Forall_alter; [done|]. intros q _ _. done.
  - destruct I5 as [q (b & Hb & Hq)%qc_deref_ok].
    destruct (decide (a = b)) as [->|Hne]; eexists; apply qc_deref_ok; exists b; (split; [done|]).
    + by rewrite list_lookup_alter_eq, Hq.
    + by rewrite list_lookup_alter_ne.
Qed.

Lemma tchs_forkChoice : keeps anything forkChoice.
Proof.
  unfold forkChoice, GetHighQC. preserve_step; [preserve|]. preserve_step; [preserve|].
  eapply preserves_bind; [apply _|apply tchs_assign_View, int64_range|]. preserve.
Qed.
Hint Resolve tchs_forkChoice : go.

Lemma tchs_MakeProposal view payload : is_int64 view → keeps typed_block (MakeProposal view payload).
Proof.
  intros Hv. unfold MakeProposal. preserve. apply preserves_lift; [apply _|].
  intros b (Hview & _)%MakeBlock_ok. unfold typed_block. by rewrite Hview.
Qed.

Lemma tchs_MakePProposal tries priori view :
  is_int64 view → keeps typed_block (MakePProposal tries priori view).
Proof.
  intros Hv. unfold MakePProposal. preserve. apply preserves_lift; [apply _|].
  intros b (Hview & _)%MakePBlock_ok. unfold typed_block. by rewrite Hview.
Qed.
End keeps.

(** ** Runs *)

Section runs.
Context `{ReplicaEnv}.

(** The protocol behind the interface of the replica. *)
Definition tchs_safety : Safety chained :=
  {| sf_ProcessBlock := ProcessBlock; sf_ProcessVote := λ _ _, ProcessVote;
     sf_ProcessRemoteTmo := λ _ _, ProcessRemoteTmo;
     sf_ProcessLocalTmo := λ _ _, ProcessLocalTmo;
     sf_GetChainStatus := GetChainStatus; sf_MakeProposal := MakeProposal; sf_MakePProposal := MakePProposal;
     sf_pm := pm; sf_set_pm := set_pm; sf_store := store; sf_set_store := set_store;
     sf_committed := committedBlocks; sf_forked := forkedBlocks; sf_goroutine := λ _, mret () |}.

Definition handle : nat → nat → event → prog chained () := sf_handle (SF := tchs_safety).

Definition tchs_step : chained → chained → Prop := sf_step (SF := tchs_safety).
Definition tchs_run : chained → chained → Prop := rtc tchs_step.

Definition initial : chained := NewTchs (NewPacemaker re_N).

Lemma tchs_initial_inv : chained_inv initial.
Proof.
  split; simpl; try done.
  - by repeat constructor.
  - apply forest_inv_new.
  - by eexists.
Qed.

Lemma tchs_handle cf fuel e : typed_event e → keeps anything (handle cf fuel e).
Proof.
  intros He. destruct e as [b qc|v|view id qc| |view payload now|n pr view now| |k].
  - destruct He as [Hb Hq]. eapply preserves_bind; [apply _|by apply (keeps_alloc_opt qc)|]. intros p _.
    eapply preserves_bind; [apply _|by apply tchs_ProcessBlock|]. preserve.
  - by apply tchs_ProcessVote.
  - destruct He as [Hv Hq]. eapply preserves_bind; [apply _|by apply (keeps_alloc_opt qc)|]. intros p _.
    by apply tchs_ProcessRemoteTmo.
  - eapply preserves_bind; [apply _|apply preserves_gets with (Φ := is_int64); [apply _|]|].
    + intros s I. apply I.
    + intros v Hv. by apply tchs_ProcessLocalTmo.
  - eapply preserves_bind; [apply _|by apply tchs_MakeProposal|]. intros b Hb.
    eapply preserves_bind; [apply _|by apply tchs_ProcessBlock|]. preserve.
  - eapply preserves_bind; [apply _|by apply tchs_MakePProposal|]. intros b Hb.
    eapply preserves_bind; [apply _|by apply tchs_ProcessBlock|]. preserve.
  - by apply (keeps_AdvanceView 0).
  - change (keeps anything (mret () : prog chained ())). preserve.
Qed.

Lemma tchs_run_keeps s s' : chained_inv s → tchs_run s s' → chained_inv s' ∧ advances s s'.
Proof.
  intros I Hrun. revert I. induction Hrun as [|s1 s2 s3 (cf & fuel & e & He & Hs) _ IH];
    intros I; [split; [done|reflexivity]|].
  destruct (tchs_handle cf fuel e He s1 s2 () I Hs) as (I2 & A2 & _).
  destruct (IH I2) as [I3 A3]. split; [done|by transitivity s2].
Qed.

(** [C29] Two-chain HotStuff commits only by its two-chain rule and votes only by its
    voting rule.  In every run of a replica, Byzantine or not, the state stays well
    formed; the blocks on the committed and forked channels are exactly those of the
    recorded commits, and the messages sent are exactly the recorded ones.  Each commit
    is recorded with the state just before it, the block that caused it and that
    block's certificate, as it stood in that state: the block is by the leader of its
    view, the one after the certificate's, the certificate (whose signatures need not
    verify) has a view of at least 2 and names a stored block whose stored parent is in
    the view before the certificate's, and the batch is the walk from that parent through
    the stored parents down to the last committed level.  Each vote is for a block by the
    leader of its view, goes to the leader of the next view, and obeys the voting rule in
    the recorded state.  From any state of a run to a later one the current view (up to
    the wrap of the largest one), the preferred view and the lowest level do not decrease;
    the view of the highest certificate can, because [forkChoice] overwrites it. *)
Theorem tchs_commits_by_two_chain s :
  tchs_run initial s →
  chained_inv s
  ∧ committedBlocks s = concat (batches_in (deeds s))
  ∧ forkedBlocks s = concat (forks_in (deeds s))
  ∧ network s = sent_in (deeds s)
  ∧ (∀ sm qc carrier c f, (sm, Committed qc carrier c f) ∈ deeds s →
       chained_inv sm ∧ two_chain sm qc carrier c)
  ∧ (∀ sm voted o, (sm, Sent voted o) ∈ deeds s → chained_inv sm ∧ HotStuff.hs_may_send sm voted o)
  ∧ ∀ s', tchs_run s s' →
      (wrapped (pm s') ∨ curView_of s ≤ curView_of s')
      ∧ preferredView s ≤ preferredView s'
      ∧ LowestLevel (forrest (bc s)) ≤ LowestLevel (forrest (bc s'))
      ∧ committedBlocks s `prefix_of` committedBlocks s'.
Proof.
  intros H1. destruct (tchs_run_keeps _ _ tchs_initial_inv H1) as [I1 [h [E1 E2 E3 E4 E5]]%advances_logs].
  simpl in E1. subst h. rewrite Forall_forall in E5. split_and!; [done..| | |].
  - intros sm qc w c f Hin. exact (E5 _ Hin).
  - intros sm w o Hin. exact (E5 _ Hin).
  - intros s' H2. destruct (tchs_run_keeps _ _ I1 H2) as [I2 A2].
    destruct (advances_mono _ _ A2) as [_ Hv Hp _ Hl _ _].
    split_and!; [done..|]. by eapply advances_committed.
Qed.

(** A replica of two-chain HotStuff never counts its own timeout.  When its
    timer fires in view [view], it moves two views on, to [view + 2], and sends a
    timeout message for [view + 1] that it then drops itself as stale: the
    collected timeout messages are unchanged. *)
Theorem tchs_own_timeout_dropped s view s' :
  curView_of s = view → 0 ≤ view → view + 2 ≤ max_int64 →
  ProcessLocalTmo view s = Ok (s', ()) →
  curView_of s' = view + 2
  ∧ timeoutController (pm s') = timeoutController (pm s)
  ∧ ∃ qc, network s' = network s ++ [BroadcastTmo (view + 1) re_ID qc].
Proof.
  intros Hcur Hpos Hmax Hrun. unfold ProcessLocalTmo, GetHighQC in Hrun.
  assert (int64 (view + 1) = view + 1) as E1 by (apply int64_id; unfold_ints; lia).
  assert (int64 (view + 1 + 1) = view + 2) as E2
    by (replace (view + 1 + 1) with (view + 2) by lia; apply int64_id; unfold_ints; lia).
  rewrite E1 in Hrun. apply prog_bind_ok in Hrun as (s1 & [] & H1 & Hrun).
  apply zoom_ok in H1 as (p & Hp & ->). apply modify_ok in Hp as ->.
  unfold curView_of, GetCurView in *. unfold advance in Hrun. rewrite decide_False in Hrun by lia.
  rewrite E2 in Hrun. invert_prog. unfold ProcessRemoteTmo in *. invert_prog.
  unfold curView_of, GetCurView in *. simpl in *.
  rewrite decide_True in * by lia.
  match goal with Hr : mret () _ = _ |- _ => apply ret_ok in Hr as [-> _] end.
  simpl. split_and!; [done..|by eexists].
Qed.
End runs.

(** ** A run: three blocks of a chain *)

Definition run_event (e : event) (s : chained) : chained :=
  match @handle sample_env 10 10 e s with Ok (s', _) => s' | Fault _ => s end.

Definition sample_initial : chained := @initial sample_env.

Fixpoint sample_after (n : nat) : chained :=
  match n with
  | O => sample_initial
  | S n => run_event (chain_event (S n)) (sample_after n)
  end.

Lemma tchs_run_event e s :
  typed_event e → match @handle sample_env 10 10 e s with Ok _ => True | Fault _ => False end →
  @tchs_step sample_env s (run_event e s).
Proof.
  intros He Hs. exists 10%nat, 10%nat, e. split; [done|]. unfold run_event.
  change (sf_handle 10 10 e s) with (@handle sample_env 10 10 e s).
  by destruct (@handle sample_env 10 10 e s) as [[s' []]|].
Qed.

Lemma tchs_reachable n : (n ≤ 4)%nat → @tchs_run sample_env sample_initial (sample_after n).
Proof.
  induction n as [|n IH]; intros Hn; [apply rtc_refl|].
  eapply rtc_r; [apply IH; lia|]. apply tchs_run_event; [apply chain_event_typed; lia|].
  clear IH. destruct n as [|[|[|[|n]]]]; [vm_compute; exact Logic.I..|lia].
Qed.

Lemma tchs_commits_by_two_chain_witness :
  fmap (M:=list) b_ID <$> batches_in (deeds (sample_after 4)) = [[1]; [2]]%N
  ∧ length (network (sample_after 4)) = 4%nat
  ∧ (∀ sm qc carrier c f, (sm, Committed qc carrier c f) ∈ deeds (sample_after 4) →
       chained_inv sm ∧ @two_chain sample_env sm qc carrier c)
  ∧ ∀ sm voted o, (sm, Sent voted o) ∈ deeds (sample_after 4) →
      chained_inv sm ∧ @HotStuff.hs_may_send sample_env sm voted o.
Proof.
  split; [vm_compute; reflexivity|]. split; [vm_compute; reflexivity|].
  destruct (@tchs_commits_by_two_chain sample_env (sample_after 4)) as (_ & _ & _ & _ & Hc & Hv & _);
    [apply tchs_reachable; lia|]. split; [exact Hc|exact Hv].
Defined.

Lemma tchs_own_timeout_dropped_witness :
  curView_of (run_event LocalTmo (sample_after 3)) = 5.
Proof.
  assert (curView_of (sample_after 3) = 3) as Hv by (vm_compute; reflexivity).
  assert (@ProcessLocalTmo sample_env 3 (sample_after 3)
          = Ok (run_event LocalTmo (sample_after 3), ())) as Hrun by (vm_compute; reflexivity).
  apply (@tchs_own_timeout_dropped sample_env (sample_after 3) 3
           (run_event LocalTmo (sample_after 3)) Hv); [lia|unfold max_int64; lia|exact Hrun].
Defined.

(** A fourth block of the leader, with a certificate for the third block whose
    signatures are made up. *)
Definition forged_qc : QC := MkQC "2" 3 3 ["1"; "2"; "3"] (replicate 3 ["0"; "0"]) [].
Definition forged : event := RecvBlock (chain_block 4) (Some forged_qc).

(** [C39] Two-chain HotStuff commits on a certificate that does not verify: a block
    of the current leader that carries made-up signatures for the third block of
    the chain makes the replica commit the second one. *)
Theorem tchs_commits_unverified :
  @tchs_run sample_env sample_initial (sample_after 3)
  ∧ @handle sample_env 10 10 forged (sample_after 3) = Ok (run_event forged (sample_after 3), ())
  ∧ @VerifyQuorumSignature sample_ecdsa sample_keys (qc_AggSig forged_qc)
      (qc_BlockID forged_qc) (qc_Signers forged_qc) = Ok false
  ∧ b_ID <$> committedBlocks (sample_after 3) = [1]%N
  ∧ b_ID <$> committedBlocks (run_event forged (sample_after 3)) = [1; 2]%N.
Proof.
  split; [apply tchs_reachable; lia|]. split_and!; vm_compute; reflexivity.
Qed.
