(* ===== verification/TchsAgreement.v ===== *)
(** * Agreement of two-chain HotStuff replicas

    The counterpart of file [Agreement] for [src/tchs/tchs.go] (and
    [src/fasthostuff/fhs.go], which has the same code).  In the careful networks of
    file [Careful], and if honest replicas vote in increasing views:

    - [tchs_agreement]: all blocks that honest replicas commit are on one chain, also
      with timeouts;
    - [tchs_commits_gapless]: a committed block has an ancestor in every earlier view.

    The second is why the first holds, and it is not what the protocol means to do.
    [ProcessBlock] returns without a vote when a block follows its certificate directly
    but the certified block does not follow its own parent directly (tchs.go, lines
    88-92).  So a block that directly follows its parent is certified only on top of a
    chain without a gap, and nothing is committed any more after the first view without
    a certified block.  The preferred view plays no part.  [tchs_gap_no_vote] has the
    consequence for the running system: [forkChoice] overwrites the view of the
    certificate in every proposal so that the block seems to follow directly, and after
    a gap no replica votes for any proposal of an honest leader. *)
From S2P Require Import Prelude Identity Sha1 Election Db Crypto Types Quorum Forest BlockChain Pacemaker Chained Safety HotStuff HotStuffProps Careful System Agreement Tchs TchsProps.
From stdpp Require Import sorting.

Local Open Scope Z_scope.
Import Tchs.

(** ** Two-chains without gaps *)
Section two.
Context (nodes byz : gset NodeID) (U : Identifier → option (Z * Identifier)).
Implicit Types V : gmap NodeID (list Vote).

(** The first block of a two-chain. *)
Definition two V (v : Z) (b0 : Identifier) : Prop :=
  ∃ p b1, U b0 = Some (v, p) ∧ U b1 = Some (v + 1, b0) ∧ backed nodes V b0 ∧ backed nodes V b1.

Definition decided2 V (b : Block) : Prop :=
  in_tree U b ∧ ∃ v b0, two V v b0 ∧ extends U b0 (b_ID b) ∧ b_View b ≤ v.

(** A vote from view 3 on for a block that directly follows its parent: the parent
    directly follows its own parent. *)
Definition gapless (v : Vote) : Prop :=
  ∀ p g, 3 ≤ vote_View v → U (vote_BlockID v) = Some (vote_View v, p) → U p = Some (vote_View v - 1, g) →
  ∃ gg, U g = Some (vote_View v - 2, gg).

(** A certificate whose view may have been overwritten by a later one, below the
    current view. *)
Definition loose_qc V (view : Z) (q : QC) : Prop :=
  ∃ g, (qc_BlockID q = 0%N ∧ g = 0 ∨ backed nodes V (qc_BlockID q) ∧ ∃ p, U (qc_BlockID q) = Some (g, p))
    ∧ g ≤ qc_View q ∧ (qc_View q = g ∨ qc_View q < view).

Lemma good_loose V view q : good_qc nodes U V q → loose_qc V view q.
Proof.
  intros [[? E]|[? [p ?]]]; [exists 0|exists (qc_View q)]; (split; [|split; [lia|left; lia]]); [by left|right; eauto].
Qed.

Lemma loose_more V V' v v' q : more V V' → v ≤ v' → loose_qc V v q → loose_qc V' v' q.
Proof.
  intros HV Hv (g & Hg & ? & Hq). exists g. split_and!; [|done|by destruct Hq; [left|right; lia]].
  destruct Hg as [?|[? ?]]; [by left|right; split; [by eapply more_backed|done]].
Qed.

Lemma more_decided2 V V' b : more V V' → decided2 V b → decided2 V' b.
Proof.
  intros HV (? & v & b0 & (p & b1 & ? & ? & ? & ?) & ? & ?). split; [done|]. exists v, b0.
  split; [|done]. exists p, b1. split_and!; [done..|by eapply more_backed|by eapply more_backed].
Qed.

Context (V : gmap NodeID (list Vote)) (T : tree U) (C : cluster nodes byz).
Context (D : disciplined nodes byz U (λ _ _, True) V).
Context (Hgap : ∀ x l, V !! x = Some l → Forall gapless l).

(** An honest vote for a certified block. *)
Lemma backed_vote id v p :
  backed nodes V id → U id = Some (v, p) →
  ∃ w, vote_BlockID w = id ∧ vote_View w = v ∧ gapless w ∧ (p = 0%N ∨ backed nodes V p).
Proof.
  intros K Hu. destruct (backed_share nodes byz V id id C (di_honest _ _ _ _ _ D) K K) as (h & l & w & _ & Hh & Ew & _ & <- & _).
  pose proof (di_good _ _ _ _ _ D h l Hh) as Hgood. pose proof (Hgap h l Hh) as Hg.
  rewrite Forall_forall in Hgood, Hg. destruct (Hgood w Ew) as (q & Hw & Hq). rewrite Hu in Hw. injection Hw as -> ->.
  exists w. split_and!; [done..|by apply Hg|]. destruct Hq as [[? _]|?]; [by left|by right].
Qed.

(** Below a two-chain there is a certified block of every view. *)
Lemma two_gapless v b0 k : two V v b0 → 1 ≤ k ≤ v → ∃ a p, U a = Some (k, p) ∧ backed nodes V a ∧ extends U b0 a.
Proof.
  revert b0. induction (Z.lt_wf 0 v) as [v _ IH]. intros b0 (p & b1 & U0 & U1 & K0 & K1) Hk.
  destruct (decide (k = v)) as [->|]; [exists b0, p; split_and!; [done..|reflexivity]|].
  destruct (backed_vote b1 (v + 1) b0 K1 U1) as (w & Hid & Hview & Hg & _).
  destruct (Hg b0 p) as [pp Up]; [lia|by rewrite Hid, Hview|rewrite U0; do 2 f_equal; lia|].
  destruct (backed_vote b0 v p K0 U0) as (_ & _ & _ & _ & [->|Kp]); [by rewrite (tr_root _ T) in Up|].
  destruct (IH (v - 1) ltac:(lia) p) as (a & q & Ha & Ka & Hext); [|lia|].
  { exists pp, b0. split_and!; [rewrite Up; do 2 f_equal; lia|rewrite U0; do 2 f_equal; lia|done..]. }
  exists a, q. split_and!; [done..|]. eapply rtc_l; [by exists v|done].
Qed.

Lemma two_extends va a0 vb b0 : two V va a0 → two V vb b0 → va ≤ vb → extends U b0 a0.
Proof.
  intros Ha Hb Hle. pose proof Ha as (pa & a1 & Ua & _ & Ka & _). destruct (tr_view _ T _ _ _ Ua).
  destruct (two_gapless vb b0 va Hb) as (a & p & Ux & Kx & Hext); [lia|].
  by rewrite (disciplined_unique nodes byz U _ V a0 a va pa p C D).
Qed.

(** Decided blocks agree, and have ancestors in all views. *)
Lemma decided2_agree a b :
  decided2 V a → decided2 V b →
  (extends U (b_ID a) (b_ID b) ∨ extends U (b_ID b) (b_ID a)) ∧ (b_View a = b_View b → b_ID a = b_ID b).
Proof.
  intros (Ta & va & a0 & Ha & Ea & _) (Tb & vb & b0 & Hb & Eb & _).
  eapply (heads_agree U a b va vb a0 b0); try done; intros Hle; by eapply two_extends.
Qed.

Lemma decided2_gapless b k :
  decided2 V b → 1 ≤ k ≤ b_View b → ∃ a p, extends U (b_ID b) a ∧ U a = Some (k, p).
Proof.
  intros (Tb & v & b0 & Hb & Eb & Lb) Hk. destruct (two_gapless v b0 k Hb) as (a & p & Ua & _ & Ea); [lia|].
  exists a, p. split; [|done]. destruct (extends_chain U b0 (b_ID b) a Eb Ea) as [|Hab]; [done|].
  destruct (extends_view U _ _ _ _ _ _ T Hab Ua Tb) as [Hle Heq]. rewrite Heq; [reflexivity|lia].
Qed.
End two.

(** ** The invariant of a replica *)
Section replica.
Context `{ReplicaEnv} (nodes : gset NodeID) (U : Identifier → option (Z * Identifier)).
Context (W : gmap NodeID (list Vote)).
Abbreviation V := (known_votes W).
Abbreviation dec2 := (decided2 nodes U).
Abbreviation loose := (loose_qc nodes U).
Abbreviation lmore := (loose_more nodes U).

Definition K (s : chained) : Prop := sound nodes U W dec2 loose s ∧ Forall (gapless U) (cast_votes s).

Context (T : tree U) (Hself : re_ID ∈ nodes) (Hh : honest).

Lemma K_frame s s' :
  store s' = store s → bc s' = bc s → cast_votes s' = cast_votes s → curView_of s ≤ curView_of s' →
  committedBlocks s' = committedBlocks s →
  (∀ k b, bufferedBlocks s' !! k = Some b → bufferedBlocks s !! k = Some b) → K s → K s'.
Proof.
  intros E1 E2 E3 E4 E5 Hb [I1 J2]. split; [by apply (sound_frame nodes U W dec2 loose lmore s)|by rewrite E3].
Qed.

(** *** Certificates *)

Lemma loose_view s q : chained_inv s → loose (V s) (curView_of s) q → 0 ≤ qc_View q < max_int64.
Proof.
  intros CI (g & Hg & Hle & Hq). pose proof (ci_view s CI) as Hv.
  assert (0 ≤ g < max_int64) as Hb.
  { destruct Hg as [[_ ->]|[_ [p Hu]]]; [by split|]. destruct (tr_view _ T _ _ _ Hu). lia. }
  unfold_ints. destruct Hq; lia.
Qed.

Lemma advance_le view p : is_int64 view → view < max_int64 → GetCurView p ≤ GetCurView (advance view p).
Proof.
  intros Hv Hlt. unfold advance, GetCurView. case_decide; simpl; [lia|]. rewrite int64_succ by done. lia.
Qed.

Lemma K_alloc s q : loose (V s) (curView_of s) q → HotStuff.certified q → K s → K (set_store s (store s ++ [q])).
Proof. intros Hq Hc [I1 J2]. split; [by apply sound_alloc|done]. Qed.

Lemma K_updateHighQC p s s' u : K s → updateHighQC p s = Ok (s', u) →
  K s' ∧ (s' = s ∨ s' = set_highQC s p).
Proof.
  intros HK H'. unfold updateHighQC, deref in H'.
  apply prog_bind_ok in H' as (s1 & q & H1 & H'). apply outcome_bind_ok in H1 as (q0 & Hq & H1).
  injection H1 as <- <-. apply prog_bind_ok in H' as (s1 & hp & H1 & H').
  apply gets_ok in H1 as [-> ->]. apply prog_bind_ok in H' as (s1 & h & H1 & H').
  apply outcome_bind_ok in H1 as (h0 & Hhq & H1). injection H1 as <- <-.
  case_decide; [apply modify_ok in H' as ->|apply ret_ok in H' as [-> _]]; split; [|by right|done|by left].
  by apply (K_frame s).
Qed.

Lemma K_processCertificate p s s' u :
  chained_inv s → K s → processCertificate p s = Ok (s', u) → K s' ∧ settled s s'.
Proof.
  intros CI HK H'. unfold processCertificate in H'. apply prog_bind_ok in H' as (s1 & qc & H1 & H').
  apply outcome_bind_ok in H1 as (q & Hq & H1). injection H1 as <- <-.
  destruct (sound_qc nodes U W dec2 loose s _ q (proj1 HK) Hq) as [Hgood Hcert].
  destruct (loose_view s q CI Hgood) as [Hv0 Hv1].
  assert (settled s s) as Hrefl by (by split).
  apply prog_bind_ok in H' as (s1 & v & H1 & H'). apply gets_ok in H1 as [-> ->].
  case_decide as Hold; [by apply ret_ok in H' as [-> _]|].
  apply prog_bind_ok in H' as (s1 & ok & H1 & H').
  assert (s1 = s) as ->.
  { destruct (decide (qc_Leader q = re_ID)) as [|Hne]; [by apply ret_ok in H1 as [-> ->]|by apply lift_ok in H1 as [-> _]]. }
  clear H1. destruct ok; simpl in H'; [|by apply ret_ok in H' as [-> _]].
  apply prog_bind_ok in H' as (s1 & attack & H1 & H').
  assert (s1 = s ∧ attack = false) as [-> ->].
  { replace (re_IsByz && _) with false in H1; [by apply ret_ok in H1 as [-> ->]|].
    destruct Hh as [->|Hs]; [done|]. rewrite bool_decide_eq_false_2 by done. by rewrite andb_false_r. }
  clear H1. apply prog_bind_ok in H' as (s1 & r & H1 & H').
  assert (∃ pv, s1 = set_preferredView s pv) as [pv ->].
  { assert (s = set_preferredView s (preferredView s)) as Es by (by destruct s).
    unfold updatePreferredView in H1. case_decide; [apply ret_ok in H1 as [-> _]; eauto|].
    apply prog_bind_ok in H1 as (s2 & r1 & H2 & H1). apply gets_ok in H2 as [-> ->].
    destruct (GetBlockByID _ _); [|apply ret_ok in H1 as [-> _]; eauto].
    apply prog_bind_ok in H1 as (s2 & v & H2 & H1). apply gets_ok in H2 as [-> ->].
    apply prog_bind_ok in H1 as (s2 & [] & H2 & H1). apply ret_ok in H1 as [-> _].
    case_decide; [apply modify_ok in H2 as ->|apply ret_ok in H2 as [-> _]]; eauto. }
  assert (K (set_preferredView s pv)) as K1 by (by apply (K_frame s)).
  destruct r as [[]|e]; [|by apply modify_ok in H' as ->; split; [apply (K_frame s)|split]].
  apply prog_bind_ok in H' as (s2 & [] & H2 & H').
  destruct (K_updateHighQC _ _ _ _ K1 H2) as (K2 & Hs2).
  apply zoom_ok in H' as (pm' & Hpm & ->). apply modify_ok in Hpm as ->.
  assert (network s2 = network s ∧ store s2 = store s ∧ bc s2 = bc s ∧ pm s2 = pm s) as (N2 & S2 & B2 & P2)
    by (by destruct Hs2 as [-> | ->]).
  assert (curView_of s ≤ curView_of (set_pm s2 (advance (qc_View q) (pm s2)))) as Hcur.
  { rewrite P2. apply advance_le; [unfold_ints; lia|lia]. }
  split; [|split; simpl; by rewrite ?N2, ?S2, ?B2].
  apply (K_frame s2); try done. etrans; [|exact Hcur]. unfold curView_of. by rewrite P2.
Qed.

(** *** Commits *)

(** A commit is by a two-chain; and [ProcessBlock] goes on to vote for a block that
    follows its certificate directly only if the certified one follows its parent
    directly. *)
Lemma K_check_commit cf b s s' r q :
  chained_inv s → K s → qc_deref (store s) (b_QC b) = Ok q → check_commit cf b s = Ok (s', r) →
  K s' ∧ settled s s'
  ∧ (r = inl () → 2 ≤ qc_View q → int64 (qc_View q + 1) = b_View b →
     ∃ b1 b0, U (qc_BlockID q) = Some (b1, b0) ∧ ∃ gg, U b0 = Some (qc_View q - 1, gg)).
Proof.
  intros CI HK Hq H'. pose proof HK as [I1 J2]. assert (settled s s) as Hrefl by (by split).
  unfold check_commit in H'. apply prog_bind_ok in H' as (s1 & qc & H1 & H').
  apply outcome_bind_ok in H1 as (q0 & Hq0 & H1). injection H1 as <- <-. rewrite Hq in Hq0. injection Hq0 as <-.
  destruct (decide (2 ≤ qc_View q ∧ _)) as [[Hge _]|Hno].
  2:{ apply ret_ok in H' as [-> ->]. split_and!; [done..|]. intros _ ? ?. by destruct Hno. }
  apply prog_bind_ok in H' as (s1 & rule & Hrule & H'). unfold commitRule in Hrule.
  apply prog_bind_ok in Hrule as (s2 & q' & H2 & Hrule).
  apply outcome_bind_ok in H2 as (q2 & Hq2 & H2). injection H2 as <- <-. rewrite Hq in Hq2. injection Hq2 as <-.
  apply prog_bind_ok in Hrule as (s2 & par & H3 & Hrule). apply ask_bc_ok in H3 as [-> H3].
  destruct par as [b0|e]; [|apply ret_ok in Hrule as [-> ->]; by apply ret_ok in H' as [-> ->]].
  destruct (decide (int64 (b_View b0 + 1) = qc_View q)) as [Hview|];
    apply ret_ok in Hrule as [-> ->]; [|by apply ret_ok in H' as [-> ->]].
  apply (parent_found _ _ _ _ _ (ci_forest s CI) eq_refl) in H3 as (b1 & Hb1 & Hb0 & Hid).
  do 2 (apply prog_bind_ok in H' as (s1 & v & H4 & H'); apply gets_ok in H4 as [-> ->]).
  apply prog_bind_ok in H' as (s1 & rc & H4 & H'). apply zoom_ok in H4 as (c & H4 & ->).
  destruct (tree_block nodes U W dec2 loose s _ b1 CI I1 Hb1) as (T1 & E1 & _).
  destruct (tree_block nodes U W dec2 loose s _ b0 CI I1 Hb0) as (T0 & E0 & _).
  destruct (tr_view _ T _ _ _ T0). rewrite int64_id in Hview by (unfold_ints; lia).
  pose proof (tr_down _ T _ _ _ _ _ T1 T0) as Hdown.
  destruct (sound_qc nodes U W dec2 loose s _ q I1 Hq) as [(g & [[E _]|[Kq [p Uq]]] & Hle & _) _].
  { by rewrite E, (tr_root _ T) in T1. }
  rewrite T1 in Uq. injection Uq as Eg _.
  assert (two nodes U (V s) (b_View b0) (b_ID b0)) as Htwo.
  { rewrite E0. exists (b_PrevID b0), (qc_BlockID q). rewrite T0, T1.
    split_and!; [done|do 2 f_equal; lia| |done].
    eapply (parent_backed nodes U W dec2 loose T s b1); [done|done|apply (i_blocks _ _ _ _ _ _ I1 _ _ Hb1)|exact Hb0]. }
  assert (∃ b1 b0, U (qc_BlockID q) = Some (b1, b0) ∧ ∃ gg, U b0 = Some (qc_View q - 1, gg)) as Hrule.
  { exists (b_View b1), (b_PrevID b1). split; [done|]. exists (b_PrevID b0). rewrite T0. do 2 f_equal. lia. }
  destruct (sound_commit nodes U W dec2 loose T lmore cf b0 (curView_of s) s c rc) as (Hsub & _ & _ & Hs);
    [done|done|by rewrite E0| |done|].
  { intros x Hx Hext Hlex. split; [done|]. by exists (b_View b0), (b_ID b0). }
  destruct rc as [[committed forked]|e].
  - apply prog_bind_ok in H' as (s1 & [] & H5 & H'). apply modify_ok in H5 as ->. apply ret_ok in H' as [-> _].
    split_and!; [by split|by split|done].
  - apply ret_ok in H' as [-> _]. split_and!; [by split|by split|done].
Qed.

(** *** Votes *)

Lemma K_ProcessVote v s s' u :
  chained_inv s → typed_vote v → K s → fair_vote nodes U (V s) v → ProcessVote v s = Ok (s', u) → K s'.
Proof.
  intros CI Htv HK Hv H'. unfold ProcessVote in H'. apply prog_bind_ok in H' as (s1 & ok & H1 & H').
  assert (s1 = s) as ->.
  { destruct (decide (re_ID = vote_Voter v)); [by apply ret_ok in H1 as [-> _]|by apply lift_ok in H1 as [-> _]]. }
  clear H1. destruct ok; simpl in H'; [|by apply ret_ok in H' as [-> _]].
  apply prog_bind_ok in H' as (s1 & [built qc] & H1 & H').
  destruct (sound_AddVote nodes U W dec2 loose v s s1 built qc (proj1 HK) Hv H1) as (I1 & [Q E1] & Hqc).
  assert (K s1) as K1 by (split; [done|subst s1; apply HK]).
  destruct (keeps_AddVote (RL := tchs_rules) v s s1 _ CI H1) as (CI1 & _ & Hview).
  destruct built; simpl in H'; [|by apply ret_ok in H' as [-> _]].
  apply prog_bind_ok in H' as (s2 & q & H2 & H'). apply lift_ok in H2 as [-> H2]. apply of_option_ok in H2 as ->.
  specialize (Hqc q eq_refl eq_refl). assert (V s1 = V s) as EV by (by subst s1).
  rewrite <- EV in Hqc. apply prog_bind_ok in H' as (s2 & p & H2 & H').
  destruct (keeps_alloc (RL := tchs_rules) (qc_with_Leader re_ID q)) with (s := s1) (s' := s2) (a := p) as (CI2 & _ & _);
    [unfold typed_qc; simpl; by rewrite (Hview q eq_refl)|done|done|].
  unfold alloc in H2. simpl in H2. injection H2 as <- <-.
  assert (K (set_store s1 (store s1 ++ [qc_with_Leader re_ID q]))) as K2
    by (apply K_alloc; [by apply good_loose|by left|done]).
  apply prog_bind_ok in H' as (s2 & r & H2 & H'). apply gets_ok in H2 as [-> ->].
  destruct (GetBlockByID _ _) as [b|e].
  - by eapply K_processCertificate.
  - apply modify_ok in H' as ->. by eapply (K_frame (set_store s1 _)).
Qed.

(** A vote that obeys the voting rule for a block without a gap. *)
Lemma K_emit b v w o s :
  chained_inv s → K s → good_block nodes U (V s) b → HotStuff.may_vote s b → cast_vote_of o = Some v →
  vote_View v = b_View b → vote_BlockID v = b_ID b → gapless U v → K (emit s w o).
Proof.
  intros CI [I1 J2] Hb Hmay Ho Hview Hid Hgap.
  split; [by apply (sound_emit nodes U W dec2 loose T (more_decided2 nodes U) lmore b v)|].
  rewrite (cast_emit s w o v Ho). apply Forall_app. split; [done|by repeat constructor].
Qed.

Lemma K_cast_vote b s s' u :
  chained_inv s → typed_block b → K s → good_block nodes U (V s) b → HotStuff.may_vote s b →
  IsLeader (b_Proposer b) (b_View b) = Ok true →
  (∀ v, vote_View v = b_View b → vote_BlockID v = b_ID b → gapless U v) →
  cast_vote b s = Ok (s', u) → K s' ∧ chained_inv s'.
Proof.
  intros CI Htb HK Hb Hmay Hlead Hgap H'. unfold cast_vote in H'.
  apply prog_bind_ok in H' as (s1 & v & H1 & H'). apply lift_ok in H1 as [-> H1].
  destruct (MakeVote_ok _ _ _ _ H1) as (Hview & Hvoter & Hid & _).
  apply prog_bind_ok in H' as (s1 & to & H2 & H'). apply lift_ok in H2 as [-> H2]. case_decide as Hto.
  - apply prog_bind_ok in H' as (s1 & [] & H3 & H'). apply modify_ok in H3 as ->. subst to.
    destruct (emit_keeps (RL := tchs_rules) (Some b) (OwnVote v) s CI) as [CI1 _]; [split_and!; done|].
    assert (K (emit s (Some b) (OwnVote v))) as K1 by (eapply (K_emit b v); try done; by apply Hgap).
    assert (typed_vote v) as Htv by (unfold typed_vote; by rewrite Hview).
    split; [|by destruct (tchs_ProcessVote v Htv _ s' u CI1 H')].
    by eapply K_ProcessVote; [exact CI1|done|done|eapply (own_vote_fair nodes U W Hself b)|exact H'].
  - apply modify_ok in H' as ->. split; [eapply (K_emit b v); try done; by apply Hgap|].
    apply (emit_keeps (RL := tchs_rules)); [done|]. split_and!; done.
Qed.

(** *** The handlers *)

Lemma K_process_buffered_QC b s s' u :
  chained_inv s → K s → process_buffered_QC b s = Ok (s', u) → K s' ∧ settled s s'.
Proof.
  intros CI HK H'.
  unfold process_buffered_QC in H'. apply prog_bind_ok in H' as (s1 & m & H1 & H'). apply gets_ok in H1 as [-> ->].
  destruct (bufferedQCs s !! b_ID b) as [q|]; [|apply ret_ok in H' as [-> _]; split; [done|by split]].
  apply prog_bind_ok in H' as (s1 & [] & H1 & H'). apply modify_ok in H' as ->.
  destruct (K_processCertificate q s s1 () CI HK H1) as (K1 & [N1 N2 N3 N4]).
  split; [by apply (K_frame s1)|by split].
Qed.

Definition takes_block (rec : Block → prog chained (result ())) : Prop :=
  ∀ b s s' r, chained_inv s → typed_block b → K s → good_block nodes U (V s) b → carries (store s) b →
    (b_Proposer b = re_ID → b_View b ≤ curView_of s) → rec b s = Ok (s', r) → K s'.

Lemma K_vote rec b s s' r :
  takes_block rec → chained_inv s → typed_block b → K s → good_block nodes U (V s) b →
  (∀ v, vote_View v = b_View b → vote_BlockID v = b_ID b → gapless U v) →
  IsLeader (b_Proposer b) (b_View b) = Ok true → vote_and_continue rec b s = Ok (s', r) → K s'.
Proof.
  intros Hrec CI Htb HK Hb Hgap Hlead H'. unfold vote_and_continue in H'.
  apply prog_bind_ok in H' as (s5 & shouldVote & H5 & H').
  destruct (HotStuff.votingRule_ok b s s5 shouldVote CI H5) as [-> Hmay].
  destruct shouldVote as [[]|e]; [|by apply ret_ok in H' as [-> _]..]. specialize (Hmay eq_refl).
  apply prog_bind_ok in H' as (s5 & [] & H6 & H').
  destruct (K_cast_vote b s s5 ()) as [K5 CI5]; [done..|].
  apply prog_bind_ok in H' as (s6 & m & H7 & H'). apply gets_ok in H7 as [-> ->].
  destruct (bufferedBlocks s5 !! b_View b) as [c|] eqn:Hc; [|by apply ret_ok in H' as [-> _]].
  destruct (i_buffered _ _ _ _ _ _ (proj1 K5) _ c Hc) as (Hgc & Hcc & Hoc). destruct (ci_buffer s5 CI5 _ c Hc) as [Htc _].
  by eapply Hrec.
Qed.

(** A block that is not stale has no gap if [check_commit] lets it pass: if it follows
    its parent directly then the view of its certificate was not overwritten. *)
Lemma block_gapless b q s v :
  chained_inv s → K s → good_block nodes U (V s) b → qc_deref (store s) (b_QC b) = Ok q → qc_BlockID q = b_PrevID b →
  curView_of s ≤ b_View b →
  (2 ≤ qc_View q → int64 (qc_View q + 1) = b_View b →
     ∃ b1 b0, U (qc_BlockID q) = Some (b1, b0) ∧ ∃ gg, U b0 = Some (qc_View q - 1, gg)) →
  vote_View v = b_View b → vote_BlockID v = b_ID b → gapless U v.
Proof.
  intros CI HK [Hb _] Hq Hqid Hle Hpass Hv Hid p g H3 U1 U2. rewrite Hv, Hid in *. unfold in_tree in Hb.
  rewrite Hb in U1. injection U1 as <-.
  destruct (sound_qc nodes U W dec2 loose s _ q (proj1 HK) Hq) as [Hloose _].
  destruct (loose_view s q CI Hloose) as [_ Hmax].
  destruct Hloose as (g0 & [[E _]|[_ [x Hx]]] & Hge & Hor).
  { by rewrite <- Hqid, E, (tr_root _ T) in U2. }
  rewrite Hqid, U2 in Hx. injection Hx as Eg <-. assert (qc_View q = b_View b - 1) as Ev by lia.
  destruct Hpass as (b1 & b0 & Ub1 & gg & Ub0); [lia|rewrite int64_id by (unfold_ints; lia); lia|].
  rewrite Hqid, U2 in Ub1. injection Ub1 as _ <-. exists gg. rewrite Ub0. do 2 f_equal. lia.
Qed.

Lemma K_accept rec cf b q s2 s' r :
  takes_block rec → chained_inv s2 → typed_block b → K s2 → good_block nodes U (V s2) b →
  qc_deref (store s2) (b_QC b) = Ok q → qc_BlockID q = b_PrevID b → curView_of s2 ≤ b_View b →
  IsLeader (b_Proposer b) (b_View b) = Ok true → accept_block rec cf b s2 = Ok (s', r) → K s'.
Proof.
  intros Hrec CI2 Htb K2 Hb Hq Hqid Hle Hlead H'. unfold accept_block in H'.
  apply prog_bind_ok in H' as (s3 & u3 & H3 & H').
  destruct (keeps_AddBlock (RL := tchs_rules) b Htb s2 s3 u3 CI2 H3) as (CI3 & _ & _).
  destruct (sound_AddBlock nodes U W dec2 loose b s2 s3 u3) as (I3 & [bc3 E3] & _ & _); [done|apply K2|done|done|].
  assert (K s3) as K3 by (split; [done|]; subst s3; apply K2).
  apply prog_bind_ok in H' as (s4 & r4 & H4 & H').
  destruct (tchs_check_commit cf b Hlead s3 s4 r4 CI3 H4) as (CI4 & _ & _).
  destruct (K_check_commit cf b s3 s4 r4 q) as (K4 & [N4 _ _ _] & Hpass); [done|done|by subst s3|done|].
  destruct r4 as [[]|r4]; [|by apply ret_ok in H' as [-> _]]. specialize (Hpass eq_refl).
  apply prog_bind_ok in H' as (s5 & u5 & H5 & H').
  destruct (tchs_process_buffered_QC b s4 s5 u5 CI4 H5) as (CI5 & _ & _).
  destruct (K_process_buffered_QC b s4 s5 u5 CI4 K4 H5) as (K5 & [N5 _ _ _]).
  destruct (known_same W s2 s5) as [EV _]; [rewrite N5, N4; by subst s3|].
  eapply (K_vote rec b s5); try done; [by rewrite EV|]. intros v. by apply (block_gapless b q s2).
Qed.

Lemma K_ProcessBlock_body rec cf : takes_block rec → takes_block (ProcessBlock_body rec cf).
Proof.
  intros Hrec b s s' r CI Htb HK Hb Hc Hown H'. unfold ProcessBlock_body in H'.
  apply prog_bind_ok in H' as (s1 & v & H1 & H'). apply gets_ok in H1 as [-> ->].
  apply prog_bind_ok in H' as (s1 & ok & H1 & H').
  assert (s1 = s) as ->.
  { destruct (decide (b_Proposer b = re_ID)); [by apply ret_ok in H1 as [-> _]|by apply lift_ok in H1 as [-> _]]. }
  clear H1. case_decide as Hahead.
  { apply prog_bind_ok in H' as (s1 & [] & H1 & H'). apply modify_ok in H1 as ->. apply ret_ok in H' as [-> _].
    split; [apply sound_buffer; [apply HK|done..]|apply HK]. }
  destruct Hc as (q & Hq & Hqid). destruct (b_QC b) as [qc|] eqn:Hqc; [|by apply ret_ok in H' as [-> _]].
  apply prog_bind_ok in H' as (s1 & [] & H1 & H').
  destruct (K_updateHighQC _ _ _ _ HK H1) as (K1 & Hs1).
  destruct (tchs_updateHighQC _ _ _ _ CI H1) as (CI1 & _ & _).
  assert (network s1 = network s ∧ store s1 = store s) as (N1 & S1) by (by destruct Hs1 as [-> | ->]).
  apply prog_bind_ok in H' as (s2 & u2 & H2 & H').
  assert (K s2 ∧ chained_inv s2 ∧ settled s1 s2) as (K2 & CI2 & [N2 S2 _ _]).
  { destruct (decide (b_Proposer b = re_ID)).
    - apply ret_ok in H2 as [-> _]. split_and!; [done..|by split].
    - destruct (K_processCertificate _ s1 s2 u2 CI1 K1 H2) as (K2 & Hset).
      by destruct (tchs_processCertificate _ s1 s2 u2 CI1 H2) as (CI2 & _ & _). }
  clear H2. apply prog_bind_ok in H' as (s3 & v & H2 & H'). apply gets_ok in H2 as [-> ->].
  case_decide as Hold; [by apply ret_ok in H' as [-> _]|].
  apply prog_bind_ok in H' as (s3 & lead & H2 & H'). apply lift_ok in H2 as [-> Hlead].
  destruct lead; simpl in H'; [|by apply ret_ok in H' as [-> _]].
  destruct (known_same W s s2) as [EV _]; [congruence|].
  eapply (K_accept rec cf b q s2); try done; [by rewrite EV|by rewrite S2, S1, Hqc|lia].
Qed.

Lemma K_ProcessBlock cf fuel : takes_block (ProcessBlock cf fuel).
Proof. induction fuel as [|fuel IH]; simpl; by apply K_ProcessBlock_body. Qed.

(** *** Proposals *)

(** Overwriting the view of the highest certificate by the view before the current
    one, in a proposal for a block of the tree. *)
Lemma K_forkChoice s s' p q view id :
  chained_inv s → K s → forkChoice s = Ok (s', p) → qc_deref (store s') p = Ok q →
  U id = Some (view, qc_BlockID q) → view ≤ curView_of s → K s' ∧ curView_of s' = curView_of s ∧ network s' = network s.
Proof.
  intros CI [I1 J2] H' Hq Hid Hle. unfold forkChoice, GetHighQC in H'.
  apply prog_bind_ok in H' as (s1 & c & H1 & H'). apply gets_ok in H1 as [-> ->].
  apply prog_bind_ok in H' as (s1 & v & H1 & H'). apply gets_ok in H1 as [-> ->].
  apply prog_bind_ok in H' as (s1 & [] & H1 & H'). apply ret_ok in H' as [-> ->].
  unfold assign_View in H1. apply outcome_bind_ok in H1 as (a & Ha & H1). apply of_option_ok in Ha. injection H1 as <-.
  split_and!; [|done..]. split; [|done].
  apply qc_deref_ok in Hq as (a' & Ha' & Hq). rewrite Ha in Ha'. injection Ha' as <-. simpl in Hq.
  rewrite list_lookup_alter_eq in Hq. apply fmap_Some in Hq as (q0 & Hq0 & ->). simpl in Hid.
  destruct (tr_view _ T _ _ _ Hid) as [Hge _]. pose proof (ci_view s CI) as Hcv.
  assert (int64 (curView_of s - 1) = curView_of s - 1) as Ei by (apply int64_id; unfold_ints; lia). rewrite Ei.
  destruct I1 as [I1 I2 I4 I5 I6 I7 I8]. split; try done; simpl.
  - apply Forall_alter; [done|]. rewrite Hq0. intros x [= <-] [(g & Hg & Hgl & _) Hc]. split; [|done].
    exists g. split_and!; [done| |right; unfold curView_of; simpl; lia]. simpl.
    destruct Hg as [[_ ->]|[_ [x Hx]]]; [lia|]. pose proof (tr_down _ T _ _ _ _ _ Hid Hx). lia.
  - intros k b Hk. destruct (I4 k b Hk) as (? & (x & Hx & Hxid) & ?). split_and!; [done| |done].
    apply qc_deref_ok in Hx as (i & Hi & Hx). destruct (decide (i = a)) as [->|Hne].
    + exists (qc_with_View (curView_of s - 1) x). split; [|done]. apply qc_deref_ok. exists a. split; [done|].
      by rewrite list_lookup_alter_eq, Hx.
    + exists x. split; [|done]. apply qc_deref_ok. exists i. by rewrite list_lookup_alter_ne.
Qed.

(** A replica that handles its own proposal. *)
Lemma K_own_block cf fuel b q now s s' r :
  chained_inv s → K s → typed_block b → in_tree U b → b_View b ≤ curView_of s →
  qc_deref (store s) (b_QC b) = Ok q → b_PrevID b = qc_BlockID q →
  ProcessBlock cf fuel (with_Timestamp now b) s = Ok (s', r) → K s'.
Proof.
  intros CI HK Htb Hb Hle Hq Hprev H'.
  destruct (sound_qc nodes U W dec2 loose s _ q (proj1 HK) Hq) as [(g & Hg & _) _].
  eapply (K_ProcessBlock cf fuel (with_Timestamp now b)); [done|done|done| | |done|exact H'].
  - split; [done|]. simpl. rewrite Hprev. destruct Hg as [[? _]|[? _]]; [by left|by right].
  - by exists q.
Qed.

(** *** Timeouts *)

Lemma K_advance s view : K s → is_int64 view → view < max_int64 → K (set_pm s (advance view (pm s))).
Proof. intros HK Hv Hlt. apply (K_frame s); try done. by apply advance_le. Qed.

Lemma K_ProcessRemoteTmo tmo s s' u :
  K s → is_int64 (tmo_View tmo) → tmo_View tmo < max_int64 → ProcessRemoteTmo tmo s = Ok (s', u) → K s'.
Proof.
  intros HK Hv Hlt H'. unfold ProcessRemoteTmo in H'.
  apply prog_bind_ok in H' as (s1 & v & H1 & H'). apply gets_ok in H1 as [-> ->].
  case_decide; [by apply ret_ok in H' as [-> _]|].
  apply prog_bind_ok in H' as (s1 & [built tc] & H1 & H'). apply zoom_ok in H1 as (p & Hp & ->).
  destruct (pm_ProcessRemoteTmo_views _ _ _ _ Hp) as [Hcur _].
  pose proof (pm_ProcessRemoteTmo_TC _ _ _ _ Hp) as Htc. simpl in Htc.
  assert (K (set_pm s p)) as K1.
  { apply (K_frame s); try done. unfold curView_of, GetCurView in *. simpl. lia. }
  destruct built; simpl in H'; [|by apply ret_ok in H' as [-> _]].
  apply prog_bind_ok in H' as (s1 & t & H1 & H'). apply lift_ok in H1 as [-> H1]. apply of_option_ok in H1 as ->.
  specialize (Htc t eq_refl). unfold processTC in H'.
  apply prog_bind_ok in H' as (s1 & v & H1 & H'). apply gets_ok in H1 as [-> ->].
  case_decide; [by apply ret_ok in H' as [-> _]|]. apply zoom_ok in H' as (p2 & Hp2 & ->). apply modify_ok in Hp2 as ->.
  apply (K_advance (set_pm s p)); [done|by rewrite Htc..].
Qed.

Lemma K_ProcessLocalTmo s s' u :
  chained_inv s → K s → curView_of s < max_int64 - 2 → ProcessLocalTmo (curView_of s) s = Ok (s', u) → K s'.
Proof.
  intros CI HK Hlt H'. pose proof (ci_view s CI) as Hcv. unfold ProcessLocalTmo, GetHighQC in H'.
  assert (int64 (curView_of s + 1) = curView_of s + 1) as E1 by (apply int64_id; unfold_ints; lia). rewrite E1 in H'.
  apply prog_bind_ok in H' as (s1 & [] & H1 & H'). apply zoom_ok in H1 as (p & Hp & ->). apply modify_ok in Hp as ->.
  apply prog_bind_ok in H' as (s1 & h & H1 & H'). apply gets_ok in H1 as [-> ->].
  apply prog_bind_ok in H' as (s1 & [] & H1 & H'). apply modify_ok in H1 as ->.
  eapply K_ProcessRemoteTmo; [|..|exact H']; simpl; [|unfold_ints; lia..].
  apply (K_frame (set_pm s (advance (curView_of s + 1) (pm s)))); try done.
  - unfold cast_votes. simpl. by rewrite omap_app, app_nil_r.
  - apply K_advance; [done|unfold_ints; lia..].
Qed.

(** *** Events *)

Lemma K_handle cf fuel e s s' :
  chained_inv s → K s → typed_event e → fair_event nodes U W true tchs_safety s e →
  handle cf fuel e s = Ok (s', ()) → K s'.
Proof.
  intros CI HK Ht He H'. destruct e as [b [qc|]|v|view id [qc|]| |view payload now|n pr view now| |]; try done; simpl in He.
  - destruct He as (Hb & Hq & Hc & Hid & Hp), Ht as [Htb Htq]. cbn in H'.
    apply prog_bind_ok in H' as (s1 & a & H1 & H'). injection H1 as <- <-.
    apply prog_bind_ok in H' as (s1 & r & H1 & H'). apply ret_ok in H' as [-> _].
    destruct (keeps_alloc (RL := tchs_rules) qc Htq s (set_store s (store s ++ [qc])) (Some (length (store s))) CI) as (CI1 & _ & _); [reflexivity|].
    eapply (K_ProcessBlock cf fuel (with_QC b (Some (length (store s))))); [exact CI1|done|apply K_alloc; [by apply good_loose|done..]| | |done|exact H1].
    + by eapply (good_parent nodes U _ b qc).
    + exists qc. split; [|done]. apply qc_deref_ok. eexists. split; [done|]. by apply list_lookup_middle.
  - eapply (K_ProcessVote v s); [done|done|done|done|exact H'].
  - destruct He as (_ & Hlt & Hq & Hc), Ht as [Hv _]. cbn in H'.
    apply prog_bind_ok in H' as (s1 & a & H1 & H'). injection H1 as <- <-.
    eapply K_ProcessRemoteTmo; [apply K_alloc; [by apply good_loose|done..]|..|exact H']; done.
  - destruct He as [_ Hlt]. apply prog_bind_ok in H' as (s1 & v & H1 & H'). apply gets_ok in H1 as [-> ->].
    by eapply K_ProcessLocalTmo.
  - destruct He as [Hle Hb]. apply prog_bind_ok in H' as (s1 & b & H1 & H'). specialize (Hb s1 b H1).
    destruct (tchs_MakeProposal view payload Ht s s1 b CI H1) as (CI1 & _ & Htb).
    change (MakeProposal view payload s = Ok (s1, b)) in H1.
    apply prog_bind_ok in H1 as (s2 & p & H2 & H1).
    apply prog_bind_ok in H1 as (s3 & q & H3 & H1). apply outcome_bind_ok in H3 as (q' & Hq & H3). injection H3 as <- <-.
    apply prog_bind_ok in H1 as (s3 & st & H3 & H1). apply gets_ok in H3 as [-> ->]. apply lift_ok in H1 as [-> H1].
    apply MakeBlock_ok in H1 as (Hv & Hqc & Hprev & _). apply prog_bind_ok in H' as (s3 & r & H' & H3). apply ret_ok in H3 as [-> _].
    unfold in_tree in Hb. rewrite Hprev in Hb.
    destruct (K_forkChoice s s2 p q' (b_View b) (b_ID b)) as (K2 & E2 & _); [done..|lia|].
    eapply (K_own_block cf fuel b q'); try done; [unfold in_tree; by rewrite Hprev|lia|by rewrite Hqc].
  - destruct He as [Hle Hb]. apply prog_bind_ok in H' as (s1 & b & H1 & H'). specialize (Hb s1 b H1).
    destruct (tchs_MakePProposal n pr view Ht s s1 b CI H1) as (CI1 & _ & Htb).
    change (MakePProposal n pr view s = Ok (s1, b)) in H1.
    apply prog_bind_ok in H1 as (s2 & p & H2 & H1).
    apply prog_bind_ok in H1 as (s3 & batch & H3 & H1). apply lift_ok in H3 as [-> _].
    apply prog_bind_ok in H1 as (s3 & q & H3 & H1). apply outcome_bind_ok in H3 as (q' & Hq & H3). injection H3 as <- <-.
    apply prog_bind_ok in H1 as (s3 & st & H3 & H1). apply gets_ok in H3 as [-> ->]. apply lift_ok in H1 as [-> H1].
    apply MakePBlock_ok in H1 as (Hv & Hqc & Hprev & _). apply prog_bind_ok in H' as (s3 & r & H' & H3). apply ret_ok in H3 as [-> _].
    unfold in_tree in Hb. rewrite Hprev in Hb.
    destruct (K_forkChoice s s2 p q' (b_View b) (b_ID b)) as (K2 & E2 & _); [done..|lia|].
    eapply (K_own_block cf fuel b q'); try done; [unfold in_tree; by rewrite Hprev|lia|by rewrite Hqc].
  - apply modify_ok in H' as ->. by apply K_advance.
Qed.
End replica.

Lemma K_initial `{ReplicaEnv} nodes U W : re_N = Z.of_nat (base.size nodes) → K nodes U W initial.
Proof.
  intros HN. split; [|constructor]. apply sound_initial; try done. apply good_loose. by left.
Qed.

Lemma K_more `{ReplicaEnv} nodes U W W' s :
  more (known_votes W s) (known_votes W' s) → K nodes U W s → K nodes U W' s.
Proof. intros HV [I1 J2]. split; [by eapply sound_more; [apply more_decided2|apply loose_more|..]|done]. Qed.

Lemma tchs_keeps `{ReplicaEnv} cf fuel e s s' :
  honest → typed_event e → chained_inv s → handle cf fuel e s = Ok (s', ()) →
  chained_inv s' ∧ cast_votes s `prefix_of` cast_votes s'.
Proof.
  intros _ He CI H'. destruct (tchs_handle cf fuel e He s s' () CI H') as (CI' & A & _). split; [done|].
  destruct (advances_network _ _ A) as [os E]. unfold cast_votes. rewrite E, omap_app. by eexists.
Qed.

Lemma always_sorted (l : list Vote) : StronglySorted (λ _ _ : Vote, True) l.
Proof. induction l; constructor; [done|]. by apply Forall_true. Qed.

#[export] Instance tchs_careful : Careful (@tchs_safety) := {
  ca_initial := @initial;
  ca_dec := decided2;
  ca_respects := λ _ _ _, True;
  ca_vote := gapless;
  ca_timeouts := true;
  ca_okqc := loose_qc;
  ca_J := @K;
  ca_inv := @tchs_initial_inv;
  ca_keeps := @tchs_keeps;
  ca_start := @K_initial;
  ca_sound := λ E nodes U W s HJ, proj1 HJ;
  ca_sorted := λ E nodes U W s _ _, always_sorted _;
  ca_votes := λ E nodes U W s HJ, proj2 HJ;
  ca_more := @K_more;
  ca_handle := λ E nodes byz U W cf fuel e s s' T _ Hself Hh _ _ _ CI HJ He Hf H',
    @K_handle E nodes U W T Hself Hh cf fuel e s s' CI HJ He Hf H'
}.

(** ** The theorems *)

(** [C2] Agreement of two-chain HotStuff.  In a cluster of which less than a third is
    Byzantine, with a network whose blocks and certificates pass the checks that the
    code leaves out, with timeouts, and if every honest replica has voted in increasing
    views: two blocks that honest replicas have committed are on one chain, and equal
    if they are of one view. *)
Theorem tchs_agreement env nodes byz U ids sys id1 id2 b1 b2 :
  deployed env nodes byz → tree U → cluster nodes byz → list_to_set ids = nodes ∖ byz →
  careful_run (@tchs_safety) env nodes U true (start (@tchs_safety) env ids) sys → one_vote_per_view sys →
  b1 ∈ committed_by sys id1 → b2 ∈ committed_by sys id2 →
  (extends U (b_ID b1) (b_ID b2) ∨ extends U (b_ID b2) (b_ID b1))
  ∧ (b_View b1 = b_View b2 → b_ID b1 = b_ID b2).
Proof.
  intros D T C Hids Hrun Hone H1 H2.
  pose proof (system_inv_run (@tchs_safety) env nodes byz U D T C ids sys Hids Hrun) as I.
  apply (decided2_agree nodes byz U (cast_votes <$> sys) T C);
    [exact (system_disciplined (@tchs_safety) env nodes byz U D sys I Hone)
    |exact (λ x l, system_votes (@tchs_safety) env nodes byz U sys x l I Hone)
    |exact (system_decided (@tchs_safety) env nodes byz U D sys id1 b1 I Hone H1)
    |exact (system_decided (@tchs_safety) env nodes byz U D sys id2 b2 I Hone H2)].
Qed.

(** [C11] One view without a certified block ends the commits of two-chain HotStuff: under
    the same conditions, a block that an honest replica has committed has an ancestor
    in every view from 1 to its own. *)
Theorem tchs_commits_gapless env nodes byz U ids sys id b k :
  deployed env nodes byz → tree U → cluster nodes byz → list_to_set ids = nodes ∖ byz →
  careful_run (@tchs_safety) env nodes U true (start (@tchs_safety) env ids) sys → one_vote_per_view sys →
  b ∈ committed_by sys id → 1 ≤ k ≤ b_View b → ∃ a p, extends U (b_ID b) a ∧ U a = Some (k, p).
Proof.
  intros D T C Hids Hrun Hone Hb.
  pose proof (system_inv_run (@tchs_safety) env nodes byz U D T C ids sys Hids Hrun) as I.
  apply (decided2_gapless nodes byz U (cast_votes <$> sys) T C);
    [exact (system_disciplined (@tchs_safety) env nodes byz U D sys I Hone)
    |exact (λ x l, system_votes (@tchs_safety) env nodes byz U sys x l I Hone)
    |exact (system_decided (@tchs_safety) env nodes byz U D sys id b I Hone Hb)].
Qed.

(** ** No votes after a gap *)

(** What the handling of a certificate leaves alone. *)
Definition leaves (s s' : chained) : Prop :=
  network s' = network s ∧ committedBlocks s' = committedBlocks s ∧ bc s' = bc s ∧ store s' = store s.

#[global] Instance leaves_preorder : PreOrder leaves.
Proof.
  split; [by intros s|]. intros s1 s2 s3 (A1 & A2 & A3 & A4) (B1 & B2 & B3 & B4). split_and!; congruence.
Qed.

Abbreviation calm m := (preserves (λ _, True) leaves anything m) (only parsing).

Lemma calm_modify f : (∀ s, leaves s (f s)) → calm (modify f).
Proof. intros Hf. apply preserves_modify. by intros s _. Qed.
Lemma calm_deref p : calm (deref p).
Proof. intros s s' q _ H'. apply outcome_bind_ok in H' as (? & _ & H'). by injection H' as <- <-. Qed.
Lemma calm_pm {A} (m : prog Pacemaker A) : calm (on_pm m).
Proof. intros s s' a _ H'. by apply zoom_ok in H' as (p & _ & ->). Qed.
#[local] Hint Resolve calm_deref calm_pm : go.
#[local] Hint Extern 2 (preserves _ leaves _ (modify _)) => apply calm_modify; by intros ? : go.

Lemma calm_updateHighQC `{ReplicaEnv} p : calm (updateHighQC p).
Proof. unfold updateHighQC. preserve. Qed.
Lemma calm_updatePreferredView `{ReplicaEnv} qc : calm (updatePreferredView qc).
Proof. unfold updatePreferredView. preserve. Qed.
#[local] Hint Resolve calm_updateHighQC calm_updatePreferredView : go.
Lemma calm_processCertificate `{ReplicaEnv} p : calm (processCertificate p).
Proof. unfold processCertificate. preserve. Qed.

(** A block that follows its certificate directly, where the certified block does not
    follow its parent directly, gets no vote. *)
Lemma gap_ignored `{ReplicaEnv} cf fuel b q b1 b0 s s' r :
  chained_inv s → qc_deref (store s) (b_QC b) = Ok q → 2 ≤ qc_View q → int64 (qc_View q + 1) = b_View b →
  GetVertex (forrest (bc s)) (qc_BlockID q) = Some b1 → GetVertex (forrest (bc s)) (b_PrevID b1) = Some b0 →
  int64 (b_View b0 + 1) ≠ qc_View q → ProcessBlock cf fuel b s = Ok (s', r) →
  network s' = network s ∧ committedBlocks s' = committedBlocks s.
Proof.
  intros CI Hq Hge Hview Hb1 Hb0 Hgap Hrun.
  assert (∃ rec, ProcessBlock_body rec cf b s = Ok (s', r)) as [rec H'] by (destruct fuel; by eexists). clear Hrun.
  unfold ProcessBlock_body in H'.
  apply prog_bind_ok in H' as (s1 & v & H1 & H'). apply gets_ok in H1 as [-> ->].
  apply prog_bind_ok in H' as (s1 & ok & H1 & H').
  assert (s1 = s) as ->.
  { destruct (decide (b_Proposer b = re_ID)); [by apply ret_ok in H1 as [-> _]|by apply lift_ok in H1 as [-> _]]. }
  clear H1. case_decide as Hahead.
  { apply prog_bind_ok in H' as (s1 & [] & H1 & H'). apply modify_ok in H1 as ->. by apply ret_ok in H' as [-> _]. }
  destruct (b_QC b) as [qc|] eqn:Hqc; [|by apply ret_ok in H' as [-> _]].
  apply prog_bind_ok in H' as (s1 & [] & H1 & H').
  destruct (calm_updateHighQC _ _ _ _ Logic.I H1) as (_ & A1 & _).
  destruct (tchs_updateHighQC _ _ _ _ CI H1) as (CI1 & _ & _).
  apply prog_bind_ok in H' as (s2 & u2 & H2 & H').
  assert (leaves s s2 ∧ chained_inv s2) as [(N2 & C2 & B2 & S2) CI2].
  { destruct (decide (b_Proposer b = re_ID)); [by apply ret_ok in H2 as [-> _]|].
    destruct (calm_processCertificate _ _ _ _ Logic.I H2) as (_ & A2 & _).
    destruct (tchs_processCertificate _ _ _ _ CI1 H2) as (CI2 & _ & _). split; [by transitivity s1|done]. }
  apply prog_bind_ok in H' as (s3 & v & H3 & H'). apply gets_ok in H3 as [-> ->].
  case_decide as Hstale; [by apply ret_ok in H' as [-> _]|].
  apply prog_bind_ok in H' as (s3 & lead & H3 & H'). apply lift_ok in H3 as [-> _].
  destruct lead; simpl in H'; [|by apply ret_ok in H' as [-> _]]. unfold accept_block in H'.
  apply prog_bind_ok in H' as (s3 & u3 & H3 & H'). apply zoom_ok in H3 as (c & (f & Hf & ->)%AddBlock_ok & ->).
  destruct (AddVertex_spec _ _ _ _ (ci_forest s2 CI2) Hf) as (If & _ & Hget). rewrite B2 in Hget.
  assert (GetVertex f (qc_BlockID q) = Some b1) as Hb1' by (rewrite Hget, Hb1; by destruct (decide (_ ∧ _))).
  assert (GetVertex f (b_PrevID b1) = Some b0) as Hb0' by (rewrite Hget, Hb0; by destruct (decide (_ ∧ _))).
  apply prog_bind_ok in H' as (s4 & r4 & H4 & H'). unfold check_commit in H4. rewrite Hqc in H4.
  apply prog_bind_ok in H4 as (s5 & q5 & H5 & H4). apply outcome_bind_ok in H5 as (q6 & Hq6 & H5).
  injection H5 as <- <-. simpl in Hq6. rewrite S2, Hq in Hq6. injection Hq6 as <-.
  rewrite decide_True in H4 by done. unfold commitRule in H4. rewrite Hqc in H4.
  apply prog_bind_ok in H4 as (s5 & rule & H5 & H4). apply prog_bind_ok in H5 as (s6 & q6 & H6 & H5).
  apply outcome_bind_ok in H6 as (q7 & Hq7 & H6). injection H6 as <- <-. simpl in Hq7. rewrite S2, Hq in Hq7. injection Hq7 as <-.
  apply prog_bind_ok in H5 as (s6 & par & H6 & H5). apply ask_bc_ok in H6 as [-> H6]. simpl in H6.
  destruct par as [b'|e].
  - apply (parent_found f) in H6 as (w & Hw & Hw0 & _); [|done|done]. rewrite Hb1' in Hw. injection Hw as <-.
    rewrite Hb0' in Hw0. injection Hw0 as <-. rewrite decide_False in H5 by done.
    apply ret_ok in H5 as [-> ->]. apply ret_ok in H4 as [-> ->]. by apply ret_ok in H' as [-> _].
  - apply ret_ok in H5 as [-> ->]. apply ret_ok in H4 as [-> ->]. by apply ret_ok in H' as [-> _].
Qed.

(** A proposal of a leader, from transactions or from Phalanx. *)
Definition proposed (L : ReplicaEnv) (view : Z) (s s' : chained) (b : Block) : Prop :=
  (∃ payload, @MakeProposal L view payload s = Ok (s', b))
  ∨ ∃ tries priori, @MakePProposal L tries priori view s = Ok (s', b).

(** Every proposal seems to follow its certificate directly. *)
Lemma proposed_view L view s s' b q :
  proposed L view s s' b → qc_deref (store s') (b_QC b) = Ok q →
  b_View b = view ∧ qc_View q = int64 (curView_of s - 1).
Proof.
  intros Hp Hq. cut (∃ p, forkChoice s = Ok (s', p) ∧ b_View b = view ∧ b_QC b = p).
  { intros (p & H1 & Hv & <-). split; [done|]. unfold forkChoice, GetHighQC in H1.
    apply prog_bind_ok in H1 as (s1 & c & H2 & H1). apply gets_ok in H2 as [-> ->].
    apply prog_bind_ok in H1 as (s1 & v & H2 & H1). apply gets_ok in H2 as [-> ->].
    apply prog_bind_ok in H1 as (s1 & [] & H2 & H1). apply ret_ok in H1 as [-> Hqc]. rewrite Hqc in Hq.
    unfold assign_View in H2. apply outcome_bind_ok in H2 as (a & Ha & H2). apply of_option_ok in Ha. injection H2 as <-.
    apply qc_deref_ok in Hq as (a' & Ha' & Hq). rewrite Ha in Ha'. injection Ha' as <-. simpl in Hq.
    rewrite list_lookup_alter_eq in Hq. by apply fmap_Some in Hq as (q0 & _ & ->). }
  destruct Hp as [(payload & H1)|(tries & priori & H1)].
  - apply prog_bind_ok in H1 as (s2 & p & H2 & H1).
    apply prog_bind_ok in H1 as (s3 & q0 & H3 & H1). apply outcome_bind_ok in H3 as (q' & _ & H3). injection H3 as <- <-.
    apply prog_bind_ok in H1 as (s3 & st & H3 & H1). apply gets_ok in H3 as [-> ->]. apply lift_ok in H1 as [-> H1].
    apply MakeBlock_ok in H1 as (Hv & Hqc & _). eauto.
  - apply prog_bind_ok in H1 as (s2 & p & H2 & H1). apply prog_bind_ok in H1 as (s3 & batch & H3 & H1). apply lift_ok in H3 as [-> _].
    apply prog_bind_ok in H1 as (s3 & q0 & H3 & H1). apply outcome_bind_ok in H3 as (q' & _ & H3). injection H3 as <- <-.
    apply prog_bind_ok in H1 as (s3 & st & H3 & H1). apply gets_ok in H3 as [-> ->]. apply lift_ok in H1 as [-> H1].
    apply MakePBlock_ok in H1 as (Hv & Hqc & _). eauto.
Qed.

(** [C10] After a gap no replica votes for the proposal of an honest leader.  A leader [L]
    proposes in its current view, 3 or later.  A replica [F] that has the certified block
    and its parent, where the parent is not of the view two before the proposal,
    receives the proposal: it sends no vote and commits nothing. *)
Theorem tchs_gap_no_vote (L F : ReplicaEnv) view sl sl' b q b1 b0 cf fuel s s' :
  proposed L view sl sl' b → curView_of sl = view → 3 ≤ view → is_int64 view →
  qc_deref (store sl') (b_QC b) = Ok q → chained_inv s →
  GetVertex (forrest (bc s)) (qc_BlockID q) = Some b1 → GetVertex (forrest (bc s)) (b_PrevID b1) = Some b0 →
  b_View b0 ≠ view - 2 → @handle F cf fuel (RecvBlock b (Some q)) s = Ok (s', ()) →
  network s' = network s ∧ committedBlocks s' = committedBlocks s.
Proof.
  intros Hp Hcur Hge Hv Hq CI Hb1 Hb0 Hgap H'. destruct (proposed_view L view sl sl' b q Hp Hq) as [Hview Hqv].
  rewrite Hcur, int64_id in Hqv by (unfold_ints; lia). cbn in H'.
  apply prog_bind_ok in H' as (s1 & a & H1 & H'). injection H1 as <- <-.
  apply prog_bind_ok in H' as (s1 & r & H1 & H'). apply ret_ok in H' as [-> _].
  destruct (keeps_alloc (RL := tchs_rules) q) with (s := s) (s' := set_store s (store s ++ [q])) (a := Some (length (store s)))
    as (CI1 & _ & _); [unfold typed_qc; unfold_ints; lia|done|done|].
  pose proof (ci_blocks s CI _ _ Hb0) as Ht0. unfold typed_block in Ht0.
  eapply (gap_ignored cf fuel _ q b1 b0) in H1; try done.
  - apply qc_deref_ok. eexists. split; [done|]. by apply list_lookup_middle.
  - lia.
  - rewrite Hqv, int64_id by (unfold_ints; lia). simpl. lia.
  - destruct (decide (b_View b0 < max_int64)); [rewrite int64_succ by done; lia|].
    assert (b_View b0 = max_int64) as -> by (unfold_ints; lia). rewrite Hqv.
    assert (int64 (max_int64 + 1) = min_int64) as -> by (by vm_compute). unfold_ints. lia.
Qed.

(** ** Runs *)

(** Replicas 1 and 3 get the blocks of views 1 to 6 of a chain, replica 3 times out, and
    replica 1 gets the block of view 7. *)
Definition tchs_deliveries : list (NodeID * event) :=
  concat ((λ id, [("1", tree_block_of line ["1"; "2"; "3"] id); ("3", tree_block_of line ["1"; "2"; "3"] id)])
            <$> [1; 2; 3; 4; 5; 6]%N)
  ++ [("3", LocalTmo); ("1", tree_block_of line ["1"; "2"; "3"] 7%N)].

Definition tchs_system : gmap NodeID chained :=
  default ∅ (careful_exec (@tchs_safety) node_env four_nodes line true tchs_deliveries (start (@tchs_safety) node_env honest_ids)).

Lemma tchs_system_run :
  careful_run (@tchs_safety) node_env four_nodes line true (start (@tchs_safety) node_env honest_ids) tchs_system.
Proof. apply (careful_exec_run _ _ _ _ _ tchs_deliveries). vm_compute. reflexivity. Qed.

Lemma tchs_system_votes : one_vote_per_view tchs_system.
Proof. apply one_vote_dec. vm_compute. reflexivity. Qed.

Lemma tchs_agreement_witness :
  ∃ b1 b2, b1 ∈ committed_by tchs_system "1" ∧ b2 ∈ committed_by tchs_system "3"
    ∧ b_View b1 = 5 ∧ b_View b2 = 4
    ∧ (extends line (b_ID b1) (b_ID b2) ∨ extends line (b_ID b2) (b_ID b1)).
Proof.
  destruct (committed_block tchs_system "1" 5%N) as [b1|] eqn:H1; [|vm_compute in H1; discriminate H1].
  destruct (committed_block tchs_system "3" 4%N) as [b2|] eqn:H2; [|vm_compute in H2; discriminate H2].
  assert (b_View b1 = 5 ∧ b_View b2 = 4) as [V1 V2].
  { vm_compute in H1, H2. injection H1 as <-. injection H2 as <-. by split. }
  exists b1, b2. apply committed_block_in in H1, H2. split_and!; [done..|].
  apply (tchs_agreement node_env four_nodes leader_only line honest_ids tchs_system "1" "3" b1 b2);
    [apply four_deployed|apply line_tree|apply four_cluster|apply four_honest|apply tchs_system_run|apply tchs_system_votes
    |exact H1|exact H2].
Defined.

Lemma tchs_commits_gapless_witness :
  ∃ b, b ∈ committed_by tchs_system "1" ∧ b_View b = 5 ∧ ∃ a p, extends line (b_ID b) a ∧ line a = Some (2, p).
Proof.
  destruct (committed_block tchs_system "1" 5%N) as [b|] eqn:H1; [|vm_compute in H1; discriminate H1].
  assert (b_View b = 5) as V1 by (vm_compute in H1; by injection H1 as <-).
  exists b. apply committed_block_in in H1. split_and!; [done..|].
  apply (tchs_commits_gapless node_env four_nodes leader_only line honest_ids tchs_system "1" b 2);
    [apply four_deployed|apply line_tree|apply four_cluster|apply four_honest|apply tchs_system_run|apply tchs_system_votes
    |exact H1|lia].
Defined.

(** *** An honest cluster

    Node 2 leads, and nodes 1 and 3 follow.  In a round the leader proposes, the
    followers get the block and the leader gets their votes. *)

Definition lead : ReplicaEnv := node_env "2".

Definition run_at (E : ReplicaEnv) (e : event) (s : chained) : chained :=
  match @handle E 10 10 e s with Ok (s', _) => s' | Fault _ => s end.

Definition proposal (view : Z) (l : chained) : chained * Block * QC :=
  match @MakeProposal lead view [] l with
  | Ok (l', b) => (l', b, default (qc_of_view 0) (b_QC b ≫= λ a, store l' !! a))
  | Fault _ => (l, chain_block 0, qc_of_view 0)
  end.

Definition vote_to (from l : chained) : chained :=
  match last (cast_votes from) with Some v => run_at lead (RecvVote v) l | None => l end.

Definition round (view : Z) (c : chained * chained * chained) : chained * chained * chained :=
  let e := RecvBlock (proposal view c.1.1).1.2 (Some (proposal view c.1.1).2) in
  let x := run_at (node_env "1") e c.1.2 in
  let y := run_at (node_env "3") e c.2 in
  (vote_to y (vote_to x (run_at lead (Propose view [] 0) c.1.1)), x, y).

Definition four_rounds : chained * chained * chained :=
  round 4 (round 3 (round 2 (round 1
    (run_at lead KickOff (@initial lead), @initial (node_env "1"), @initial (node_env "3"))))).

(** Then the leader and the first follower time out. *)
Definition late_leader : chained := run_at lead LocalTmo four_rounds.1.1.
Definition late_follower : chained := run_at (node_env "1") LocalTmo four_rounds.1.2.

Lemma run_at_inv (E : ReplicaEnv) e s : typed_event e → chained_inv s → chained_inv (run_at E e s).
Proof.
  intros He CI. unfold run_at. destruct (@handle E 10 10 e s) as [[s' []]|] eqn:Hs; [|done].
  by destruct (@tchs_handle E 10 10 e He s s' () CI Hs).
Qed.

Lemma round_follower view c :
  chained_inv c.1.2 → typed_event (RecvBlock (proposal view c.1.1).1.2 (Some (proposal view c.1.1).2)) →
  chained_inv (round view c).1.2.
Proof. intros CI Ht. by apply (run_at_inv (node_env "1")). Qed.

Lemma late_follower_inv : chained_inv late_follower.
Proof.
  apply run_at_inv; [done|]. unfold four_rounds.
  do 4 (apply round_follower; [|apply (@bool_decide_eq_true_1 _ (typed_event_dec _)); vm_compute; reflexivity]).
  exact (@tchs_initial_inv (node_env "1")).
Qed.

(** The proposal of the leader in view 7, and what the follower has. *)
Definition late_block : Block := (proposal 7 late_leader).1.2.
Definition late_qc : QC := (proposal 7 late_leader).2.
Definition stored_at (id : Identifier) : Block :=
  default (chain_block 0) (GetVertex (forrest (bc late_follower)) id).
Definition after_proposal : chained := run_at (node_env "1") (RecvBlock late_block (Some late_qc)) late_follower.

Lemma tchs_gap_no_vote_witness :
  curView_of late_leader = 7 ∧ curView_of late_follower = 6 ∧ curView_of after_proposal = 7
  ∧ b_View late_block = 7 ∧ network after_proposal = network late_follower
  ∧ committedBlocks after_proposal = committedBlocks late_follower.
Proof.
  do 4 (split; [vm_compute; reflexivity|]).
  apply (tchs_gap_no_vote lead (node_env "1") 7 late_leader (proposal 7 late_leader).1.1 late_block late_qc
           (stored_at (qc_BlockID late_qc)) (stored_at (b_PrevID (stored_at (qc_BlockID late_qc)))) 10 10
           late_follower after_proposal).
  - left. exists []. vm_compute. reflexivity.
  - vm_compute. reflexivity.
  - lia.
  - unfold_ints. lia.
  - vm_compute. reflexivity.
  - apply late_follower_inv.
  - vm_compute. reflexivity.
  - vm_compute. reflexivity.
  - vm_compute. discriminate.
  - vm_compute. reflexivity.
Defined.
