(* ===== verification/Fhs.v ===== *)
(** * Fast-HotStuff ([src/fasthostuff/fhs.go])

    The file has the code of [src/tchs/tchs.go], method by method, under the type
    [Fhs] (the two files differ in names and log messages only), so its methods
    are those of file [Tchs], and the properties of [TchsProps] are its own. *)
From S2P Require Import Prelude Identity Sha1 Election Db Crypto Types Quorum Forest BlockChain Pacemaker Chained HotStuff Tchs.

Local Open Scope Z_scope.

Module Fhs.
Section fhs.
Context `{ReplicaEnv}.

Definition NewFhs (pm : Pacemaker) : chained := Tchs.NewTchs pm.
Definition ProcessBlock (cf fuel : nat) : Block → prog chained (result ()) := Tchs.ProcessBlock cf fuel.
Definition ProcessVote : Vote → prog chained () := Tchs.ProcessVote.
Definition ProcessRemoteTmo : TMO → prog chained () := Tchs.ProcessRemoteTmo.
Definition ProcessLocalTmo : Z → prog chained () := Tchs.ProcessLocalTmo.
Definition MakeProposal : Z → list Transaction → prog chained Block := Tchs.MakeProposal.
Definition MakePProposal : nat → (nat → option N) → Z → prog chained Block := Tchs.MakePProposal.
Definition forkChoice : prog chained (option QCptr) := Tchs.forkChoice.
Definition processTC : TC → prog chained () := Tchs.processTC.
Definition GetHighQC : prog chained (option QCptr) := Tchs.GetHighQC.
Definition GetChainStatus : chained → string := Tchs.GetChainStatus.
Definition updateHighQC : option QCptr → prog chained () := Tchs.updateHighQC.
Definition processCertificate : option QCptr → prog chained () := Tchs.processCertificate.
Definition votingRule : Block → prog chained (result bool) := Tchs.votingRule.
Definition commitRule : Block → prog chained (result (option Block)) := Tchs.commitRule.
Definition updateLastVotedView : Z → prog chained (result ()) := Tchs.updateLastVotedView.
Definition updatePreferredView : QC → prog chained (result ()) := Tchs.updatePreferredView.
End fhs.
End Fhs.
