(* ===== verification/Streamlet.v ===== *)
(** * Streamlet ([src/streamlet/streamlet.go])

    One definition per method of the type [Streamlet].  The methods
    [ProcessBlock], [ProcessVote] and [processCertificate] call each other; each
    is first written with its callees as arguments, and the recursion is then
    closed with fuel.  No method of this protocol writes to a certificate, so
    certificates are passed by value, except those that blocks point to.

    [processTC] starts a goroutine that advances the view: the view is put on a
    list of started goroutines, and [run_async] is the execution of one of them. *)
From S2P Require Import Prelude Identity Sha1 Election Db Crypto Types Quorum Forest BlockChain Pacemaker Chained.

Local Open Scope Z_scope.

Module Streamlet.

(** What the replica did: it notarized a block on a certificate, or it committed,
    from a block of the notarized chain. *)
Inductive deed :=
  | Notarized (qc : QC) (block : Block)
  | Committed (block : Block) (committed forked : list Block).

(** Lines 16-29.  The last field is not in the code, and no operation reads it: it
    records each deed with the state in which it was decided. *)
#[warnings="-register-all"]
Inductive Streamlet := MkStreamlet {
  store : QCStore;
  pm : Pacemaker;
  bc : BlockChain;
  notarizedChain : list (list Block);
  bufferedBlocks : gmap Identifier Block;
  bufferedQCs : gmap Identifier QC;
  bufferedNotarizedBlock : gmap Identifier QC;
  committedBlocks : list Block;
  forkedBlocks : list Block;
  echoedBlock : gset Identifier;
  echoedVote : gset Identifier;
  network : list output;
  async : list Z;
  deeds : list (Streamlet * deed)
}.

Section setters.
Context (s : Streamlet).
Definition set_store (x : QCStore) : Streamlet :=
  MkStreamlet x (pm s) (bc s) (notarizedChain s) (bufferedBlocks s) (bufferedQCs s)
    (bufferedNotarizedBlock s) (committedBlocks s) (forkedBlocks s) (echoedBlock s) (echoedVote s)
    (network s) (async s) (deeds s).
Definition set_pm (x : Pacemaker) : Streamlet :=
  MkStreamlet (store s) x (bc s) (notarizedChain s) (bufferedBlocks s) (bufferedQCs s)
    (bufferedNotarizedBlock s) (committedBlocks s) (forkedBlocks s) (echoedBlock s) (echoedVote s)
    (network s) (async s) (deeds s).
Definition set_bc (x : BlockChain) : Streamlet :=
  MkStreamlet (store s) (pm s) x (notarizedChain s) (bufferedBlocks s) (bufferedQCs s)
    (bufferedNotarizedBlock s) (committedBlocks s) (forkedBlocks s) (echoedBlock s) (echoedVote s)
    (network s) (async s) (deeds s).

(** The state as a record keeps it: all that the code has. *)
Definition snapshot : Streamlet :=
  MkStreamlet (store s) (pm s) (bc s) (notarizedChain s) (bufferedBlocks s) (bufferedQCs s)
    (bufferedNotarizedBlock s) (committedBlocks s) (forkedBlocks s) (echoedBlock s) (echoedVote s)
    (network s) (async s) [].
Definition notarize (qc : QC) (b : Block) : Streamlet :=
  MkStreamlet (store s) (pm s) (bc s) (notarizedChain s ++ [[b]]) (bufferedBlocks s) (bufferedQCs s)
    (bufferedNotarizedBlock s) (committedBlocks s) (forkedBlocks s) (echoedBlock s) (echoedVote s)
    (network s) (async s) (deeds s ++ [(snapshot, Notarized qc b)]).
Definition set_bufferedBlocks (x : gmap Identifier Block) : Streamlet :=
  MkStreamlet (store s) (pm s) (bc s) (notarizedChain s) x (bufferedQCs s)
    (bufferedNotarizedBlock s) (committedBlocks s) (forkedBlocks s) (echoedBlock s) (echoedVote s)
    (network s) (async s) (deeds s).
Definition set_bufferedQCs (x : gmap Identifier QC) : Streamlet :=
  MkStreamlet (store s) (pm s) (bc s) (notarizedChain s) (bufferedBlocks s) x
    (bufferedNotarizedBlock s) (committedBlocks s) (forkedBlocks s) (echoedBlock s) (echoedVote s)
    (network s) (async s) (deeds s).
Definition set_bufferedNotarizedBlock (x : gmap Identifier QC) : Streamlet :=
  MkStreamlet (store s) (pm s) (bc s) (notarizedChain s) (bufferedBlocks s) (bufferedQCs s)
    x (committedBlocks s) (forkedBlocks s) (echoedBlock s) (echoedVote s) (network s) (async s) (deeds s).
(** Lines 261-270; the commit of [block] was decided in the state [before]. *)
Definition send_blocks (before : Streamlet) (block : Block) (committed forked : list Block)
  : Streamlet :=
  MkStreamlet (store s) (pm s) (bc s) (notarizedChain s) (bufferedBlocks s) (bufferedQCs s)
    (bufferedNotarizedBlock s) (committedBlocks s ++ committed) (forkedBlocks s ++ forked)
    (echoedBlock s ∖ list_to_set (b_ID <$> committed))
    (echoedVote s ∖ list_to_set (b_ID <$> committed)) (network s) (async s)
    (deeds s ++ [(before, Committed block committed forked)]).
Definition set_echoedBlock (x : gset Identifier) : Streamlet :=
  MkStreamlet (store s) (pm s) (bc s) (notarizedChain s) (bufferedBlocks s) (bufferedQCs s)
    (bufferedNotarizedBlock s) (committedBlocks s) (forkedBlocks s) x (echoedVote s)
    (network s) (async s) (deeds s).
Definition emit (o : output) : Streamlet :=
  MkStreamlet (store s) (pm s) (bc s) (notarizedChain s) (bufferedBlocks s) (bufferedQCs s)
    (bufferedNotarizedBlock s) (committedBlocks s) (forkedBlocks s) (echoedBlock s) (echoedVote s)
    (network s ++ [o]) (async s) (deeds s).
Definition set_async (x : list Z) : Streamlet :=
  MkStreamlet (store s) (pm s) (bc s) (notarizedChain s) (bufferedBlocks s) (bufferedQCs s)
    (bufferedNotarizedBlock s) (committedBlocks s) (forkedBlocks s) (echoedBlock s) (echoedVote s)
    (network s) x (deeds s).
End setters.

(** What a sequence of deeds put on the notarized chain and on the two channels. *)
Definition notarized_in (h : list (Streamlet * deed)) : list (list Block) :=
  omap (λ e, match e.2 with Notarized _ b => Some [b] | Committed _ _ _ => None end) h.
Definition batches_in (h : list (Streamlet * deed)) : list (list Block) :=
  omap (λ e, match e.2 with Committed _ c _ => Some c | Notarized _ _ => None end) h.
Definition forks_in (h : list (Streamlet * deed)) : list (list Block) :=
  omap (λ e, match e.2 with Committed _ _ f => Some f | Notarized _ _ => None end) h.

Definition on_pm {A} (m : prog Pacemaker A) : prog Streamlet A := zoom pm (λ x s, set_pm s x) m.
Definition on_bc {A} (m : QCStore → prog BlockChain A) : prog Streamlet A :=
  λ s, zoom bc (λ x s, set_bc s x) (m (store s)) s.
Definition curView_of (s : Streamlet) : Z := GetCurView (pm s).

Section streamlet.
Context `{ReplicaEnv}.

(** Lines 32-53: the constructor advances the pacemaker it is given to view 1. *)
Definition NewStreamlet (pm : Pacemaker) : Streamlet :=
  MkStreamlet [] (advance 0 pm) (NewBlockchain re_N) [] ∅ ∅ ∅ [] [] ∅ ∅ [] [] [].

(** Lines 318-322. *)
Definition GetChainStatus (s : Streamlet) : string := status_of re_ID (GetCurView (pm s)) (bc s).

Definition GetNotarizedHeight (s : Streamlet) : Z := Z.of_nat (length (notarizedChain s)).

(** Lines 330-342: indexing the last element of an empty chain panics. *)
Definition votingRule (block : Block) : prog Streamlet bool := λ s,
  if decide (b_View block ≤ 2) then Ok (s, true)
  else
    lastBlocks ← index (notarizedChain s) (GetNotarizedHeight s - 1);
    Ok (s, bool_decide (List.Exists (λ b, b_PrevID block = b_ID b) lastBlocks)).

(** Lines 347-372. *)
Definition commitRule (s : Streamlet) : option Block :=
  match reverse (notarizedChain s) with
  | [lastBlock] :: [secondBlock] :: [firstBlock] :: _ =>
      if decide (int64 (b_View firstBlock + 1) = b_View secondBlock
                 ∧ int64 (b_View secondBlock + 1) = b_View lastBlock)
      then Some secondBlock else None
  | _ => None
  end.

(** Lines 299-312: the loop from index [i] down; [i + 4] iterations at most.  The
    test [i >= 0 || i >= height - 3] also admits negative indices while the chain
    is shorter than three, and indexing there panics. *)
Fixpoint find_notarized (fuel : nat) (chain : list (list Block)) (i : Z) (prevID : Identifier)
  : outcome bool :=
  if decide (0 ≤ i ∨ Z.of_nat (length chain) - 3 ≤ i) then
    match fuel with
    | O => Fault FuelExhausted
    | S fuel =>
        lastBlocks ← index chain i;
        if bool_decide (List.Exists (λ b, b_ID b = prevID) lastBlocks) then mret true
        else find_notarized fuel chain (i - 1) prevID
    end
  else mret false.

(** Lines 285-316.  The new slice is empty before the append in either branch of
    lines 303-306. *)
Definition updateNotarizedChain (qc : QC) : prog Streamlet (result ()) := λ s,
  match GetBlockByID (bc s) (qc_BlockID qc) with
  | Err _ => Ok (s, Err "cannot find the block")
  | Val block =>
      if decide (GetNotarizedHeight s = 0) then Ok (notarize s qc block, Val ())
      else
        found ← find_notarized (length (notarizedChain s) + 4) (notarizedChain s)
                  (GetNotarizedHeight s - 1) (b_PrevID block);
        if (found : bool) then Ok (notarize s qc block, Val ())
        else Ok (set_bufferedNotarizedBlock s (<[b_PrevID block := qc]> (bufferedNotarizedBlock s)),
                 Err "the block is not extending the notarized chain")
  end.

(** Lines 213-218. *)
Definition processTC (tc : TC) : prog Streamlet () :=
  curView ← gets curView_of;
  if decide (tc_View tc < curView) then mret ()
  else modify (λ s, set_async s (async s ++ [tc_View tc])).

(** One of the goroutines started by [processTC] runs. *)
Definition run_async (k : nat) : prog Streamlet () := λ s,
  match async s !! k with
  | None => Ok (s, ())
  | Some view => Ok (set_pm (set_async s (delete k (async s))) (advance view (pm s)), ())
  end.

(** Lines 252-270. *)
Definition commit (cf : nat) : prog Streamlet bool :=
  r ← gets commitRule;
  match r with
  | None => mret false
  | Some block =>
      before ← gets snapshot;
      curView ← gets curView_of;
      r ← on_bc (λ st, CommitBlock cf st (b_ID block) curView);
      match r with
      | Err _ => mret false
      | Val (committed, forked) => modify (λ s, send_blocks s before block committed forked);; mret true
      end
  end.

(** Lines 271-282. *)
Definition process_buffers (processCertificate : QC → prog Streamlet ())
    (ProcessBlock : Block → prog Streamlet (result ())) (qc : QC) : prog Streamlet () :=
  m ← gets bufferedBlocks;
  match m !! qc_BlockID qc with
  | Some b =>
      ProcessBlock b;;
      modify (λ s, set_bufferedBlocks s (delete (qc_BlockID qc) (bufferedBlocks s)))
  | None => mret ()
  end;;
  m ← gets bufferedNotarizedBlock;
  match m !! qc_BlockID qc with
  | Some qc' =>
      processCertificate qc';;
      modify (λ s, set_bufferedQCs s (delete (qc_BlockID qc') (bufferedQCs s)))
  | None => mret ()
  end.

(** Lines 224-283. *)
Definition processCertificate_body (processCertificate : QC → prog Streamlet ())
    (ProcessBlock : Block → prog Streamlet (result ())) (cf : nat) (qc : QC) : prog Streamlet () :=
  curView ← gets curView_of;
  if decide (qc_View qc < curView) then mret ()
  else
    r ← gets (λ s, GetBlockByID (bc s) (qc_BlockID qc));
    if bool_decide (1 < qc_View qc) && match r with Err _ => true | Val _ => false end
    then modify (λ s, set_bufferedQCs s (<[qc_BlockID qc := qc]> (bufferedQCs s)))
    else
      quorumIsVerified ← (if decide (qc_Leader qc = re_ID) then mret true
                          else lift (VerifyQuorumSignature env_keys (qc_AggSig qc) (qc_BlockID qc)
                                       (qc_Signers qc)));
      if negb quorumIsVerified then mret ()
      else
        r ← updateNotarizedChain qc;
        match r with
        | Err _ => mret ()
        | Val () =>
            on_pm (AdvanceView (qc_View qc));;
            if decide (qc_View qc < 3) then mret ()
            else
              committed ← commit cf;
              if (committed : bool) then process_buffers processCertificate ProcessBlock qc
              else mret ()
        end.

(** Lines 118-147.  Votes are echoed through the set of echoed blocks. *)
Definition ProcessVote_body (processCertificate : QC → prog Streamlet ()) (vote : Vote)
  : prog Streamlet () :=
  voteIsVerified ← (if decide (vote_Voter vote = re_ID) then mret true
                    else lift (PubVerify env_keys (vote_Signature vote)
                                 (IDToByte (vote_BlockID vote)) (vote_Voter vote)));
  if negb voteIsVerified then mret ()
  else
    echoed ← gets echoedBlock;
    (if decide (vote_BlockID vote ∈ echoed) then mret ()
     else modify (λ s, emit (set_echoedBlock s ({[vote_BlockID vote]} ∪ echoedBlock s))
                         (BroadcastVote vote)));;
    '(isBuilt, qc) ← on_bc (λ _, AddVote vote);
    if negb isBuilt then mret ()
    else
      qc ← lift (of_option NilDereference qc);
      processCertificate qc.

(** Lines 101-114. *)
Definition vote_and_continue (processCertificate : QC → prog Streamlet ())
    (ProcessBlock : Block → prog Streamlet (result ())) (block : Block) : prog Streamlet () :=
  vote ← lift (MakeVote (b_View block) re_ID (b_ID block));
  ProcessVote_body processCertificate vote;;
  modify (λ s, emit s (BroadcastVote vote));;
  m ← gets bufferedQCs;
  match m !! b_ID block with
  | Some qc => processCertificate qc
  | None => mret ()
  end;;
  m ← gets bufferedBlocks;
  match m !! b_ID block with
  | Some b => ProcessBlock b;; mret ()
  | None => mret ()
  end.

(** Lines 63-116. *)
Definition ProcessBlock_body (processCertificate : QC → prog Streamlet ())
    (ProcessBlock : Block → prog Streamlet (result ())) (block : Block)
  : prog Streamlet (result ()) :=
  exists_ ← gets (λ s, BlockChain.Exists (bc s) (b_ID block));
  if (exists_ : bool) then mret (Val ())
  else
  curView ← gets curView_of;
  if decide (b_View block < curView) then mret (Err "received a stale block")
  else
  r ← gets (λ s, GetBlockByID (bc s) (b_PrevID block));
  if match r with Err _ => true | Val _ => false end && bool_decide (1 < b_View block) then
    modify (λ s, set_bufferedBlocks s (<[b_PrevID block := block]> (bufferedBlocks s)));;
    mret (Val ())
  else
  isLeader ← lift (IsLeader (b_Proposer block) (b_View block));
  if negb isLeader then mret (Err "received a proposal from an invalid leader")
  else
    (if decide (b_Proposer block = re_ID) then mret true
     else lift (PubVerify env_keys (b_Sig block) (IDToByte (b_ID block)) (b_Proposer block)));;
    echoed ← gets echoedBlock;
    (if decide (b_ID block ∈ echoed) then mret ()
     else modify (λ s, emit (set_echoedBlock s ({[b_ID block]} ∪ echoedBlock s))
                         (BroadcastBlock block (b_QC block ≫= λ a, store s !! a))));;
    on_bc (λ st, AddBlock st block);;
    shouldVote ← votingRule block;
    if negb shouldVote then
      modify (λ s, set_bufferedBlocks s (<[b_PrevID block := block]> (bufferedBlocks s)));;
      mret (Val ())
    else
      vote_and_continue processCertificate ProcessBlock block;;
      mret (Val ()).

(** The recursion, bounded by [fuel]. *)
Fixpoint ProcessBlock (cf fuel : nat) (block : Block) {struct fuel} : prog Streamlet (result ()) :=
  match fuel with
  | O => lift (Fault DepthExhausted)
  | S fuel => ProcessBlock_body (processCertificate cf fuel) (ProcessBlock cf fuel) block
  end
with processCertificate (cf fuel : nat) (qc : QC) {struct fuel} : prog Streamlet () :=
  match fuel with
  | O => lift (Fault DepthExhausted)
  | S fuel => processCertificate_body (processCertificate cf fuel) (ProcessBlock cf fuel) cf qc
  end.

Definition ProcessVote (cf fuel : nat) : Vote → prog Streamlet () :=
  ProcessVote_body (processCertificate cf fuel).

(** Lines 149-158. *)
Definition ProcessRemoteTmo (tmo : TMO) : prog Streamlet () :=
  '(isBuilt, tc) ← on_pm (pm_ProcessRemoteTmo tmo);
  if negb isBuilt then mret ()
  else
    tc ← lift (of_option NilDereference tc);
    processTC tc.

(** Lines 160-167: the message carries no certificate. *)
Definition ProcessLocalTmo (view : Z) : prog Streamlet () :=
  modify (λ s, emit s (BroadcastTmo view re_ID None));;
  ProcessRemoteTmo (MkTMO view re_ID None).

(** Lines 202-211. *)
Definition forkChoice (s : Streamlet) : outcome Identifier :=
  if decide (GetNotarizedHeight s = 0) then mret (MakeID (BodyString "Genesis block"))
  else
    tail ← index (notarizedChain s) (GetNotarizedHeight s - 1);
    tailNotarizedBlock ← index tail 0;
    mret (b_ID tailNotarizedBlock).

(** Lines 171-176: a certificate for view 0. *)
Definition new_qc (prevID : Identifier) : prog Streamlet (option QCptr) := λ s,
  let '(st, a) := qc_alloc (store s) (qc_of 0 prevID) in Ok (set_store s st, Some a).

(** Lines 169-178. *)
Definition MakeProposal (view : Z) (payload : list Transaction) : prog Streamlet Block :=
  r ← gets forkChoice;
  prevID ← lift r;
  qc ← new_qc prevID;
  st ← gets store;
  lift (MakeBlock st view qc prevID payload re_ID).

(** Lines 180-200. *)
Definition MakePProposal (fuel : nat) (priori : nat → option N) (view : Z) : prog Streamlet Block :=
  r ← gets forkChoice;
  prevID ← lift r;
  batch ← lift (wait_priori fuel priori 0);
  qc ← new_qc prevID;
  st ← gets store;
  lift (MakePBlock st view qc prevID batch re_ID).
End streamlet.
End Streamlet.
