(* ===== verification/Lbft.v ===== *)
(** * LBFT ([src/lbft/lbft.go])

    The file has the code of [src/streamlet/streamlet.go], method by method, under
    the type [Lbft] (the two files differ in names only), so its methods are those
    of file [Streamlet], and the properties of [StreamletProps] are its own. *)
From S2P Require Import Prelude Identity Sha1 Election Db Crypto Types Quorum Forest BlockChain Pacemaker Chained Streamlet.

Local Open Scope Z_scope.

Module Lbft.
Abbreviation Lbft := Streamlet.Streamlet (only parsing).
Section lbft.
Context `{ReplicaEnv}.

Definition NewLbft (pm : Pacemaker) : Lbft := Streamlet.NewStreamlet pm.
Definition ProcessBlock (cf fuel : nat) : Block → prog Lbft (result ()) := Streamlet.ProcessBlock cf fuel.
Definition ProcessVote (cf fuel : nat) : Vote → prog Lbft () := Streamlet.ProcessVote cf fuel.
Definition ProcessRemoteTmo : TMO → prog Lbft () := Streamlet.ProcessRemoteTmo.
Definition ProcessLocalTmo : Z → prog Lbft () := Streamlet.ProcessLocalTmo.
Definition MakeProposal : Z → list Transaction → prog Lbft Block := Streamlet.MakeProposal.
Definition MakePProposal : nat → (nat → option N) → Z → prog Lbft Block := Streamlet.MakePProposal.
Definition forkChoice : Lbft → outcome Identifier := Streamlet.forkChoice.
Definition processTC : TC → prog Lbft () := Streamlet.processTC.
Definition processCertificate (cf fuel : nat) : QC → prog Lbft () := Streamlet.processCertificate cf fuel.
Definition updateNotarizedChain : QC → prog Lbft (result ()) := Streamlet.updateNotarizedChain.
Definition GetNotarizedHeight : Lbft → Z := Streamlet.GetNotarizedHeight.
Definition GetChainStatus : Lbft → string := Streamlet.GetChainStatus.
Definition votingRule : Block → prog Lbft bool := Streamlet.votingRule.
Definition commitRule : Lbft → option Block := Streamlet.commitRule.
End lbft.
End Lbft.
