(* ===== verification/StreamletProps.v ===== *)
(** * Properties of the Streamlet replica

    The notarized chain of the program is a list that only grows at its end, each
    new block extending some earlier one: a tree in the order of notarization.
    The theorems say what [updateNotarizedChain] does in every case, that this
    order is kept by every run, by which rule blocks are committed, and what that
    rule misses. *)
From S2P Require Import Prelude Identity Sha1 Election Db Crypto Types Quorum Forest BlockChain Pacemaker Chained Safety HotStuff Streamlet.

Local Open Scope Z_scope.
Import Streamlet.

(** ** The search for the parent *)

(** Some notarized block has the identifier. *)
Definition notarized (chain : list (list Block)) (id : Identifier) : Prop :=
  List.Exists (List.Exists (λ b, b_ID b = id)) chain.

#[global] Instance notarized_dec chain id : Decision (notarized chain id).
Proof. unfold notarized. apply _. Defined.

Lemma find_notarized_down chain prevID n :
  (n ≤ length chain)%nat → ∀ fuel, (n + 4 ≤ fuel)%nat →
  find_notarized fuel chain (Z.of_nat n - 1) prevID
  = if decide (notarized (take n chain) prevID) then Ok true
    else if decide (3 ≤ length chain)%nat then Ok false else Fault IndexOutOfRange.
Proof.
  induction n as [|n IH]; intros Hn fuel Hfuel; (destruct fuel as [|fuel]; [lia|]); simpl find_notarized.
  - rewrite (decide_False (P := notarized (take 0 chain) prevID)) by (intros Hex; inversion Hex).
    destruct (decide (3 ≤ length chain)%nat).
    + by rewrite decide_False by lia.
    + rewrite decide_True by lia. done.
  - rewrite decide_True by lia.
    destruct (lookup_lt_is_Some_2 chain n) as [bs Hbs]; [lia|].
    unfold index. rewrite decide_True by lia.
    replace (Z.to_nat (Z.of_nat (S n) - 1)) with n by lia. rewrite Hbs. simpl.
    rewrite (take_S_r chain n bs Hbs).
    assert (notarized (take n chain ++ [bs]) prevID
      ↔ notarized (take n chain) prevID ∨ List.Exists (λ b, b_ID b = prevID) bs) as Hsplit.
    { unfold notarized. rewrite Exists_app, Exists_cons, Exists_nil. tauto. }
    case_bool_decide as Hin.
    + rewrite decide_True; [done|]. apply Hsplit. by right.
    + replace (Z.of_nat (S n) - 1 - 1) with (Z.of_nat n - 1) by lia.
      rewrite IH by lia. apply decide_ext. rewrite Hsplit. tauto.
Qed.

Lemma find_notarized_spec chain prevID :
  find_notarized (length chain + 4) chain (Z.of_nat (length chain) - 1) prevID
  = if decide (notarized chain prevID) then Ok true
    else if decide (3 ≤ length chain)%nat then Ok false else Fault IndexOutOfRange.
Proof. rewrite find_notarized_down by lia. by rewrite firstn_all. Qed.

Lemma updateNotarizedChain_cases `{ReplicaEnv} qc s :
  updateNotarizedChain qc s
  = match GetBlockByID (bc s) (qc_BlockID qc) with
    | Err _ => Ok (s, Err "cannot find the block")
    | Val block =>
        if decide (notarizedChain s = [] ∨ notarized (notarizedChain s) (b_PrevID block))
        then Ok (notarize s qc block, Val ())
        else if decide (3 ≤ length (notarizedChain s))%nat
        then Ok (set_bufferedNotarizedBlock s (<[b_PrevID block := qc]> (bufferedNotarizedBlock s)),
                 Err "the block is not extending the notarized chain")
        else Fault IndexOutOfRange
    end.
Proof.
  unfold updateNotarizedChain, GetNotarizedHeight.
  destruct (GetBlockByID (bc s) (qc_BlockID qc)) as [block|e]; [|done].
  destruct (notarizedChain s) as [|bs chain] eqn:E; [done|]. rewrite <- E.
  assert (Z.of_nat (length (notarizedChain s)) ≠ 0) by (rewrite E; simpl; lia).
  rewrite decide_False by done. rewrite find_notarized_spec.
  destruct (decide (notarized (notarizedChain s) (b_PrevID block))) as [Hn|Hn].
  - rewrite decide_True by (by right). done.
  - rewrite (decide_False (P := _ ∨ _)) by (rewrite E in *; intros [?|?]; done).
    by destruct (decide (3 ≤ length (notarizedChain s))%nat).
Qed.

(** ** The order of the notarized chain *)

(** Every entry is one block, and every entry but the first extends an earlier one. *)
Definition ordered (chain : list (list Block)) : Prop :=
  ∀ i bs, chain !! i = Some bs →
    ∃ b, bs = [b] ∧ (i = O ∨ notarized (take i chain) (b_PrevID b)).

Lemma ordered_snoc chain b :
  ordered chain → chain = [] ∨ notarized chain (b_PrevID b) → ordered (chain ++ [[b]]).
Proof.
  intros Ho Hb i bs Hi. apply lookup_snoc_Some in Hi as [[Hlt Hi]|[-> <-]].
  - destruct (Ho i bs Hi) as (c & -> & Hc). exists c. split; [done|].
    rewrite take_app_le by lia. done.
  - exists b. split; [done|]. destruct Hb as [->|Hb]; [by left|right].
    by rewrite take_app_length.
Qed.

(** What a commit is: the walk from [b2], the middle one of the last three notarized
    blocks, whose views are consecutive. *)
Definition last_three (s : Streamlet) (b2 : Block) (c : list Block) : Prop :=
  ∃ chain b1 b3 v, notarizedChain s = chain ++ [[b1]; [b2]; [b3]]
    ∧ int64 (b_View b1 + 1) = b_View b2 ∧ int64 (b_View b2 + 1) = b_View b3
    ∧ GetVertex (forrest (bc s)) (b_ID b2) = Some v ∧ walk (forrest (bc s)) v c.

(** A certificate that the replica built: from the votes of more than two thirds of the
    nodes, without a leader. *)
Record built `{ReplicaEnv} (qc : QC) : Prop := {
  bu_view : typed_qc qc;
  bu_leader : qc_Leader qc = "";
  bu_signers : NoDup (qc_Signers qc);
  bu_quorum : threshold re_N < Z.of_nat (length (qc_Signers qc))
}.

(** What notarizing [b] on [qc] takes: a certificate of more than two thirds of the
    nodes for [b] whose signatures verify, the block in the forest, and its parent in the
    notarized chain, unless the chain is empty. *)
Definition notarizes `{ReplicaEnv} (s : Streamlet) (qc : QC) (b : Block) : Prop :=
  built qc ∧ qc_BlockID qc = b_ID b
  ∧ (re_ID ≠ "" → VerifyQuorumSignature env_keys (qc_AggSig qc) (b_ID b) (qc_Signers qc) = Ok true)
  ∧ GetVertex (forrest (bc s)) (b_ID b) = Some b
  ∧ (notarizedChain s = [] ∨ notarized (notarizedChain s) (b_PrevID b)).

(** A deed obeys the rules in the state it was decided in. *)
Definition sl_obeys `{ReplicaEnv} (e : Streamlet * deed) : Prop :=
  match e.2 with
  | Notarized qc b => notarizes e.1 qc b
  | Committed b c _ => last_three e.1 b c
  end.

Record sl_inv `{ReplicaEnv} (s : Streamlet) : Prop := {
  si_ordered : ordered (notarizedChain s);
  si_quorum : total (quorum (bc s)) = re_N ∧ filed (quorum (bc s));
  si_forest : forest_inv (forrest (bc s));
  si_view : is_int64 (curView_of s);
  si_qcs : map_Forall (λ _, built) (bufferedQCs s);
  si_early : map_Forall (λ _, built) (bufferedNotarizedBlock s);
  si_blocks : map_Forall (λ _, typed_block) (bufferedBlocks s);
  si_async : Forall is_int64 (async s)
}.

(** From [s] to [s'] the deeds [h] were recorded; they account for everything
    notarized, committed and reported as forked, and each of them obeys the rules. *)
Record sl_logs `{ReplicaEnv} (s s' : Streamlet) (h : list (Streamlet * deed)) : Prop := {
  sl_log_deeds : deeds s' = deeds s ++ h;
  sl_log_chain : notarizedChain s' = notarizedChain s ++ notarized_in h;
  sl_log_committed : committedBlocks s' = committedBlocks s ++ concat (batches_in h);
  sl_log_forked : forkedBlocks s' = forkedBlocks s ++ concat (forks_in h);
  sl_log_obeys : Forall (λ e, sl_inv e.1 ∧ sl_obeys e) h
}.

Lemma sl_logs_nil `{ReplicaEnv} s s' :
  deeds s' = deeds s → notarizedChain s' = notarizedChain s → committedBlocks s' = committedBlocks s →
  forkedBlocks s' = forkedBlocks s → sl_logs s s' [].
Proof. intros. split; simpl; rewrite ?app_nil_r; done. Qed.

Lemma sl_logs_trans `{ReplicaEnv} s1 s2 s3 h1 h2 :
  sl_logs s1 s2 h1 → sl_logs s2 s3 h2 → sl_logs s1 s3 (h1 ++ h2).
Proof.
  intros [A1 A2 A3 A4 A5] [B1 B2 B3 B4 B5]. unfold notarized_in, batches_in, forks_in in *.
  split; unfold notarized_in, batches_in, forks_in; rewrite ?omap_app, ?concat_app, ?app_assoc;
    try congruence.
  by apply Forall_app.
Qed.

(** Atomic steps record their deeds with the state they start from. *)
Record sl_atomic `{ReplicaEnv} (s s' : Streamlet) : Prop := {
  sa_pm : pm_reaches (pm s) (pm s');
  sa_log : ∃ ds, sl_logs s s' ((snapshot s,.) <$> ds)
}.

Lemma sl_silent `{ReplicaEnv} s s' :
  deeds s' = deeds s → notarizedChain s' = notarizedChain s → committedBlocks s' = committedBlocks s →
  forkedBlocks s' = forkedBlocks s → ∃ ds, sl_logs s s' ((snapshot s,.) <$> ds).
Proof. intros. exists []. by apply sl_logs_nil. Qed.

Lemma sl_one_deed `{ReplicaEnv} s s' d :
  sl_inv s → sl_obeys (snapshot s, d) → deeds s' = deeds s ++ [(snapshot s, d)] →
  notarizedChain s' = notarizedChain s ++ notarized_in [(snapshot s, d)] →
  committedBlocks s' = committedBlocks s ++ concat (batches_in [(snapshot s, d)]) →
  forkedBlocks s' = forkedBlocks s ++ concat (forks_in [(snapshot s, d)]) →
  ∃ ds, sl_logs s s' ((snapshot s,.) <$> ds).
Proof.
  intros I Hd H1 H2 H3 H4. exists [d]. split; try done. constructor; [|constructor].
  split; [by destruct I; split|done].
Qed.

Definition sl_advances `{ReplicaEnv} : Streamlet → Streamlet → Prop :=
  rtc (λ s s', sl_inv s ∧ sl_atomic s s').

#[global] Instance sl_advances_preorder `{ReplicaEnv} : PreOrder sl_advances.
Proof. apply rtc_po. Qed.

Lemma sl_advances_once `{ReplicaEnv} s s' : sl_inv s → sl_atomic s s' → sl_advances s s'.
Proof. intros. by apply rtc_once. Qed.

(** Everything notarized and committed in the course of a run is recorded, and obeyed
    the rules in the state recorded with it. *)
Lemma sl_advances_logs `{ReplicaEnv} s s' : sl_advances s s' → ∃ h, sl_logs s s' h.
Proof.
  induction 1 as [|s1 s2 s3 [_ [_ [ds H1]]] _ [h IH]]; [exists []; by apply sl_logs_nil|].
  eexists. by eapply sl_logs_trans.
Qed.

Abbreviation sl_keeps Φ m := (preserves sl_inv sl_advances Φ m) (only parsing).

(** [sl_frame] proves a step that changes nothing the invariant is about,
    [sl_quiet] an atomic step that commits nothing. *)
Ltac sl_quiet := apply sl_advances_once; [done|]; split; [simpl; try done|try by apply sl_silent].
Ltac sl_frame := intros; apply preserves_modify; intros s I; split; [by destruct I; split|sl_quiet].

Section keeps.
Context `{ReplicaEnv}.

Lemma sl_keeps_broadcast o : sl_keeps anything (modify (λ s, emit s (o s))).
Proof. sl_frame. Qed.
Lemma sl_keeps_echo x o : sl_keeps anything (modify (λ s, emit (set_echoedBlock s (x s)) (o s))).
Proof. sl_frame. Qed.
Lemma sl_keeps_start view :
  is_int64 view → sl_keeps anything (modify (λ s, set_async s (async s ++ [view]))).
Proof.
  intros Hv. apply preserves_modify. intros s I. split; [|sl_quiet]. destruct I; split; try done.
  apply Forall_app. split; [done|]. by constructor.
Qed.

(** Buffering, and taking out of the buffers. *)
Lemma sl_keeps_buffer_block k b :
  typed_block b →
  sl_keeps anything (modify (λ s, set_bufferedBlocks s (<[k := b]> (bufferedBlocks s)))).
Proof.
  intros Hb. apply preserves_modify. intros s I. split; [|sl_quiet]. destruct I; split; try done.
  by apply map_Forall_insert_2.
Qed.
Lemma sl_keeps_drop_block k :
  sl_keeps anything (modify (λ s, set_bufferedBlocks s (delete k (bufferedBlocks s)))).
Proof.
  apply preserves_modify. intros s I. split; [|sl_quiet]. destruct I; split; try done.
  by apply map_Forall_delete.
Qed.
Lemma sl_keeps_buffer_QC k qc :
  built qc →
  sl_keeps anything (modify (λ s, set_bufferedQCs s (<[k := qc]> (bufferedQCs s)))).
Proof.
  intros Hb. apply preserves_modify. intros s I. split; [|sl_quiet]. destruct I; split; try done.
  by apply map_Forall_insert_2.
Qed.
Lemma sl_keeps_drop_QC k :
  sl_keeps anything (modify (λ s, set_bufferedQCs s (delete k (bufferedQCs s)))).
Proof.
  apply preserves_modify. intros s I. split; [|sl_quiet]. destruct I; split; try done.
  by apply map_Forall_delete.
Qed.
Lemma sl_keeps_bufferedBlocks : sl_keeps (map_Forall (λ _, typed_block)) (gets bufferedBlocks).
Proof. apply preserves_gets; [apply _|]. intros s I. apply I. Qed.
Lemma sl_keeps_bufferedQCs : sl_keeps (map_Forall (λ _, built)) (gets bufferedQCs).
Proof. apply preserves_gets; [apply _|]. intros s I. apply I. Qed.
Lemma sl_keeps_early : sl_keeps (map_Forall (λ _, built)) (gets bufferedNotarizedBlock).
Proof. apply preserves_gets; [apply _|]. intros s I. apply I. Qed.

(** Calls of the pacemaker and of the block store. *)
Lemma sl_keeps_AdvanceView view : is_int64 view → sl_keeps anything (on_pm (AdvanceView view)).
Proof.
  intros Hv s s' a I Hrun. apply zoom_ok in Hrun as (p & Hp & ->). apply modify_ok in Hp as ->.
  split_and!; [|sl_quiet|done].
  - destruct (advance_int64 view (pm s) Hv (si_view s I)) as [H1 _]. destruct I; split; done.
  - apply rtc_once. right. by exists view.
Qed.

Lemma sl_keeps_pm_ProcessRemoteTmo tmo :
  sl_keeps (λ r, ∀ tc, r.2 = Some tc → tc_View tc = tmo_View tmo) (on_pm (pm_ProcessRemoteTmo tmo)).
Proof.
  intros s s' r I Hrun. apply zoom_ok in Hrun as (p & Hp & ->).
  split_and!; [|sl_quiet|by eapply pm_ProcessRemoteTmo_TC].
  - destruct (pm_ProcessRemoteTmo_views _ _ _ _ Hp) as [H1 _].
    assert (curView_of (set_pm s p) = curView_of s) as Hcur by exact H1.
    destruct I; split; try done. by rewrite Hcur.
  - apply rtc_once. left. by exists tmo, r.
Qed.

Lemma sl_keeps_AddBlock b : sl_keeps anything (on_bc (λ st, AddBlock st b)).
Proof.
  intros s s' a I Hrun. apply zoom_ok in Hrun as (c & (f & Hf & ->)%AddBlock_ok & ->).
  destruct (AddVertex_spec _ _ _ _ (si_forest s I) Hf) as (If & _).
  split_and!; [by destruct I; split|sl_quiet|done].
Qed.

(** A certificate that the collection of votes returns. *)
Lemma AddVote_built vote c c' r :
  total (quorum c) = re_N → filed (quorum c) → typed_vote vote → AddVote vote c = Ok (c', r) →
  (∃ q, c' = set_quorum q c ∧ total q = re_N ∧ filed q) ∧ ∀ qc, r.2 = Some qc → built qc.
Proof.
  unfold AddVote. intros Ht Hf Hv (q & Hq & ->)%zoom_ok. injection Hq as Hq. split.
  { exists q. replace q with (Add (quorum c) vote).1 by (by rewrite Hq).
    split_and!; [done|by rewrite total_Add|by apply filed_Add]. }
  intros qc Hqc. destruct r as [[] r2]; simpl in Hqc; subst r2.
  2:{ pose proof (f_equal snd Hq) as E. simpl in E.
      destruct (superMajority (quorum c) (vote_BlockID vote)) eqn:Hsm; [by rewrite Add_full in E|].
      destruct (Add_stores (quorum c) vote Hsm) as [_ E2]. rewrite E2 in E. by destruct (superMajority _ _). }
  destruct (Add_qc_inv (quorum c) vote qc) as (_ & H2 & _ & ->); [by rewrite Hq|].
  assert (filed (stored (quorum c) vote)) as Hst by (by apply filed_stored).
  split; simpl; [done|done| |].
  - rewrite list_to_set_voters by (intros k w Hw; by apply (Hst _ _ _ Hw)). apply NoDup_fst_range.
  - rewrite length_fmap, length_range. unfold superMajority, Quorum.size in H2. simpl in H2.
    rewrite Ht in H2. by apply bool_decide_eq_true in H2.
Qed.

Lemma sl_keeps_AddVote vote :
  typed_vote vote → sl_keeps (λ r, ∀ qc, r.2 = Some qc → built qc) (on_bc (λ _, AddVote vote)).
Proof.
  intros Hv s s' a I Hrun. apply zoom_ok in Hrun as (c & Hc & ->). destruct (si_quorum s I) as [Ht Hf].
  destruct (AddVote_built vote (bc s) c a Ht Hf Hv Hc) as [(q & -> & Ht' & Hf') Hqc].
  split_and!; [by destruct I; split|sl_quiet|done].
Qed.

Lemma sl_keeps_updateNotarizedChain qc :
  HotStuff.certified qc → built qc → sl_keeps anything (updateNotarizedChain qc).
Proof.
  intros Hcert Hqc s s' a I Hrun. rewrite updateNotarizedChain_cases in Hrun.
  unfold GetBlockByID in Hrun. destruct (GetVertex _ (qc_BlockID qc)) as [block|] eqn:Hblock;
    [|injection Hrun as <- <-; split_and!; [done|reflexivity|done]].
  pose proof (GetVertex_ID _ _ _ (si_forest s I) Hblock) as Hid.
  destruct (decide (_ ∨ _)) as [Hb|_]; [|destruct (decide (3 ≤ _)%nat); [|done]];
    injection Hrun as <- <-.
  - split_and!; [destruct I; split; try done; by apply ordered_snoc| |done].
    apply sl_advances_once; [done|]. split; [done|].
    apply (sl_one_deed s _ (Notarized qc block)); simpl; rewrite ?app_nil_r; try done.
    split_and!; [done|done| |by rewrite Hid|done]. intros Hne.
    destruct Hcert as [Hl|Hver]; [by rewrite (bu_leader _ Hqc) in Hl|]. by rewrite Hid.
  - split_and!; [|sl_quiet|done]. destruct I; split; try done. by apply map_Forall_insert_2.
Qed.

(** The block that [commitRule] returns is the middle one of three. *)
Lemma commitRule_last_three s b :
  commitRule s = Some b →
  ∃ chain b1 b3, notarizedChain s = chain ++ [[b1]; [b]; [b3]]
    ∧ int64 (b_View b1 + 1) = b_View b ∧ int64 (b_View b + 1) = b_View b3.
Proof.
  unfold commitRule. destruct (reverse (notarizedChain s))
    as [|[|b3 [|? ?]] [|[|b2 [|? ?]] [|[|b1 [|? ?]] l]]] eqn:E; try done.
  case_decide as Hd; [|done]. intros [= <-].
  exists (reverse l), b1, b3. split; [|done].
  rewrite <- (reverse_involutive (notarizedChain s)), E, !reverse_cons, <- !app_assoc. done.
Qed.

(** Committing drops votes. *)
Lemma CommitBlock_filed fuel st id view c c' r :
  CommitBlock fuel st id view c = Ok (c', r) → total (quorum c) = re_N ∧ filed (quorum c) →
  total (quorum c') = re_N ∧ filed (quorum c').
Proof.
  intros [Ht Hv]%CommitBlock_votes [H1 H2]. split; [congruence|]. intros i x v Hx. by apply H2, Hv.
Qed.

Lemma sl_keeps_commit cf : sl_keeps anything (commit cf).
Proof.
  intros s s' a I Hrun. unfold commit in Hrun.
  apply prog_bind_ok in Hrun as (s1 & r & H1 & Hrun). apply gets_ok in H1 as [-> ->].
  destruct (commitRule s) as [b|] eqn:Hrule;
    [|apply ret_ok in Hrun as [-> _]; split_and!; [done|reflexivity|done]].
  do 2 (apply prog_bind_ok in Hrun as (s1 & v & H1 & Hrun); apply gets_ok in H1 as [-> ->]).
  apply prog_bind_ok in Hrun as (s1 & r & H1 & Hrun). apply zoom_ok in H1 as (c & Hc & ->).
  destruct (CommitBlock_filed _ _ _ _ _ _ _ Hc (si_quorum s I)) as [Ht Hfl].
  destruct r as [[committed forked]|e].
  - apply prog_bind_ok in Hrun as (s2 & [] & H2 & Hrun). apply modify_ok in H2 as ->.
    apply ret_ok in Hrun as [-> _].
    apply CommitBlock_inv in Hc as (w & f' & no & Hw & Hwalk & Hp & ->); [|apply I].
    apply PruneUpToLevel_spec in Hp as (_ & If & _); [|apply I].
    split_and!; [by destruct I; split| |done]. apply sl_advances_once; [done|]. split; [done|].
    apply (sl_one_deed s _ (Committed b committed forked)); simpl; rewrite ?app_nil_r; try done.
    destruct (commitRule_last_three s b Hrule) as (chain & b1 & b3 & ? & ? & ?).
    by exists chain, b1, b3, w.
  - apply ret_ok in Hrun as [-> _]. apply CommitBlock_err in Hc.
    split_and!; [|sl_quiet|done]. destruct I; split; try done. simpl. by rewrite Hc.
Qed.

Lemma sl_keeps_votingRule b : sl_keeps anything (votingRule b).
Proof.
  intros s s' a I Hrun. assert (s' = s) as ->; [|split_and!; [done|reflexivity|done]].
  unfold votingRule in Hrun. case_decide; [by injection Hrun as <-|].
  apply outcome_bind_ok in Hrun as (bs & _ & Hrun). by injection Hrun as <-.
Qed.

Lemma sl_keeps_run_async k : sl_keeps anything (run_async k).
Proof.
  intros s s' a I Hrun. unfold run_async in Hrun.
  destruct (async s !! k) as [view|] eqn:E; injection Hrun as <-;
    [|split_and!; [done|reflexivity|done]].
  assert (is_int64 view) as Hv by (by eapply (Forall_lookup_1 _ _ _ _ (si_async s I))).
  split_and!; [|sl_quiet|done].
  - destruct (advance_int64 view (pm s) Hv (si_view s I)) as [H1 _]. destruct I; split; try done.
    by apply Forall_delete.
  - apply rtc_once. right. by exists view.
Qed.

Hint Resolve sl_keeps_echo sl_keeps_broadcast sl_keeps_start sl_keeps_buffer_block sl_keeps_drop_block
  sl_keeps_buffer_QC sl_keeps_drop_QC sl_keeps_bufferedBlocks sl_keeps_bufferedQCs sl_keeps_early
  sl_keeps_AdvanceView sl_keeps_pm_ProcessRemoteTmo sl_keeps_AddBlock sl_keeps_AddVote
  sl_keeps_updateNotarizedChain sl_keeps_commit sl_keeps_votingRule : go.

(** The methods, given the methods they call. *)
Section body.
Context (pc : QC → prog Streamlet ()) (pb : Block → prog Streamlet (result ())).
Context (Hpc : ∀ qc, built qc → sl_keeps anything (pc qc)).
Context (Hpb : ∀ b, typed_block b → sl_keeps anything (pb b)).
Hint Resolve Hpc Hpb : go.

(** Processing what a buffer holds. *)
Lemma sl_keeps_from_blocks (m : gmap Identifier Block) k (f : prog Streamlet ()) :
  map_Forall (λ _, typed_block) m → sl_keeps anything f →
  sl_keeps anything match m !! k with Some b => pb b;; f | None => mret () end.
Proof.
  intros Hm Hf. destruct (m !! k) as [b|] eqn:E; [|preserve].
  specialize (Hm k b E). simpl in Hm. preserve.
Qed.

Lemma sl_keeps_process_buffers qc : sl_keeps anything (process_buffers pc pb qc).
Proof.
  unfold process_buffers. eapply preserves_bind; [apply _|apply sl_keeps_bufferedBlocks|intros m Hm].
  apply preserves_bind with (Φ := anything); [apply _| |intros _ _].
  { apply sl_keeps_from_blocks; [done|preserve]. }
  eapply preserves_bind; [apply _|apply sl_keeps_early|intros m' Hm'].
  destruct (m' !! _) as [q|] eqn:E; [|preserve]. specialize (Hm' _ q E). simpl in Hm'. preserve.
Qed.
Hint Resolve sl_keeps_process_buffers : go.

Lemma sl_keeps_processCertificate_body cf qc :
  built qc → sl_keeps anything (processCertificate_body pc pb cf qc).
Proof.
  intros Hqc. pose proof (bu_view _ Hqc) as Hview. unfold typed_qc in Hview. unfold processCertificate_body. apply preserves_bind with (Φ := anything);
    [apply _|preserve|intros v _]. case_decide; [preserve|].
  apply preserves_bind with (Φ := anything); [apply _|preserve|intros r _].
  destruct (_ && _); [preserve|].
  apply preserves_bind with (Φ := λ ok, ok = true → HotStuff.certified qc); [apply _| |].
  - case_decide; [apply preserves_ret; [apply _|by left]|].
    apply preserves_lift; [apply _|]. intros ok Hok ->. by right.
  - intros [] Hok; simpl; [|preserve]. specialize (Hok eq_refl). preserve.
Qed.

Lemma sl_keeps_ProcessVote_body v : typed_vote v → sl_keeps anything (ProcessVote_body pc v).
Proof.
  intros Hv. unfold ProcessVote_body. preserve_step; [preserve|]. preserve_step; [preserve|].
  preserve_step; [preserve|]. preserve_step; [preserve|].
  eapply preserves_bind; [apply _|by apply sl_keeps_AddVote|]. intros [isBuilt qc] Hqc. simpl in Hqc.
  preserve_step; [preserve|].
  eapply preserves_bind; [apply _|apply preserves_lift with (Φ := built)|]; [apply _| |].
  { intros q Hq%of_option_ok. by apply Hqc. }
  intros q Hq. preserve.
Qed.

Lemma sl_keeps_vote_and_continue b :
  typed_block b → sl_keeps anything (vote_and_continue pc pb b).
Proof.
  intros Hb. unfold vote_and_continue.
  eapply preserves_bind; [apply _|apply preserves_lift with (Φ := typed_vote)|]; [apply _| |].
  { intros v (Hv & _)%MakeVote_ok. unfold typed_vote. by rewrite Hv. }
  intros v Hv. apply preserves_bind with (Φ := anything);
    [apply _|by apply sl_keeps_ProcessVote_body|intros _ _].
  apply preserves_bind with (Φ := anything); [apply _|apply sl_keeps_broadcast|intros _ _].
  eapply preserves_bind; [apply _|apply sl_keeps_bufferedQCs|intros m Hm].
  apply preserves_bind with (Φ := anything); [apply _| |intros _ _].
  { destruct (m !! b_ID b) as [q|] eqn:E; [|preserve]. specialize (Hm _ q E). simpl in Hm. preserve. }
  eapply preserves_bind; [apply _|apply sl_keeps_bufferedBlocks|intros m' Hm'].
  apply sl_keeps_from_blocks; [done|preserve].
Qed.
Hint Resolve sl_keeps_vote_and_continue : go.

Lemma sl_keeps_ProcessBlock_body b : typed_block b → sl_keeps anything (ProcessBlock_body pc pb b).
Proof. intros Hb. unfold ProcessBlock_body. preserve. Qed.
End body.
End keeps.

(** ** Runs *)

Section props.
Context `{ReplicaEnv}.

Lemma sl_keeps_rec cf fuel :
  (∀ b, typed_block b → sl_keeps anything (ProcessBlock cf fuel b))
  ∧ (∀ qc, built qc → sl_keeps anything (processCertificate cf fuel qc)).
Proof.
  induction fuel as [|fuel [IHb IHc]]; simpl; [split; intros ? _ s s' a _ Hrun; discriminate Hrun|].
  split; intros; [by apply sl_keeps_ProcessBlock_body|by apply sl_keeps_processCertificate_body].
Qed.

Lemma sl_keeps_ProcessBlock cf fuel b : typed_block b → sl_keeps anything (ProcessBlock cf fuel b).
Proof. apply sl_keeps_rec. Qed.
Lemma sl_keeps_ProcessVote cf fuel v : typed_vote v → sl_keeps anything (ProcessVote cf fuel v).
Proof. intros Hv. apply sl_keeps_ProcessVote_body; [apply sl_keeps_rec|done]. Qed.

Lemma sl_keeps_ProcessRemoteTmo tmo : typed_tmo tmo → sl_keeps anything (ProcessRemoteTmo tmo).
Proof.
  intros Ht. unfold ProcessRemoteTmo.
  eapply preserves_bind; [apply _|apply sl_keeps_pm_ProcessRemoteTmo|].
  intros [isBuilt tc] Htc. simpl in Htc. preserve_step; [preserve|].
  eapply preserves_bind; [apply _|apply preserves_lift with (Φ := λ tc, is_int64 (tc_View tc))|];
    [apply _|intros q Hq%of_option_ok; by rewrite (Htc q Hq)|].
  intros q Hq. unfold processTC. preserve_step; [preserve|]. preserve_step; [preserve|].
  by apply sl_keeps_start.
Qed.

Lemma sl_keeps_ProcessLocalTmo view : is_int64 view → sl_keeps anything (ProcessLocalTmo view).
Proof.
  intros Hv. unfold ProcessLocalTmo. eapply preserves_bind; [apply _|apply sl_keeps_broadcast|].
  intros _ _. by apply sl_keeps_ProcessRemoteTmo.
Qed.

Lemma sl_keeps_set_store (f : QCStore → QCStore * QCptr) :
  sl_keeps anything (λ s, let '(st, a) := f (store s) in Ok (set_store s st, Some a)).
Proof.
  intros s s' a I Hrun. destruct (f (store s)) as [st p]. injection Hrun as <- <-.
  split_and!; [by destruct I; split|sl_quiet|done].
Qed.

Lemma sl_keeps_new_qc id : sl_keeps anything (new_qc id).
Proof. apply (sl_keeps_set_store (λ st, qc_alloc st (qc_of 0 id))). Qed.
Hint Resolve sl_keeps_new_qc : go.

Lemma sl_keeps_MakeProposal view payload :
  is_int64 view → sl_keeps typed_block (MakeProposal view payload).
Proof.
  intros Hv. unfold MakeProposal. preserve. apply preserves_lift; [apply _|].
  intros b (Hview & _)%MakeBlock_ok. unfold typed_block. by rewrite Hview.
Qed.
Lemma sl_keeps_MakePProposal tries priori view :
  is_int64 view → sl_keeps typed_block (MakePProposal tries priori view).
Proof.
  intros Hv. unfold MakePProposal. preserve. apply preserves_lift; [apply _|].
  intros b (Hview & _)%MakePBlock_ok. unfold typed_block. by rewrite Hview.
Qed.

(** The protocol behind the interface of the replica. *)
Definition sl_safety : Safety Streamlet :=
  {| sf_ProcessBlock := ProcessBlock; sf_ProcessVote := ProcessVote;
     sf_ProcessRemoteTmo := λ _ _, ProcessRemoteTmo;
     sf_ProcessLocalTmo := λ _ _, ProcessLocalTmo;
     sf_GetChainStatus := GetChainStatus; sf_MakeProposal := MakeProposal; sf_MakePProposal := MakePProposal;
     sf_pm := pm; sf_set_pm := set_pm; sf_store := store; sf_set_store := set_store;
     sf_committed := committedBlocks; sf_forked := forkedBlocks; sf_goroutine := run_async |}.

Definition sl_handle : nat → nat → event → prog Streamlet () := sf_handle (SF := sl_safety).

Lemma sl_keeps_decode qc : sl_keeps anything (sf_decode (SF := sl_safety) qc).
Proof.
  destruct qc as [q|]; [apply (sl_keeps_set_store (λ st, qc_alloc st q))|unfold sf_decode; preserve].
Qed.

Lemma sl_keeps_handle cf fuel e : typed_event e → sl_keeps anything (sl_handle cf fuel e).
Proof.
  intros He. destruct e as [b qc|v|view id qc| |view payload now|n pr view now| |k].
  - destruct He as [Hb _]. eapply preserves_bind; [apply _|apply sl_keeps_decode|]. intros p _.
    eapply preserves_bind; [apply _|by apply sl_keeps_ProcessBlock|]. preserve.
  - by apply sl_keeps_ProcessVote.
  - destruct He as [Hv _]. eapply preserves_bind; [apply _|apply sl_keeps_decode|]. intros p _.
    by apply sl_keeps_ProcessRemoteTmo.
  - eapply preserves_bind; [apply _|apply preserves_gets with (Φ := is_int64); [apply _|]|].
    + intros s I. apply I.
    + intros v Hv. by apply sl_keeps_ProcessLocalTmo.
  - eapply preserves_bind; [apply _|by apply sl_keeps_MakeProposal|]. intros b Hb.
    eapply preserves_bind; [apply _|by apply sl_keeps_ProcessBlock|]. preserve.
  - eapply preserves_bind; [apply _|by apply sl_keeps_MakePProposal|]. intros b Hb.
    eapply preserves_bind; [apply _|by apply sl_keeps_ProcessBlock|]. preserve.
  - by apply (sl_keeps_AdvanceView 0).
  - apply (sl_keeps_run_async k).
Qed.

Definition sl_step : Streamlet → Streamlet → Prop := sf_step (SF := sl_safety).
Definition sl_run : Streamlet → Streamlet → Prop := rtc sl_step.

Definition sl_initial : Streamlet := NewStreamlet (NewPacemaker re_N).

Lemma sl_initial_inv : sl_inv sl_initial.
Proof.
  split; [by intros i bs|split; [done|by intros ? ? ?]|apply forest_inv_new|by vm_compute|by intros ?..|constructor].
Qed.

Lemma sl_run_keeps s s' : sl_inv s → sl_run s s' → sl_inv s' ∧ sl_advances s s'.
Proof.
  intros I Hrun. revert I. induction Hrun as [|s1 s2 s3 (cf & fuel & e & He & Hs) _ IH];
    intros I; [split; [done|reflexivity]|].
  destruct (sl_keeps_handle cf fuel e He s1 s2 () I Hs) as (I2 & A2 & _).
  destruct (IH I2) as [I3 A3]. split; [done|by transitivity s2].
Qed.

Lemma sl_run_logs s : sl_run sl_initial s → sl_inv s ∧ sl_logs sl_initial s (deeds s).
Proof.
  intros H1. destruct (sl_run_keeps _ _ sl_initial_inv H1) as [I [h Hl]%sl_advances_logs].
  split; [done|]. by rewrite (sl_log_deeds _ _ _ Hl).
Qed.

(** [C30] The notarized chain of a Streamlet replica.  In every run, over any messages,
    timeouts, proposals and interleaving of the goroutines, the chain is a sequence of
    single blocks, each but the first extending a block that stands earlier in the
    sequence; it only ever grows at its end, and it is exactly the sequence of recorded
    notarizations.  Each of them is recorded with the state before it and the certificate
    that caused it: the certificate names the block, its signers are distinct and more
    than two thirds of the nodes, and their signatures verify (unless the replica's own
    identifier is the empty string, which the code would take for the leader of the
    certificate); in that state the block is stored and its parent notarized, if
    anything is. *)
Theorem streamlet_notarized_ordered s s' :
  sl_run sl_initial s → sl_run s s' →
  ordered (notarizedChain s') ∧ notarizedChain s `prefix_of` notarizedChain s'
  ∧ notarizedChain s' = notarized_in (deeds s')
  ∧ ∀ sm qc b, (sm, Notarized qc b) ∈ deeds s' → sl_inv sm ∧ notarizes sm qc b.
Proof.
  intros H1 H2. destruct (sl_run_keeps _ _ sl_initial_inv H1) as [I1 _].
  destruct (sl_run_keeps _ _ I1 H2) as [I2 [h Hl]%sl_advances_logs].
  destruct (sl_run_logs s') as [_ [_ E2 _ _ E5]]; [by etrans|].
  split_and!; [apply I2|rewrite (sl_log_chain _ _ _ Hl); by eexists|done|].
  intros sm qc b Hin. rewrite Forall_forall in E5. exact (E5 _ Hin).
Qed.

(** [C31] Streamlet commits only by its rule.  In every run, the committed blocks are
    exactly the batches of the recorded commits, in order, and the forked blocks those
    that the commits reported.  Each commit is recorded with the state just before it and
    the block it commits: in that state the block is the middle one of the last three
    notarized blocks, whose views are consecutive (nothing is said of their parents), and
    the batch is the walk from the stored block with its identifier through the stored
    parents down to the last committed level. *)
Theorem streamlet_commits_by_rule s :
  sl_run sl_initial s →
  committedBlocks s = concat (batches_in (deeds s))
  ∧ forkedBlocks s = concat (forks_in (deeds s))
  ∧ ∀ sm b c f, (sm, Committed b c f) ∈ deeds s → sl_inv sm ∧ last_three sm b c.
Proof.
  intros [_ [_ _ E3 E4 E5]]%sl_run_logs. split_and!; [done..|].
  intros sm b c f Hin. rewrite Forall_forall in E5. exact (E5 _ Hin).
Qed.

(** What [updateNotarizedChain] does, in every case.  A certificate of an
    unknown block changes nothing.  The first certified block starts the chain.
    Afterwards a block whose parent is anywhere in the chain is appended at the
    end; when the parent is not notarized, the certificate is buffered under it
    if the chain has three blocks or more, and the search runs off the front of a
    shorter chain and panics. *)
Theorem updateNotarizedChain_spec qc s :
  updateNotarizedChain qc s
  = match GetBlockByID (bc s) (qc_BlockID qc) with
    | Err _ => Ok (s, Err "cannot find the block")
    | Val block =>
        if decide (notarizedChain s = [] ∨ notarized (notarizedChain s) (b_PrevID block))
        then Ok (notarize s qc block, Val ())
        else if decide (3 ≤ length (notarizedChain s))%nat
        then Ok (set_bufferedNotarizedBlock s (<[b_PrevID block := qc]> (bufferedNotarizedBlock s)),
                 Err "the block is not extending the notarized chain")
        else Fault IndexOutOfRange
    end.
Proof. apply updateNotarizedChain_cases. Qed.
End props.

(** ** Runs of the sample environment *)

Definition sl_run_event (s : Streamlet) (e : event) : Streamlet :=
  match @sl_handle sample_env 10 10 e s with Ok (s', _) => s' | Fault _ => s end.

Definition sl_sample_initial : Streamlet := @sl_initial sample_env.

(** The state after some events. *)
Definition after (es : list event) : Streamlet := foldl sl_run_event sl_sample_initial es.

(** Every event is handled without a fault. *)
Fixpoint all_handled (s : Streamlet) (es : list event) : bool :=
  match es with
  | [] => true
  | e :: es =>
      match @sl_handle sample_env 10 10 e s with
      | Ok (s', _) => all_handled s' es
      | Fault _ => false
      end
  end.

Lemma after_reachable es :
  Forall typed_event es → all_handled sl_sample_initial es = true →
  @sl_run sample_env sl_sample_initial (after es).
Proof.
  unfold after. generalize sl_sample_initial. intros s Hty. revert s.
  induction Hty as [|e es He _ IH]; intros s Hes; [apply rtc_refl|].
  cbn [foldl]. cbn [all_handled] in Hes. unfold sl_run_event at 2.
  destruct (@sl_handle sample_env 10 10 e s) as [[s' []]|] eqn:E; [|discriminate Hes].
  eapply rtc_l; [exists 10%nat, 10%nat, e; split; [exact He|exact E]|by apply IH].
Qed.

(** A block of the leader, without a certificate of its own, and a vote. *)
Definition sl_block (view : Z) (prev id : Identifier) : event :=
  RecvBlock (MkBlock view None "2" 0 [] prev (sample_sig id) id None) (Some (qc_of 0 prev)).
Definition sl_vote (view : Z) (id : Identifier) (voter : NodeID) : event :=
  RecvVote (MkVote view voter id (sample_sig id)).
Definition sl_votes (view : Z) (id : Identifier) : list event :=
  sl_vote view id <$> ["2"; "3"; "4"].

(** A chain of three blocks, each certified before the next arrives. *)
Definition three_blocks : list event :=
  [sl_block 1 0 1] ++ sl_votes 1 1 ++ [sl_block 2 1 2] ++ sl_votes 2 2
  ++ [sl_block 3 2 3] ++ sl_votes 3 3.
(** The third block extends the first, and the fourth the third. *)
Definition forked_blocks : list event :=
  [sl_block 1 0 1] ++ sl_votes 1 1 ++ [sl_block 2 1 2] ++ sl_votes 2 2
  ++ [sl_block 3 1 3] ++ sl_votes 3 3 ++ [sl_block 4 3 4] ++ sl_votes 4 4.
(** Only the first block is certified when the third arrives. *)
Definition late_blocks : list event :=
  [sl_block 1 0 1] ++ sl_votes 1 1 ++ [sl_block 2 1 2; sl_block 3 2 3].

Lemma three_blocks_reachable : @sl_run sample_env sl_sample_initial (after three_blocks).
Proof. apply after_reachable; [apply typed_events; vm_compute; reflexivity|vm_compute; reflexivity]. Qed.

Lemma streamlet_notarized_ordered_witness :
  (b_ID <$> concat (notarized_in (deeds (after three_blocks)))) = [1; 2; 3]%N
  ∧ ordered (notarizedChain (after three_blocks))
  ∧ ∀ sm qc b, (sm, Notarized qc b) ∈ deeds (after three_blocks) → @notarizes sample_env sm qc b.
Proof.
  split; [vm_compute; reflexivity|].
  destruct (@streamlet_notarized_ordered sample_env sl_sample_initial (after three_blocks)
           (rtc_refl _ _) three_blocks_reachable) as (Ho & _ & _ & Hn).
  split; [exact Ho|]. intros sm qc b Hin. apply (Hn sm qc b Hin).
Defined.

Lemma streamlet_commits_by_rule_witness :
  fmap (M:=list) b_ID <$> batches_in (deeds (after three_blocks)) = [[2; 1]]%N
  ∧ ∀ sm b c f, (sm, Committed b c f) ∈ deeds (after three_blocks) → last_three sm b c.
Proof.
  split; [vm_compute; reflexivity|]. intros sm b c f Hin.
  destruct (@streamlet_commits_by_rule sample_env (after three_blocks) three_blocks_reachable)
    as (_ & _ & Hc). apply (Hc sm b c f Hin).
Defined.

(** ** What the rules miss *)

(** [C32] A Streamlet replica can commit two blocks with the same parent.  The
    notarized chain is ordered by the time of notarization and the commit rule
    compares only views, so three notarized blocks of consecutive views pass as a
    chain although the third extends the first: the second is committed, and the
    next block, which extends the third, commits the third as well. *)
Theorem streamlet_commits_fork :
  @sl_run sample_env sl_sample_initial (after forked_blocks)
  ∧ ∃ b c, b ∈ committedBlocks (after forked_blocks) ∧ c ∈ committedBlocks (after forked_blocks)
    ∧ b_ID b ≠ b_ID c ∧ b_PrevID b = b_PrevID c.
Proof.
  split; [apply after_reachable; [apply typed_events; vm_compute; reflexivity|vm_compute; reflexivity]|].
  assert (((λ b, (b_ID b, b_PrevID b)) <$> committedBlocks (after forked_blocks))
    = [(2, 1); (1, 0); (3, 1)]%N) as Hc by (vm_compute; reflexivity).
  assert (∀ x, x ∈ [(2, 1); (1, 0); (3, 1)]%N → ∃ b, b ∈ committedBlocks (after forked_blocks)
    ∧ b_ID b = x.1 ∧ b_PrevID b = x.2) as Hin.
  { intros x. rewrite <- Hc. intros (b & -> & Hb)%list_elem_of_fmap. exists b.
    split; [exact Hb|split; reflexivity]. }
  clear Hc. destruct (Hin (2, 1)%N) as (b & Hb & Hb1 & Hb2); [apply list_elem_of_here|].
  destruct (Hin (3, 1)%N) as (c & Hc & Hc1 & Hc2);
    [do 2 apply list_elem_of_further; apply list_elem_of_here|].
  clear Hin. exists b, c. rewrite Hb1, Hb2, Hc1, Hc2.
  split; [exact Hb|]. split; [exact Hc|]. split; [discriminate|reflexivity].
Qed.

(** [C33] Late messages crash a Streamlet replica.  A block of view 3 that arrives
    before any block is certified makes the voting rule index an empty chain; and
    when only the first block is certified, the third vote for the third block
    makes the search for its parent run below index 0. *)
Theorem streamlet_panics :
  (∃ s, @sl_run sample_env sl_sample_initial s
     ∧ @sl_handle sample_env 10 10 (sl_block 3 2 3) s = Fault IndexOutOfRange)
  ∧ (∃ s, @sl_run sample_env sl_sample_initial s
     ∧ @sl_handle sample_env 10 10 (sl_vote 3 3 "4") s = Fault IndexOutOfRange).
Proof.
  split.
  - exists (after [sl_block 1 0 1; sl_block 2 1 2]).
    split; [apply after_reachable; [apply typed_events; vm_compute; reflexivity|]|]; vm_compute; reflexivity.
  - exists (after (late_blocks ++ [sl_vote 3 3 "2"; sl_vote 3 3 "3"])).
    split; [apply after_reachable; [apply typed_events; vm_compute; reflexivity|]|]; vm_compute; reflexivity.
Qed.
