(* ===== verification/Replica.v ===== *)
(** * The replica ([src/replica/replica.go])

    A replica runs four goroutines besides the network: the main loop, which
    takes events from an unbuffered channel; the listener of local events (new
    views and the timer); the listener of committed and forked blocks; and the
    handlers of received messages.  Each iteration of one of them is an action
    here, and a run is any interleaving of actions.

    An action is atomic here, in the code it is not: when the timer fires, the listener
    calls [ProcessLocalTmo] itself (line 291) while the main loop may be inside
    [ProcessBlock], [ProcessVote] or [ProcessRemoteTmo] (lines 337-345), and no lock
    protects the state of the protocol.  What is proved of a replica here is about runs
    in which the calls of the protocol do not overlap.

    The channels that the protocol and the pacemaker write to are logs (files
    [Chained], [Pacemaker]); the replica keeps the number of values it has read
    from each.  The logs are not bounded, the channels hold 100 values each.  A sender that is blocked on the event channel is kept in
    [pending]; the listener of local events blocks with one view at a time,
    [entering].  Phalanx is a library: the calls of it are a log, and its answers
    are part of the action.  Time stamps are given with the action; the timer, the
    durations and the report of [handleQuery] are added in file [Timed]. *)
From S2P Require Import Prelude Identity Sha1 Election Db Crypto Types Quorum Forest BlockChain Pacemaker Mempool Chained Safety.

Local Open Scope Z_scope.

(** The messages with a registered handler (lines 88-94); those of Phalanx are
    opaque. *)
Inductive net_msg :=
  | MsgBlock (b : Block) (qc : option QC)
  | MsgVote (v : Vote)
  | MsgTmo (view : Z) (id : NodeID) (qc : option QC)
  | MsgTxn (tx : Transaction)
  | MsgConsensus (m : N)
  | MsgCommand (c : N).

(** The calls of the Phalanx provider. *)
Inductive phalanx_call :=
  | ReceiveTransaction (value : Value) (timestamp : Z)
  | ReceiveConsensusMessage (m : N)
  | ReceiveCommand (c : N)
  | CommitProposal (batch : N).

(** The counters that are not durations. *)
Record stats := MkStats {
  totalBlockSize : Z;
  receivedNo : Z;
  roundNo : Z;
  voteNo : Z;
  totalCommittedTx : Z;
  proposedNo : Z;
  processedNo : Z;
  committedNo : Z
}.

Section replica.
Context `{ReplicaEnv} `{BitSet} {S : Type} {SF : Safety S}.

(** Lines 29-67. *)
Record Replica := MkReplica {
  safety : S;
  openPhalanx : bool;
  pd : Backend;
  isStarted : bool;
  pending : list net_msg;
  entering : option Z;
  views_read : nat;
  committed_read : nat;
  forked_read : nat;
  sent : list (Block * option QC);
  phalanx : list phalanx_call;
  counters : stats
}.

Definition set_safety (r : Replica) (x : S) : Replica :=
  MkReplica x (openPhalanx r) (pd r) (isStarted r) (pending r) (entering r) (views_read r)
    (committed_read r) (forked_read r) (sent r) (phalanx r) (counters r).
Definition set_pd (r : Replica) (x : Backend) : Replica :=
  MkReplica (safety r) (openPhalanx r) x (isStarted r) (pending r) (entering r) (views_read r)
    (committed_read r) (forked_read r) (sent r) (phalanx r) (counters r).
Definition set_isStarted (r : Replica) (x : bool) : Replica :=
  MkReplica (safety r) (openPhalanx r) (pd r) x (pending r) (entering r) (views_read r)
    (committed_read r) (forked_read r) (sent r) (phalanx r) (counters r).
Definition set_pending (r : Replica) (x : list net_msg) : Replica :=
  MkReplica (safety r) (openPhalanx r) (pd r) (isStarted r) x (entering r) (views_read r)
    (committed_read r) (forked_read r) (sent r) (phalanx r) (counters r).
Definition set_entering (r : Replica) (x : option Z) (n : nat) : Replica :=
  MkReplica (safety r) (openPhalanx r) (pd r) (isStarted r) (pending r) x n
    (committed_read r) (forked_read r) (sent r) (phalanx r) (counters r).
Definition set_committed_read (r : Replica) (n : nat) : Replica :=
  MkReplica (safety r) (openPhalanx r) (pd r) (isStarted r) (pending r) (entering r) (views_read r)
    n (forked_read r) (sent r) (phalanx r) (counters r).
Definition set_forked_read (r : Replica) (n : nat) : Replica :=
  MkReplica (safety r) (openPhalanx r) (pd r) (isStarted r) (pending r) (entering r) (views_read r)
    (committed_read r) n (sent r) (phalanx r) (counters r).
Definition broadcast (r : Replica) (b : Block) (qc : option QC) : Replica :=
  MkReplica (safety r) (openPhalanx r) (pd r) (isStarted r) (pending r) (entering r) (views_read r)
    (committed_read r) (forked_read r) (sent r ++ [(b, qc)]) (phalanx r) (counters r).
Definition call_phalanx (r : Replica) (c : phalanx_call) : Replica :=
  MkReplica (safety r) (openPhalanx r) (pd r) (isStarted r) (pending r) (entering r) (views_read r)
    (committed_read r) (forked_read r) (sent r) (phalanx r ++ [c]) (counters r).
Definition count (r : Replica) (f : stats → stats) : Replica :=
  MkReplica (safety r) (openPhalanx r) (pd r) (isStarted r) (pending r) (entering r) (views_read r)
    (committed_read r) (forked_read r) (sent r) (phalanx r) (f (counters r)).

(** The increments of the counters. *)
Definition count_received (c : stats) : stats :=
  MkStats (totalBlockSize c) (int64 (receivedNo c + 1)) (roundNo c) (voteNo c) (totalCommittedTx c)
    (proposedNo c) (processedNo c) (committedNo c).
Definition count_round (c : stats) : stats :=
  MkStats (totalBlockSize c) (receivedNo c) (int64 (roundNo c + 1)) (voteNo c) (totalCommittedTx c)
    (proposedNo c) (processedNo c) (committedNo c).
Definition count_vote (c : stats) : stats :=
  MkStats (totalBlockSize c) (receivedNo c) (roundNo c) (int64 (voteNo c + 1)) (totalCommittedTx c)
    (proposedNo c) (processedNo c) (committedNo c).
Definition count_processed (c : stats) : stats :=
  MkStats (totalBlockSize c) (receivedNo c) (roundNo c) (voteNo c) (totalCommittedTx c)
    (proposedNo c) (int64 (processedNo c + 1)) (committedNo c).
Definition count_proposed (size : Z) (c : stats) : stats :=
  MkStats (int64 (totalBlockSize c + size)) (receivedNo c) (roundNo c) (voteNo c)
    (totalCommittedTx c) (int64 (proposedNo c + 1)) (processedNo c) (committedNo c).
Definition count_committed (txs : Z) (c : stats) : stats :=
  MkStats (totalBlockSize c) (receivedNo c) (roundNo c) (voteNo c) (int64 (totalCommittedTx c + txs))
    (proposedNo c) (processedNo c) (int64 (committedNo c + 1)).

(** Lines 70-120; [alg] chooses [S] and the state [s] that its constructor returns. *)
Definition NewReplica (MemSize : Z) (s : S) : Replica :=
  MkReplica s true (NewProducer MemSize) false [] None 0 0 0 [] [] (MkStats 0 0 0 0 0 0 0 0).

Definition on_safety {A} (m : prog S A) : prog Replica A := zoom safety (λ x r, set_safety r x) m.
Definition on_pd {A} (m : prog Backend A) : prog Replica A := zoom pd (λ x r, set_pd r x) m.
Definition curView_r (r : Replica) : Z := GetCurView (sf_pm (safety r)).

(** Lines 310-318: the send on [start] returns once [Start] waits for it. *)
Definition startSignal : prog Replica () :=
  started ← gets isStarted;
  if (started : bool) then mret () else modify (λ r, set_isStarted r true).

(** The send on the event channel blocks until the main loop receives. *)
Definition send_event (m : net_msg) : prog Replica () :=
  modify (λ r, set_pending r (pending r ++ [m])).

(** Lines 124-129. *)
Definition HandleBlock (b : Block) (qc : option QC) : prog Replica () :=
  modify (λ r, count r count_received);; startSignal;; send_event (MsgBlock b qc).

(** Lines 131-138. *)
Definition HandleVote (v : Vote) : prog Replica () :=
  curView ← gets curView_r;
  if decide (vote_View v < curView) then mret () else startSignal;; send_event (MsgVote v).

(** Lines 140-146. *)
Definition HandleTmo (view : Z) (id : NodeID) (qc : option QC) : prog Replica () :=
  curView ← gets curView_r;
  if decide (view < curView) then mret () else send_event (MsgTmo view id qc).

(** Lines 148-158. *)
Definition HandleConsensusMessage (m : N) : prog Replica () := startSignal;; send_event (MsgConsensus m).
Definition HandleCommand (c : N) : prog Replica () := startSignal;; send_event (MsgCommand c).

(** Lines 201-211: the transaction goes to Phalanx, not to the pool. *)
Definition handleTxn (tx : Transaction) : prog Replica () :=
  modify (λ r, call_phalanx r (ReceiveTransaction (cmd_Value (tx_Command tx)) (tx_Timestamp tx)));;
  startSignal;;
  curView ← gets curView_r;
  kick ← (if decide (curView = 0) then lift (IsLeader re_ID 1) else mret false);
  if (kick : bool) then on_safety (modify (λ s, sf_set_pm s (advance 0 (sf_pm s)))) else mret ().

(** Lines 215-226; [err] is the error of Phalanx, if any. *)
Definition processCommittedBlock (err : bool) (block : Block) : prog Replica () :=
  modify (λ r, count r (count_committed (Z.of_nat (length (b_Payload block)))));;
  match b_PBatch block with
  | None => mret ()
  | Some batch =>
      modify (λ r, call_phalanx r (CommitProposal batch));;
      if err then lift (Fault ExplicitPanic) else mret ()
  end.

(** Lines 228-236. *)
Definition collect (txs : list Transaction) : prog Backend () :=
  foldl (λ m tx, m;; CollectTxn (Some tx)) (mret ()) txs.
Definition processForkedBlock (block : Block) : prog Replica () :=
  if decide (b_Proposer block = re_ID) then on_pd (collect (b_Payload block)) else mret ().

(** A nil transaction in a payload makes [MakeBlock] panic. *)
Fixpoint non_nil (l : list (option Transaction)) : outcome (list Transaction) :=
  match l with
  | [] => mret []
  | tx :: l => tx ← of_option NilDereference tx; l ← non_nil l; mret (tx :: l)
  end.

(** Lines 246-266. *)
Definition proposeBlock (cf fuel tries : nat) (priori : nat → option N) (BSize now view : Z)
  : prog Replica () :=
  open ← gets openPhalanx;
  block ← (if open && bool_decide (1 < view)
           then on_safety (sf_MakePProposal tries priori view)
           else payload ← on_pd (GeneratePayload BSize);
                payload ← lift (non_nil payload);
                on_safety (sf_MakeProposal view payload));
  modify (λ r, count r (count_proposed (Z.of_nat (length (b_Payload block)))));;
  let block := with_Timestamp now block in
  modify (λ r, broadcast r block (b_QC block ≫= λ a, sf_store (safety r) !! a));;
  on_safety (sf_ProcessBlock cf fuel block);;
  mret ().

(** Lines 238-244: the leader is also looked up for the log. *)
Definition processNewView (cf fuel tries : nat) (priori : nat → option N) (BSize now newView : Z)
  : prog Replica () :=
  lift (FindLeaderFor newView);;
  isLeader ← lift (IsLeader re_ID newView);
  if negb isLeader then mret () else proposeBlock cf fuel tries priori BSize now newView.

(** ** The goroutines *)

(** Lines 276-289: a new view is read from the pacemaker, and the listener blocks
    until the main loop takes it. *)
Definition listen_view : prog Replica () := λ r,
  match entering r, newViewChan (sf_pm (safety r)) !! views_read r with
  | None, Some view =>
      Ok (count (set_entering r (Some view) (Datatypes.S (views_read r))) count_round, ())
  | _, _ => Ok (r, ())
  end.

(** Lines 290-292: the timer fires while the listener waits. *)
Definition listen_timer (cf fuel : nat) : prog Replica () := λ r,
  match entering r with
  | Some _ => Ok (r, ())
  | None => on_safety (sf_ProcessLocalTmo cf fuel (curView_r r)) r
  end.

(** Lines 299-308. *)
Definition listen_committed (err : bool) : prog Replica () := λ r,
  match sf_committed (safety r) !! committed_read r with
  | None => Ok (r, ())
  | Some block =>
      processCommittedBlock err block (set_committed_read r (Datatypes.S (committed_read r)))
  end.
Definition listen_forked : prog Replica () := λ r,
  match sf_forked (safety r) !! forked_read r with
  | None => Ok (r, ())
  | Some block => processForkedBlock block (set_forked_read r (Datatypes.S (forked_read r)))
  end.

(** Lines 331-352: the main loop receives a view, or one of the messages. *)
Definition loop_view (cf fuel tries : nat) (priori : nat → option N) (BSize now : Z)
  : prog Replica () := λ r,
  match entering r with
  | None => Ok (r, ())
  | Some view =>
      processNewView cf fuel tries priori BSize now view (set_entering r None (views_read r))
  end.
Definition process_msg (cf fuel : nat) (m : net_msg) : prog Replica () :=
  match m with
  | MsgBlock b qc =>
      p ← on_safety (sf_decode qc);
      on_safety (sf_ProcessBlock cf fuel (with_QC b p));;
      modify (λ r, count r count_processed)
  | MsgVote v => on_safety (sf_ProcessVote cf fuel v);; modify (λ r, count r count_vote)
  | MsgTmo view id qc =>
      p ← on_safety (sf_decode qc);
      on_safety (sf_ProcessRemoteTmo cf fuel (MkTMO view id p))
  | MsgConsensus m => modify (λ r, call_phalanx r (ReceiveConsensusMessage m))
  | MsgCommand c => modify (λ r, call_phalanx r (ReceiveCommand c))
  | MsgTxn _ => mret ()
  end.
Definition loop_msg (cf fuel k : nat) : prog Replica () := λ r,
  match pending r !! k with
  | None => Ok (r, ())
  | Some m => process_msg cf fuel m (set_pending r (delete k (pending r)))
  end.

(** The handler that is registered for a message (lines 88-94). *)
Definition receive (m : net_msg) : prog Replica () :=
  match m with
  | MsgBlock b qc => HandleBlock b qc
  | MsgVote v => HandleVote v
  | MsgTmo view id qc => HandleTmo view id qc
  | MsgTxn tx => handleTxn tx
  | MsgConsensus m => HandleConsensusMessage m
  | MsgCommand c => HandleCommand c
  end.

Inductive action :=
  | Receive (m : net_msg)
  | ListenView
  | ListenTimer
  | ListenCommitted (err : bool)
  | ListenForked
  | LoopView (tries : nat) (priori : nat → option N) (now : Z)
  | LoopMsg (k : nat)
  | Background (k : nat).

(** Messages are handled from the beginning; the other goroutines run once the
    replica is started (lines 321-330).  Each action runs to its end before the next
    one starts. *)
Definition act (cf fuel : nat) (BSize : Z) (a : action) : prog Replica () := λ r,
  match a with
  | Receive m => receive m r
  | _ =>
    if isStarted r then
      match a with
      | Receive _ => Ok (r, ())
      | ListenView => listen_view r
      | ListenTimer => listen_timer cf fuel r
      | ListenCommitted err => listen_committed err r
      | ListenForked => listen_forked r
      | LoopView tries priori now => loop_view cf fuel tries priori BSize now r
      | LoopMsg k => loop_msg cf fuel k r
      | Background k => on_safety (sf_goroutine k) r
      end
    else Ok (r, ())
  end.

Definition typed_msg (m : net_msg) : Prop :=
  match m with
  | MsgBlock b qc => typed_event (RecvBlock b qc)
  | MsgVote v => typed_event (RecvVote v)
  | MsgTmo view id qc => typed_event (RecvTmo view id qc)
  | MsgTxn _ | MsgConsensus _ | MsgCommand _ => True
  end.
Definition typed_action (a : action) : Prop :=
  match a with Receive m => typed_msg m | _ => True end.

#[global] Instance typed_action_dec a : Decision (typed_action a).
Proof. destruct a as [[b qc|v|view id qc|tx|c|c]| | | | | | |]; unfold typed_action, typed_msg; apply _. Defined.

Definition rep_step (BSize : Z) (r r' : Replica) : Prop :=
  ∃ cf fuel a, typed_action a ∧ act cf fuel BSize a r = Ok (r', ()).
Definition rep_run (BSize : Z) : Replica → Replica → Prop := rtc (rep_step BSize).
End replica.
Arguments Replica {_} S.
Arguments action : clear implicits.
