(* ===== verification/ReplicaProps.v ===== *)
(** * Properties of the replica

    They hold for every protocol that keeps the laws of file [Safety], and for
    every interleaving of the goroutines: the protocol behind a replica runs only
    events of its interface; a replica proposes as the leader and at most once per
    view; committed blocks are executed in the order of the channel, each once;
    and the pool loses no transaction. *)
From S2P Require Import Prelude Identity Sha1 Election Db Crypto Types Quorum Forest BlockChain Pacemaker Mempool Chained Safety Replica.

Local Open Scope Z_scope.

(** ** What the replica has read of its channels *)

Lemma take_prefix {A} n (l l' : list A) : l `prefix_of` l' → (n ≤ length l)%nat → take n l' = take n l.
Proof. intros [k ->] Hn. by rewrite take_app_le. Qed.

Section parts.
Context `{ReplicaEnv}.

(** The blocks proposed so far are for views read from the channel and already
    taken by the main loop, in their order. *)
Definition views_inv (chan : list Z) (entering : option Z) (n : nat) (bs : list Block) : Prop :=
  (n ≤ length chan)%nat
  ∧ match entering with
    | None => b_View <$> bs `sublist_of` take n chan
    | Some v => ∃ k, n = S k ∧ chan !! k = Some v ∧ b_View <$> bs `sublist_of` take k chan
    end.

Definition led (b : Block) : Prop := b_Proposer b = re_ID ∧ IsLeader re_ID (b_View b) = Ok true.

(** The batches handed to Phalanx. *)
Definition batches : list phalanx_call → list N :=
  omap (λ c, match c with CommitProposal b => Some b | _ => None end).

Definition commits_inv (committed : list Block) (n : nat) (c : stats) (ph : list phalanx_call) : Prop :=
  (n ≤ length committed)%nat ∧ committedNo c = int64 (Z.of_nat n)
  ∧ totalCommittedTx c
    = int64 (Z.of_nat (length (concat (b_Payload <$> take n committed))))
  ∧ batches ph = omap b_PBatch (take n committed).

(** The payloads of the replica's own forked blocks. *)
Definition returned (forked : list Block) : list Transaction :=
  concat (b_Payload <$> filter (λ b, b_Proposer b = re_ID) forked).

Definition pool_conserved (forked : list Block) (n : nat) (bs : list Block) (txs : list Transaction)
  : Prop :=
  (n ≤ length forked)%nat ∧ concat (b_Payload <$> bs) ++ txs ≡ₚ returned (take n forked).

Lemma views_inv_prefix chan chan' e n bs :
  chan `prefix_of` chan' → views_inv chan e n bs → views_inv chan' e n bs.
Proof.
  intros Hp [Hn He]. pose proof (prefix_length _ _ Hp). split; [lia|]. destruct e as [v|].
  - destruct He as (k & -> & Hk & Hs). exists k. split_and!; [done|by eapply prefix_lookup_Some|].
    rewrite (take_prefix k chan) by (done || lia). done.
  - by rewrite (take_prefix n chan).
Qed.

Lemma commits_inv_prefix l l' n c ph : l `prefix_of` l' → commits_inv l n c ph → commits_inv l' n c ph.
Proof.
  intros Hp (Hn & H1 & H2 & H3). pose proof (prefix_length _ _ Hp). unfold commits_inv.
  rewrite (take_prefix n l) by done. split_and!; [lia|done..].
Qed.

Lemma pool_conserved_prefix l l' n bs txs :
  l `prefix_of` l' → pool_conserved l n bs txs → pool_conserved l' n bs txs.
Proof.
  intros Hp (Hn & H1). pose proof (prefix_length _ _ Hp). unfold pool_conserved.
  rewrite (take_prefix n l) by done. split; [lia|done].
Qed.

Lemma views_inv_sublist chan e n bs : views_inv chan e n bs → b_View <$> bs `sublist_of` chan.
Proof.
  intros [_ He]. destruct e as [v|]; [destruct He as (k & _ & _ & Hs)|rename He into Hs];
    (etrans; [exact Hs|]); apply sublist_take.
Qed.

Lemma increasing_sublist l k : l `sublist_of` k → increasing k → increasing l.
Proof.
  intros Hs. unfold increasing. induction Hs as [|x l k Hs IH|x l k Hs IH]; intros Hk; [done|..];
    inversion Hk as [|? ? Hk' Hall]; subst; [|by apply IH].
  constructor; [by apply IH|]. rewrite Forall_forall in *. intros y Hy. apply Hall.
  by eapply elem_of_sublist.
Qed.

(** One more value is read. *)
Lemma views_inv_read chan n bs v :
  views_inv chan None n bs → chan !! n = Some v → views_inv chan (Some v) (S n) bs.
Proof.
  intros [_ Hs] Hv. split; [by eapply lookup_lt_Some|]. by exists n.
Qed.

Lemma views_inv_taken chan n bs v :
  views_inv chan (Some v) n bs → views_inv chan None n bs ∧ chan !! pred n = Some v
  ∧ b_View <$> bs `sublist_of` take (pred n) chan.
Proof.
  intros [Hn (k & -> & Hk & Hs)]. split_and!; [|done..]. split; [done|].
  etrans; [exact Hs|]. rewrite (take_S_r _ _ v) by done. apply sublist_inserts_r. done.
Qed.

Lemma views_inv_propose chan n bs v b :
  views_inv chan (Some v) n bs → b_View b = v → views_inv chan None n (bs ++ [b]).
Proof.
  intros (k & -> & Hk & Hs)%proj2 Hb. split; [by eapply lookup_lt_Some|].
  rewrite fmap_app, (take_S_r _ _ v) by done. simpl. rewrite Hb. by apply sublist_app.
Qed.

Lemma commits_inv_read l n c ph b :
  commits_inv l n c ph → l !! n = Some b →
  commits_inv l (S n) (count_committed (Z.of_nat (length (b_Payload b))) c)
    (ph ++ match b_PBatch b with Some x => [CommitProposal x] | None => [] end).
Proof.
  intros (Hn & H1 & H2 & H3) Hb. split; [by eapply lookup_lt_Some|]. simpl.
  rewrite (take_S_r _ _ b) by done. rewrite H1, H2, !int64_add_l. split_and!.
  - f_equal. lia.
  - rewrite fmap_app, concat_app, length_app. simpl. rewrite app_nil_r. f_equal. lia.
  - unfold batches in *. rewrite !omap_app, H3. f_equal. simpl. by destruct (b_PBatch b).
Qed.

Lemma pool_conserved_read l n bs txs b :
  pool_conserved l n bs txs → l !! n = Some b →
  pool_conserved l (S n) bs
    ((if decide (b_Proposer b = re_ID) then reverse (b_Payload b) else []) ++ txs).
Proof.
  intros (Hn & H1) Hb. split; [by eapply lookup_lt_Some|].
  unfold returned in *. rewrite (take_S_r _ _ b) by done. rewrite filter_app, fmap_app, concat_app, <- H1.
  rewrite filter_cons. destruct (decide (b_Proposer b = re_ID)); simpl.
  - rewrite app_nil_r, reverse_Permutation. solve_Permutation.
  - by rewrite app_nil_r.
Qed.
End parts.

(** ** The invariant *)

Section props.
Context `{ReplicaEnv} `{BitSet} {S : Type} {SF : Safety S} {SL : SafetyLaws S} (BSize : Z).

Record rep_inv (r : Replica S) : Prop := {
  ri_safety : sf_inv (safety r);
  ri_paced : paced (sf_pm (safety r));
  ri_pending : Forall typed_msg (pending r);
  ri_views : views_inv (newViewChan (sf_pm (safety r))) (entering r) (views_read r) (sent r).*1;
  ri_led : Forall led (sent r).*1;
  ri_commits : commits_inv (sf_committed (safety r)) (committed_read r) (counters r) (phalanx r);
  ri_pool : pool_conserved (sf_forked (safety r)) (forked_read r) (sent r).*1 (txns (pd r))
}.

(** The protocol behind a replica only runs events. *)
Definition refines (r r' : Replica S) : Prop := sf_run (safety r) (safety r').
#[local] Instance refines_preorder : PreOrder refines.
Proof. split; [intros r; apply rtc_refl|]. intros r1 r2 r3 H1 H2. unfold refines in *. by etrans. Qed.

Abbreviation rep_keeps m := (preserves rep_inv refines anything m).

(** An event of the protocol. *)
Lemma rep_event cf fuel e r s' :
  rep_inv r → typed_event e → sf_handle cf fuel e (safety r) = Ok (s', ()) →
  rep_inv (set_safety r s') ∧ refines r (set_safety r s').
Proof.
  intros [I1 I2 I3 I4 I5 I6 I7] He Hs. destruct (sf_keeps cf fuel e _ _ He I1 Hs) as [I' [G1 G2 G3]].
  split; [|apply rtc_once; by exists cf, fuel, e]. split; simpl; try done.
  - by eapply paced_reaches.
  - eapply views_inv_prefix; [by apply pm_reaches_chan|done].
  - by eapply commits_inv_prefix.
  - by eapply pool_conserved_prefix.
Qed.

Lemma rep_keeps_event cf fuel e m :
  typed_event e → (∀ s s' u, m s = Ok (s', u) → sf_handle cf fuel e s = Ok (s', ())) →
  rep_keeps (on_safety m : prog (Replica S) ()).
Proof.
  intros He Hm r r' [] I (s' & Hs & ->)%zoom_ok.
  destruct (rep_event cf fuel e r s' I He) as [? ?]; [by eapply Hm|done].
Qed.

(** Counters other than those of the committed blocks. *)
Definition other_count (f : stats → stats) : Prop :=
  ∀ c, committedNo (f c) = committedNo c ∧ totalCommittedTx (f c) = totalCommittedTx c.

Lemma rep_inv_count f r : other_count f → rep_inv r → rep_inv (count r f).
Proof.
  intros Hf [I1 I2 I3 I4 I5 I6 I7]. split; try done. unfold commits_inv in *. simpl.
  destruct (Hf (counters r)) as [-> ->]. done.
Qed.

Lemma rep_keeps_count f : other_count f → rep_keeps (modify (λ r, count r f)).
Proof.
  intros Hf. apply preserves_modify. intros r I. split; [by apply rep_inv_count|apply rtc_refl].
Qed.

Lemma rep_keeps_phalanx c :
  batches [c] = [] → rep_keeps (modify (λ r, call_phalanx r c)).
Proof.
  intros Hc. apply preserves_modify. intros r [I1 I2 I3 I4 I5 I6 I7]. split; [|apply rtc_refl].
  split; try done. unfold commits_inv, batches in *. simpl. rewrite omap_app. simpl in Hc.
  simpl. rewrite Hc, app_nil_r. done.
Qed.

Lemma rep_keeps_startSignal : rep_keeps startSignal.
Proof.
  unfold startSignal. preserve. apply preserves_modify. intros r []. split; [by split|apply rtc_refl].
Qed.

Lemma rep_keeps_send m : typed_msg m → rep_keeps (send_event m).
Proof.
  intros Hm. apply preserves_modify. intros r []. split; [|apply rtc_refl]. split; try done.
  apply Forall_app. split; [done|]. by constructor.
Qed.
Hint Resolve rep_keeps_startSignal rep_keeps_send : go.

Lemma rep_keeps_receive m : typed_msg m → rep_keeps (receive m).
Proof.
  intros Hm. destruct m as [b qc|v|view id qc|tx|c|c]; simpl.
  - unfold HandleBlock. apply preserves_bind with (Φ := anything);
      [apply _|by apply rep_keeps_count|]. preserve.
  - unfold HandleVote. preserve.
  - unfold HandleTmo. preserve.
  - unfold handleTxn. apply preserves_bind with (Φ := anything);
      [apply _|by apply rep_keeps_phalanx|intros _ _]. preserve.
    apply (rep_keeps_event 0 0 KickOff); [done|]. by intros s s' [].
  - unfold HandleConsensusMessage. preserve.
  - unfold HandleCommand. preserve.
Qed.

(** The listeners. *)
Lemma rep_keeps_listen_view : rep_keeps listen_view.
Proof.
  intros r r' [] I Hr. unfold listen_view in Hr.
  destruct (entering r) eqn:E; [|destruct (_ !! _) as [view|] eqn:Hv]; injection Hr as <-;
    [split_and!; [done|apply rtc_refl|done]| |split_and!; [done|apply rtc_refl|done]].
  split_and!; [|apply rtc_refl|done]. apply rep_inv_count; [done|].
  destruct I as [I1 I2 I3 I4 I5 I6 I7]. split; try done. rewrite E in I4. by apply views_inv_read.
Qed.

Lemma rep_keeps_listen_timer cf fuel : rep_keeps (listen_timer cf fuel).
Proof.
  intros r r' [] I Hr. unfold listen_timer in Hr. destruct (entering r).
  { injection Hr as <-. split_and!; [done|apply rtc_refl|done]. }
  apply zoom_ok in Hr as (s' & Hs & ->).
  destruct (rep_event cf fuel LocalTmo r s' I) as [? ?]; done.
Qed.

Lemma rep_keeps_listen_committed err : rep_keeps (listen_committed err).
Proof.
  intros r r' [] I Hr. unfold listen_committed in Hr.
  destruct (sf_committed (safety r) !! committed_read r) as [b|] eqn:Hb;
    [|injection Hr as <-; split_and!; [done|apply rtc_refl|done]].
  destruct I as [I1 I2 I3 I4 I5 I6 I7].
  pose proof (commits_inv_read _ _ _ _ b I6 Hb) as I6'.
  unfold processCommittedBlock in Hr. apply prog_bind_ok in Hr as (r1 & [] & H1 & Hr).
  apply modify_ok in H1 as ->. destruct (b_PBatch b) as [batch|].
  - apply prog_bind_ok in Hr as (r1 & [] & H1 & Hr). apply modify_ok in H1 as ->.
    destruct err; [discriminate Hr|]. apply ret_ok in Hr as [-> _].
    split_and!; [by split|apply rtc_refl|done].
  - apply ret_ok in Hr as [-> _]. rewrite app_nil_r in I6'. split_and!; [by split|apply rtc_refl|done].
Qed.

(** [CollectTxn] on each transaction in turn. *)
Lemma collect_spec txs b :
  collect txs b = Ok (MkBackend (reverse txs ++ txns b) (limit b) (totalReceived b) (bloom b), ()).
Proof.
  unfold collect. induction txs as [|tx txs IH] using rev_ind; [by destruct b|].
  rewrite foldl_app. cbn [foldl]. set (m := foldl _ _ txs) in *. unfold mbind, prog_bind. rewrite IH.
  unfold CollectTxn, addOld, modify. simpl. by rewrite reverse_snoc.
Qed.

Lemma rep_keeps_listen_forked : rep_keeps listen_forked.
Proof.
  intros r r' [] I Hr. unfold listen_forked in Hr.
  destruct (sf_forked (safety r) !! forked_read r) as [b|] eqn:Hb;
    [|injection Hr as <-; split_and!; [done|apply rtc_refl|done]].
  destruct I as [I1 I2 I3 I4 I5 I6 I7].
  pose proof (pool_conserved_read _ _ _ _ b I7 Hb) as I7'. unfold processForkedBlock in Hr.
  destruct (decide (b_Proposer b = re_ID)).
  - apply zoom_ok in Hr as (p & Hp & ->). rewrite collect_spec in Hp. injection Hp as <-.
    split_and!; [by split|apply rtc_refl|done].
  - apply ret_ok in Hr as [-> _]. split_and!; [by split|apply rtc_refl|done].
Qed.

(** The main loop: messages. *)
Lemma rep_keeps_loop_msg cf fuel k : rep_keeps (loop_msg cf fuel k).
Proof.
  intros r r' u I Hr. unfold loop_msg in Hr.
  destruct (pending r !! k) as [m|] eqn:Hm;
    [|injection Hr as <- <-; split_and!; [done|apply rtc_refl|done]].
  assert (typed_msg m) as Hty by (by eapply (Forall_lookup_1 _ _ _ _ (ri_pending r I))).
  assert (rep_inv (set_pending r (delete k (pending r)))) as I0.
  { destruct I. split; try done. by apply Forall_delete. }
  set (r0 := set_pending r (delete k (pending r))) in *.
  cut (rep_inv r' ∧ refines r0 r'); [by intros [? ?]|].
  destruct m as [b qc|v|view id qc|tx|c|c]; simpl in Hr.
  - apply prog_bind_ok in Hr as (r1 & p & H1 & Hr). apply zoom_ok in H1 as (s1 & H1 & ->).
    apply prog_bind_ok in Hr as (r1 & res & H2 & Hr). apply zoom_ok in H2 as (s2 & H2 & ->).
    apply modify_ok in Hr as ->. simpl in H2.
    destruct (rep_event cf fuel (RecvBlock b qc) r0 s2 I0 Hty) as [I2 R2].
    { unfold sf_handle. by rewrite (prog_bind_run _ _ _ _ _ H1), ?(prog_bind_run _ _ _ _ _ H2). }
    split; [by apply rep_inv_count|done].
  - apply prog_bind_ok in Hr as (r1 & [] & H1 & Hr). apply zoom_ok in H1 as (s1 & H1 & ->).
    apply modify_ok in Hr as ->.
    destruct (rep_event cf fuel (RecvVote v) r0 s1 I0 Hty H1) as [I2 R2].
    split; [by apply rep_inv_count|done].
  - apply prog_bind_ok in Hr as (r1 & p & H1 & Hr). apply zoom_ok in H1 as (s1 & H1 & ->).
    destruct u. apply zoom_ok in Hr as (s2 & H2 & ->). simpl in H2.
    apply (rep_event cf fuel (RecvTmo view id qc) r0 s2 I0 Hty).
    unfold sf_handle. by rewrite (prog_bind_run _ _ _ _ _ H1), ?(prog_bind_run _ _ _ _ _ H2).
  - apply ret_ok in Hr as [-> _]. split; [done|apply rtc_refl].
  - by apply (rep_keeps_phalanx (ReceiveConsensusMessage c)) in Hr as (? & ? & _).
  - by apply (rep_keeps_phalanx (ReceiveCommand c)) in Hr as (? & ? & _).
Qed.

(** A proposal: a block for the view, whose payload was the front of the pool. *)
Lemma non_nil_Some l : non_nil (Some <$> l) = Ok l.
Proof. induction l as [|tx l IH]; [done|]. rewrite fmap_cons. cbn [non_nil]. by rewrite IH. Qed.

Lemma proposeBlock_ok cf fuel tries priori now view r r' :
  proposeBlock cf fuel tries priori BSize now view r = Ok (r', ()) →
  ∃ b p s' f q e, b_View b = view ∧ b_Proposer b = re_ID ∧ b_Payload b ++ txns p = txns (pd r)
    ∧ (is_int64 view → typed_event e) ∧ sf_handle cf fuel e (safety r) = Ok (s', ())
    ∧ other_count f ∧ r' = set_safety (broadcast (count (set_pd r p) f) b q) s'.
Proof.
  intros Hr. unfold proposeBlock in Hr. apply prog_bind_ok in Hr as (r1 & op & H1 & Hr).
  apply gets_ok in H1 as [-> ->]. apply prog_bind_ok in Hr as (r1 & b & Hmk & Hr).
  apply prog_bind_ok in Hr as (r2 & [] & H2 & Hr). apply modify_ok in H2 as ->.
  apply prog_bind_ok in Hr as (r2 & [] & H2 & Hr). apply modify_ok in H2 as ->.
  apply prog_bind_ok in Hr as (r2 & res & H2 & Hr). apply zoom_ok in H2 as (s' & H2 & ->).
  apply ret_ok in Hr as [-> _]. simpl in H2. destruct (openPhalanx r && _).
  - apply zoom_ok in Hmk as (s1 & H1 & ->).
    destruct (sf_pblock _ _ _ _ _ _ H1) as (Hv & Hp & Hpay).
    exists (with_Timestamp now b), (pd r), s', (count_proposed (Z.of_nat (length (b_Payload b)))),
      (b_QC b ≫= λ a, sf_store s1 !! a), (ProposeP tries priori view now). simpl.
    split_and!; try done; [by rewrite Hpay|].
    unfold sf_handle. by rewrite (prog_bind_run _ _ _ _ _ H1), ?(prog_bind_run _ _ _ _ _ H2).
  - apply prog_bind_ok in Hmk as (r2 & pl & H1 & Hmk). apply zoom_ok in H1 as (p & H1 & ->).
    rewrite GeneratePayload_spec in H1. destruct (decide (0 ≤ BSize)); [|done].
    injection H1 as <- <-. apply prog_bind_ok in Hmk as (r2 & txs & H1 & Hmk).
    apply lift_ok in H1 as [-> H1]. rewrite non_nil_Some in H1. injection H1 as <-.
    apply zoom_ok in Hmk as (s1 & H1 & ->). destruct (sf_block _ _ _ _ _ H1) as (Hv & Hp & Hpay).
    exists (with_Timestamp now b), (MkBackend (drop (Z.to_nat BSize) (txns (pd r))) (limit (pd r))
      (totalReceived (pd r)) (bloom (pd r))), s', (count_proposed (Z.of_nat (length (b_Payload b)))),
      (b_QC b ≫= λ a, sf_store s1 !! a), (Propose view (take (Z.to_nat BSize) (txns (pd r))) now). simpl.
    split_and!; try done; [rewrite Hpay; by rewrite take_drop|].
    unfold sf_handle. by rewrite (prog_bind_run _ _ _ _ _ H1), ?(prog_bind_run _ _ _ _ _ H2).
Qed.

Lemma rep_keeps_loop_view cf fuel tries priori now :
  rep_keeps (loop_view cf fuel tries priori BSize now).
Proof.
  intros r r' [] I Hr. unfold loop_view in Hr. destruct (entering r) as [view|] eqn:E;
    [|injection Hr as <-; split_and!; [done|apply rtc_refl|done]].
  pose proof (ri_views r I) as Hv. rewrite E in Hv.
  destruct (views_inv_taken _ _ _ _ Hv) as (Hv0 & Hat & _).
  set (r0 := set_entering r None (views_read r)) in *.
  assert (rep_inv r0) as I0 by (destruct I; by split).
  unfold processNewView in Hr. apply prog_bind_ok in Hr as (r1 & l & H1 & Hr).
  apply lift_ok in H1 as [-> _]. apply prog_bind_ok in Hr as (r1 & isL & H1 & Hr).
  apply lift_ok in H1 as [-> Hlead]. destruct isL; simpl in Hr;
    [|apply ret_ok in Hr as [-> _]; split_and!; [done|apply rtc_refl|done]].
  apply proposeBlock_ok in Hr as (b & p & s' & f & q & e & Hbv & Hbp & Hpay & He & Hs & Hf & ->).
  assert (is_int64 view) as Hty by (by eapply (Forall_lookup_1 _ _ _ _ (pc_chan _ (ri_paced r I)))).
  destruct (rep_event cf fuel e r0 s' I0 (He Hty) Hs) as [[J1 J2 J3 J4 J5 J6 J7] R].
  destruct (sf_keeps cf fuel e _ _ (He Hty) (ri_safety r I) Hs) as [_ [G1 _ _]].
  split_and!; [|exact R|done]. split; simpl in *; try done.
  - rewrite fmap_app. eapply views_inv_prefix; [by apply pm_reaches_chan|].
    by eapply views_inv_propose.
  - rewrite fmap_app. apply Forall_app. split; [done|]. simpl. constructor; [split; [exact Hbp|rewrite Hbv; exact Hlead]|constructor].
  - unfold commits_inv in *. simpl. destruct (Hf (counters r)) as [-> ->]. done.
  - destruct J7 as [J7 J8]. split; [done|]. rewrite <- J8, !fmap_app, concat_app. simpl.
    rewrite app_nil_r, <- Hpay. solve_Permutation.
Qed.

Lemma rep_keeps_act cf fuel a : typed_action a → rep_keeps (act cf fuel BSize a).
Proof.
  intros Ha r r' u I Hr. unfold act in Hr.
  destruct a; try (by eapply rep_keeps_receive); (destruct (isStarted r);
    [|injection Hr as <- <-; split_and!; [done|apply rtc_refl|done]]).
  - by eapply rep_keeps_listen_view.
  - by eapply rep_keeps_listen_timer.
  - by eapply rep_keeps_listen_committed.
  - by eapply rep_keeps_listen_forked.
  - by eapply rep_keeps_loop_view.
  - by eapply rep_keeps_loop_msg.
  - eapply (rep_keeps_event cf fuel (Goroutine k)); [done| |exact I|exact Hr].
    by intros s s' [].
Qed.

Lemma rep_run_keeps r r' : rep_inv r → rep_run BSize r r' → rep_inv r' ∧ refines r r'.
Proof.
  intros I Hrun. revert I. induction Hrun as [|r1 r2 r3 (cf & fuel & a & Ha & Hs) _ IH];
    intros I; [split; [done|reflexivity]|].
  destruct (rep_keeps_act cf fuel a Ha r1 r2 () I Hs) as (I2 & A2 & _).
  destruct (IH I2) as [I3 A3]. split; [done|by transitivity r2].
Qed.

Lemma rep_inv_new MemSize s : sf_inv s → paced (sf_pm s) → rep_inv (NewReplica MemSize s).
Proof.
  intros Hs Hp. split; simpl; try done.
  - split; [lia|]. simpl. apply sublist_nil_l.
  - split_and!; [lia|done..].
  - split; [lia|done].
Qed.

Context (MemSize : Z) (s0 : S) (Hinit : sf_inv s0) (Hpaced : paced (sf_pm s0)).

(** The replica refines its protocol: in every interleaving of the actions
    of a replica, with any messages, the protocol behind it takes only steps of
    its interface, on messages that were received, on timeouts, on proposals and
    on the first view change.  So whatever holds of all runs of the protocol holds
    of the replica, as long as the calls of the protocol do not overlap. *)
Theorem replica_refines_protocol r :
  rep_run BSize (NewReplica MemSize s0) r → sf_run s0 (safety r) ∧ sf_inv (safety r).
Proof.
  intros Hrun. destruct (rep_run_keeps _ _ (rep_inv_new MemSize s0 Hinit Hpaced) Hrun) as [[? _ _ _ _ _ _] ?].
  done.
Qed.

(** A replica proposes only as the leader, and at most once in a view: in every
    run, every block it has broadcast as a proposal names the replica as its
    proposer and is for a view whose leader it is, and the views of its proposals
    strictly increase, unless the largest 64-bit view was passed. *)
Theorem replica_proposals_increase r :
  rep_run BSize (NewReplica MemSize s0) r →
  Forall (λ b, b_Proposer b = re_ID ∧ IsLeader re_ID (b_View b) = Ok true) (sent r).*1
  ∧ (wrapped (sf_pm (safety r)) ∨ increasing (b_View <$> (sent r).*1)).
Proof.
  intros Hrun. destruct (rep_run_keeps _ _ (rep_inv_new MemSize s0 Hinit Hpaced) Hrun)
    as [[_ [_ _ Hord] _ Hv Hled _ _] _]. split; [done|].
  destruct Hord as [Hw|[Hinc _]]; [by left|right].
  eapply increasing_sublist; [by eapply views_inv_sublist|done].
Qed.

(** Committed blocks are executed in the order of the channel, each exactly
    once: after every run, the batches handed to Phalanx are those of the first
    [committed_read] blocks that the protocol committed, in that order; the
    counters are the number of these blocks and of their transactions. *)
Theorem replica_executes_in_order r :
  rep_run BSize (NewReplica MemSize s0) r →
  let executed := take (committed_read r) (sf_committed (safety r)) in
  length executed = committed_read r
  ∧ batches (phalanx r) = omap b_PBatch executed
  ∧ committedNo (counters r) = int64 (Z.of_nat (length executed))
  ∧ totalCommittedTx (counters r) = int64 (Z.of_nat (length (concat (b_Payload <$> executed)))).
Proof.
  intros Hrun. destruct (rep_run_keeps _ _ (rep_inv_new MemSize s0 Hinit Hpaced) Hrun)
    as [[_ _ _ _ _ (Hn & H1 & H2 & H3) _] _]. simpl. rewrite length_take_le by done. done.
Qed.

(** [C28] The pool of a replica neither loses nor invents transactions: after every
    run, the payloads of its proposals together with the pool are a permutation
    of the payloads of the forked blocks read so far that name the replica as their
    proposer (no signature is checked for this).  In particular a transaction of a client,
    which goes to Phalanx, never gets into a payload. *)
Theorem replica_pool_conserved r :
  rep_run BSize (NewReplica MemSize s0) r →
  concat (b_Payload <$> (sent r).*1) ++ txns (pd r)
  ≡ₚ concat (b_Payload <$> filter (λ b, b_Proposer b = re_ID)
                              (take (forked_read r) (sf_forked (safety r)))).
Proof.
  intros Hrun. destruct (rep_run_keeps _ _ (rep_inv_new MemSize s0 Hinit Hpaced) Hrun)
    as [[_ _ _ _ _ _ [_ H']] _]. exact H'.
Qed.
End props.
