(* ===== verification/Transport.v ===== *)
(** * Transports ([src/transport/transport.go])

    A transport is a pair of Go channels with goroutines that move messages
    between them and the network.  The intra-process scheme is modelled in full:
    the table of channels by host, the transports, and the goroutines that [Dial]
    and [Listen] start, each with the message it has taken and not yet handed on.
    A Go channel is the list of its elements; an operation on a channel that would
    block is [None].  The connections of the schemes tcp and udp are the network
    itself and are not modelled. *)
From S2P Require Import Prelude.

Local Open Scope Z_scope.

(** [net/url]: the scheme and the host of a parsed address, if it parses. *)
Class URLParser := url_Parse : string → option (string * string).

(** [strings.Contains]. *)
Definition contains (s sub : string) : bool :=
  match String.index 0 sub s with Some _ => true | None => false end.

Section transport.
Context {M : Type}.

(** A goroutine of [Dial] or [Listen]: the channel of the connection, and the
    message between its two channel operations. *)
Record goroutine := MkGoroutine { g_conn : nat; g_hand : option M }.

(** Lines 75-80, with the goroutines the transport started. *)
Record transport := MkTransport {
  t_scheme : string;
  t_host : string;
  t_send : list M;
  t_recv : list M;
  t_closed : bool;
  t_dialers : list goroutine;
  t_listeners : list goroutine
}.

(** The capacities of lines 51, 52 and 267. *)
Definition cap_transport : nat := Z.to_nat 10240.
Definition cap_conn : nat := Z.to_nat 1024.

(** Lines 40-73: an address without a scheme gets the default one; an address
    that does not parse and an unknown scheme exit. *)
Definition NewTransport `{URLParser} (Scheme addr : string) : outcome transport :=
  let addr := if contains addr "://" then addr else (Scheme ++ "://" ++ addr)%string in
  match url_Parse addr with
  | None => Fault FatalExit
  | Some (scheme, host) =>
      if decide (scheme ∈ ["chan"; "tcp"; "udp"]%string)
      then Ok (MkTransport scheme host [] [] false [] [])
      else Fault FatalExit
  end.

Definition set_send (q : list M) (t : transport) : transport :=
  MkTransport (t_scheme t) (t_host t) q (t_recv t) (t_closed t) (t_dialers t) (t_listeners t).
Definition set_recv (q : list M) (t : transport) : transport :=
  MkTransport (t_scheme t) (t_host t) (t_send t) q (t_closed t) (t_dialers t) (t_listeners t).
Definition set_dialers (g : list goroutine) (t : transport) : transport :=
  MkTransport (t_scheme t) (t_host t) (t_send t) (t_recv t) (t_closed t) g (t_listeners t).
Definition set_listeners (g : list goroutine) (t : transport) : transport :=
  MkTransport (t_scheme t) (t_host t) (t_send t) (t_recv t) (t_closed t) (t_dialers t) g.

(** A send on a Go channel of capacity [cap], that is not closed. *)
Definition chan_send (cap : nat) (m : M) (q : list M) : option (list M) :=
  if decide (length q < cap)%nat then Some (q ++ [m]) else None.

(** Lines 82-84: a send on a closed channel panics. *)
Definition Send (m : M) (t : transport) : option (outcome transport) :=
  if t_closed t then Some (Fault ExplicitPanic)
  else q ← chan_send cap_transport m (t_send t); Some (Ok (set_send q t)).

(** Lines 86-88. *)
Definition Recv (t : transport) : option (M * transport) :=
  match t_recv t with [] => None | m :: q => Some (m, set_recv q t) end.

(** Lines 90-93: closing a closed channel panics. *)
Definition Close (t : transport) : outcome transport :=
  if t_closed t then Fault ExplicitPanic
  else Ok (MkTransport (t_scheme t) (t_host t) (t_send t) (t_recv t) true (t_dialers t) (t_listeners t)).

(** ** The intra-process network (lines 234-278) *)

(** The table [chans] (line 238), the channels it has held, and the transports. *)
Record world := MkWorld {
  chans : gmap string nat;
  queues : list (list M);
  transports : list transport
}.

Definition set_transport (i : nat) (t : transport) (w : world) : world :=
  MkWorld (chans w) (queues w) (<[i := t]> (transports w)).
Definition set_queue (r : nat) (q : list M) (w : world) : world :=
  MkWorld (chans w) (<[r := q]> (queues w)) (transports w).

(** Lines 249-262. *)
Definition Dial (i : nat) (t : transport) (w : world) : world * result () :=
  match chans w !! t_host t with
  | None => (w, Err "server not ready")
  | Some r => (set_transport i (set_dialers (t_dialers t ++ [MkGoroutine r None]) t) w, Val ())
  end.

(** Lines 264-278: a new channel replaces the one of the host. *)
Definition Listen (i : nat) (t : transport) (w : world) : world :=
  let r := length (queues w) in
  let w := MkWorld (<[t_host t := r]> (chans w)) (queues w ++ [[]]) (transports w) in
  set_transport i (set_listeners (t_listeners t ++ [MkGoroutine r None]) t) w.

(** Line 257: a goroutine of [Dial] takes a message ... *)
Definition dial_take (k : nat) (t : transport) : option transport :=
  g ← t_dialers t !! k;
  match g_hand g, t_send t with
  | None, m :: q => Some (set_dialers (<[k := MkGoroutine (g_conn g) (Some m)]> (t_dialers t)) (set_send q t))
  | _, _ => None
  end.

(** ... and hands it to the connection (line 258). *)
Definition dial_put (i k : nat) (t : transport) (w : world) : option world :=
  g ← t_dialers t !! k;
  m ← g_hand g;
  q ← queues w !! g_conn g;
  q' ← chan_send cap_conn m q;
  Some (set_queue (g_conn g) q'
          (set_transport i (set_dialers (<[k := MkGoroutine (g_conn g) None]> (t_dialers t)) t) w)).

(** Lines 271-273: a goroutine of [Listen] takes a message from the connection; when
    the transport is closed it may return instead, and then takes no more steps. *)
Definition listen_take (i k : nat) (t : transport) (w : world) : option world :=
  g ← t_listeners t !! k;
  q ← queues w !! g_conn g;
  match g_hand g, q with
  | None, m :: q =>
      Some (set_queue (g_conn g) q
              (set_transport i
                 (set_listeners (<[k := MkGoroutine (g_conn g) (Some m)]> (t_listeners t)) t) w))
  | _, _ => None
  end.

(** Line 274. *)
Definition listen_put (k : nat) (t : transport) : option transport :=
  g ← t_listeners t !! k;
  m ← g_hand g;
  q ← chan_send cap_transport m (t_recv t);
  Some (set_listeners (<[k := MkGoroutine (g_conn g) None]> (t_listeners t)) (set_recv q t)).

(** *** Steps: the calls of the program and the goroutines, in any order *)
Inductive label :=
  | LSend (i : nat) (m : M)
  | LRecv (i : nat) (m : M)
  | LOther.

Inductive net_step `{URLParser} : label → world → world → Prop :=
  | step_new Scheme addr t w :
      NewTransport Scheme addr = Ok t →
      net_step LOther w (MkWorld (chans w) (queues w) (transports w ++ [t]))
  | step_send i m t t' w :
      transports w !! i = Some t → Send m t = Some (Ok t') →
      net_step (LSend i m) w (set_transport i t' w)
  | step_recv i m t t' w :
      transports w !! i = Some t → Recv t = Some (m, t') →
      net_step (LRecv i m) w (set_transport i t' w)
  | step_close i t t' w :
      transports w !! i = Some t → Close t = Ok t' → net_step LOther w (set_transport i t' w)
  | step_dial i t w w' r :
      transports w !! i = Some t → Dial i t w = (w', r) → net_step LOther w w'
  | step_listen i t w :
      transports w !! i = Some t → net_step LOther w (Listen i t w)
  | step_dial_take i k t t' w :
      transports w !! i = Some t → dial_take k t = Some t' → net_step LOther w (set_transport i t' w)
  | step_dial_put i k t w w' :
      transports w !! i = Some t → dial_put i k t w = Some w' → net_step LOther w w'
  | step_listen_take i k t w w' :
      transports w !! i = Some t → listen_take i k t w = Some w' → net_step LOther w w'
  | step_listen_put i k t t' w :
      transports w !! i = Some t → listen_put k t = Some t' → net_step LOther w (set_transport i t' w).

Inductive net_run `{URLParser} : list label → world → world → Prop :=
  | run_nil w : net_run [] w w
  | run_snoc ls l w w' w'' : net_run ls w w' → net_step l w' w'' → net_run (ls ++ [l]) w w''.

Definition empty_world : world := MkWorld ∅ [] [].

Definition sent (i : nat) (ls : list label) : list M :=
  omap (λ l, match l with LSend j m => if decide (i = j) then Some m else None | _ => None end) ls.
Definition received (i : nat) (ls : list label) : list M :=
  omap (λ l, match l with LRecv j m => if decide (i = j) then Some m else None | _ => None end) ls.
End transport.
Arguments goroutine : clear implicits.
Arguments transport : clear implicits.
Arguments world : clear implicits.
Arguments label : clear implicits.

(** ** First in, first out

    The views of a world by the index of a transport. *)
Section views.
Context {M : Type}.
Implicit Types (w : world M) (t : transport M).

Definition field {A} (f : transport M → list A) (w : world M) (i : nat) : list A :=
  match transports w !! i with Some t => f t | None => [] end.

Lemma field_set {A} (f : transport M → list A) w i t t' j :
  transports w !! i = Some t →
  field f (set_transport i t' w) j = if decide (j = i) then f t' else field f w j.
Proof.
  intros Ht. unfold field. simpl. case_decide as E.
  - subst. rewrite list_lookup_insert_eq; [done|]. by eapply lookup_lt_Some.
  - by rewrite list_lookup_insert_ne.
Qed.

Lemma field_at {A} (f : transport M → list A) w i t : transports w !! i = Some t → field f w i = f t.
Proof. unfold field. by intros ->. Qed.

Lemma field_keep {A} (f : transport M → list A) w i t t' j :
  transports w !! i = Some t → f t' = f t → field f (set_transport i t' w) j = field f w j.
Proof.
  intros Ht Hf. rewrite (field_set f w i t t' j Ht). case_decide; [|done]. subst.
  by rewrite (field_at f w i t Ht).
Qed.

(** One goroutine replaced or started. *)
Lemma field_insert {A} (f : transport M → list A) w i t t' j k a b l :
  transports w !! i = Some t → f t !! k = Some b → f t' = <[k := a]> (f t) →
  field f (set_transport i t' w) j !! l
    = if decide (j = i ∧ l = k) then Some a else field f w j !! l.
Proof.
  intros Ht Hb Hf. rewrite (field_set f w i t t' j Ht), Hf. destruct (decide (j = i)) as [->|].
  - rewrite (field_at f w i t Ht). destruct (decide (l = k)) as [->|].
    + rewrite decide_True, list_lookup_insert_eq by (done || by eapply lookup_lt_Some). done.
    + rewrite decide_False, list_lookup_insert_ne by (congruence || tauto). done.
  - by rewrite decide_False by tauto.
Qed.

Lemma field_snoc {A} (f : transport M → list A) w i t t' j a l :
  transports w !! i = Some t → f t' = f t ++ [a] →
  field f (set_transport i t' w) j !! l
    = if decide (j = i ∧ l = length (f t)) then Some a else field f w j !! l.
Proof.
  intros Ht Hf. rewrite (field_set f w i t t' j Ht), Hf. destruct (decide (j = i)) as [->|].
  - rewrite (field_at f w i t Ht). destruct (decide (l = length (f t))) as [->|].
    + rewrite decide_True by done. by rewrite list_lookup_middle.
    + rewrite decide_False by tauto. destruct (decide (l < length (f t))%nat).
      * by rewrite lookup_app_l.
      * rewrite !lookup_ge_None_2; [done|lia|rewrite length_app; simpl; lia].
  - by rewrite decide_False by tauto.
Qed.
End views.

Section fifo.
Context {M : Type} `{URLParser} (tag : M → nat) (i : nat).
Implicit Types (w : world M) (t : transport M) (ls : list (label M)).

Definition hand (g : goroutine M) : list M := option_list (g_hand g).

(** The messages of transport [i]; [on w r]: it dialled the channel [r]. *)
Definition mine (l : list M) : list M := filter (λ m, tag m = i) l.
Definition on w (r : nat) : Prop := ∃ k g, field t_dialers w i !! k = Some g ∧ g_conn g = r.

(** The invariant of the way from transport [i] to the transport that listens on
    the channel it dialled. *)
Record flow ls w : Prop := {
  fl_listener j k g : field t_listeners w j !! k = Some g → (g_conn g < length (queues w))%nat;
  fl_dialer j k g : field t_dialers w j !! k = Some g → (g_conn g < length (queues w))%nat;
  fl_chans h r : chans w !! h = Some r → (r < length (queues w))%nat;
  fl_owner j k g j' k' g' :
    field t_listeners w j !! k = Some g → field t_listeners w j' !! k' = Some g' →
    g_conn g = g_conn g' → j = j' ∧ k = k';
  fl_tag j : Forall (λ m, tag m = j) (field t_send w j);
  fl_hand j k g : field t_dialers w j !! k = Some g → Forall (λ m, tag m = j) (hand g);
  fl_queue r q : queues w !! r = Some q → ¬ on w r → mine q = [];
  fl_held j k g : field t_listeners w j !! k = Some g → ¬ on w (g_conn g) → mine (hand g) = [];
  fl_recv j : (∀ k g, field t_listeners w j !! k = Some g → ¬ on w (g_conn g)) →
    mine (received j ls ++ field t_recv w j) = [];
  fl_none : field t_dialers w i = [] → sent i ls = field t_send w i;
  fl_path d j k g q :
    field t_dialers w i = [d] → field t_listeners w j !! k = Some g → g_conn g = g_conn d →
    queues w !! g_conn d = Some q →
    sent i ls = mine (received j ls ++ field t_recv w j ++ hand g ++ q) ++ hand d ++ field t_send w i
}.

Lemma mine_app l1 l2 : mine (l1 ++ l2) = mine l1 ++ mine l2.
Proof. apply filter_app. Qed.
Lemma mine_other l j : Forall (λ m, tag m = j) l → j ≠ i → mine l = [].
Proof.
  intros Hl Hj. induction Hl as [|m l Hm Hl IH]; [done|].
  unfold mine. rewrite filter_cons_False by congruence. exact IH.
Qed.
Lemma mine_all l : Forall (λ m, tag m = i) l → mine l = l.
Proof.
  intros Hl. induction Hl as [|m l Hm Hl IH]; [done|].
  unfold mine. rewrite filter_cons_True by done. by f_equal.
Qed.

Definition arrived ls w (j : nat) : list M := received j ls ++ field t_recv w j.

Lemma sent_snoc j ls l : sent j (ls ++ [l]) = sent j ls ++ sent j [l].
Proof. unfold sent. by rewrite omap_app. Qed.
Lemma received_snoc j ls l : received j (ls ++ [l]) = received j ls ++ received j [l].
Proof. unfold received. by rewrite omap_app. Qed.

(** A step at the sending end: no goroutine and no channel of the network. *)
Lemma flow_ends ls ls' w w' :
  flow ls w → queues w' = queues w → chans w' = chans w →
  (∀ j, field t_dialers w' j = field t_dialers w j) →
  (∀ j, field t_listeners w' j = field t_listeners w j) →
  (∀ j, arrived ls' w' j = arrived ls w j) →
  (∀ j, Forall (λ m, tag m = j) (field t_send w' j)) →
  (∃ l, sent i ls' = sent i ls ++ l ∧ field t_send w' i = field t_send w i ++ l) →
  flow ls' w'.
Proof.
  intros [F1 F2 F3 F4 F5 F6 F7 F8 F9 F10 F11] Hq Hc Hd Hl Ha Ht (l & Hs & Hn).
  assert (∀ r, on w' r ↔ on w r) as Hon by (intros r; unfold on; by rewrite Hd).
  split.
  - intros j k g. rewrite Hl, Hq. apply F1.
  - intros j k g. rewrite Hd, Hq. apply F2.
  - intros h r. rewrite Hc, Hq. apply F3.
  - intros j k g j' k' g'. rewrite !Hl. apply F4.
  - done.
  - intros j k g. rewrite Hd. apply F6.
  - intros r q. rewrite Hq, Hon. apply F7.
  - intros j k g. rewrite Hl, Hon. apply F8.
  - intros j Hj. change (mine (arrived ls' w' j) = []). rewrite Ha. apply F9.
    intros k g. rewrite <- Hl, <- Hon. apply Hj.
  - rewrite Hd, Hs, Hn. intros E. by rewrite F10.
  - intros d j k g q. rewrite Hd, Hl, Hq, Hs, Hn. intros E1 E2 E3 E4.
    rewrite (F11 d j k g q E1 E2 E3 E4). rewrite !(app_assoc (received _ _)).
    change (received ?j ?ls ++ field t_recv ?w ?j) with (arrived ls w j). rewrite Ha.
    by rewrite <- !app_assoc.
Qed.

(** The goroutines of a transport whose list of one kind has one entry replaced:
    the same channels are connected. *)
Lemma on_insert w w' j k g g' :
  g_conn g' = g_conn g → field t_dialers w j !! k = Some g →
  (∀ j' k', field t_dialers w' j' !! k'
            = if decide (j' = j ∧ k' = k) then Some g' else field t_dialers w j' !! k') →
  ∀ r, on w' r ↔ on w r.
Proof.
  intros Hc Hg Hd r. unfold on. split; intros (k1 & g1 & Hg1 & Hr).
  - rewrite Hd in Hg1. case_decide as E; [|by eauto]. destruct E as [-> ->]. injection Hg1 as <-.
    exists k, g. by rewrite <- Hc.
  - destruct (decide (i = j ∧ k1 = k)) as [[-> ->]|E].
    + exists k, g'. rewrite Hd, decide_True by done. split; [done|]. congruence.
    + exists k1, g1. by rewrite Hd, decide_False.
Qed.

Lemma insert_singleton w w' j k g g' d :
  field t_dialers w j !! k = Some g →
  (∀ j' k', field t_dialers w' j' !! k'
            = if decide (j' = j ∧ k' = k) then Some g' else field t_dialers w j' !! k') →
  field t_dialers w' i = [d] →
  (j = i ∧ field t_dialers w i = [g] ∧ d = g') ∨ (j ≠ i ∧ field t_dialers w i = [d]).
Proof.
  intros Hg Hd E. destruct (decide (j = i)) as [->|Hne].
  - left. split; [done|].
    assert (∀ n, field t_dialers w i !! S n = None) as Hnone.
    { intros n. specialize (Hd i (S n)). rewrite E in Hd. simpl in Hd. case_decide; [done|]. by symmetry. }
    assert (k = 0%nat) as -> by (destruct k; [done|]; rewrite Hnone in Hg; done).
    pose proof (Hd i 0%nat) as H0. rewrite E, decide_True in H0 by done. injection H0 as ->.
    split; [|done]. destruct (field t_dialers w i) as [|g0 l]; [done|]. injection Hg as ->.
    destruct l as [|g1 l]; [done|]. specialize (Hnone 0%nat). done.
  - right. split; [done|]. apply list_eq. intros n. specialize (Hd i n).
    rewrite decide_False, E in Hd by naive_solver. done.
Qed.

(** A goroutine of [Dial] moves a message on: from the channel [send] into its
    hand, or from its hand into the channel of the connection. *)
Lemma flow_dial ls w w' j k g g' :
  flow ls w → field t_dialers w j !! k = Some g → g_conn g' = g_conn g →
  (∀ j' k', field t_dialers w' j' !! k'
            = if decide (j' = j ∧ k' = k) then Some g' else field t_dialers w j' !! k') →
  (∀ j', field t_listeners w' j' = field t_listeners w j') →
  (∀ j', field t_recv w' j' = field t_recv w j') →
  (∀ j', j' ≠ j → field t_send w' j' = field t_send w j') →
  chans w' = chans w → length (queues w') = length (queues w) →
  (∀ r, r ≠ g_conn g → queues w' !! r = queues w !! r) →
  (∀ q q', queues w !! g_conn g = Some q → queues w' !! g_conn g = Some q' →
    ∃ l, q' = q ++ l ∧ hand g ++ field t_send w j = l ++ hand g' ++ field t_send w' j) →
  flow ls w'.
Proof.
  intros F Hg Hconn Hd Hl Hr Hs Hc Hlen Hq Hmove.
  pose proof (on_insert w w' j k g g' Hconn Hg Hd) as Hon.
  pose proof F as [F1 F2 F3 F4 F5 F6 F7 F8 F9 F10 F11].
  pose proof (F2 j k g Hg) as Hlt.
  destruct (lookup_lt_is_Some_2 _ _ Hlt) as [q0 Hq0].
  destruct (lookup_lt_is_Some_2 (queues w') (g_conn g)) as [q1 Hq1]; [by rewrite Hlen|].
  destruct (Hmove q0 q1 Hq0 Hq1) as (l & -> & Hl1).
  assert (Forall (λ m, tag m = j) (l ++ hand g' ++ field t_send w' j)) as Hall.
  { rewrite <- Hl1. apply Forall_app. split; [by eapply F6|apply F5]. }
  apply Forall_app in Hall as [Hl' [Hg' Hs']%Forall_app].
  split.
  - intros j1 k1 g1. rewrite Hl, Hlen. apply F1.
  - intros j1 k1 g1. rewrite Hd, Hlen. case_decide; [intros [= <-]; by rewrite Hconn|apply F2].
  - intros h r. rewrite Hc, Hlen. apply F3.
  - intros j1 k1 g1 j2 k2 g2. rewrite !Hl. apply F4.
  - intros j1. destruct (decide (j1 = j)) as [->|]; [done|]. rewrite Hs by done. apply F5.
  - intros j1 k1 g1. rewrite Hd. case_decide as E; [|apply F6]. destruct E as [-> ->].
    by intros [= <-].
  - intros r q E. rewrite Hon. intros Hnot. destruct (decide (r = g_conn g)) as [->|].
    + assert (q = q0 ++ l) as -> by congruence. rewrite mine_app, (F7 _ q0) by done.
      apply (mine_other l j Hl'). intros ->. apply Hnot. by exists k, g.
    + rewrite Hq in E by done. by eapply F7.
  - intros j1 k1 g1. rewrite Hl, Hon. apply F8.
  - intros j1 Hj1. rewrite Hr. apply F9. intros k1 g1. rewrite <- Hl, <- Hon. apply Hj1.
  - intros E. assert (j ≠ i) as Hne.
    { intros ->. specialize (Hd i k). rewrite E, decide_True in Hd by done. done. }
    rewrite Hs by done. apply F10. apply list_eq. intros n. specialize (Hd i n).
    rewrite decide_False, E in Hd by naive_solver. done.
  - intros d j1 k1 g1 q E. rewrite Hl, Hr. intros E2 E3 E4.
    destruct (insert_singleton w w' j k g g' d Hg Hd E) as [(-> & Ei & ->)|[Hne Ei]].
    + rewrite Hconn in E3, E4. assert (q = q0 ++ l) as -> by congruence.
      rewrite (F11 g j1 k1 g1 q0 Ei E2 E3 Hq0), Hl1. rewrite !mine_app, <- !app_assoc.
      by rewrite (mine_all l Hl').
    + rewrite (Hs i) by done. destruct (decide (g_conn d = g_conn g)) as [E5|E5].
      * rewrite E5 in E4. assert (q = q0 ++ l) as -> by congruence.
        rewrite (F11 d j1 k1 g1 q0 Ei E2 E3) by congruence. rewrite !mine_app.
        by rewrite (mine_other l j Hl' Hne), app_nil_r.
      * rewrite Hq in E4 by done. by eapply F11.
Qed.

(** A goroutine of [Listen] moves a message on: from the channel of the connection
    into its hand, or from its hand into the channel [recv]. *)
Lemma flow_listen ls w w' j k g g' :
  flow ls w → field t_listeners w j !! k = Some g → g_conn g' = g_conn g →
  (∀ j' k', field t_listeners w' j' !! k'
            = if decide (j' = j ∧ k' = k) then Some g' else field t_listeners w j' !! k') →
  (∀ j', field t_dialers w' j' = field t_dialers w j') →
  (∀ j', field t_send w' j' = field t_send w j') →
  (∀ j', j' ≠ j → field t_recv w' j' = field t_recv w j') →
  chans w' = chans w → length (queues w') = length (queues w) →
  (∀ r, r ≠ g_conn g → queues w' !! r = queues w !! r) →
  (∀ q q', queues w !! g_conn g = Some q → queues w' !! g_conn g = Some q' →
    ∃ l, field t_recv w' j = field t_recv w j ++ l ∧ hand g ++ q = l ++ hand g' ++ q') →
  flow ls w'.
Proof.
  intros F Hg Hconn Hl Hd Hs Hr Hc Hlen Hq Hmove.
  assert (∀ r, on w' r ↔ on w r) as Hon by (intros r; unfold on; by rewrite Hd).
  pose proof F as [F1 F2 F3 F4 F5 F6 F7 F8 F9 F10 F11].
  pose proof (F1 j k g Hg) as Hlt.
  destruct (lookup_lt_is_Some_2 _ _ Hlt) as [q0 Hq0].
  destruct (lookup_lt_is_Some_2 (queues w') (g_conn g)) as [q1 Hq1]; [by rewrite Hlen|].
  destruct (Hmove q0 q1 Hq0 Hq1) as (l & Hl2 & Hl1).
  assert (¬ on w (g_conn g) → mine l = [] ∧ mine (hand g') = [] ∧ mine q1 = []) as Hoff.
  { intros Hnot. assert (mine (hand g ++ q0) = []) as E by (by rewrite mine_app, (F8 j k g), (F7 (g_conn g) q0)).
    rewrite Hl1, !mine_app in E. by apply app_eq_nil in E as [-> [-> ->]%app_eq_nil]. }
  assert (∀ j1, field t_recv w' j1 = field t_recv w j1 ++ if decide (j1 = j) then l else []) as Hr'.
  { intros j1. case_decide as E; [by subst|]. by rewrite Hr, app_nil_r. }
  split.
  - intros j1 k1 g1. rewrite Hl, Hlen. case_decide; [intros [= <-]; by rewrite Hconn|apply F1].
  - intros j1 k1 g1. rewrite Hd, Hlen. apply F2.
  - intros h r. rewrite Hc, Hlen. apply F3.
  - intros j1 k1 g1 j2 k2 g2 H1 H2 E.
    assert (∀ j3 k3 g3, field t_listeners w' j3 !! k3 = Some g3 →
      ∃ g4, field t_listeners w j3 !! k3 = Some g4 ∧ g_conn g4 = g_conn g3) as Hback.
    { intros j3 k3 g3. rewrite Hl. case_decide as E3; [|by eauto]. destruct E3 as [-> ->].
      intros [= <-]. eauto. }
    destruct (Hback _ _ _ H1) as (g3 & H3 & E3), (Hback _ _ _ H2) as (g4 & H4 & E4).
    apply (F4 _ _ _ _ _ _ H3 H4). congruence.
  - intros j1. rewrite Hs. apply F5.
  - intros j1 k1 g1. rewrite Hd. apply F6.
  - intros r q E. rewrite Hon. intros Hnot. destruct (decide (r = g_conn g)) as [->|].
    + assert (q = q1) as -> by congruence. by apply Hoff.
    + rewrite Hq in E by done. by eapply F7.
  - intros j1 k1 g1. rewrite Hl, Hon. case_decide as E; [|apply F8]. intros [= <-].
    rewrite Hconn. apply Hoff.
  - intros j1 Hj1. rewrite Hr', app_assoc, mine_app.
    assert (∀ k1 g1, field t_listeners w j1 !! k1 = Some g1 → ¬ on w (g_conn g1)) as Hj0.
    { intros k1 g1 H1. rewrite <- Hon. destruct (decide (j1 = j ∧ k1 = k)) as [[-> ->]|E].
      - assert (g1 = g) as -> by congruence. rewrite <- Hconn. apply (Hj1 k). by rewrite Hl, decide_True.
      - apply (Hj1 k1). by rewrite Hl, decide_False. }
    rewrite F9 by done. case_decide as E; [|done]. subst. by apply Hoff, (Hj0 k).
  - rewrite Hd, Hs. apply F10.
  - intros d j1 k1 g1 q. rewrite Hd, Hs, Hl. intros E1 E2 E3 E4.
    destruct (decide (j1 = j ∧ k1 = k)) as [[-> ->]|E5].
    + injection E2 as <-. rewrite Hconn in E3. rewrite <- E3 in E4. assert (q = q1) as -> by congruence.
      rewrite (F11 d j k g q0 E1 Hg E3) by congruence.
      rewrite Hl1, Hl2. by rewrite <- !app_assoc.
    + destruct (decide (g_conn d = g_conn g)) as [E6|E6].
      { destruct E5. apply (F4 _ _ _ _ _ _ E2 Hg). congruence. }
      rewrite Hq in E4 by done. rewrite (F11 d j1 k1 g1 q E1 E2 E3 E4), Hr'.
      f_equal. rewrite !mine_app.
      assert (mine (if decide (j1 = j) then l else []) = []) as ->; [|by rewrite app_nil_r].
      case_decide; [|done]. apply Hoff. intros (k2 & g2 & H2 & E7). rewrite E1 in H2.
      destruct k2; [|done]. injection H2 as ->. congruence.
Qed.

(** [Dial] starts a goroutine on a channel of the table; a first dial finds no
    message of this transport on the way. *)
Lemma flow_connect ls w w' j t r :
  flow ls w → transports w !! j = Some t → (r < length (queues w))%nat →
  w' = set_transport j (set_dialers (t_dialers t ++ [MkGoroutine r None]) t) w → flow ls w'.
Proof.
  intros F Ht Hr ->. set (w' := set_transport _ _ _).
  assert (∀ j1 k1, field t_dialers w' j1 !! k1
    = if decide (j1 = j ∧ k1 = length (t_dialers t)) then Some (MkGoroutine r None)
      else field t_dialers w j1 !! k1) as Hd
    by (intros; by apply (field_snoc t_dialers w j t)).
  assert (∀ j1, field t_listeners w' j1 = field t_listeners w j1) as Hl by (intros; by apply (field_keep _ _ _ t)).
  assert (∀ j1, field t_send w' j1 = field t_send w j1) as Hs by (intros; by apply (field_keep _ _ _ t)).
  assert (∀ j1, field t_recv w' j1 = field t_recv w j1) as Hrv by (intros; by apply (field_keep _ _ _ t)).
  assert (∀ r, on w r → on w' r) as Hon.
  { intros r1 (k1 & g1 & H1 & E). exists k1, g1. rewrite Hd. case_decide as E2; [|done].
    destruct E2 as [-> ->]. rewrite (field_at _ _ _ _ Ht) in H1. apply lookup_lt_Some in H1. lia. }
  pose proof F as [F1 F2 F3 F4 F5 F6 F7 F8 F9 F10 F11]. split.
  - intros j1 k1 g1. rewrite Hl. apply F1.
  - intros j1 k1 g1. rewrite Hd. case_decide; [by intros [= <-]|apply F2].
  - exact F3.
  - intros j1 k1 g1 j2 k2 g2. rewrite !Hl. apply F4.
  - intros j1. rewrite Hs. apply F5.
  - intros j1 k1 g1. rewrite Hd. case_decide; [intros [= <-]; constructor|apply F6].
  - intros r1 q E Hnot. apply (F7 r1 q E). auto.
  - intros j1 k1 g1. rewrite Hl. intros E Hnot. apply (F8 _ _ _ E). auto.
  - intros j1 Hj1. rewrite Hrv. apply F9. intros k1 g1. rewrite <- Hl. intros E Hn1.
    apply (Hj1 _ _ E). auto.
  - rewrite Hs. intros E. apply F10. destruct (field t_dialers w i) as [|d l] eqn:E1; [done|].
    assert (on w (g_conn d)) as (k1 & g1 & H1 & _)%Hon by (exists 0%nat, d; by rewrite E1).
    by rewrite E in H1.
  - intros d j1 k1 g1 q E1. rewrite Hl, Hrv, Hs. intros E2 E3 E4.
    unfold w' in E1. rewrite (field_set _ _ _ _ _ _ Ht) in E1. case_decide as Ei.
    + subst j. simpl in E1. assert (t_dialers t = []) as Et.
      { destruct (t_dialers t) as [|d1 [|]]; [done|by injection E1..]. }
      rewrite Et in E1. injection E1 as <-.
      assert (¬ on w r) as Hoff by (intros (k2 & g2 & H2 & _); rewrite (field_at _ _ _ _ Ht), Et in H2; done).
      rewrite F10 by (by rewrite (field_at _ _ _ _ Ht)).
      rewrite (app_assoc (received _ _)), mine_app, (mine_app (hand g1)).
      rewrite (F8 j1 k1 g1 E2), (F7 _ q E4) by (by rewrite ?E3).
      assert (mine (received j1 ls ++ field t_recv w j1) = []) as ->; [|done].
      apply F9. intros k2 g2 _ (k3 & g3 & H3 & _). rewrite (field_at _ _ _ _ Ht), Et in H3. done.
    + by apply (F11 d j1 k1 g1 q).
Qed.

(** [Listen] starts a goroutine on a new channel. *)
Lemma flow_listen_new ls w j t :
  flow ls w → transports w !! j = Some t → flow ls (Listen j t w).
Proof.
  intros F Ht. set (w' := Listen j t w).
  assert (∀ j1 k1, field t_listeners w' j1 !! k1
    = if decide (j1 = j ∧ k1 = length (t_listeners t)) then Some (MkGoroutine (length (queues w)) None)
      else field t_listeners w j1 !! k1) as Hl.
  { intros. by apply (field_snoc t_listeners
      (MkWorld (<[t_host t := length (queues w)]> (chans w)) (queues w ++ [[]]) (transports w)) j t). }
  assert (∀ A (f : transport M → list A) j1,
    f (set_listeners (t_listeners t ++ [MkGoroutine (length (queues w)) None]) t) = f t →
    field f w' j1 = field f w j1) as Hk.
  { intros A f j1 E. unfold w', Listen. by rewrite (field_keep f _ j t) by done. }
  assert (∀ j1, field t_dialers w' j1 = field t_dialers w j1) as Hd by (intros; by apply Hk).
  assert (∀ j1, field t_send w' j1 = field t_send w j1) as Hs by (intros; by apply Hk).
  assert (∀ j1, field t_recv w' j1 = field t_recv w j1) as Hr by (intros; by apply Hk).
  assert (∀ r, on w' r ↔ on w r) as Hon by (intros r; unfold on; by rewrite Hd).
  assert (∀ r q, queues w' !! r = Some q → queues w !! r = Some q ∨ r = length (queues w) ∧ q = []) as Hq.
  { intros r q E. simpl in E. apply lookup_app_Some in E as [E|[E1 E2]]; [by left|right].
    destruct (r - length (queues w))%nat as [|n] eqn:En; [|done]. injection E2 as <-. split; [lia|done]. }
  assert (length (queues w') = S (length (queues w))) as Hlen by (simpl; rewrite length_app; simpl; lia).
  pose proof F as [F1 F2 F3 F4 F5 F6 F7 F8 F9 F10 F11]. split.
  - intros j1 k1 g1. rewrite Hl, Hlen. case_decide; [intros [= <-]; simpl; lia|]. intros E%F1. lia.
  - intros j1 k1 g1. rewrite Hd, Hlen. intros E%F2. lia.
  - intros h r E. rewrite Hlen. simpl in E. apply lookup_insert_Some in E as [[_ <-]|[_ E%F3]]; lia.
  - intros j1 k1 g1 j2 k2 g2. rewrite !Hl. case_decide as E1; case_decide as E2; intros H1 H2 E.
    + destruct E1, E2. by subst.
    + injection H1 as <-. apply F1 in H2. simpl in E. lia.
    + injection H2 as <-. apply F1 in H1. simpl in E. lia.
    + by apply (F4 _ _ _ _ _ _ H1 H2).
  - intros j1. rewrite Hs. apply F5.
  - intros j1 k1 g1. rewrite Hd. apply F6.
  - intros r q E. rewrite Hon. intros Hnot. apply Hq in E as [E|[-> ->]]; [by apply (F7 r)|done].
  - intros j1 k1 g1. rewrite Hl, Hon. case_decide; [by intros [= <-]|apply F8].
  - intros j1 Hj1. rewrite Hr. apply F9. intros k1 g1 E. rewrite <- Hon. apply (Hj1 k1).
    rewrite Hl, decide_False; [done|]. intros [-> ->]. rewrite (field_at _ _ _ _ Ht) in E.
    apply lookup_lt_Some in E. lia.
  - rewrite Hd, Hs. apply F10.
  - intros d j1 k1 g1 q. rewrite Hd, Hl, Hr, Hs. intros E1 E2 E3 E4.
    assert (g_conn d < length (queues w))%nat as Hlt.
    { apply (F2 i 0%nat). by rewrite E1. }
    case_decide as E; [injection E2 as <-; simpl in E3; lia|].
    apply Hq in E4 as [E4|[E4 _]]; [|lia]. by apply (F11 d j1 k1 g1 q).
Qed.

(** The labels of a run whose senders mark their messages. *)
Definition stamped (l : label M) : Prop := match l with LSend j m => tag m = j | _ => True end.

Lemma chan_send_ok cap (m : M) q q' : chan_send cap m q = Some q' → q' = q ++ [m].
Proof. unfold chan_send. case_decide; [by intros [= <-]|done]. Qed.

(** A step at the ends leaves the goroutines and what has arrived alone. *)
Lemma flow_end ls l w j t t' :
  flow ls w → transports w !! j = Some t →
  t_dialers t' = t_dialers t → t_listeners t' = t_listeners t →
  received j [l] ++ t_recv t' = t_recv t → (∀ j', j' ≠ j → received j' [l] = []) →
  t_send t' = t_send t ++ sent j [l] → (∀ j', j' ≠ j → sent j' [l] = []) →
  Forall (λ m, tag m = j) (sent j [l]) → flow (ls ++ [l]) (set_transport j t' w).
Proof.
  intros F Ht Hd Hl Hr Hr' Hs Hs' Htag. eapply flow_ends; try done.
  - intros j'. by apply (field_keep _ _ _ t).
  - intros j'. by apply (field_keep _ _ _ t).
  - intros j'. unfold arrived. rewrite received_snoc, (field_set _ _ _ _ _ _ Ht). case_decide as E.
    + subst. by rewrite (field_at _ _ _ _ Ht), <- app_assoc, Hr.
    + by rewrite Hr', app_nil_r.
  - intros j'. rewrite (field_set _ _ _ _ _ _ Ht). case_decide as E; [|apply F].
    subst. rewrite Hs. apply Forall_app. split; [|done]. rewrite <- (field_at _ _ _ _ Ht). apply F.
  - exists (sent i [l]). rewrite sent_snoc, (field_set _ _ _ _ _ _ Ht). split; [done|].
    case_decide as E; [subst; by rewrite (field_at _ _ _ _ Ht), Hs|]. by rewrite Hs', app_nil_r.
Qed.

Lemma flow_other ls w : flow ls w → flow (ls ++ [LOther]) w.
Proof.
  intros F. eapply flow_ends; try done; [|apply F|].
  - intros j. unfold arrived. by rewrite received_snoc, app_nil_r.
  - exists []. by rewrite sent_snoc, !app_nil_r.
Qed.

Lemma flow_dial_take ls w j k t t' :
  flow ls w → transports w !! j = Some t → dial_take k t = Some t' → flow ls (set_transport j t' w).
Proof.
  intros F Ht H'. unfold dial_take in H'.
  destruct (t_dialers t !! k) as [g|] eqn:Hg; [|done]. simpl in H'.
  destruct g as [r [h|]]; [done|]. simpl in H'. destruct (t_send t) as [|m q] eqn:Hs; [done|].
  injection H' as <-.
  apply (flow_dial ls w _ j k (MkGoroutine r None) (MkGoroutine r (Some m)) F); try done.
  - by rewrite (field_at _ _ _ _ Ht).
  - intros j' k'. by eapply (field_insert t_dialers w j t).
  - intros j'. by apply (field_keep _ _ _ t).
  - intros j'. by apply (field_keep _ _ _ t).
  - intros j' Hne. rewrite (field_set _ _ _ _ _ _ Ht). by rewrite decide_False.
  - simpl. intros q1 q2 E1 E2. exists []. rewrite app_nil_r.
    split; [congruence|]. rewrite (field_set _ _ _ _ _ _ Ht), decide_True by done.
    by rewrite (field_at _ _ _ _ Ht), Hs.
Qed.

Lemma queue_set r q w r' : r' ≠ r → queues (set_queue r q w) !! r' = queues w !! r'.
Proof. intros. simpl. by rewrite list_lookup_insert_ne. Qed.

Lemma flow_dial_put ls w w' j k t :
  flow ls w → transports w !! j = Some t → dial_put j k t w = Some w' → flow ls w'.
Proof.
  intros F Ht H'. unfold dial_put in H'.
  destruct (t_dialers t !! k) as [g|] eqn:Hg; [|done]. simpl in H'.
  destruct g as [r [m|]]; [|done]. simpl in H'.
  destruct (queues w !! r) as [q|] eqn:Hq; [|done]. simpl in H'.
  destruct (chan_send cap_conn m q) as [q'|] eqn:Hsend; [|done]. simpl in H'. injection H' as <-.
  apply chan_send_ok in Hsend as ->.
  apply (flow_dial ls w _ j k (MkGoroutine r (Some m)) (MkGoroutine r None) F); try done.
  - by rewrite (field_at _ _ _ _ Ht).
  - intros j' k'. by eapply (field_insert t_dialers w j t).
  - intros j'. by apply (field_keep t_listeners w j t).
  - intros j'. by apply (field_keep t_recv w j t).
  - intros j' _. by apply (field_keep t_send w j t).
  - simpl. by rewrite length_insert.
  - simpl. intros r' Hne. by rewrite list_lookup_insert_ne.
  - simpl. intros q1 q2 E1 E2. rewrite list_lookup_insert_eq in E2 by (by eapply lookup_lt_Some).
    exists [m]. split; [congruence|].
    change (field t_send (set_queue r (q ++ [m]) ?w) j) with (field t_send w j).
    by rewrite (field_keep t_send w j t).
Qed.

Lemma flow_listen_take ls w w' j k t :
  flow ls w → transports w !! j = Some t → listen_take j k t w = Some w' → flow ls w'.
Proof.
  intros F Ht H'. unfold listen_take in H'.
  destruct (t_listeners t !! k) as [g|] eqn:Hg; [|done]. simpl in H'.
  destruct (queues w !! g_conn g) as [q|] eqn:Hq; [|done]. simpl in H'.
  destruct g as [r [h|]]; [done|]. simpl in *. destruct q as [|m q]; [done|]. injection H' as <-.
  apply (flow_listen ls w _ j k (MkGoroutine r None) (MkGoroutine r (Some m)) F); try done.
  - by rewrite (field_at _ _ _ _ Ht).
  - intros j' k'. by eapply (field_insert t_listeners w j t).
  - intros j'. by apply (field_keep t_dialers w j t).
  - intros j'. by apply (field_keep t_send w j t).
  - intros j' _. by apply (field_keep t_recv w j t).
  - simpl. by rewrite length_insert.
  - simpl. intros r' Hne. by rewrite list_lookup_insert_ne.
  - simpl. intros q1 q2 E1 E2. rewrite list_lookup_insert_eq in E2 by (by eapply lookup_lt_Some).
    exists []. rewrite app_nil_r. split; [|simpl; congruence].
    change (field t_recv (set_queue r q ?w) j) with (field t_recv w j).
    by rewrite (field_keep t_recv w j t).
Qed.

Lemma flow_listen_put ls w j k t t' :
  flow ls w → transports w !! j = Some t → listen_put k t = Some t' → flow ls (set_transport j t' w).
Proof.
  intros F Ht H'. unfold listen_put in H'.
  destruct (t_listeners t !! k) as [g|] eqn:Hg; [|done]. simpl in H'.
  destruct g as [r [m|]]; [|done]. simpl in H'.
  destruct (chan_send cap_transport m (t_recv t)) as [q'|] eqn:Hsend; [|done]. simpl in H'.
  injection H' as <-. apply chan_send_ok in Hsend as ->.
  apply (flow_listen ls w _ j k (MkGoroutine r (Some m)) (MkGoroutine r None) F); try done.
  - by rewrite (field_at _ _ _ _ Ht).
  - intros j' k'. by eapply (field_insert t_listeners w j t).
  - intros j'. by apply (field_keep t_dialers w j t).
  - intros j'. by apply (field_keep t_send w j t).
  - intros j' Hne. rewrite (field_set _ _ _ _ _ _ Ht). by rewrite decide_False.
  - simpl. intros q1 q2 E1 E2. exists [m]. rewrite (field_set _ _ _ _ _ _ Ht), decide_True by done.
    rewrite (field_at _ _ _ _ Ht). simpl. split; [done|]. congruence.
Qed.

Lemma flow_step ls l w w' : flow ls w → stamped l → net_step l w w' → flow (ls ++ [l]) w'.
Proof.
  intros F Hl Hstep. destruct Hstep as [Sch addr t w Hnew|j m t t' w Ht Hs|j m t t' w Ht Hr
    |j t t' w Ht Hc|j t w w' r Ht Hd|j t w Ht|j k t t' w Ht Hk|j k t w w' Ht Hk|j k t w w' Ht Hk
    |j k t t' w Ht Hk]; try apply flow_other.
  - assert (∀ A (f : transport M → list A), f t = [] → ∀ j,
      field f (MkWorld (chans w) (queues w) (transports w ++ [t])) j = field f w j) as Hf.
    { intros A f E j. unfold field. simpl. destruct (transports w !! j) as [t1|] eqn:E1.
      - by rewrite (lookup_app_l_Some _ _ _ _ E1).
      - rewrite lookup_app, E1. destruct (j - length (transports w))%nat as [|x]; simpl; [done|].
        done. }
    assert (t_dialers t = [] ∧ t_listeners t = [] ∧ t_send t = [] ∧ t_recv t = []) as (E1 & E2 & E3 & E4).
    { unfold NewTransport in Hnew. destruct (url_Parse _) as [[sc h]|]; [|done].
      destruct (decide _); [|done]. by injection Hnew as <-. }
    eapply flow_ends; try done; [by apply Hf..| | |].
    + intros j. unfold arrived. by rewrite (Hf _ t_recv).
    + intros j. rewrite (Hf _ t_send) by done. apply F.
    + exists []. by rewrite !app_nil_r, (Hf _ t_send).
  - unfold Send in Hs. destruct (t_closed t); [done|].
    destruct (chan_send cap_transport m (t_send t)) as [q|] eqn:E; [|done]. injection Hs as <-.
    apply chan_send_ok in E as ->. eapply flow_end; try done; simpl.
    + by rewrite decide_True.
    + intros j' Hne. by rewrite decide_False.
    + rewrite decide_True by done. by repeat constructor.
  - unfold Recv in Hr. destruct (t_recv t) as [|m' q] eqn:E; [done|]. injection Hr as -> <-.
    eapply flow_end; try done; simpl.
    + by rewrite decide_True.
    + intros j' Hne. by rewrite decide_False.
    + by rewrite app_nil_r.
  - unfold Close in Hc. destruct (t_closed t); [done|]. injection Hc as <-.
    rewrite <- (app_nil_r ls) at 1. eapply flow_ends; try done; rewrite ?app_nil_r; try done.
    all: try (intros j'; by apply (field_keep _ _ _ t)).
    + intros j'. unfold arrived. f_equal. by apply (field_keep _ _ _ t).
    + intros j'. rewrite (field_keep _ _ _ t) by done. apply F.
    + exists []. rewrite !app_nil_r. split; [done|]. by apply (field_keep _ _ _ t).
  - unfold Dial in Hd. destruct (chans w !! t_host t) as [q|] eqn:Eq; [|by injection Hd as <- <-].
    injection Hd as <- <-. eapply flow_connect; [done..| |done]. by eapply F.
  - by apply flow_listen_new.
  - by eapply flow_dial_take.
  - by eapply flow_dial_put.
  - by eapply flow_listen_take.
  - by eapply flow_listen_put.
Qed.

Lemma flow_run ls w : Forall stamped ls → net_run ls empty_world w → flow ls w.
Proof.
  intros Hs Hrun. remember empty_world as w0 eqn:E0. induction Hrun as [w|ls l w w' w'' Hrun IH Hstep].
  - subst. split; unfold field; simpl; try done.
  - apply Forall_app in Hs as [Hs Hl]. inversion Hl; subst.
    eapply flow_step; [by apply IH|done|done].
Qed.
End fifo.

(** [C35] The intra-process transport is a first-in-first-out connection.  In every
    run of the program and the goroutines, in which the messages carry their
    sender, let transport [i] have dialled once and let [j] be the transport that
    listens on the channel it reached.  The messages sent on [i] are then, in this
    order and each once: those of them that [j] has received, those in [j]'s
    channel, in the hand of its goroutine, in the connection, in the hand of the
    goroutine of [i], and in [i]'s channel.  In particular what [j] has received
    from [i] is a prefix of what was sent on [i]. *)
Theorem channel_fifo {M : Type} `{URLParser} (tag : M → nat) ls (w : world M) i j ti tj d k g q :
  Forall (stamped tag) ls → net_run ls empty_world w →
  transports w !! i = Some ti → t_dialers ti = [d] →
  transports w !! j = Some tj → t_listeners tj !! k = Some g → g_conn g = g_conn d →
  queues w !! g_conn d = Some q →
  sent i ls = mine tag i (received j ls ++ t_recv tj ++ hand g ++ q) ++ hand d ++ t_send ti
  ∧ mine tag i (received j ls) `prefix_of` sent i ls.
Proof.
  intros Hs Hrun Hi Hd Hj Hk Hc Hq. pose proof (flow_run tag i ls w Hs Hrun) as F.
  assert (sent i ls = mine tag i (received j ls ++ t_recv tj ++ hand g ++ q) ++ hand d ++ t_send ti) as E.
  { rewrite <- (field_at t_recv _ _ _ Hj), <- (field_at t_send _ _ _ Hi).
    eapply (fl_path _ _ _ _ F); [by rewrite (field_at _ _ _ _ Hi)| |done..].
    by rewrite (field_at _ _ _ _ Hj). }
  split; [done|]. rewrite E, mine_app, <- app_assoc. by apply prefix_app_r.
Qed.

(** *** A sample run: two senders to one listener, one message still under way *)
Definition sample_url : URLParser := λ s, Some ("chan", s).
#[local] Existing Instance sample_url.

Definition sample_message : Type := nat * nat.
Definition sample_transport : transport sample_message := MkTransport "chan" "chan://h" [] [] false [] [].

(** The operations of the run, each with its label. *)
Inductive sample_op :=
  | ONew | OListen (i : nat) | ODial (i : nat) | OSend (i : nat) (m : sample_message) | ORecv (i : nat)
  | ODialTake (i : nat) | ODialPut (i : nat) | OListenTake (i : nat) | OListenPut (i : nat).

Definition sample_do (o : sample_op) (w : world sample_message)
  : option (label sample_message * world sample_message) :=
  match o with
  | ONew => Some (LOther, MkWorld (chans w) (queues w) (transports w ++ [sample_transport]))
  | OListen i => t ← transports w !! i; Some (LOther, Listen i t w)
  | ODial i => t ← transports w !! i; Some (LOther, (Dial i t w).1)
  | OSend i m => t ← transports w !! i; o ← Send m t;
      match o with Ok t' => Some (LSend i m, set_transport i t' w) | Fault _ => None end
  | ORecv i => t ← transports w !! i; '(m, t') ← Recv t; Some (LRecv i m, set_transport i t' w)
  | ODialTake i => t ← transports w !! i; t' ← dial_take 0 t; Some (LOther, set_transport i t' w)
  | ODialPut i => t ← transports w !! i; w' ← dial_put i 0 t w; Some (LOther, w')
  | OListenTake i => t ← transports w !! i; w' ← listen_take i 0 t w; Some (LOther, w')
  | OListenPut i => t ← transports w !! i; t' ← listen_put 0 t; Some (LOther, set_transport i t' w)
  end.

Fixpoint sample_exec (os : list sample_op) (w : world sample_message)
  : option (list (label sample_message) * world sample_message) :=
  match os with
  | [] => Some ([], w)
  | o :: os => '(l, w) ← sample_do o w; '(ls, w) ← sample_exec os w; Some (l :: ls, w)
  end.

Lemma sample_do_step o w l w' : sample_do o w = Some (l, w') → net_step l w w'.
Proof.
  destruct o as [|i|i|i m|i|i|i|i|i]; simpl.
  - intros [= <- <-]. by apply (step_new "chan" "chan://h").
  - destruct (transports w !! i) as [t|] eqn:Ht; simpl; [|done]. intros [= <- <-]. by apply step_listen.
  - destruct (transports w !! i) as [t|] eqn:Ht; simpl; [|done]. intros [= <- <-].
    eapply (step_dial i t w _ (Dial i t w).2 Ht). by destruct (Dial i t w).
  - destruct (transports w !! i) as [t|] eqn:Ht; simpl; [|done].
    destruct (Send m t) as [[t'|]|] eqn:Hs; simpl; try done. intros [= <- <-]. by eapply step_send.
  - destruct (transports w !! i) as [t|] eqn:Ht; simpl; [|done].
    destruct (Recv t) as [[m t']|] eqn:Hr; simpl; [|done]. intros [= <- <-]. by eapply step_recv.
  - destruct (transports w !! i) as [t|] eqn:Ht; simpl; [|done].
    destruct (dial_take 0 t) as [t'|] eqn:Hr; simpl; [|done]. intros [= <- <-]. by eapply step_dial_take.
  - destruct (transports w !! i) as [t|] eqn:Ht; simpl; [|done].
    destruct (dial_put i 0 t w) as [t'|] eqn:Hr; simpl; [|done]. intros [= <- <-]. by eapply step_dial_put.
  - destruct (transports w !! i) as [t|] eqn:Ht; simpl; [|done].
    destruct (listen_take i 0 t w) as [t'|] eqn:Hr; simpl; [|done]. intros [= <- <-]. by eapply step_listen_take.
  - destruct (transports w !! i) as [t|] eqn:Ht; simpl; [|done].
    destruct (listen_put 0 t) as [t'|] eqn:Hr; simpl; [|done]. intros [= <- <-]. by eapply step_listen_put.
Qed.

Lemma net_run_trans {M : Type} `{URLParser} ls1 ls2 (w1 w2 w3 : world M) :
  net_run ls1 w1 w2 → net_run ls2 w2 w3 → net_run (ls1 ++ ls2) w1 w3.
Proof.
  intros H1 H2. induction H2 as [|ls l w w' w'' H2 IH Hs]; [by rewrite app_nil_r|].
  rewrite app_assoc. eapply run_snoc; [by apply IH|done].
Qed.

Lemma sample_exec_run os w ls w' : sample_exec os w = Some (ls, w') → net_run ls w w'.
Proof.
  revert w ls. induction os as [|o os IH]; intros w ls; simpl; [intros [= <- <-]; constructor|].
  destruct (sample_do o w) as [[l w1]|] eqn:Ho; simpl; [|done].
  destruct (sample_exec os w1) as [[ls1 w2]|] eqn:Hos; simpl; [|done]. intros [= <- <-].
  apply (net_run_trans [l] ls1 w w1); [|by apply IH].
  apply (run_snoc [] l w w w1); [constructor|by apply sample_do_step in Ho].
Qed.

Definition sample_ops : list sample_op :=
  [ONew; ONew; ONew; OListen 0; ODial 1; ODial 2; OSend 1 (1, 7)%nat; OSend 2 (2, 8)%nat;
   OSend 1 (1, 9)%nat; ODialTake 2; ODialTake 1; ODialPut 1; ODialPut 2; OListenTake 0; OListenPut 0;
   ORecv 0; ODialTake 1].

Definition sample_run : list (label sample_message) * world sample_message :=
  default ([], empty_world) (sample_exec sample_ops empty_world).

Lemma channel_fifo_witness :
  sent 1 sample_run.1 = [(1, 7); (1, 9)]%nat ∧ received 0 sample_run.1 = [(1, 7)]%nat
  ∧ mine fst 1 (received 0 sample_run.1) `prefix_of` sent 1 sample_run.1.
Proof.
  split; [by vm_compute|]. split; [by vm_compute|].
  refine (proj2 (@channel_fifo sample_message sample_url fst sample_run.1 sample_run.2 1 0
    (MkTransport "chan" "chan://h" [] [] false [MkGoroutine 0 (Some (1, 9)%nat)] [])
    (MkTransport "chan" "chan://h" [] [] false [] [MkGoroutine 0 None])
    (MkGoroutine 0 (Some (1, 9)%nat)) 0 (MkGoroutine 0 None) [(2, 8)%nat] _ _ _ _ _ _ _ _));
    try (vm_compute; reflexivity).
  - vm_compute. repeat constructor.
  - apply (sample_exec_run sample_ops). vm_compute. reflexivity.
Defined.
