(* ===== verification/Utils.v ===== *)
(** * Utilities ([src/utils/utils.go])

    The searches, the random picks and the retry loop.  A source of random numbers
    is a parameter: the results of its calls in order. *)
From S2P Require Import Prelude.

Local Open Scope Z_scope.

Definition FindIntSlice (slice : list Z) (val : Z) : bool := existsb (Z.eqb val) slice.

Definition Max (a b : Z) : Z := if decide (a < b) then b else a.

(** Lines 52-60: the first element of an empty vector panics. *)
Definition VMax (v : list Z) : outcome Z :=
  max ← index v 0;
  mret (foldl (λ max i, if decide (max < i) then i else max) max v).

Section random.
Context (Intn : nat → Z → Z).

(** [rand.Intn n] panics unless [n] is positive. *)
Definition rand_Intn (k : nat) (n : Z) : outcome Z :=
  if decide (0 < n) then mret (Intn k n) else Fault ExplicitPanic.

(** Lines 31-37: draw until a value is new; [k] calls were made before. *)
Fixpoint pick_new (fuel : nat) (n : Z) (picked : list Z) (k : nat) : outcome (nat * Z) :=
  r ← rand_Intn k n;
  if FindIntSlice picked r then
    match fuel with
    | O => Fault FuelExhausted
    | S fuel => pick_new fuel n picked (S k)
    end
  else mret (S k, r).

(** Lines 27-41. *)
Fixpoint pick_more (fuel : nat) (n : Z) (f : nat) (picked : list Z) (k : nat) : outcome (list Z) :=
  match f with
  | O => mret picked
  | S f =>
      '(k, r) ← pick_new fuel n picked k;
      pick_more fuel n f (picked ++ [r]) k
  end.

Definition RandomPick (fuel : nat) (n f : Z) : outcome (list Z) :=
  pick_more fuel n (Z.to_nat f) [] 0.
End random.

(** Lines 63-79: [f i] is the result of the [i]-th call.  The loop leaves at the
    last attempt; [k] bounds it by the number of attempts.  The result has the
    durations slept between the attempts. *)
Fixpoint retry_from (k : nat) (f : Z → result ()) (attempts sleep i : Z) : outcome (list Z * result ()) :=
  match f i with
  | Val () => mret ([], Val ())
  | Err e =>
      if decide (int64 (attempts - 1) ≤ i) then mret ([], Err e)
      else match k with
           | O => Fault FuelExhausted
           | S k =>
               '(l, r) ← retry_from k f attempts sleep (int64 (i + 1));
               mret (int64 (sleep * int64 (i + 1)) :: l, r)
           end
  end.

Definition Retry (f : Z → result ()) (attempts sleep : Z) : outcome (list Z * result ()) :=
  retry_from (Z.to_nat attempts) f attempts sleep 0.

(** Lines 82-97: what the [select] of each round finds; when both the timer and the
    stop channel are ready, either may be taken. *)
Inductive wakeup := WTimer | WStop.

(** The goroutine: how often it has called [f], and whether it has returned. *)
Fixpoint Schedule (ws : list wakeup) : nat * bool :=
  match ws with
  | [] => (1%nat, false)
  | WTimer :: ws => let '(n, stopped) := Schedule ws in (S n, stopped)
  | WStop :: _ => (1%nat, true)
  end.

(** Lines 119-123: a random key of a map, a panic when the map is empty. *)
Definition MapRandomKeyGet `{GoRange} {K V} `{Countable K} (Intn : nat → Z → Z) (k : nat) (m : gmap K V)
  : outcome K :=
  r ← rand_Intn Intn k (Z.of_nat (length (range m)));
  index (range m).*1 r.

(** [f] is called at once and after every delay until the stop, and never after it. *)
Lemma Schedule_calls n ws : Schedule (replicate n WTimer ++ WStop :: ws) = (S n, true).
Proof. induction n as [|n IH]; simpl; [done|]. by rewrite IH. Qed.

(** ** Searches *)

Lemma FindIntSlice_spec l v : FindIntSlice l v = bool_decide (v ∈ l).
Proof.
  unfold FindIntSlice. induction l as [|x l IH]; simpl; [done|].
  rewrite IH. destruct (Z.eqb_spec v x) as [->|Hne]; simpl.
  - symmetry. apply bool_decide_eq_true. by left.
  - apply bool_decide_ext. rewrite elem_of_cons. naive_solver.
Qed.

Lemma vmax_fold l m :
  let r := foldl (λ max i, if decide (max < i) then i else max) m l in
  m ≤ r ∧ (∀ x, x ∈ l → x ≤ r) ∧ (r = m ∨ r ∈ l).
Proof.
  revert m. induction l as [|y l IH]; intros m; simpl; [split_and!; [lia|set_solver|by left]|].
  destruct (IH (if decide (m < y) then y else m)) as (H1 & H2 & H3). destruct (decide (m < y)).
  - split_and!; [lia| |right; set_solver]. intros x [->|Hx]%elem_of_cons; [lia|auto].
  - split_and!; [lia| |set_solver]. intros x [->|Hx]%elem_of_cons; [lia|auto].
Qed.

(** [VMax] is the largest element. *)
Lemma VMax_spec v m : VMax v = Ok m ↔ m ∈ v ∧ ∀ x, x ∈ v → x ≤ m.
Proof.
  unfold VMax. destruct v as [|y v].
  { simpl. split; [done|]. intros [H%elem_of_nil _]. done. }
  pose proof (vmax_fold (y :: v) y) as (H1 & H2 & H3). change (index (y :: v) 0) with (Ok y).
  unfold mbind, outcome_bind.
  set (r := foldl _ y (y :: v)) in *. clearbody r.
  assert (r ∈ y :: v) as Hin by (destruct H3 as [->|]; [left|done]). split.
  - intros E. injection E as <-. by split.
  - intros [Hm Hle]. f_equal. apply Z.le_antisymm; [by apply Hle|by apply H2].
Qed.

(** ** Random picks *)

Lemma pick_new_ok Intn fuel n picked k k' r :
  (∀ k, 0 ≤ Intn k n < n) → pick_new Intn fuel n picked k = Ok (k', r) →
  (r ∉ picked) ∧ 0 ≤ r < n.
Proof.
  intros Hr. revert k. induction fuel as [|fuel IH]; intros k; simpl; unfold rand_Intn;
    (case_decide; [|done]); simpl; rewrite FindIntSlice_spec; case_bool_decide as E; try done;
    (intros [= <- <-]; split; [done|apply Hr]) || apply IH.
Qed.

Lemma pick_more_ok Intn fuel n f picked k l :
  (∀ k, 0 ≤ Intn k n < n) → NoDup picked → Forall (λ r, 0 ≤ r < n) picked →
  pick_more Intn fuel n f picked k = Ok l →
  NoDup l ∧ Forall (λ r, 0 ≤ r < n) l ∧ length l = (length picked + f)%nat.
Proof.
  intros Hr. revert picked k. induction f as [|f IH]; intros picked k Hnd Hall; simpl.
  { intros [= <-]. split_and!; [done..|lia]. }
  intros ([k1 r] & Hp & Hm)%outcome_bind_ok. apply pick_new_ok in Hp as [Hn Hb]; [|done].
  apply IH in Hm as (H1 & H2 & H3).
  - rewrite length_app in H3. simpl in H3. split_and!; [done..|lia].
  - apply NoDup_app. split_and!; [done|set_solver|apply NoDup_singleton].
  - apply Forall_app. split; [done|constructor; [done|constructor]].
Qed.

(** A source that gives every value again and again. *)
Definition fair (Intn : nat → Z → Z) (n : Z) : Prop :=
  ∀ r k, 0 ≤ r < n → ∃ d, Intn (k + d)%nat n = r.

Lemma pick_new_fair Intn n picked k r d :
  0 < n → Intn (k + d)%nat n = r → (r ∉ picked) →
  ∀ fuel, (d ≤ fuel)%nat → ∃ x, pick_new Intn fuel n picked k = Ok x.
Proof.
  intros Hn. revert k. induction d as [|d IH]; intros k Hd Hr fuel Hf.
  - destruct fuel; cbn [pick_new]; unfold rand_Intn; rewrite decide_True by done; simpl;
      rewrite Nat.add_0_r in Hd; rewrite Hd, FindIntSlice_spec, bool_decide_eq_false_2 by done; eauto.
  - destruct fuel as [|fuel]; [lia|]. cbn [pick_new]. unfold rand_Intn. rewrite decide_True by done.
    simpl. destruct (FindIntSlice picked (Intn k n)); [|eauto].
    apply (IH (S k)); [by rewrite <- Hd; f_equal; lia|done|lia].
Qed.

(** With room left some value is new. *)
Lemma some_new n picked :
  NoDup picked → Forall (λ r, 0 ≤ r < n) picked → Z.of_nat (length picked) < n →
  ∃ r, (r ∉ picked) ∧ 0 ≤ r < n.
Proof.
  intros Hnd Hall Hlen. destruct (decide (Forall (.∈ picked) (seqZ 0 n))) as [E|E].
  - exfalso. assert (length (seqZ 0 n) ≤ length picked)%nat as Hle.
    { apply submseteq_length, NoDup_submseteq; [apply NoDup_seqZ|]. by apply Forall_forall. }
    rewrite length_seqZ in Hle. lia.
  - apply not_Forall_Exists in E; [|apply _]. apply Exists_exists in E as (r & Hr & Hn).
    exists r. split; [done|]. apply elem_of_seqZ in Hr. lia.
Qed.

Lemma pick_new_mono Intn n picked fuel fuel' k x :
  (fuel ≤ fuel')%nat → pick_new Intn fuel n picked k = Ok x → pick_new Intn fuel' n picked k = Ok x.
Proof.
  revert fuel' k. induction fuel as [|fuel IH]; intros fuel' k Hle; destruct fuel' as [|fuel']; try lia;
    cbn [pick_new]; intros (r & Hr & H)%outcome_bind_ok; rewrite Hr; simpl;
    destruct (FindIntSlice picked r); try done. apply IH; [lia|done].
Qed.

Lemma pick_more_mono Intn n f fuel fuel' picked k x :
  (fuel ≤ fuel')%nat → pick_more Intn fuel n f picked k = Ok x → pick_more Intn fuel' n f picked k = Ok x.
Proof.
  intros Hle. revert picked k. induction f as [|f IH]; intros picked k; simpl; [done|].
  intros ([k1 r] & Hp & Hm)%outcome_bind_ok. rewrite (pick_new_mono _ _ _ _ _ _ _ Hle Hp). simpl. auto.
Qed.

Lemma pick_more_fair Intn n f picked k :
  (∀ k, 0 ≤ Intn k n < n) → fair Intn n → NoDup picked → Forall (λ r, 0 ≤ r < n) picked →
  Z.of_nat (length picked + f) ≤ n → ∃ fuel l, pick_more Intn fuel n f picked k = Ok l.
Proof.
  intros Hr Hf. revert picked k. induction f as [|f IH]; intros picked k Hnd Hall Hlen; simpl.
  { by exists 0%nat, picked. }
  destruct (some_new n picked) as (r & Hn & Hb); [done..|lia|]. destruct (Hf r k Hb) as [d Hd].
  destruct (pick_new_fair Intn n picked k r d) with (fuel := d) as [[k1 r1] Hp]; [lia|done..|].
  destruct (pick_new_ok _ _ _ _ _ _ _ Hr Hp) as [Hn1 Hb1].
  destruct (IH (picked ++ [r1]) k1) as (fuel & l & Hm).
  - apply NoDup_app. split_and!; [done|set_solver|apply NoDup_singleton].
  - apply Forall_app. split; [done|constructor; [done|constructor]].
  - rewrite length_app. simpl. lia.
  - exists (max d fuel), l. rewrite (pick_new_mono _ _ _ d (max d fuel) _ _ ltac:(lia) Hp). simpl.
    by apply (pick_more_mono _ _ _ fuel); [lia|].
Qed.

(** ** Retries *)

Lemma retry_from_ok k f attempts sleep i :
  0 ≤ i → is_int64 attempts → min_int64 < attempts → attempts - 1 - i ≤ Z.of_nat k →
  ∃ l r, retry_from k f attempts sleep i = Ok (l, r)
    ∧ (∀ n, (n < length l)%nat → ∃ e, f (i + Z.of_nat n) = Err e)
    ∧ r = f (i + Z.of_nat (length l))
    ∧ l = (λ n, int64 (sleep * (i + Z.of_nat n + 1))) <$> seq 0 (length l)
    ∧ (r = Val () → Z.of_nat (length l) ≤ Z.max 0 (attempts - 1 - i))
    ∧ (r ≠ Val () → Z.of_nat (length l) = Z.max 0 (attempts - 1 - i)).
Proof.
  intros Hi Ha Hm. assert (int64 (attempts - 1) = attempts - 1) as Ea
    by (apply int64_id; unfold_ints; lia). revert i Hi.
  induction k as [|k IH]; intros i Hi Hk; simpl; (destruct (f i) as [[]|e] eqn:Hf;
    [exists [], (Val ()); simpl; rewrite Z.add_0_r, Hf; split_and!; first [done|lia|intros; simpl in *; lia]|]);
    rewrite Ea; (case_decide as Hd;
      [exists [], (Err e); simpl; rewrite Z.add_0_r, Hf; split_and!; first [done|lia|intros; simpl in *; lia]|]); [lia|].
  assert (int64 (i + 1) = i + 1) as Ei by (apply int64_id; unfold_ints; lia).
  destruct (IH (i + 1)) as (l & r & Hr & H1 & H2 & H3 & H4 & H5); [lia..|]. rewrite Ei, Hr. simpl.
  exists (int64 (sleep * (i + 1)) :: l), r. split_and!; [done| | | |cbn [length]; intros E; specialize (H4 E); lia
    |cbn [length]; intros E; specialize (H5 E); lia].
  - intros [|n] Hn; [rewrite Z.add_0_r; eauto|]. simpl in Hn. destruct (H1 n) as [e' He']; [lia|].
    exists e'. rewrite <- He'. f_equal. lia.
  - rewrite H2. simpl. f_equal. lia.
  - simpl. f_equal; [f_equal; lia|]. rewrite H3 at 1. rewrite <- fmap_S_seq, <- list_fmap_compose.
    apply list_fmap_ext. intros n x _. simpl. f_equal. lia.
Qed.

(** [Retry] calls its function until it succeeds or the attempts are used up
    (at least once), sleeps between two attempts one step longer each time, and
    returns the result of the last call; it always returns. *)
Theorem Retry_spec f attempts sleep :
  is_int64 attempts → min_int64 < attempts →
  ∃ l r, Retry f attempts sleep = Ok (l, r)
    ∧ (∀ n, (n < length l)%nat → ∃ e, f (Z.of_nat n) = Err e)
    ∧ r = f (Z.of_nat (length l))
    ∧ l = (λ n, int64 (sleep * (Z.of_nat n + 1))) <$> seq 0 (length l)
    ∧ Z.of_nat (length l) < Z.max 1 attempts
    ∧ (r ≠ Val () → Z.of_nat (length l) = Z.max 1 attempts - 1).
Proof.
  intros Ha Hm.
  destruct (retry_from_ok (Z.to_nat attempts) f attempts sleep 0) as (l & r & H1 & H2 & H3 & H4 & H5 & H6);
    [lia|done..|lia|].
  exists l, r. split_and!; [done|done|done|exact H4| |].
  - destruct (decide (r = Val ())) as [E|E]; [specialize (H5 E)|specialize (H6 E)]; lia.
  - intros E. specialize (H6 E). lia.
Qed.

(** The fourth of a hundred dials succeeds, as in [socket.Send]. *)
Definition sample_dial (i : Z) : result () := if decide (3 ≤ i) then Val () else Err "refused".

Lemma Retry_spec_witness :
  Retry sample_dial 100 50000000 = Ok ([50000000; 100000000; 150000000], Val ()).
Proof.
  destruct (Retry_spec sample_dial 100 50000000) as (l & r & H & H1 & H2 & H3 & H4 & H5);
    [by vm_compute..|].
  rewrite H. vm_compute in H. injection H as <- <-. reflexivity.
Defined.

(** [RandomPick] returns exactly when it can: with a source that gives every
    value below [n] again and again it picks [f] distinct values below [n], for
    some number of draws, when [f] is at most [n]; for a larger [f] it never
    returns, however many draws are allowed. *)
Theorem RandomPick_spec Intn n f :
  0 < n → 0 ≤ f → (∀ k, 0 ≤ Intn k n < n) → fair Intn n →
  (f ≤ n → ∃ fuel l, RandomPick Intn fuel n f = Ok l ∧ NoDup l
     ∧ Forall (λ r, 0 ≤ r < n) l ∧ Z.of_nat (length l) = f)
  ∧ (n < f → ∀ fuel, ¬ returns (RandomPick Intn fuel n f)).
Proof.
  intros Hn Hf Hr Hfair. split.
  - intros Hle. destruct (pick_more_fair Intn n (Z.to_nat f) [] 0) as (fuel & l & Hl);
      [done|done|apply NoDup_nil_2|constructor|simpl; lia|].
    exists fuel, l. destruct (pick_more_ok _ _ _ _ _ _ _ Hr (NoDup_nil_2) ltac:(constructor) Hl)
      as (H1 & H2 & H3). split_and!; [done..|]. simpl in H3. lia.
  - intros Hlt fuel [l Hl].
    destruct (pick_more_ok _ _ _ _ _ _ _ Hr (NoDup_nil_2) ltac:(constructor) Hl) as (H1 & H2 & H3).
    assert (length l ≤ length (seqZ 0 n))%nat as Hle.
    { apply submseteq_length, NoDup_submseteq; [done|]. intros r Hin. apply elem_of_seqZ.
      rewrite Forall_forall in H2. specialize (H2 r Hin). lia. }
    rewrite length_seqZ in Hle. simpl in H3. lia.
Qed.

Lemma RandomPick_spec_witness :
  (∃ fuel l, RandomPick (λ k n, Z.of_nat k mod n) fuel 4 3 = Ok l ∧ NoDup l)
  ∧ ¬ returns (RandomPick (λ k n, Z.of_nat k mod n) 100 4 5).
Proof.
  assert (∀ k, 0 ≤ Z.of_nat k mod 4 < 4) as Hb by (intros k; apply Z.mod_pos_bound; lia).
  assert (fair (λ k n, Z.of_nat k mod n) 4) as Hf.
  { intros r k Hr. exists (Z.to_nat ((r - Z.of_nat k) mod 4)).
    pose proof (Z.mod_pos_bound (r - Z.of_nat k) 4).
    rewrite Nat2Z.inj_add, Z2Nat.id, Zplus_mod_idemp_r by lia.
    replace (Z.of_nat k + (r - Z.of_nat k)) with r by lia. by apply Z.mod_small. }
  split.
  - destruct (RandomPick_spec (λ k n, Z.of_nat k mod n) 4 3) as [H _]; [lia|lia|exact Hb|exact Hf|].
    destruct H as (fuel & l & Hl & Hnd & _); [lia|]. by exists fuel, l.
  - destruct (RandomPick_spec (λ k n, Z.of_nat k mod n) 4 5) as [_ H]; [lia|lia|exact Hb|exact Hf|].
    apply H. lia.
Defined.
