(* ===== verification/Socket.v ===== *)
(** * Sockets with fault injection ([src/socket/socket.go])

    A socket sends through one transport per peer, which it creates and dials on
    the first message, and it can be told to drop, delay or lose messages for some
    time.  The messages handed to a transport are the list [t_send] of file
    [Transport]; the results of the dials and the random numbers are parameters.
    Each timer of the source is an entry of [timers] with its deadline; it may
    fire at any time from then on.  Time is in nanoseconds.

    Two simplifications.  A call is one step: the source reads [crash], [drop],
    [flaky] and [slow] without the lock, and between these checks and the hand-over to
    the transport a first [Send] to a peer may dial for seconds, so that a [Drop] called
    meanwhile by another goroutine does not stop a message that has passed its check;
    here calls do not overlap.  And [t_send] is the sequence of all messages handed to a
    transport: the goroutine that takes them, and the sender that waits while 10240 are
    untaken, are in the files [Transport] and [Wire]. *)
From S2P Require Import Prelude Identity Transport Utils.
From Stdlib Require Import QArith.

Local Open Scope Z_scope.

Module Socket.
Section socket.
Context {M : Type} `{URLParser, GoRange}.
Context (Scheme : string) (dial : NodeID → Z → result ()).
Context (Float64 : nat → Q) (Intn : nat → Z → Z).

(** What a goroutine waiting for a timer does afterwards. *)
Inductive action :=
  | SendLater (to : NodeID) (m : M)
  | EndDrop (id : NodeID)
  | EndSlow (id : NodeID)
  | EndFlaky (id : NodeID)
  | EndCrash.

(** Lines 38-49, with the timers, the clock and the number of random draws. *)
Record socket := MkSocket {
  id : NodeID;
  addresses : gmap NodeID string;
  nodes : gmap NodeID (transport M);
  crash : bool;
  drop : gmap NodeID bool;
  slow : gmap NodeID Z;
  flaky : gmap NodeID Q;
  timers : list (Z * action);
  now : Z;
  draws : nat
}.

Definition set_nodes (x : gmap NodeID (transport M)) (s : socket) : socket :=
  MkSocket (id s) (addresses s) x (crash s) (drop s) (slow s) (flaky s) (timers s) (now s) (draws s).
Definition set_crash (x : bool) (s : socket) : socket :=
  MkSocket (id s) (addresses s) (nodes s) x (drop s) (slow s) (flaky s) (timers s) (now s) (draws s).
Definition set_drop (x : gmap NodeID bool) (s : socket) : socket :=
  MkSocket (id s) (addresses s) (nodes s) (crash s) x (slow s) (flaky s) (timers s) (now s) (draws s).
Definition set_slow (x : gmap NodeID Z) (s : socket) : socket :=
  MkSocket (id s) (addresses s) (nodes s) (crash s) (drop s) x (flaky s) (timers s) (now s) (draws s).
Definition set_flaky (x : gmap NodeID Q) (s : socket) : socket :=
  MkSocket (id s) (addresses s) (nodes s) (crash s) (drop s) (slow s) x (timers s) (now s) (draws s).
Definition set_timers (x : list (Z * action)) (s : socket) : socket :=
  MkSocket (id s) (addresses s) (nodes s) (crash s) (drop s) (slow s) (flaky s) x (now s) (draws s).
Definition set_now (x : Z) (s : socket) : socket :=
  MkSocket (id s) (addresses s) (nodes s) (crash s) (drop s) (slow s) (flaky s) (timers s) x (draws s).
Definition draw (s : socket) : socket :=
  MkSocket (id s) (addresses s) (nodes s) (crash s) (drop s) (slow s) (flaky s) (timers s) (now s)
    (S (draws s)).

(** Lines 52-67: the own transport listens; a missing address reads as "". *)
Definition NewSocket (id : NodeID) (addrs : gmap NodeID string) : outcome socket :=
  t ← NewTransport Scheme (default "" (addrs !! id));
  mret (MkSocket id addrs {[id := t]} false ∅ ∅ ∅ [] 0 0).

(** A timer for [d] nanoseconds. *)
Definition after (d : Z) (a : action) : prog socket () :=
  modify (λ s, set_timers (timers s ++ [(now s + d, a)]) s).

Definition Millisecond : Z := 1000000.
Definition Second : Z := 1000000000.

Definition Qlt_bool (x y : Q) : bool := negb (Qle_bool y x).

(** [t.Send(m)]: the message is the next one handed to the transport.  In the source the
    call waits while the channel holds 10240 messages ([cap_transport]); the wait, which
    ends when the transport's goroutine takes one, is not modelled here. *)
Definition transport_Send (to : NodeID) (m : M) : prog socket () := λ s,
  match nodes s !! to with
  | None => Fault NilDereference
  | Some t => if t_closed t then Fault ExplicitPanic
              else Ok (set_nodes (<[to := set_send (t_send t ++ [m]) t]> (nodes s)) s, ())
  end.

(** Lines 80-84: whether a flaky link loses the message. *)
Definition loses (to : NodeID) : prog socket bool :=
  f ← gets (λ s, flaky s !! to);
  match f with
  | Some p =>
      if Qlt_bool 0 p then
        k ← gets draws;
        modify draw;;
        mret (Qlt_bool (Float64 k) p)
      else mret false
  | None => mret false
  end.

(** Lines 86-106: [false] when there is no address. *)
Definition connect (to : NodeID) : prog socket bool :=
  t ← gets (λ s, nodes s !! to);
  match t with
  | Some _ => mret true
  | None =>
      a ← gets (λ s, addresses s !! to);
      match a with
      | None => mret false
      | Some address =>
          t ← lift (NewTransport Scheme address);
          '(_, err) ← lift (Retry (dial to) 100 (50 * Millisecond));
          match err with
          | Err _ => lift (Fault ExplicitPanic)
          | Val () => modify (λ s, set_nodes (<[to := t]> (nodes s)) s);; mret true
          end
      end
  end.

(** Lines 69-134, without another call in between. *)
Definition Send (to : NodeID) (m : M) : prog socket () :=
  crashed ← gets crash;
  if (crashed : bool) then mret ()
  else
    dropped ← gets (λ s, default false (drop s !! to));
    if (dropped : bool) then mret ()
    else
      lost ← loses to;
      if (lost : bool) then mret ()
      else
        connected ← connect to;
        if negb connected then mret ()
        else
          delay ← gets (λ s, default 0 (slow s !! to));
          if decide (0 < delay) then after (int64 (delay * Millisecond)) (SendLater to m)
          else transport_Send to m.

(** Lines 136-146, one round of the loop: a message that arrives while the node is
    crashed is discarded; [None] when nothing has arrived. *)
Definition Recv : prog socket (option M) := λ s,
  match nodes s !! id s with
  | None => Fault NilDereference
  | Some t =>
      match t_recv t with
      | [] => Ok (s, None)
      | m :: q => Ok (set_nodes (<[id s := set_recv q t]> (nodes s)) s,
                      if crash s then None else Some m)
      end
  end.

(** Lines 148-160: [n] rounds are left, [sent] are the nodes that got the message. *)
Fixpoint multicast (n : nat) (m : M) (sent : gset Z) : prog socket () :=
  match n with
  | O => mret ()
  | S n =>
      k ← gets draws;
      modify draw;;
      N ← gets (λ s, Z.of_nat (base.size (addresses s)));
      r ← lift (rand_Intn Intn k N);
      let r := int64 (r + 1) in
      if decide (r ∈ sent) then multicast n m sent
      else
        Send (NewNodeID r) m;;
        multicast n m ({[r]} ∪ sent)
  end.

Definition MulticastQuorum (quorum : Z) (m : M) : prog socket () := multicast (Z.to_nat quorum) m ∅.

(** Lines 162-171. *)
Definition Broadcast (m : M) : prog socket () :=
  ids ← gets (λ s, (range (addresses s)).*1);
  self ← gets id;
  for_each ids (λ i, if decide (i = self) then mret () else Send i m).

(** Lines 173-177: closing a closed transport panics. *)
Definition Close : prog socket () :=
  ids ← gets (λ s, (range (nodes s)).*1);
  for_each ids (λ i s,
    match nodes s !! i with
    | None => Ok (s, ())
    | Some t => t' ← Transport.Close t; Ok (set_nodes (<[i := t']> (nodes s)) s, ())
    end).

(** Lines 179-215. *)
Definition Drop (i : NodeID) (t : Z) : prog socket () :=
  modify (λ s, set_drop (<[i := true]> (drop s)) s);;
  after (int64 (t * Second)) (EndDrop i).

Definition Slow (i : NodeID) (delay t : Z) : prog socket () :=
  modify (λ s, set_slow (<[i := delay]> (slow s)) s);;
  after (int64 (t * Second)) (EndSlow i).

Definition Flaky (i : NodeID) (p : Q) (t : Z) : prog socket () :=
  modify (λ s, set_flaky (<[i := p]> (flaky s)) s);;
  after (int64 (t * Second)) (EndFlaky i).

Definition Crash (t : Z) : prog socket () :=
  modify (set_crash true);;
  if decide (0 < t) then after (int64 (t * Second)) EndCrash else mret ().

(** The goroutine of a timer. *)
Definition act (a : action) : prog socket () :=
  match a with
  | SendLater to m => transport_Send to m
  | EndDrop i => modify (λ s, set_drop (<[i := false]> (drop s)) s)
  | EndSlow i => modify (λ s, set_slow (<[i := 0]> (slow s)) s)
  | EndFlaky i => modify (λ s, set_flaky (<[i := 0%Q]> (flaky s)) s)
  | EndCrash => modify (set_crash false)
  end.

(** The [k]-th timer fires, if its deadline has passed. *)
Definition fire (k : nat) : prog socket () := λ s,
  match timers s !! k with
  | Some (deadline, a) =>
      if decide (deadline ≤ now s) then act a (set_timers (delete k (timers s)) s) else Ok (s, ())
  | None => Ok (s, ())
  end.

(** ** Runs: calls, the passing of time and timers in any order *)
Inductive call :=
  | CSend (to : NodeID) (m : M) | CBroadcast (m : M) | CMulticast (q : Z) (m : M) | CRecv
  | CDrop (i : NodeID) (t : Z) | CSlow (i : NodeID) (d t : Z) | CFlaky (i : NodeID) (p : Q) (t : Z)
  | CCrash (t : Z) | CTick (d : Z) | CFire (k : nat).

Definition run_call (c : call) : prog socket () :=
  match c with
  | CSend to m => Send to m
  | CBroadcast m => Broadcast m
  | CMulticast q m => MulticastQuorum q m
  | CRecv => Recv;; mret ()
  | CDrop i t => Drop i t
  | CSlow i d t => Slow i d t
  | CFlaky i p t => Flaky i p t
  | CCrash t => Crash t
  | CTick d => modify (λ s, set_now (now s + Z.max 0 d) s)
  | CFire k => fire k
  end.

Definition run_calls (cs : list call) : prog socket () := for_each cs run_call.

(** ** Drops last as long as asked for *)

(** The messages handed to the transport of a peer so far. *)
Definition queue (s : socket) (i : NodeID) : list M :=
  match nodes s !! i with Some t => t_send t | None => [] end.

(** Time does not run backwards. *)
Definition later (s s' : socket) : Prop := now s ≤ now s'.
#[local] Instance later_preorder : PreOrder later.
Proof. unfold later. split; [intros s; lia|]. intros s1 s2 s3. lia. Qed.

Abbreviation timed m := (preserves (λ _ : socket, True) later anything m).

Lemma timed_same f : (∀ s, now (f s) = now s) → timed (modify f).
Proof. intros Hf. apply preserves_modify. intros s _. unfold later. rewrite Hf. split; [done|lia]. Qed.
Lemma timed_transport_Send to m : timed (transport_Send to m).
Proof.
  intros s s' u _ Hs. unfold transport_Send in Hs. destruct (nodes s !! to) as [t|]; [|done].
  destruct (t_closed t); [done|]. injection Hs as <- _. split_and!; [done|unfold later; simpl; lia|done].
Qed.
Lemma timed_Send to m : timed (Send to m).
Proof.
  pose proof (timed_transport_Send to m). unfold Send, loses, connect, after. preserve; by apply timed_same.
Qed.
Lemma timed_for_each {A} (l : list A) f : (∀ a, timed (f a)) → timed (for_each l f).
Proof. intros Hf. induction l as [|a l IH]; simpl; preserve. Qed.
Lemma timed_multicast n m sent : timed (multicast n m sent).
Proof.
  revert sent. induction n as [|n IH]; intros sent; simpl; [preserve|].
  preserve; first [by apply timed_same|apply timed_Send|apply IH].
Qed.
Lemma timed_Recv : timed Recv.
Proof.
  intros s s' u _ Hs. unfold Recv in Hs. destruct (nodes s !! id s) as [t|]; [|done].
  destruct (t_recv t); injection Hs as <- _; split_and!; try done; unfold later; simpl; lia.
Qed.

(** Timers that are due fire; no time passes. *)
Lemma fire_now k s s' u : fire k s = Ok (s', u) → now s' = now s.
Proof.
  unfold fire. destruct (timers s !! k) as [[d a]|]; [|by intros [= <- _]].
  case_decide; [|by intros [= <- _]]. destruct a as [to m|j|j|j|]; simpl; try by intros [= <- _].
  unfold transport_Send. destruct (nodes _ !! to) as [t|]; [|done].
  destruct (t_closed t); [done|]. by intros [= <- _].
Qed.

Lemma timed_run_call c : timed (run_call c).
Proof.
  destruct c as [to m|m|q0 m| |j t|j d t|j p t|t|d|k]; simpl.
  - apply timed_Send.
  - unfold Broadcast. preserve. apply timed_for_each. intros j. preserve. apply timed_Send.
  - apply timed_multicast.
  - pose proof timed_Recv. preserve.
  - unfold Drop, after. preserve; by apply timed_same.
  - unfold Slow, after. preserve; by apply timed_same.
  - unfold Flaky, after. preserve; by apply timed_same.
  - unfold Crash, after. preserve; by apply timed_same.
  - apply preserves_modify. intros s _. split; [done|]. unfold later. simpl. lia.
  - intros s s' u _ Hs. split_and!; [done| |done]. unfold later. rewrite (fire_now k s s' u Hs). lia.
Qed.

Lemma run_calls_now cs s s' : run_calls cs s = Ok (s', ()) → now s ≤ now s'.
Proof. intros Hs. by apply (timed_for_each cs run_call timed_run_call) in Hs as (_ & Hl & _). Qed.

Section dropped.
Context (i : NodeID) (T : Z) (q : list M).

(** Peer [i] is cut off until [T]: no timer ends that before, and none sends. *)
Record cut (s : socket) : Prop := {
  cut_drop : drop s !! i = Some true;
  cut_timers d a : (d, a) ∈ timers s →
    match a with EndDrop j => j = i → T ≤ d | SendLater j _ => j ≠ i | _ => True end;
  cut_queue : queue s i = q
}.

Definition same_time (s s' : socket) : Prop := now s' = now s.
#[local] Instance same_time_preorder : PreOrder same_time.
Proof. unfold same_time. split; [done|]. intros s1 s2 s3 -> ->. done. Qed.

Abbreviation cuts Φ m := (preserves cut same_time Φ m).

Lemma cuts_after d a :
  match a with EndDrop j => j ≠ i | SendLater j _ => j ≠ i | _ => True end → cuts anything (after d a).
Proof.
  intros Ha. apply preserves_modify. intros s [C1 C2 C3]. split; [|done]. split; [done| |done].
  intros d' a' [Hin|Hin]%elem_of_app; [by apply C2|].
  apply list_elem_of_singleton in Hin. injection Hin as -> ->. by destruct a.
Qed.

Lemma cuts_nodes (f : socket → gmap NodeID (transport M)) s :
  cut s → (∀ t, f s !! i = Some t → t_send t = q) → (f s !! i = None → q = []) → cut (set_nodes (f s) s).
Proof.
  intros [C1 C2 C3] H1 H2. split; [done|done|]. unfold queue. simpl.
  destruct (f s !! i) as [t|]; [by apply H1|by rewrite H2].
Qed.

Lemma cuts_transport_Send to m : to ≠ i → cuts anything (transport_Send to m).
Proof.
  intros Hne s s' u C Hs. unfold transport_Send in Hs. destruct (nodes s !! to) as [t|]; [|done].
  destruct (t_closed t); [done|]. injection Hs as <- <-. split_and!; [|done|done].
  destruct C as [C1 C2 C3]. split; [done|done|]. unfold queue in *. simpl. by rewrite lookup_insert_ne.
Qed.

Lemma cuts_same (f : socket → socket) :
  (∀ s, drop (f s) = drop s ∧ timers (f s) = timers s ∧ queue (f s) i = queue s i ∧ now (f s) = now s) →
  cuts anything (modify f).
Proof.
  intros Hf. apply preserves_modify. intros s [C1 C2 C3]. destruct (Hf s) as (E1 & E2 & E3 & E4).
  split; [|done]. split; [by rewrite E1|by rewrite E2|by rewrite E3].
Qed.

Lemma cuts_loses to : cuts anything (loses to).
Proof. unfold loses. preserve. by apply cuts_same. Qed.

Lemma cuts_connect to : to ≠ i → cuts anything (connect to).
Proof.
  intros Hne. unfold connect. preserve. apply cuts_same. intros s1. split_and!; try done.
  unfold queue. simpl. by rewrite lookup_insert_ne.
Qed.

(** A message to the cut-off peer goes nowhere, and one to another peer does not
    touch it. *)
Lemma cuts_Send to m : cuts anything (Send to m).
Proof.
  destruct (decide (to = i)) as [->|Hne].
  - intros s s' u C Hs. assert (s' = s) as ->; [|by split_and!].
    unfold Send, gets, mbind, prog_bind in Hs. destruct (crash s); [by injection Hs as <- <-|].
    rewrite (cut_drop s C) in Hs. by injection Hs as <- <-.
  - pose proof (cuts_loses to). pose proof (cuts_connect to Hne). pose proof (cuts_transport_Send to m Hne).
    unfold Send. preserve. by apply cuts_after.
Qed.

Lemma cuts_Recv : cuts anything Recv.
Proof.
  intros s s' u [C1 C2 C3] Hs. unfold Recv in Hs. destruct (nodes s !! id s) as [t|] eqn:Ht; [|done].
  destruct (t_recv t) as [|m l]; injection Hs as <- <-; split_and!; try done.
  split; [done|done|]. unfold queue in *. simpl. destruct (decide (id s = i)) as [E|].
  - rewrite <- E, lookup_insert_eq. simpl. rewrite E in Ht. by rewrite Ht in C3.
  - by rewrite lookup_insert_ne.
Qed.

Lemma cuts_multicast n m sent : cuts anything (multicast n m sent).
Proof.
  revert sent. induction n as [|n IH]; intros sent; simpl; [preserve|].
  preserve; first [by apply cuts_same|apply cuts_Send|apply IH].
Qed.

Lemma cuts_for_each {A} (l : list A) f : (∀ a, cuts anything (f a)) → cuts anything (for_each l f).
Proof. intros Hf. induction l as [|a l IH]; simpl; [preserve|]. preserve. Qed.

Lemma cuts_fire k s s' u :
  cut s → now s < T → fire k s = Ok (s', u) → cut s' ∧ now s' = now s.
Proof.
  intros C Hnow Hs. unfold fire in Hs. destruct (timers s !! k) as [[d a]|] eqn:Hk;
    [|by injection Hs as <- _]. case_decide as Hd; [|by injection Hs as <- _].
  assert (cut (set_timers (delete k (timers s)) s)) as C1.
  { destruct C as [C1 C2 C3]. split; [done| |done]. intros d' a' Hin. apply C2.
    simpl in Hin. apply list_elem_of_lookup in Hin as [n Hn]. apply list_elem_of_lookup.
    destruct (decide (n < k)%nat).
    - rewrite list_lookup_delete_lt in Hn by lia. eauto.
    - rewrite list_lookup_delete_ge in Hn by lia. eauto. }
  pose proof (cut_timers s C d a (list_elem_of_lookup_2 _ _ _ Hk)) as Ha.
  assert (cuts anything (act a)) as Hact.
  { destruct a as [to m|j|j|j|]; simpl; [by apply cuts_transport_Send| |by apply cuts_same..].
    apply preserves_modify. intros s1 [E1 E2 E3]. split; [|done]. split; [|done|done].
    simpl. rewrite lookup_insert_ne; [done|]. intros ->. specialize (Ha eq_refl). lia. }
  destruct (Hact _ _ _ C1 Hs) as (? & E & _). split; [done|]. by rewrite E.
Qed.

Lemma cut_run_call c s s' :
  (∀ t, c ≠ CDrop i t) → cut s → run_call c s = Ok (s', ()) →
  now s ≤ now s' ∧ (now s' < T → cut s').
Proof.
  intros Hc C Hs.
  assert (cuts anything (run_call c) → now s ≤ now s' ∧ (now s' < T → cut s')) as Hcuts.
  { intros Hk. destruct (Hk _ _ _ C Hs) as (C' & E & _). unfold same_time in E. split; [lia|done]. }
  destruct c as [to m|m|q0 m| |j t|j d t|j p t|t|d|k]; [apply Hcuts; simpl..| |].
  - apply cuts_Send.
  - unfold Broadcast. preserve. apply cuts_for_each. intros j. preserve. apply cuts_Send.
  - apply cuts_multicast.
  - pose proof cuts_Recv. preserve.
  - assert (j ≠ i) as Hne by (intros ->; by apply (Hc t)). unfold Drop. preserve; [|by apply cuts_after].
    apply preserves_modify. intros s1 [E1 E2 E3]. split; [|done]. split; [|done|done].
    simpl. by rewrite lookup_insert_ne.
  - unfold Slow. preserve; first [by apply cuts_same|by apply cuts_after].
  - unfold Flaky. preserve; first [by apply cuts_same|by apply cuts_after].
  - unfold Crash. preserve; first [by apply cuts_same|by apply cuts_after].
  - simpl in Hs. apply modify_ok in Hs as ->. simpl. split; [lia|]. intros _. by destruct C.
  - simpl in Hs. destruct (decide (now s < T)) as [Hlt|].
    + destruct (cuts_fire k s s' () C Hlt Hs) as [C' E]. split; [lia|done].
    + rewrite (fire_now k s s' () Hs). split; [lia|intros; lia].
Qed.

Lemma cut_run_calls cs s s' :
  (∀ t, CDrop i t ∉ cs) → cut s → run_calls cs s = Ok (s', ()) → now s' < T → cut s'.
Proof.
  revert s. induction cs as [|c cs IH]; intros s Hcs C Hs Hnow; simpl in Hs.
  { by apply ret_ok in Hs as [-> _]. }
  apply prog_bind_ok in Hs as (s1 & [] & H1 & H2).
  pose proof (run_calls_now cs s1 s' H2).
  destruct (cut_run_call c s s1) as [Hle Hcut]; [intros t ->; apply (Hcs t); left|done..|].
  apply (IH s1); [intros t Hin; apply (Hcs t); by right|apply Hcut; lia|done..].
Qed.
End dropped.

(** ** Sends over healthy links *)

(** Nothing was injected for the link to [to], and it is open or can be opened. *)
Record healthy (s : socket) (to : NodeID) : Prop := {
  hl_crash : crash s = false;
  hl_drop : default false (drop s !! to) = false;
  hl_flaky p : flaky s !! to = Some p → Qlt_bool 0 p = false;
  hl_slow : default 0 (slow s !! to) ≤ 0;
  hl_link : match nodes s !! to with
            | Some t => t_closed t = false
            | None => ∃ address (t : transport M) l, addresses s !! to = Some address
                ∧ NewTransport Scheme address = Ok t
                ∧ Retry (dial to) 100 (50 * Millisecond) = Ok (l, Val ())
            end
}.

(** What a socket keeps apart from its links and random draws. *)
Definition settings (s : socket) := (id s, addresses s, crash s, drop s, slow s, flaky s, timers s, now s).

Definition gains (s s' : socket) (m : M) (ids : gset NodeID) : Prop :=
  settings s' = settings s
  ∧ (∀ j, queue s' j = queue s j ++ if decide (j ∈ ids) then [m] else [])
  ∧ (∀ j t, nodes s' !! j = Some t → t_closed t = false ∨ nodes s !! j = Some t)
  ∧ (∀ j, is_Some (nodes s !! j) → is_Some (nodes s' !! j)).

Lemma NewTransport_open addr t : NewTransport (M := M) Scheme addr = Ok t → t_closed t = false ∧ t_send t = [].
Proof.
  unfold NewTransport. destruct (url_Parse _) as [[sc h]|]; [|done].
  destruct (decide _); [|done]. by intros [= <-].
Qed.

Lemma healthy_gains s s' m ids j : gains s s' m ids → healthy s j → healthy s' j.
Proof.
  intros (E & _ & Hn & Hsome) [L1 L2 L3 L4 L5]. injection E as E1 E2 E3 E4 E5 E6 E7 E8.
  split; [by rewrite E3|by rewrite E4|by rewrite E6|by rewrite E5|].
  destruct (nodes s' !! j) as [t|] eqn:Ht.
  - destruct (Hn j t Ht) as [|Hold]; [done|]. by rewrite Hold in L5.
  - destruct (nodes s !! j) as [t|] eqn:Ht'; [|by rewrite E2].
    destruct (Hsome j) as [x Hx]; [by eexists|]. by rewrite Ht in Hx.
Qed.

Lemma Send_healthy s to m :
  healthy s to → ∃ s', Send to m s = Ok (s', ()) ∧ gains s s' m {[to]} ∧ draws s' = draws s.
Proof.
  intros [L1 L2 L3 L4 L5].
  assert (loses to s = Ok (s, false)) as Hlose.
  { unfold loses, gets, mbind, prog_bind. destruct (flaky s !! to) as [p|]; [|done]. by rewrite (L3 p). }
  assert (∃ t, connect to s = Ok (set_nodes (<[to := t]> (nodes s)) s, true) ∧ t_closed t = false
    ∧ t_send t = queue s to ∧ (nodes s !! to = Some t ∨ nodes s !! to = None)) as (t & Hcon & Ht & Hq & Hold).
  { unfold connect, gets, mbind, prog_bind, queue. destruct (nodes s !! to) as [t|] eqn:E.
    - exists t. rewrite insert_id by done. split_and!; [by destruct s|done|done|by left].
    - destruct L5 as (address & t & l & Ha & Hnew & Hretry). exists t. rewrite Ha, Hnew. simpl lift.
      cbv beta iota. rewrite Hretry. destruct (NewTransport_open _ _ Hnew) as [Hc Hsnd].
      split_and!; [done..|by right]. }
  exists (set_nodes (<[to := set_send (t_send t ++ [m]) t]> (nodes s)) s).
  split; [|split; [|done]].
  - unfold Send, gets. unfold mbind at 1, prog_bind at 1. rewrite L1. cbv iota.
    unfold mbind at 1, prog_bind at 1. rewrite L2. cbv iota.
    rewrite (prog_bind_run _ _ _ _ _ Hlose). cbv beta iota. rewrite (prog_bind_run _ _ _ _ _ Hcon).
    cbv beta iota delta [negb]. unfold mbind, prog_bind. simpl. rewrite decide_False by lia.
    unfold transport_Send. simpl. rewrite lookup_insert_eq, Ht. by rewrite insert_insert_eq.
  - split_and!; [done|..]; simpl.
    + intros j. unfold queue at 1. simpl. destruct (decide (j = to)) as [->|].
      * rewrite lookup_insert_eq, decide_True by set_solver. simpl. by rewrite Hq.
      * rewrite lookup_insert_ne, decide_False by set_solver. by rewrite app_nil_r.
    + intros j x. destruct (decide (j = to)) as [->|].
      * rewrite lookup_insert_eq. intros [= <-]. by left.
      * rewrite lookup_insert_ne by done. by right.
    + intros j Hj. destruct (decide (j = to)) as [->|]; [rewrite lookup_insert_eq; by eexists|].
      by rewrite lookup_insert_ne.
Qed.

Lemma gains_nil s m : gains s s m ∅.
Proof. split_and!; [done| |by right|done]. intros j. by rewrite decide_False, app_nil_r by set_solver. Qed.

Lemma gains_trans s1 s2 s3 m ids1 ids2 :
  gains s1 s2 m ids1 → gains s2 s3 m ids2 → ids1 ## ids2 → gains s1 s3 m (ids1 ∪ ids2).
Proof.
  intros (E1 & Q1 & N1 & S1) (E2 & Q2 & N2 & S2) Hd. split_and!; [congruence| | |auto].
  - intros j. rewrite Q2, Q1, <- app_assoc.
    destruct (decide (j ∈ ids1)), (decide (j ∈ ids2)), (decide (j ∈ ids1 ∪ ids2)); set_solver.
  - intros j t Ht. destruct (N2 j t Ht) as [|Hj]; [by left|auto].
Qed.

(** Sends to distinct peers. *)
Lemma sends_healthy s m (l : list NodeID) self :
  NoDup l → (∀ j, j ∈ l → j ≠ self → healthy s j) →
  ∃ s', for_each l (λ j, if decide (j = self) then mret () else Send j m) s = Ok (s', ())
    ∧ gains s s' m (list_to_set (filter (λ j, j ≠ self) l)).
Proof.
  intros Hnd. revert s. induction Hnd as [|j l Hj Hnd IH]; intros s Hl; simpl.
  { exists s. split; [done|]. apply gains_nil. }
  destruct (decide (j = self)) as [->|Hne].
  - rewrite filter_cons_False by naive_solver. apply (IH s). intros j' Hj'. apply Hl. by right.
  - rewrite filter_cons_True by done. destruct (Send_healthy s j m) as (s1 & H1 & G1 & _); [apply Hl; [left|done]|].
    destruct (IH s1) as (s2 & H2 & G2).
    { intros j' Hj' Hn. eapply healthy_gains; [done|]. apply Hl; [by right|done]. }
    exists s2. split; [by rewrite (prog_bind_run _ _ _ _ _ H1)|]. simpl. eapply gains_trans; [done..|].
    apply disjoint_singleton_l. rewrite elem_of_list_to_set, list_elem_of_filter. naive_solver.
Qed.

(** The rounds of a multicast: the draws so far are [k], the nodes that have the
    message are [sent]. *)
Definition targets (k n : nat) (N : Z) : list Z := (λ d, Intn (k + d)%nat N + 1) <$> seq 0 n.

Lemma multicast_healthy n m sent s :
  let N := Z.of_nat (base.size (addresses s)) in
  0 < N < max_int64 → (∀ k, 0 ≤ Intn k N < N) → (∀ r, r ∈ sent → 1 ≤ r ≤ N) →
  (∀ r, 1 ≤ r ≤ N → healthy s (NewNodeID r)) →
  ∃ s' ids, multicast n m sent s = Ok (s', ()) ∧ gains s s' m ids
    ∧ ∀ j, j ∈ ids ↔ ∃ r, r ∈ targets (draws s) n N ∧ (r ∉ sent) ∧ j = NewNodeID r.
Proof.
  intros N HN Hr. revert sent s N HN Hr. induction n as [|n IH]; intros sent s N HN Hr Hsent Hh.
  { exists s, ∅. split_and!; [done|apply gains_nil|]. intros j. split; [set_solver|].
    intros (r & []%elem_of_nil & _). }
  set (r := Intn (draws s) N + 1). assert (1 ≤ r ≤ N) as Hrr by (specialize (Hr (draws s)); lia).
  assert (targets (draws s) (S n) N = r :: targets (draws (draw s)) n N) as Etg.
  { unfold targets. simpl. rewrite Nat.add_0_r. f_equal. rewrite <- fmap_S_seq, <- list_fmap_compose.
    apply list_fmap_ext. intros d x _. simpl. do 2 f_equal. lia. }
  cbn [multicast]. rewrite (prog_bind_run (gets draws) _ s s (draws s)) by done.
  rewrite (prog_bind_run (modify draw) _ s (draw s) ()) by done.
  rewrite (prog_bind_run (gets _) _ (draw s) (draw s) N) by done.
  rewrite (prog_bind_run _ _ (draw s) (draw s) (Intn (draws s) N)).
  2:{ unfold rand_Intn. by rewrite decide_True by lia. }
  rewrite int64_id by (unfold_ints; lia). fold r. rewrite Etg. clearbody r.
  assert (gains s (draw s) m ∅) as G0
    by (pose proof (gains_nil s m) as G; unfold gains in *; exact G).
  destruct (decide (r ∈ sent)) as [Hin|Hin].
  - destruct (IH sent (draw s) HN Hr Hsent) as (s' & ids & H1 & G1 & Hids).
    { intros r' Hr'. by apply (healthy_gains s _ m ∅ _ G0), Hh. }
    exists s', ids. split_and!; [done|exact G1|]. intros j. rewrite Hids. setoid_rewrite elem_of_cons.
    split; [intros (r' & ? & ? & ?); exists r'; auto|].
    intros (r' & [->|?] & ? & ?); [done|]. exists r'. auto.
  - destruct (Send_healthy (draw s) (NewNodeID r) m) as (s1 & H1 & G1 & D1).
    { by apply (healthy_gains s _ m ∅ _ G0), Hh. }
    rewrite (prog_bind_run _ _ _ _ _ H1). pose proof G1 as (Es & _).
    assert (addresses s1 = addresses s) as Ea by (by injection Es).
    destruct (IH ({[r]} ∪ sent) s1) as (s' & ids & H2 & G2 & Hids); rewrite ?Ea; try done.
    { intros r' [->%elem_of_singleton|]%elem_of_union; [done|auto]. }
    { intros r' Hr'. apply (healthy_gains (draw s) _ m _ _ G1), (healthy_gains s _ m ∅ _ G0), Hh. done. }
    rewrite Ea in Hids. fold N in Hids. rewrite D1 in Hids.
    assert (∀ r', r' ∈ targets (draws (draw s)) n N → 1 ≤ r' ≤ N) as Htg.
    { intros r' (d & -> & _)%list_elem_of_fmap. specialize (Hr (draws (draw s) + d)%nat). lia. }
    exists s', ({[NewNodeID r]} ∪ ids). split_and!; [done| |].
    + eapply (gains_trans _ _ _ _ _ _ G1 G2). apply disjoint_singleton_l.
      intros (r' & Hr' & Hn & E)%Hids. apply NewNodeID_inj in E; [set_solver|unfold_ints; lia|].
      specialize (Htg r' Hr'). unfold_ints. lia.
    + intros j. rewrite elem_of_union, elem_of_singleton, Hids. setoid_rewrite elem_of_cons. split.
      * intros [->|(r' & ? & ? & ->)]; [exists r; auto|]. exists r'. split_and!; [auto|set_solver|done].
      * intros (r' & [->|Hr'] & Hn & ->); [by left|]. destruct (decide (r' = r)) as [->|]; [by left|].
        right. exists r'. split_and!; [done|set_solver|done].
Qed.

(** [Broadcast] on a socket whose links to the peers are healthy returns and
    hands the message to every peer exactly once, in whatever order the map of
    addresses is iterated, opening the links that are not yet open; the node itself
    gets nothing and nothing else changes. *)
Theorem Broadcast_reaches_peers s m :
  (∀ j, is_Some (addresses s !! j) → j ≠ id s → healthy s j) →
  ∃ s', Broadcast m s = Ok (s', ()) ∧ settings s' = settings s
    ∧ ∀ j, queue s' j = queue s j
           ++ if decide (is_Some (addresses s !! j) ∧ j ≠ id s) then [m] else [].
Proof.
  intros Hh. destruct (sends_healthy s m (range (addresses s)).*1 (id s)) as (s' & Hs & E & Hq & _);
    [apply NoDup_fst_range| |].
  { intros j ([j' a] & -> & Hin)%list_elem_of_fmap. apply elem_of_range in Hin. apply Hh. by eexists. }
  exists s'. split_and!; [exact Hs|done|]. intros j. rewrite Hq. f_equal. apply decide_ext.
  rewrite elem_of_list_to_set, list_elem_of_filter, list_elem_of_fmap. split.
  - intros [Hne ([j' a] & -> & Hin%elem_of_range)]. split; [by eexists|done].
  - intros [[a Ha] Hne]. split; [done|]. exists (j, a). split; [done|]. by apply elem_of_range.
Qed.

(** [MulticastQuorum] hands the message to the nodes it draws, to each of
    them exactly once however often it is drawn, so to at most as many nodes as
    asked for; with unlucky draws it is fewer. *)
Theorem MulticastQuorum_reaches s quorum m :
  let N := Z.of_nat (base.size (addresses s)) in
  0 < N < max_int64 → (∀ k, 0 ≤ Intn k N < N) →
  (∀ r, 1 ≤ r ≤ N → healthy s (NewNodeID r)) →
  ∃ s' (ids : gset NodeID), MulticastQuorum quorum m s = Ok (s', ()) ∧ settings s' = settings s
    ∧ (∀ j, queue s' j = queue s j ++ if decide (j ∈ ids) then [m] else [])
    ∧ ids = list_to_set (NewNodeID <$> targets (draws s) (Z.to_nat quorum) N)
    ∧ Z.of_nat (base.size ids) ≤ Z.max 0 quorum.
Proof.
  intros N HN Hr Hh.
  destruct (multicast_healthy (Z.to_nat quorum) m ∅ s) as (s' & ids & Hs & (E & Hq & _) & Hids);
    [done|done|set_solver|done|].
  assert (ids = list_to_set (NewNodeID <$> targets (draws s) (Z.to_nat quorum) N)) as ->.
  { apply set_eq. intros j. rewrite Hids, elem_of_list_to_set, list_elem_of_fmap. split.
    - intros (r & ? & _ & ->). eauto.
    - intros (r & -> & ?). exists r. split_and!; [done|set_solver|done]. }
  eexists s', _. split_and!; [done..|].
  set (l := NewNodeID <$> targets (draws s) (Z.to_nat quorum) N).
  assert (base.size (list_to_set l : gset NodeID) ≤ length l)%nat as Hle.
  { clear. induction l as [|j l IH]; [rewrite list_to_set_nil, size_empty; simpl; lia|].
    rewrite list_to_set_cons, size_union_alt, size_singleton.
    pose proof (subseteq_size (list_to_set l ∖ {[j]} : gset NodeID) (list_to_set l) ltac:(set_solver)). simpl. lia. }
  assert (length l = Z.to_nat quorum) as Hlen by (unfold l, targets; by rewrite !length_fmap, length_seq).
  lia.
Qed.

(** A drop lasts as long as it was asked for: after [Drop i t], whatever
    calls and timers follow, one after the other, as long as no other drop of [i] is
    asked for or pending, no delayed message for [i] was pending ([SendLater], after
    [Slow]), and less than [t] seconds have passed, nothing is handed to the
    transport of [i]. *)
Theorem Drop_holds s i t cs s' :
  is_int64 (t * Second) → (∀ d a, (d, a) ∈ timers s → match a with
    | EndDrop j | SendLater j _ => j ≠ i | _ => True end) →
  (∀ t', CDrop i t' ∉ cs) → run_calls (CDrop i t :: cs) s = Ok (s', ()) →
  now s' < now s + t * Second → queue s' i = queue s i.
Proof.
  intros Ht Htimers Hcs Hs Hnow. simpl in Hs. apply prog_bind_ok in Hs as (s1 & [] & H1 & H2).
  injection H1 as <-. rewrite int64_id in H2 by done.
  refine (cut_queue i (now s + t * Second) (queue s i) s' _).
  eapply cut_run_calls; [exact Hcs| |exact H2|done].
  split; simpl; [by rewrite lookup_insert_eq| |done].
  intros d a [Hin|Hin]%elem_of_app.
  - specialize (Htimers d a Hin). by destruct a.
  - apply list_elem_of_singleton in Hin. injection Hin as -> ->. lia.
Qed.
End socket.
Arguments socket : clear implicits.
Arguments action : clear implicits.
Arguments call : clear implicits.

(** ** A concrete socket

    Node 1 of three, with addresses that parse and peers that answer the third
    dial. *)
Section sample.
#[local] Instance socket_url : URLParser := λ s, Some ("chan", s).
#[local] Instance socket_range : GoRange := canonical_range.

Definition sample_dials (_ : NodeID) (i : Z) : result () := if decide (2 ≤ i) then Val () else Err "refused".
Definition sample_Intn (k : nat) (n : Z) : Z := Z.of_nat (Nat.div k 2) mod n.

Definition sample_addresses : gmap NodeID string :=
  list_to_map [("1", "chan://n1"); ("2", "chan://n2"); ("3", "chan://n3")].

Definition sample_socket : socket nat :=
  match NewSocket "tcp" "1" sample_addresses with
  | Ok s => s
  | Fault _ => MkSocket "" ∅ ∅ false ∅ ∅ ∅ [] 0 0
  end.

Definition sample_calls (cs : list (call nat)) : socket nat :=
  match run_calls "tcp" sample_dials (λ _, 0%Q) sample_Intn cs sample_socket with
  | Ok (s, _) => s
  | Fault _ => sample_socket
  end.

Lemma sample_healthy j : j ∈ ["1"; "2"; "3"] → healthy "tcp" sample_dials sample_socket j.
Proof.
  intros [->|[->|[->|[]%elem_of_nil]%elem_of_cons]%elem_of_cons]%elem_of_cons; (split; [done|done|done|done|]);
    vm_compute; [done| |]; eexists _, _, _; done.
Qed.

Lemma Broadcast_reaches_peers_witness :
  ∃ s', Broadcast "tcp" sample_dials (λ _, 0%Q) 5%nat sample_socket = Ok (s', ())
    ∧ queue s' "1" = [] ∧ queue s' "2" = [5%nat] ∧ queue s' "3" = [5%nat].
Proof.
  destruct (Broadcast_reaches_peers "tcp" sample_dials (λ _, 0%Q) sample_socket 5%nat) as (s' & Hs & _ & Hq).
  - intros j [a Ha] _. apply sample_healthy. change (sample_addresses !! j = Some a) in Ha.
    apply elem_of_list_to_map_2 in Ha. set_solver.
  - exists s'. split; [exact Hs|]. rewrite !Hq. split_and!; reflexivity.
Defined.

(** Three draws give only two nodes. *)
Lemma MulticastQuorum_reaches_witness :
  ∃ s' ids, MulticastQuorum "tcp" sample_dials (λ _, 0%Q) sample_Intn 3 5%nat sample_socket = Ok (s', ())
    ∧ base.size (ids : gset NodeID) = 2%nat ∧ (∀ j, queue s' j = queue sample_socket j ++ if decide (j ∈ ids) then [5%nat] else []).
Proof.
  destruct (MulticastQuorum_reaches "tcp" sample_dials (λ _, 0%Q) sample_Intn sample_socket 3 5%nat)
    as (s' & ids & Hs & _ & Hq & Hids & _).
  - vm_compute. split; reflexivity.
  - intros k. apply Z.mod_pos_bound. vm_compute. reflexivity.
  - intros r Hr. apply sample_healthy. change (1 ≤ r ≤ 3) in Hr.
    assert (r = 1 ∨ r = 2 ∨ r = 3) as [->|[->| ->]] by lia; vm_compute; set_solver.
  - exists s', ids. split; [exact Hs|]. split; [rewrite Hids; vm_compute; reflexivity|exact Hq].
Defined.

Lemma Drop_holds_witness :
  queue (sample_calls [CBroadcast 1%nat; CDrop "2" 10; CTick (9 * Second); CSend "2" 7%nat; CFire 0]) "2" = [1%nat].
Proof.
  refine (Drop_holds "tcp" sample_dials (λ _, 0%Q) sample_Intn (sample_calls [CBroadcast 1%nat]) "2" 10
    [CTick (9 * Second); CSend "2" 7%nat; CFire 0] _ _ _ _ _ _).
  - by vm_compute.
  - intros d a Hin. apply elem_of_nil in Hin. done.
  - intros t' Hin. set_solver.
  - vm_compute. reflexivity.
  - vm_compute. reflexivity.
Defined.

(** A second drop is cut short by the timer of the first: at second ten the
    message goes out, although the drop of second five was to last for ten. *)
Example Drop_cut_short :
  queue (sample_calls [CDrop "2" 10; CTick (5 * Second); CDrop "2" 10; CTick (5 * Second); CFire 0;
                       CSend "2" 7%nat]) "2" = [7%nat].
Proof. vm_compute. reflexivity. Qed.

(** A message to the node itself stays in a channel that nothing empties: the own
    transport listens and was never dialled. *)
Example Send_to_self_is_stuck :
  queue (sample_calls [CSend "1" 7%nat]) "1" = [7%nat]
  ∧ (∀ t, nodes (sample_calls [CSend "1" 7%nat]) !! "1" = Some t → t_dialers t = []).
Proof. split; [vm_compute; reflexivity|]. intros t Ht. vm_compute in Ht. by injection Ht as <-. Qed.
End sample.
End Socket.
