(* ===== verification/Node.v ===== *)
(** * The node ([src/node/node.go], [src/node/http.go])

    A node receives messages from its socket, files them in two channels, and
    calls the handler that was registered for the type of each message; it serves
    the HTTP interface of the clients; and it counts what Phalanx executes.

    A Go [interface{}] is a value of type [any].  Its dynamic type is a string, as
    in the source, where the table of handlers is indexed by the name of the type.
    The goroutines [recv], [handle] and [txn] are one step per message.  Clock
    values are given by the caller, in nanoseconds.  The channels [MessageChan] and
    [TxChan] have the capacity [ChanBufferSize] in the source (node.go, lines 85-86), and a
    goroutine that puts a message on a full one waits; here they are lists without a
    bound, so a message that waits is already in the list, behind the others.  The order
    in which messages are dispatched is the same; that the socket is not read meanwhile
    is not modelled. *)
From stdpp Require Import sorting.
From S2P Require Import Prelude Float64 Identity Sha1 Election Db Crypto Types Quorum Forest BlockChain Pacemaker Mempool Chained Safety Transport Utils Socket Replica.
From Stdlib Require Import QArith SpecFloat.

Local Open Scope Z_scope.

(** ** Values of type [interface{}] *)

(** A channel for replies: [None] is a nil channel, which blocks for ever. *)
Abbreviation reply_chan := (option nat) (only parsing).

(** message.go, lines 48-54. *)
Record TransactionReply := MkReply {
  rep_Command : Command;
  rep_Value : Value;
  rep_Properties : gmap string string;
  rep_Delay : Z;
  rep_Err : option string
}.

(** message.go, lines 56-60. *)
Definition NewReply (delay : Z) : TransactionReply :=
  MkReply (MkCommand 0 None "" 0) None ∅ delay None.

Inductive any :=
  | ABlock (b : Block) (qc : option QC)
  | AVote (v : Vote)
  | ATMO (view : Z) (id : NodeID) (qc : option QC)
  | ATransaction (tx : Transaction) (C : reply_chan)
  | ATransactionReply (r : TransactionReply)
  | AQuery (hasC : bool)
  | AConsensusMessage (m : N)
  | ACommand (c : N)
  | AOther (name : string)
  | APointer (v : any)
  | ANil.

(** [reflect.ValueOf(v).Type().String()]; the type of nil is a panic. *)
Fixpoint type_String (v : any) : outcome string :=
  match v with
  | ABlock _ _ => mret "blockchain.Block"
  | AVote _ => mret "blockchain.Vote"
  | ATMO _ _ _ => mret "pacemaker.TMO"
  | ATransaction _ _ => mret "message.Transaction"
  | ATransactionReply _ => mret "message.TransactionReply"
  | AQuery _ => mret "message.Query"
  | AConsensusMessage _ => mret "protos.ConsensusMessage"
  | ACommand _ => mret "protos.Command"
  | AOther name => mret name
  | APointer v => s ← type_String v; mret ("*" ++ s)%string
  | ANil => Fault ExplicitPanic
  end.

(** The rendering of a command (db.go, lines 45-50). *)
Definition Command_String (c : Command) : string :=
  match cmd_Value c with
  | None => "Get{key=" ++ Itoa (cmd_Key c) ++ " id=" ++ cmd_ClientID c ++ " cid="
            ++ Itoa (cmd_CommandID c) ++ "}"
  | Some v => "Put{key=" ++ Itoa (cmd_Key c) ++ " value=" ++ hex v ++ " id=" ++ cmd_ClientID c
              ++ " cid=" ++ Itoa (cmd_CommandID c)
  end%string.

(** message.go, lines 43-45 and 62-64.  The verb [%v] prints a map with its keys
    sorted. *)
Definition map_String (m : gmap string string) : string :=
  ("map[" ++ String.concat " " ((λ kv, kv.1 ++ ":" ++ kv.2)
     <$> merge_sort (λ x y, String.le x.1 y.1) (map_to_list m)) ++ "]")%string.
Definition Transaction_String (tx : Transaction) : string :=
  ("Transaction {cmd=" ++ Command_String (tx_Command tx) ++ " nid=" ++ tx_NodeID tx ++ "}")%string.
Definition TransactionReply_String (r : TransactionReply) : string :=
  ("TransactionReply {cmd=" ++ Command_String (rep_Command r) ++ " value=" ++ hex (default [] (rep_Value r))
   ++ " prop=" ++ map_String (rep_Properties r) ++ "}")%string.

(** message.go, lines 66-94: requests that bypass the protocol.  The client of a query
    waits for the reply, so the send returns unless the channel is nil. *)
Record Read := MkRead { rd_CommandID : Z; rd_Key : Z }.
Definition Read_String (r : Read) : string :=
  ("Read {cid=" ++ Itoa (rd_CommandID r) ++ ", key=" ++ Itoa (rd_Key r) ++ "}")%string.
Record ReadReply := MkReadReply { rr_CommandID : Z; rr_Value : Value }.
Record QueryReply := MkQueryReply { Info : string }.
Definition Query_Reply {S : Type} (hasC : bool) (reply : QueryReply) : prog S QueryReply :=
  if hasC then mret reply else lift (Fault Blocked).

Example Read_String_example : Read_String (MkRead 3 (-1)) = "Read {cid=3, key=-1}"%string.
Proof. reflexivity. Qed.
Example TransactionReply_String_example :
  TransactionReply_String (MkReply (MkCommand 1 None "c" 2) (Some [10; 255]) (<["b" := "2"]> {["a" := "1"]}) 0 None)
  = "TransactionReply {cmd=Get{key=1 id=c cid=2} value=0aff prop=map[a:1 b:2]}"%string.
Proof. vm_compute. reflexivity. Qed.

Section node.
Context `{URLParser, GoRange}.
Context (Scheme : string) (dial : NodeID → Z → result ()).
Context (Float64 : nat → Q) (Intn : nat → Z → Z).
(** The object whose methods are registered as handlers. *)
Context {R : Type}.

(** A Go value that may be a function: its kind, its parameters, the call. *)
Record gofunc := MkFunc {
  fn_isFunc : bool;
  fn_In : list string;
  fn_Call : any → prog R ()
}.

(** The counters of node.go, lines 64-74.  The anchor of the throughput is [None]
    until it is first set: the zero time, two thousand years ago. *)
Record node_stats := MkNodeStats {
  ns_totalCommittedTx : Z;
  ns_throughputAnchor : option Z;
  ns_totalLatency : f64;
  ns_latencyCount : Z;
  ns_totalBlockSize : Z;
  ns_blockNumber : Z;
  ns_totalCommandSize : Z;
  ns_commandNumber : Z
}.

Definition zero_stats : node_stats := MkNodeStats 0 None (S754_zero false) 0 0 0 0 0.

(** Lines 48-75; [replies] are the channels of capacity one that were made for
    requests, [MessageChan] and [TxChan] what was put on the two channels and not yet
    taken, including what waits because they are full. *)
Record node := MkNode {
  n_id : NodeID;
  n_isByz : bool;
  n_socket : Socket.socket any;
  MessageChan : list any;
  TxChan : list any;
  handles : gmap string gofunc;
  forwards : gmap string (Transaction * reply_chan);
  replies : list (list TransactionReply);
  n_stats : node_stats;
  n_handler : R
}.

Definition set_socket (x : Socket.socket any) (n : node) : node :=
  MkNode (n_id n) (n_isByz n) x (MessageChan n) (TxChan n) (handles n) (forwards n) (replies n)
    (n_stats n) (n_handler n).
Definition set_MessageChan (x : list any) (n : node) : node :=
  MkNode (n_id n) (n_isByz n) (n_socket n) x (TxChan n) (handles n) (forwards n) (replies n)
    (n_stats n) (n_handler n).
Definition set_TxChan (x : list any) (n : node) : node :=
  MkNode (n_id n) (n_isByz n) (n_socket n) (MessageChan n) x (handles n) (forwards n) (replies n)
    (n_stats n) (n_handler n).
Definition set_handles (x : gmap string gofunc) (n : node) : node :=
  MkNode (n_id n) (n_isByz n) (n_socket n) (MessageChan n) (TxChan n) x (forwards n) (replies n)
    (n_stats n) (n_handler n).
Definition set_forwards (x : gmap string (Transaction * reply_chan)) (n : node) : node :=
  MkNode (n_id n) (n_isByz n) (n_socket n) (MessageChan n) (TxChan n) (handles n) x (replies n)
    (n_stats n) (n_handler n).
Definition set_replies (x : list (list TransactionReply)) (n : node) : node :=
  MkNode (n_id n) (n_isByz n) (n_socket n) (MessageChan n) (TxChan n) (handles n) (forwards n) x
    (n_stats n) (n_handler n).
Definition set_stats (x : node_stats) (n : node) : node :=
  MkNode (n_id n) (n_isByz n) (n_socket n) (MessageChan n) (TxChan n) (handles n) (forwards n)
    (replies n) x (n_handler n).
Definition set_handler (x : R) (n : node) : node :=
  MkNode (n_id n) (n_isByz n) (n_socket n) (MessageChan n) (TxChan n) (handles n) (forwards n)
    (replies n) (n_stats n) x.

Definition on_socket {A} (m : prog (Socket.socket any) A) : prog node A := zoom n_socket set_socket m.
Definition on_handler {A} (m : prog R A) : prog node A := zoom n_handler set_handler m.

(** Lines 78-93. *)
Definition NewNode (id : NodeID) (isByz : bool) (Addrs : gmap NodeID string) (r : R) : outcome node :=
  s ← Socket.NewSocket Scheme id Addrs;
  mret (MkNode id isByz s [] [] ∅ ∅ [] zero_stats r).

(** Lines 103-106. *)
Definition node_Retry (tx : Transaction) (C : reply_chan) : prog node () :=
  modify (λ n, set_MessageChan (MessageChan n ++ [ATransaction tx C]) n).

(** Lines 109-125: [m] is a value of the type, [f] the handler. *)
Definition Register (m : any) (f : gofunc) : prog node () :=
  t ← lift (type_String m);
  if negb (fn_isFunc f) then lift (Fault ExplicitPanic)
  else
    in0 ← lift (index (fn_In f) 0);
    if decide (in0 ≠ t) then lift (Fault ExplicitPanic)
    else if decide (length (fn_In f) ≠ 1%nat) then lift (Fault ExplicitPanic)
    else modify (λ n, set_handles (<[t := f]> (handles n)) n).

(** Lines 145-151 and 185-191: the handler for the type of the message; none is
    fatal. *)
Definition dispatch (v : any) : prog node () :=
  name ← lift (type_String v);
  f ← gets (λ n, handles n !! name);
  match f with
  | None => lift (Fault FatalExit)
  | Some f => on_handler (fn_Call f v)
  end.

(** Lines 142-153: one message of the channel of transactions. *)
Definition txn : prog node () := λ n,
  match TxChan n with
  | [] => Ok (n, ())
  | tx :: rest => dispatch tx (set_TxChan rest n)
  end.

(** Lines 182-193: one message of the channel of messages. *)
Definition handle : prog node () := λ n,
  match MessageChan n with
  | [] => Ok (n, ())
  | msg :: rest => dispatch msg (set_MessageChan rest n)
  end.

(** [r.C <- reply] on a channel of capacity one (message.go, lines 39-41). *)
Definition Reply (C : reply_chan) (r : TransactionReply) : prog node () := λ n,
  match C ≫= λ c, replies n !! c with
  | Some [] => Ok (set_replies (<[default 0%nat C := [r]]> (replies n)) n, ())
  | _ => Fault Blocked
  end.

(** Lines 159-177, for one message that the socket returned. *)
Definition recv (Strategy : string) (m : any) : prog node () := λ n,
  if n_isByz n && bool_decide (Strategy = "silence") then Ok (n, ())
  else
    match m with
    | ATransaction tx _ =>
        let c := length (replies n) in
        Ok (set_TxChan (TxChan n ++ [ATransaction tx (Some c)]) (set_replies (replies n ++ [[]]) n), ())
    | ATransactionReply r =>
        match forwards n !! Command_String (rep_Command r) with
        | None => Fault NilDereference
        | Some (_, C) => Reply C r n
        end
    | _ => Ok (set_MessageChan (MessageChan n ++ [m]) n, ())
    end.

(** Lines 195-202. *)
Definition Forward (id : NodeID) (tx : Transaction) (C : reply_chan) : prog node () :=
  self ← gets n_id;
  let tx := MkTransaction (tx_Command tx) (tx_Properties tx) (tx_Timestamp tx) self (tx_ID tx) in
  modify (λ n, set_forwards (<[Command_String (tx_Command tx) := (tx, C)]> (forwards n)) n);;
  on_socket (Socket.Send Scheme dial Float64 id (ATransaction tx C)).

(** Lines 95-101. *)
Definition node_ID (n : node) : NodeID := n_id n.
Definition node_IsByz (n : node) : bool := n_isByz n.

(** Lines 128-136: the goroutines that run; the HTTP server does not return. *)
Inductive node_goroutine := GoHandle | GoRecv | GoTxn | GoHttp.
Definition node_Run (n : node) : list node_goroutine :=
  if decide (0 < base.size (handles n))%nat then [GoHandle; GoRecv; GoTxn; GoHttp] else [GoHttp].

(** Lines 204-206. *)
Definition StartSignal (now : Z) : prog node () :=
  modify (λ n, let s := n_stats n in
    set_stats (MkNodeStats (ns_totalCommittedTx s) (Some now) (ns_totalLatency s) (ns_latencyCount s)
                 (ns_totalBlockSize s) (ns_blockNumber s) (ns_totalCommandSize s) (ns_commandNumber s)) n).

(** Lines 40-45. *)
Record QueryMessage := MkQueryMessage {
  Throughput : f64;
  Latency : f64;
  AveBlockSize : f64;
  AveCommandSize : f64
}.

(** [t.Sub(u)], which saturates, for a time [u] that may be the zero time. *)
Definition Sub_time (t : Z) (u : option Z) : Z :=
  match u with None => max_int64 | Some u => Z.max min_int64 (Z.min max_int64 (t - u)) end.

(** Lines 208-230: the averages, and the count of transactions starts again. *)
Definition QueryNode (now now' : Z) : prog node QueryMessage := λ n,
  let s := n_stats n in
  let throughput := f64_div (f64_of_Z (ns_totalCommittedTx s)) (Seconds (Sub_time now (ns_throughputAnchor s))) in
  let latency := f64_div (ns_totalLatency s) (f64_of_Z (ns_latencyCount s)) in
  let aveBlockSize := f64_div (f64_of_Z (ns_totalBlockSize s)) (f64_of_Z (ns_blockNumber s)) in
  let aveCommandSize := f64_div (f64_of_Z (ns_totalCommandSize s)) (f64_of_Z (ns_commandNumber s)) in
  Ok (set_stats (MkNodeStats 0 (Some now') (ns_totalLatency s) (ns_latencyCount s) (ns_totalBlockSize s)
                   (ns_blockNumber s) (ns_totalCommandSize s) (ns_commandNumber s)) n,
      MkQueryMessage throughput latency aveBlockSize aveCommandSize).

(** Lines 236-255: a transaction of the command has its payload, its time stamp and the
    time at which it is executed; [NanoToSecond] is Phalanx's. *)
Definition CommandExecution (NanoToSecond : Z → f64) (content : list (list Z * Z * Z)) : prog node () :=
  for_each content (λ '(payload, timestamp, now),
    modify (λ n, let s := n_stats n in let len := Z.of_nat (length payload) in
      set_stats (MkNodeStats (int64 (ns_totalCommittedTx s + 1)) (ns_throughputAnchor s)
        (f64_add (ns_totalLatency s) (f64_mul (NanoToSecond (int64 (now - timestamp))) (f64_of_Z 1000)))
        (int64 (ns_latencyCount s + 1))
        (int64 (ns_totalBlockSize s + len)) (ns_blockNumber s)
        (int64 (ns_totalCommandSize s + len)) (int64 (ns_commandNumber s + 1))) n));;
  modify (λ n, let s := n_stats n in
    set_stats (MkNodeStats (ns_totalCommittedTx s) (ns_throughputAnchor s) (ns_totalLatency s) (ns_latencyCount s)
      (ns_totalBlockSize s) (int64 (ns_blockNumber s + 1)) (ns_totalCommandSize s) (ns_commandNumber s)) n).

(** Lines 257-273: Phalanx sends through the socket and to itself; [receive] is
    the call of the provider. *)
Definition BroadcastCommand (receive : N → prog R ()) (c : N) : prog node () :=
  on_socket (Socket.Broadcast Scheme dial Float64 (ACommand c));; on_handler (receive c).
Definition BroadcastPCM (receive : N → prog R ()) (m : N) : prog node () :=
  on_socket (Socket.Broadcast Scheme dial Float64 (AConsensusMessage m));; on_handler (receive m).
Definition UnicastPCM (receive : N → prog R ()) (to : Z) (m : N) : prog node () :=
  self ← gets n_id;
  if decide (to = uint64 (Node self)) then on_handler (receive m)
  else on_socket (Socket.Send Scheme dial Float64 (NewNodeID (int64 to)) (APointer (AConsensusMessage m))).

(** ** The HTTP interface ([http.go]) *)

Record request := MkRequest { rq_path : string; rq_URI : string; rq_body : list Z }.

Inductive route := RRoot | RQuery | RSlow | RFlaky | RCrash.

(** Lines 29-35: the pattern [/] matches every other path. *)
Definition mux (path : string) : route :=
  if decide (path = "/query") then RQuery
  else if decide (path = "/slow") then RSlow
  else if decide (path = "/flaky") then RFlaky
  else if decide (path = "/crash") then RCrash
  else RRoot.

(** Lines 63-74; the reply channel comes from a pool. *)
Definition handleRoot (now : Z) (r : request) : prog node () := λ n,
  let tx := MkTransaction (MkCommand 0 (Some (rq_body r)) "" 0) ∅ now (n_id n) (rq_URI r) in
  let c := length (replies n) in
  Ok (set_TxChan (TxChan n ++ [ATransaction tx (Some c)]) (set_replies (replies n ++ [[]]) n), ()).

(** Lines 91-117. *)
Definition handleCrash (Crash : Z) : prog node () := on_socket (Socket.Crash Crash).

Definition handleSlow (HTTPAddrs : gmap NodeID string) (Slow : Z) : prog node () :=
  for_each (range HTTPAddrs).*1 (λ i,
    k ← on_socket (gets Socket.draws);
    on_socket (modify Socket.draw);;
    d ← lift (rand_Intn Intn k Slow);
    on_socket (Socket.Slow i d 10)).

Definition handleFlaky (HTTPAddrs : gmap NodeID string) : prog node () :=
  for_each (range HTTPAddrs).*1 (λ i, on_socket (Socket.Flaky i (1 # 2) 10)).

(** Lines 51-61: the query waits for its turn in the channel of transactions. *)
Definition handleQuery : prog node () :=
  modify (λ n, set_TxChan (TxChan n ++ [AQuery true]) n).

(** A request of a client, and the response: empty at once, or, for a query, the
    string that its handler will send. *)
Definition serve (now Crash Slow : Z) (HTTPAddrs : gmap NodeID string) (r : request)
  : prog node (option string) :=
  match mux (rq_path r) with
  | RRoot => handleRoot now r;; mret (Some "")
  | RQuery => handleQuery;; mret None
  | RSlow => handleSlow HTTPAddrs Slow;; mret (Some "")
  | RFlaky => handleFlaky HTTPAddrs;; mret (Some "")
  | RCrash => handleCrash Crash;; mret (Some "")
  end.
End node.
Arguments gofunc : clear implicits.
Arguments node : clear implicits.

(** ** The statistics of a node *)
Section statistics.
Context {R : Type} (NanoToSecond : Z → f64).
Implicit Types n : node R.

(** The calls that touch the statistics. *)
Inductive stat_call :=
  | SExecute (content : list (list Z * Z * Z))
  | SStart (now : Z)
  | SQuery (now now' : Z).

Definition stat_do (c : stat_call) : prog (node R) () :=
  match c with
  | SExecute content => CommandExecution NanoToSecond content
  | SStart now => StartSignal now
  | SQuery now now' => QueryNode now now';; mret ()
  end.

(** The transactions executed since the last query, and ever. *)
Definition since_query (k : Z) (c : stat_call) : Z :=
  match c with SExecute content => k + Z.of_nat (length content) | SStart _ => k | SQuery _ _ => 0 end.
Definition executed (cs : list stat_call) : list (list Z * Z * Z) :=
  concat ((λ c, match c with SExecute content => content | _ => [] end) <$> cs).

Record counted (k total : Z) n : Prop := {
  ct_committed : ns_totalCommittedTx (n_stats n) = int64 k;
  ct_latency : ns_latencyCount (n_stats n) = int64 total;
  ct_commands : ns_commandNumber (n_stats n) = int64 total;
  ct_sizes : ns_totalBlockSize (n_stats n) = ns_totalCommandSize (n_stats n)
}.

Lemma counted_execute content k total n :
  counted k total n →
  ∃ n', CommandExecution NanoToSecond content n = Ok (n', ())
    ∧ counted (k + Z.of_nat (length content)) (total + Z.of_nat (length content)) n'.
Proof.
  intros Hn. cut (∃ n', for_each content (λ '(payload, timestamp, now), modify (λ n, let s := n_stats n in
      let len := Z.of_nat (length payload) in
      set_stats (MkNodeStats (int64 (ns_totalCommittedTx s + 1)) (ns_throughputAnchor s)
        (f64_add (ns_totalLatency s) (f64_mul (NanoToSecond (int64 (now - timestamp))) (f64_of_Z 1000)))
        (int64 (ns_latencyCount s + 1)) (int64 (ns_totalBlockSize s + len)) (ns_blockNumber s)
        (int64 (ns_totalCommandSize s + len)) (int64 (ns_commandNumber s + 1))) n)) n = Ok (n', ())
      ∧ counted (k + Z.of_nat (length content)) (total + Z.of_nat (length content)) n').
  { intros (n' & H1 & [C1 C2 C3 C4]). eexists.
    split; [unfold CommandExecution; rewrite (prog_bind_run _ _ _ _ _ H1); reflexivity|]. by split. }
  revert k total n Hn. induction content as [|[[payload ts] now] content IH]; intros k total n [C1 C2 C3 C4].
  - exists n. simpl. rewrite !Z.add_0_r. by split.
  - simpl. replace (k + Z.of_nat (S (length content))) with (k + 1 + Z.of_nat (length content)) by lia.
    replace (total + Z.of_nat (S (length content))) with (total + 1 + Z.of_nat (length content)) by lia.
    match goal with |- ∃ n', (modify ?f ≫= _) n = _ ∧ _ => destruct (IH (k + 1) (total + 1) (f n)) as (n' & H1 & H2) end.
    + split; simpl; rewrite ?C1, ?C2, ?C3, ?C4, ?int64_add_l; done.
    + exists n'. split; [|done]. exact H1.
Qed.

(** In every sequence of commands, starts and queries the node counts, modulo the
    width of an integer, the transactions since the last query for the throughput and
    all of them for the averages; the bytes of the blocks and of the commands are the
    same number.  Before the first transaction the averages are not numbers. *)
Theorem node_statistics cs n :
  n_stats n = zero_stats →
  ∃ n', for_each cs stat_do n = Ok (n', ())
    ∧ counted (foldl since_query 0 cs) (Z.of_nat (length (executed cs))) n'.
Proof.
  intros H0.
  cut (∀ k total n, counted k total n → ∃ n', for_each cs stat_do n = Ok (n', ())
    ∧ counted (foldl since_query k cs) (total + Z.of_nat (length (executed cs))) n').
  { intros H. apply (H 0 0). by split; rewrite H0. }
  clear H0 n. induction cs as [|c cs IH]; intros k total n Hn; simpl.
  { exists n. by rewrite Z.add_0_r. }
  assert (∃ n1, stat_do c n = Ok (n1, ()) ∧ counted (since_query k c)
    (total + Z.of_nat (length (executed [c]))) n1) as (n1 & H1 & C1).
  { destruct c as [content|now|now now']; simpl.
    - destruct (counted_execute content k total n Hn) as (n1 & H1 & H2). exists n1. split; [done|].
      unfold executed. simpl. by rewrite app_nil_r.
    - eexists. split; [reflexivity|]. rewrite Z.add_0_r. destruct Hn. by split.
    - eexists. split; [reflexivity|]. rewrite Z.add_0_r. destruct Hn. by split. }
  destruct (IH _ _ n1 C1) as (n' & H2 & C2). exists n'. split; [by rewrite (prog_bind_run _ _ _ _ _ H1)|].
  replace (total + Z.of_nat (length (executed (c :: cs)))) with
    (total + Z.of_nat (length (executed [c])) + Z.of_nat (length (executed cs))); [done|].
  unfold executed. rewrite !fmap_cons. simpl. rewrite app_nil_r, length_app. lia.
Qed.

Lemma QueryNode_empty now now' n :
  n_stats n = zero_stats →
  ∃ n' q, QueryNode now now' n = Ok (n', q) ∧ Latency q = S754_nan ∧ AveBlockSize q = S754_nan ∧ AveCommandSize q = S754_nan.
Proof. intros H0. eexists _, _. split; [reflexivity|]. simpl. rewrite H0. done. Qed.
End statistics.

(** ** What [NewReplica] registers (replica.go, lines 88-94) *)
Section registered.
Context `{ReplicaEnv} `{BitSet} {S : Type} {SF : Safety S}.

(** replica.go, lines 161-199: the report is made in file [Timed]; here, whether the
    reply can be sent on the channel of the query. *)
Definition replica_handleQuery (hasC : bool) : prog (Replica S) () :=
  if hasC then mret () else lift (Fault Blocked).

Definition method (name : string) (call : any → option (prog (Replica S) ())) : gofunc (Replica S) :=
  MkFunc true [name] (λ v, match call v with Some m => m | None => lift (Fault ExplicitPanic) end).

Definition registrations : list (any * gofunc (Replica S)) :=
  [(ABlock (MkBlock 0 None "" 0 [] 0 [] 0 None) None,
    method "blockchain.Block" (λ v, match v with ABlock b qc => Some (HandleBlock b qc) | _ => None end));
   (AVote (MkVote 0 "" 0 []),
    method "blockchain.Vote" (λ v, match v with AVote v => Some (HandleVote v) | _ => None end));
   (ATMO 0 "" None,
    method "pacemaker.TMO" (λ v, match v with ATMO w i qc => Some (HandleTmo w i qc) | _ => None end));
   (ATransaction (MkTransaction (MkCommand 0 None "" 0) ∅ 0 "" "") None,
    method "message.Transaction" (λ v, match v with ATransaction tx _ => Some (handleTxn tx) | _ => None end));
   (AQuery false,
    method "message.Query" (λ v, match v with AQuery c => Some (replica_handleQuery c) | _ => None end));
   (AConsensusMessage 0,
    method "protos.ConsensusMessage"
      (λ v, match v with AConsensusMessage m => Some (HandleConsensusMessage m) | _ => None end));
   (ACommand 0,
    method "protos.Command" (λ v, match v with ACommand c => Some (HandleCommand c) | _ => None end))].

Definition register_all : prog (node (Replica S)) () :=
  for_each registrations (λ mf, Register mf.1 mf.2).

(** The values that carry the messages of file [Replica]. *)
Definition value_of (m : net_msg) : any :=
  match m with
  | MsgBlock b qc => ABlock b qc
  | MsgVote v => AVote v
  | MsgTmo view id qc => ATMO view id qc
  | MsgTxn tx => ATransaction tx None
  | MsgConsensus m => AConsensusMessage m
  | MsgCommand c => ACommand c
  end.

(** Encoding with [gob] sends what a pointer points to, and no channels. *)
Fixpoint gob (v : any) : any :=
  match v with
  | APointer v => gob v
  | ATransaction tx _ => ATransaction tx None
  | AQuery _ => AQuery false
  | v => v
  end.

(** A dynamic type that has a handler. *)
Definition registered_type (name : string) : Prop :=
  name ∈ ["blockchain.Block"; "blockchain.Vote"; "pacemaker.TMO"; "message.Transaction";
          "message.Query"; "protos.ConsensusMessage"; "protos.Command"]%string.

Lemma register_all_run (n : node (Replica S)) :
  ∃ n', register_all n = Ok (n', ()) ∧ n' = set_handles (handles n') n
    ∧ (∀ name, ¬ registered_type name → handles n' !! name = handles n !! name)
    ∧ ∀ m c, ∃ name f, type_String (value_of m) = Ok name ∧ handles n' !! name = Some f
        ∧ fn_Call f (match value_of m with ATransaction tx _ => ATransaction tx c | v => v end) = receive m.
Proof.
  eexists. split; [reflexivity|]. split_and!; [by destruct n| |].
  - intros name Hn. unfold registered_type in Hn. simpl. rewrite !lookup_insert_ne by set_solver. done.
  - intros m c. destruct m; eexists _, _; (split; [reflexivity|]); simpl handles;
      (split; [repeat (rewrite lookup_insert_ne by done); apply lookup_insert_eq|reflexivity]).
Qed.

Lemma dispatch_registered (n : node (Replica S)) v name f :
  type_String v = Ok name → handles n !! name = Some f → dispatch v n = on_handler (fn_Call f v) n.
Proof.
  intros Hv Hf. unfold dispatch, gets, mbind, prog_bind. rewrite Hv. simpl. by rewrite Hf.
Qed.
End registered.

(** ** Received messages *)

Definition transaction_of (m : any) : option Transaction :=
  match m with ATransaction tx _ => Some tx | _ => None end.
Definition is_reply (m : any) : Prop := match m with ATransactionReply _ => True | _ => False end.
#[global] Instance is_reply_dec m : Decision (is_reply m).
Proof. destruct m; apply _. Defined.

(** Transactions with reply channels from [c] on. *)
Definition with_channels (c : nat) (txs : list Transaction) : list any :=
  imap (λ i tx, ATransaction tx (Some (c + i)%nat)) txs.

(** The receiving loop of a node loses and reorders nothing.  A node that is
    not silent files the transactions of any sequence of messages, in order, in
    one channel, each with a reply channel of its own, and the other messages, in
    order, in the other.  A silent Byzantine node files nothing.  A reply to a
    command that the node has not forwarded is a nil dereference. *)
Theorem node_recv_routes {R : Type} Strategy ms (n : node R) :
  if n_isByz n && bool_decide (Strategy = "silence") then for_each ms (recv Strategy) n = Ok (n, ())
  else
    (Forall (λ m, ¬ is_reply m) ms →
     ∃ n', for_each ms (recv Strategy) n = Ok (n', ())
       ∧ TxChan n' = TxChan n ++ with_channels (length (replies n)) (omap transaction_of ms)
       ∧ MessageChan n' = MessageChan n ++ filter (λ m, transaction_of m = None) ms
       ∧ replies n' = replies n ++ replicate (length (omap transaction_of ms)) [])
    ∧ ∀ r, forwards n !! Command_String (rep_Command r) = None →
        recv Strategy (ATransactionReply r) n = Fault NilDereference.
Proof.
  destruct (n_isByz n && bool_decide (Strategy = "silence")) eqn:E.
  { induction ms as [|m ms IH]; simpl; [done|]. rewrite (prog_bind_run _ _ n n ()); [done|].
    unfold recv. by rewrite E. }
  split; [|intros r Hr; unfold recv; by rewrite E, Hr].
  revert n E. induction ms as [|m ms IH]; intros n E Hms; simpl.
  { exists n. unfold with_channels. simpl. by rewrite !app_nil_r. }
  inversion Hms as [|? ? Hm Hms']; subst.
  destruct (transaction_of m) as [tx|] eqn:Et.
  - destruct m; try done. injection Et as ->. rewrite filter_cons_False by done.
    destruct (IH (set_TxChan (TxChan n ++ [ATransaction tx (Some (length (replies n)))])
                    (set_replies (replies n ++ [[]]) n))) as (n' & Hn & Ht & Hc & Hr); [done..|].
    exists n'. split.
    { etrans; [|exact Hn]. eapply (prog_bind_run _ (λ _, for_each ms (recv Strategy))).
      unfold recv. by rewrite E. }
    rewrite Ht, Hc, Hr. simpl. unfold with_channels. simpl. rewrite <- !app_assoc, Nat.add_0_r.
    split_and!; [|done|done]. do 2 f_equal. rewrite length_app. simpl. apply imap_ext.
    intros i x _. simpl. do 2 f_equal. lia.
  - rewrite filter_cons_True by done.
    destruct (IH (set_MessageChan (MessageChan n ++ [m]) n)) as (n' & Hn & Ht & Hc & Hr); [done..|].
    exists n'. split.
    + rewrite (prog_bind_run _ _ n (set_MessageChan (MessageChan n ++ [m]) n) ()); [done|].
      unfold recv. rewrite E. destruct m; done.
    + rewrite Ht, Hc, Hr. simpl. by rewrite <- app_assoc.
Qed.

(** [C34] What one replica sends, another handles.  After the registrations of
    [NewReplica] on a new node, a message that came over the wire, sent as a value
    or as a pointer, is dispatched to the handler of file [Replica] for it; handed
    over as a pointer inside the process, as the intra-process transport does, it
    has no handler and the node exits. *)
Theorem node_delivers_to_replica `{ReplicaEnv} `{BitSet} {S : Type} {SF : Safety S}
    (n : node (Replica S)) m :
  handles n = ∅ →
  ∃ n', register_all n = Ok (n', ())
    ∧ dispatch (gob (value_of m)) n' = on_handler (receive m) n'
    ∧ dispatch (gob (APointer (value_of m))) n' = on_handler (receive m) n'
    ∧ dispatch (APointer (value_of m)) n' = Fault FatalExit.
Proof.
  intros Hn. destruct (register_all_run n) as (n' & Hreg & _ & Hother & Hhand). exists n'.
  destruct (Hhand m None) as (name & f & Hname & Hf & Hcall).
  assert (dispatch (gob (value_of m)) n' = on_handler (receive m) n') as Hd.
  { replace (gob (value_of m)) with (match value_of m with ATransaction tx _ => ATransaction tx None | v => v end)
      by (by destruct m). rewrite <- Hcall. apply dispatch_registered with name; [|done].
    destruct m; done. }
  split_and!; [done|done|exact Hd|].
  unfold dispatch, gets, mbind, prog_bind. simpl. rewrite Hname. simpl.
  rewrite Hother, Hn, lookup_empty; [done|].
  unfold registered_type. simpl. set_solver.
Qed.

(** A transaction between two votes. *)
Definition wire_tx : Transaction := MkTransaction (MkCommand 0 (Some [1; 2]) "" 0) ∅ 7 "1" "/5".
Definition wire_vote : Vote := MkVote 1 "3" 4 [].
Definition wire_node {R : Type} (r : R) : node R :=
  MkNode "1" false (Socket.MkSocket "1" ∅ ∅ false ∅ ∅ ∅ [] 0 0) [] [] ∅ ∅ [] zero_stats r.

Lemma node_recv_routes_witness :
  ∃ n', for_each [AVote wire_vote; ATransaction wire_tx None; AQuery false] (recv "fork") (wire_node 0%nat) = Ok (n', ())
    ∧ TxChan n' = [ATransaction wire_tx (Some 0%nat)]
    ∧ MessageChan n' = [AVote wire_vote; AQuery false].
Proof.
  destruct (node_recv_routes "fork" [AVote wire_vote; ATransaction wire_tx None; AQuery false] (wire_node 0%nat))
    as [H _].
  destruct H as (n' & H1 & H2 & H3 & _); [repeat constructor; intros []|].
  exists n'. split; [exact H1|]. split; [exact H2|exact H3].
Defined.
