(* ===== verification/Wire.v ===== *)
(** * Transports over the network ([src/transport/transport.go], lines 95-232)

    The schemes tcp and udp.  The encoding [encoding/gob] is a parameter, with the
    documented behaviour as a class of laws: from the bytes of the encoding of a value,
    and from nothing less, the value is decoded in the form it has on the wire (gob
    sends what a pointer points to and leaves out channels; [gob] of file [Node] is that
    form for the messages of the program).

    A TCP connection has the encoder of the goroutine that [Dial] started, the bytes
    under way, and the decoder of the goroutine that [Listen] started for it.  The
    network delivers the bytes in order and may break the connection at any time.
    UDP delivers datagrams; the receiving goroutine reads each into the same buffer
    of 1500 bytes and decodes the whole buffer. *)
From S2P Require Import Prelude Identity Sha1 Election Db Crypto Types Quorum Forest BlockChain Pacemaker Mempool Chained Safety Transport Utils Socket Replica Node.

Local Open Scope Z_scope.

(** ** [encoding/gob] *)

(** What decoding one value from a stream gives: the stream ends before the value,
    a value of [n] bytes, or an error. *)
Inductive decoded (M D : Type) :=
  | Need
  | Got (m : M) (n : nat) (d : D)
  | Bad (d : D).
Arguments Need {M D}.
Arguments Got {M D} m n d.
Arguments Bad {M D} d.

(** An encoder writes bytes and may report an error. *)
Class Gob (M : Type) := {
  encoder : Type;
  decoder : Type;
  NewEncoder : encoder;
  NewDecoder : decoder;
  Encode : encoder → M → encoder * list Z * option string;
  Decode : decoder → list Z → decoded M decoder
}.

(** [encodable] are the values of registered types that the encoder takes, and
    [wire_form] is what such a value is decoded as. *)
Class GobLaws (M : Type) `{Gob M} := {
  synced : encoder → decoder → Prop;
  encodable : M → Prop;
  wire_form : M → M;
  synced_new : synced NewEncoder NewDecoder;
  encode_ok e m : encodable m → ∃ e' bs, Encode e m = (e', bs, None);
  decode_all e d m e' bs rest :
    synced e d → Encode e m = (e', bs, None) →
    ∃ d', Decode d (bs ++ rest) = Got (wire_form m) (length bs) d' ∧ synced e' d';
  decode_part e d m e' bs p :
    synced e d → Encode e m = (e', bs, None) → p `prefix_of` bs → p ≠ bs → Decode d p = Need;
  decode_empty e d : synced e d → Decode d [] = Need
}.

(** ** TCP *)
Section tcp.
Context {M : Type} `{Gob M}.

(** A connection: who dialled and who listens; the two goroutines, each with the
    message between two channel operations; the bytes written and not arrived, and
    arrived and not decoded. *)
Record conn := MkConn {
  c_from : nat;
  c_to : nat;
  c_out : option M;
  c_enc : encoder;
  c_sent : list Z;
  c_up : bool;
  c_fin : bool;
  c_got : list Z;
  c_dec : decoder;
  c_hand : option M;
  c_returned : bool
}.

(** The transports, who listens under which host, and the connections. *)
Record tcp_world := MkTcp {
  tw_transports : list (transport M);
  tw_listening : gmap string nat;
  tw_conns : list conn
}.

Definition tw_set (i : nat) (t : transport M) (w : tcp_world) : tcp_world :=
  MkTcp (<[i := t]> (tw_transports w)) (tw_listening w) (tw_conns w).
Definition tw_set_conn (k : nat) (c : conn) (w : tcp_world) : tcp_world :=
  MkTcp (tw_transports w) (tw_listening w) (<[k := c]> (tw_conns w)).

(** Lines 95-97. *)
Definition transport_Scheme (t : transport M) : string := t_scheme t.

(** Lines 99-119, 138-147: [reached] is whether the network connects to the host.
    The connection is accepted by the transport that listens there. *)
Definition tcp_Dial (reached : bool) (i : nat) (t : transport M) (w : tcp_world) : tcp_world * result () :=
  match tw_listening w !! t_host t with
  | Some j =>
      if reached then
        (MkTcp (tw_transports w) (tw_listening w)
           (tw_conns w ++ [MkConn i j None NewEncoder [] true false [] NewDecoder None false]), Val ())
      else (w, Err "dial failed")
  | None => (w, Err "connection refused")
  end.

(** Lines 128-133: an address that is in use exits. *)
Definition tcp_Listen (i : nat) (t : transport M) (w : tcp_world) : outcome tcp_world :=
  match tw_listening w !! t_host t with
  | Some _ => Fault FatalExit
  | None => Ok (MkTcp (tw_transports w) (<[t_host t := i]> (tw_listening w)) (tw_conns w))
  end.

(** Line 110: the goroutine of [Dial] takes a message ... *)
Definition tcp_take (k : nat) (c : conn) (t : transport M) (w : tcp_world) : option tcp_world :=
  match c_out c, t_send t with
  | None, m :: q =>
      Some (tw_set_conn k (MkConn (c_from c) (c_to c) (Some m) (c_enc c) (c_sent c) (c_up c) (c_fin c) (c_got c)
                             (c_dec c) (c_hand c) (c_returned c))
              (tw_set (c_from c) (set_send q t) w))
  | _, _ => None
  end.

(** ... and encodes it to the connection (lines 111-114).  An error, of the encoder
    or of a connection that is down, is logged and the message is gone. *)
Definition tcp_write (c : conn) : option conn :=
  m ← c_out c;
  let '(e, bs, err) := Encode (c_enc c) m in
  Some (MkConn (c_from c) (c_to c) None e (if c_up c then c_sent c ++ bs else c_sent c) (c_up c) (c_fin c)
          (c_got c) (c_dec c) (c_hand c) (c_returned c)).

(** Lines 109-110: when the channel is closed and drained, the goroutine closes its
    end. *)
Definition tcp_finish (t : transport M) (c : conn) : option conn :=
  match t_closed t, t_send t, c_out c with
  | true, [], None => Some (MkConn (c_from c) (c_to c) None (c_enc c) (c_sent c) (c_up c) true (c_got c)
                              (c_dec c) (c_hand c) (c_returned c))
  | _, _, _ => None
  end.

(** The network: some bytes arrive, or the connection breaks. *)
Definition tcp_arrive (n : nat) (c : conn) : conn :=
  MkConn (c_from c) (c_to c) (c_out c) (c_enc c) (drop n (c_sent c)) (c_up c) (c_fin c)
    (c_got c ++ take n (c_sent c)) (c_dec c) (c_hand c) (c_returned c).
Definition tcp_break (c : conn) : conn :=
  MkConn (c_from c) (c_to c) (c_out c) (c_enc c) [] false (c_fin c) (c_got c) (c_dec c) (c_hand c) (c_returned c).

(** Lines 149-159, one round of the loop of the goroutine of [Listen]: it returns if
    the transport is closed; else it decodes, and goes on after an error, also after
    the error of a connection that is down or at its end, which never goes away. *)
Definition tcp_read (closed : bool) (c : conn) : option conn :=
  match c_hand c, c_returned c with
  | None, false =>
      if closed then
        Some (MkConn (c_from c) (c_to c) (c_out c) (c_enc c) [] false (c_fin c) [] (c_dec c) None true)
      else
        match Decode (c_dec c) (c_got c) with
        | Need => if c_up c && negb (c_fin c && bool_decide (c_sent c = [])) then None else Some c
        | Got m n d => Some (MkConn (c_from c) (c_to c) (c_out c) (c_enc c) (c_sent c) (c_up c) (c_fin c)
                               (drop n (c_got c)) d (Some m) false)
        | Bad d => Some (MkConn (c_from c) (c_to c) (c_out c) (c_enc c) (c_sent c) (c_up c) (c_fin c)
                           (c_got c) d None false)
        end
  | _, _ => None
  end.

(** Line 160. *)
Definition tcp_put (k : nat) (c : conn) (t : transport M) (w : tcp_world) : option (M * tcp_world) :=
  m ← c_hand c;
  q ← chan_send cap_transport m (t_recv t);
  Some (m, tw_set_conn k (MkConn (c_from c) (c_to c) (c_out c) (c_enc c) (c_sent c) (c_up c) (c_fin c) (c_got c)
                            (c_dec c) None (c_returned c))
             (tw_set (c_to c) (set_recv q t) w)).

(** *** Steps *)
Inductive tcp_label :=
  | TSend (i : nat) (m : M)
  | TRecv (j : nat) (m : M)
  | TDeliver (j k : nat) (m : M)
  | TOther.

Inductive tcp_step `{URLParser} : tcp_label → tcp_world → tcp_world → Prop :=
  | ts_new Scheme addr t w :
      NewTransport Scheme addr = Ok t →
      tcp_step TOther w (MkTcp (tw_transports w ++ [t]) (tw_listening w) (tw_conns w))
  | ts_send i m t t' w :
      tw_transports w !! i = Some t → Send m t = Some (Ok t') → tcp_step (TSend i m) w (tw_set i t' w)
  | ts_recv j m t t' w :
      tw_transports w !! j = Some t → Recv t = Some (m, t') → tcp_step (TRecv j m) w (tw_set j t' w)
  | ts_close i t t' w :
      tw_transports w !! i = Some t → Close t = Ok t' → tcp_step TOther w (tw_set i t' w)
  | ts_dial reached i t w w' r :
      tw_transports w !! i = Some t → tcp_Dial reached i t w = (w', r) → tcp_step TOther w w'
  | ts_listen i t w w' :
      tw_transports w !! i = Some t → tcp_Listen i t w = Ok w' → tcp_step TOther w w'
  | ts_take k c t w w' :
      tw_conns w !! k = Some c → tw_transports w !! c_from c = Some t → tcp_take k c t w = Some w' →
      tcp_step TOther w w'
  | ts_write k c c' w :
      tw_conns w !! k = Some c → tcp_write c = Some c' → tcp_step TOther w (tw_set_conn k c' w)
  | ts_finish k c c' t w :
      tw_conns w !! k = Some c → tw_transports w !! c_from c = Some t → tcp_finish t c = Some c' →
      tcp_step TOther w (tw_set_conn k c' w)
  | ts_arrive n k c w :
      tw_conns w !! k = Some c → tcp_step TOther w (tw_set_conn k (tcp_arrive n c) w)
  | ts_break k c w :
      tw_conns w !! k = Some c → tcp_step TOther w (tw_set_conn k (tcp_break c) w)
  | ts_read k c c' t w :
      tw_conns w !! k = Some c → tw_transports w !! c_to c = Some t → tcp_read (t_closed t) c = Some c' →
      tcp_step TOther w (tw_set_conn k c' w)
  | ts_put k c t m w w' :
      tw_conns w !! k = Some c → tw_transports w !! c_to c = Some t → tcp_put k c t w = Some (m, w') →
      tcp_step (TDeliver (c_to c) k m) w w'.

Inductive tcp_run `{URLParser} : list tcp_label → tcp_world → Prop :=
  | tr_nil : tcp_run [] (MkTcp [] ∅ [])
  | tr_snoc ls l w w' : tcp_run ls w → tcp_step l w w' → tcp_run (ls ++ [l]) w'.

Definition tcp_sent (i : nat) (ls : list tcp_label) : list M :=
  omap (λ l, match l with TSend j m => if decide (i = j) then Some m else None | _ => None end) ls.
Definition tcp_received (j : nat) (ls : list tcp_label) : list M :=
  omap (λ l, match l with TRecv i m => if decide (i = j) then Some m else None | _ => None end) ls.
(** What the goroutine of connection [k] has handed on, and what came to [j]. *)
Definition delivered (k : nat) (ls : list tcp_label) : list M :=
  omap (λ l, match l with TDeliver _ k' m => if decide (k' = k) then Some m else None | _ => None end) ls.
Definition delivered_to (j : nat) (ls : list tcp_label) : list M :=
  omap (λ l, match l with TDeliver j' _ m => if decide (j' = j) then Some m else None | _ => None end) ls.
End tcp.
Arguments conn M {_}.
Arguments tcp_world M {_}.
Arguments tcp_label M : clear implicits.

Section tcp_fifo.
Context {M : Type} {GB : Gob M} {GL : GobLaws M} {UP : URLParser}.
Implicit Types (w : tcp_world M) (c : conn M) (ls : list (tcp_label M)).

(** The encoder writes the bytes [bs] for the messages [ms]. *)
Fixpoint encodes (e : encoder) (ms : list M) (e' : encoder) (bs : list Z) : Prop :=
  match ms with
  | [] => e' = e ∧ bs = []
  | m :: ms => ∃ e1 b1 b2, Encode e m = (e1, b1, None) ∧ encodes e1 ms e' b2 ∧ bs = b1 ++ b2
  end.

Lemma encodes_snoc e ms e' bs m e'' b :
  encodes e ms e' bs → Encode e' m = (e'', b, None) → encodes e (ms ++ [m]) e'' (bs ++ b).
Proof.
  revert e bs. induction ms as [|x ms IH]; simpl; intros e bs.
  - intros [-> ->] Hb. exists e'', b, []. by rewrite app_nil_r.
  - intros (e1 & b1 & b2 & H1 & H2 & ->) Hb. exists e1, b1, (b2 ++ b). rewrite app_assoc. eauto.
Qed.

Definition queue_of (f : transport M → list M) w (i : nat) : list M :=
  match tw_transports w !! i with Some t => f t | None => [] end.

Lemma queue_of_set f w i t t' j :
  tw_transports w !! i = Some t →
  queue_of f (tw_set i t' w) j = if decide (j = i) then f t' else queue_of f w j.
Proof.
  intros Ht. unfold queue_of. simpl. case_decide as E.
  - subst. rewrite list_lookup_insert_eq; [done|]. by eapply lookup_lt_Some.
  - by rewrite list_lookup_insert_ne.
Qed.

Lemma queue_of_at f w i t : tw_transports w !! i = Some t → queue_of f w i = f t.
Proof. unfold queue_of. by intros ->. Qed.

(** Connection [k] is the only one of its sender. *)
Definition only w (k : nat) c : Prop :=
  ∀ k' c', tw_conns w !! k' = Some c' → c_from c' = c_from c → k' = k.

(** What was sent is, in order: what was delivered and what is in the hand of the
    reading goroutine, in the form of the wire, what is in the bytes, and the rest; while the connection is up the rest is in the hand of
    the writing goroutine and in the channel. *)
Definition path ls w (k : nat) c : Prop :=
  ∃ e0 ms e bs, synced e0 (c_dec c) ∧ encodes e0 ms e (c_got c ++ bs)
    ∧ (if c_up c then e = c_enc c ∧ bs = c_sent c else c_sent c = [])
    ∧ (only w k c → ∃ past more, tcp_sent (c_from c) ls = past ++ ms ++ more
       ∧ delivered k ls ++ option_list (c_hand c) = wire_form <$> past
       ∧ (c_up c = true → more = option_list (c_out c) ++ queue_of t_send w (c_from c))).

Record tcp_inv ls w : Prop := {
  ti_path k c : tw_conns w !! k = Some c → path ls w k c;
  ti_out k c : tw_conns w !! k = Some c → Forall encodable (option_list (c_out c));
  ti_send i : Forall encodable (queue_of t_send w i);
  ti_none i : (∀ k c, tw_conns w !! k = Some c → c_from c ≠ i) → tcp_sent i ls = queue_of t_send w i;
  ti_recv j : tcp_received j ls ++ queue_of t_recv w j = delivered_to j ls;
  ti_fresh k : tw_conns w !! k = None → delivered k ls = []
}.

(** A step elsewhere: the sender may have sent more. *)
Lemma path_frame ls ls' w w' k c :
  path ls w k c →
  (only w' k c → only w k c ∧ delivered k ls' = delivered k ls
     ∧ ∃ x, tcp_sent (c_from c) ls' = tcp_sent (c_from c) ls ++ x
         ∧ queue_of t_send w' (c_from c) = queue_of t_send w (c_from c) ++ x) →
  path ls' w' k c.
Proof.
  intros (e0 & ms & e & bs & H1 & H2 & H3 & H4) Hf. exists e0, ms, e, bs. split_and!; [done..|].
  intros Ho. destruct (Hf Ho) as (Ho' & Hd & x & Hs & Hq). destruct (H4 Ho') as (past & more & Hm & Hpast & Hup).
  exists past, (more ++ x). split_and!.
  - rewrite Hs, Hm. by rewrite <- !app_assoc.
  - by rewrite Hd.
  - intros Hc. rewrite (Hup Hc), Hq. by rewrite <- app_assoc.
Qed.

(** A connection changes and keeps its sender. *)
Lemma only_set w w' k c c' k0 c0 :
  tw_conns w !! k = Some c → tw_conns w' = <[k := c']> (tw_conns w) → c_from c' = c_from c →
  only w' k0 c0 → only w k0 c0.
Proof.
  intros Hk Hw Hc Ho k1 c1 H1 Hf. destruct (decide (k1 = k)) as [->|Hne].
  - rewrite Hk in H1. injection H1 as <-. apply (Ho k c'); [|congruence].
    rewrite Hw, list_lookup_insert_eq; [done|]. by eapply lookup_lt_Some.
  - apply (Ho k1 c1); [|done]. by rewrite Hw, list_lookup_insert_ne.
Qed.

Lemma sent_other i ls l : (∀ m, l ≠ TSend i m) → tcp_sent i (ls ++ [l]) = tcp_sent i ls.
Proof.
  intros Hl. unfold tcp_sent. rewrite omap_app. simpl. destruct l as [j m| | |]; rewrite ?app_nil_r; try done.
  case_decide; [subst; by destruct (Hl m)|]. by rewrite app_nil_r.
Qed.
Lemma delivered_other k ls l : (∀ j m, l ≠ TDeliver j k m) → delivered k (ls ++ [l]) = delivered k ls.
Proof.
  intros Hl. unfold delivered. rewrite omap_app. simpl. destruct l as [| |j k' m|]; rewrite ?app_nil_r; try done.
  case_decide; [subst; by destruct (Hl j m)|]. by rewrite app_nil_r.
Qed.

(** A step of the transports that leaves the connections alone. *)
Lemma tcp_inv_ends ls l w w' :
  tcp_inv ls w → tw_conns w' = tw_conns w → (∀ j k m, l ≠ TDeliver j k m) →
  (∀ i, ∃ x, tcp_sent i (ls ++ [l]) = tcp_sent i ls ++ x ∧ queue_of t_send w' i = queue_of t_send w i ++ x
      ∧ Forall encodable x) →
  (∀ j, tcp_received j (ls ++ [l]) ++ queue_of t_recv w' j = tcp_received j ls ++ queue_of t_recv w j) →
  tcp_inv (ls ++ [l]) w'.
Proof.
  intros [I1 I2 I3 I4 I5 I6] Hc Hl Hs Hr. split.
  - intros k c Hk. rewrite Hc in Hk. eapply path_frame; [by apply I1|]. intros Ho. split; [|split].
    + intros k' c' H1. apply (Ho k' c'). by rewrite Hc.
    + apply delivered_other. intros j m. apply Hl.
    + destruct (Hs (c_from c)) as (x & ? & ? & _). eauto.
  - intros k c Hk. rewrite Hc in Hk. by eapply I2.
  - intros i. destruct (Hs i) as (x & _ & -> & Hx). by apply Forall_app.
  - intros i Hi. rewrite Hc in Hi. destruct (Hs i) as (x & -> & -> & _). f_equal. by apply I4.
  - intros j. rewrite Hr, I5. unfold delivered_to. rewrite omap_app. simpl.
    destruct l as [| |j' k m|]; rewrite ?app_nil_r; try done. by destruct (Hl j' k m).
  - intros k Hk. rewrite Hc in Hk. rewrite delivered_other; [by apply I6|]. intros j m. apply Hl.
Qed.

(** A step of one connection that delivers nothing. *)
Lemma tcp_inv_conn ls w w' k c c' :
  tcp_inv ls w → tw_conns w !! k = Some c → tw_conns w' = <[k := c']> (tw_conns w) → c_from c' = c_from c →
  Forall encodable (option_list (c_out c')) →
  (∀ i, i ≠ c_from c → queue_of t_send w' i = queue_of t_send w i) →
  Forall encodable (queue_of t_send w' (c_from c)) →
  (∀ j, queue_of t_recv w' j = queue_of t_recv w j) →
  (path ls w k c → path (ls ++ [TOther]) w' k c') →
  tcp_inv (ls ++ [TOther]) w'.
Proof.
  intros [I1 I2 I3 I4 I5 I6] Hk Hw Hc Hout Hq Hq' Hr Hp.
  assert (∀ k1 c1, tw_conns w' !! k1 = Some c1 → k1 ≠ k → tw_conns w !! k1 = Some c1) as Hother.
  { intros k1 c1 H1 Hne. by rewrite Hw, list_lookup_insert_ne in H1. }
  assert (tw_conns w' !! k = Some c') as Hk' by (rewrite Hw, list_lookup_insert_eq; [done|by eapply lookup_lt_Some]).
  split.
  - intros k1 c1 H1. destruct (decide (k1 = k)) as [->|Hne].
    + rewrite Hk' in H1. injection H1 as <-. by apply Hp, I1.
    + eapply path_frame; [by apply I1, Hother|]. intros Ho. split; [by eapply only_set|].
      split; [by apply delivered_other|]. exists []. rewrite !app_nil_r. split; [by apply sent_other|].
      apply Hq. intros E. apply Hne. symmetry. apply (Ho k c'); [done|congruence].
  - intros k1 c1 H1. destruct (decide (k1 = k)) as [->|Hne]; [congruence|]. by eapply I2, Hother.
  - intros i. destruct (decide (i = c_from c)) as [->|Hne]; [done|]. by rewrite Hq.
  - intros i Hi. rewrite sent_other by done. destruct (decide (i = c_from c)) as [->|Hne].
    + by destruct (Hi k c' Hk').
    + rewrite Hq by done. apply I4. intros k1 c1 H1. destruct (decide (k1 = k)) as [->|Hne'].
      * rewrite Hk in H1. injection H1 as <-. congruence.
      * apply (Hi k1 c1). by rewrite Hw, list_lookup_insert_ne.
  - intros j. rewrite Hr. unfold tcp_received, delivered_to. rewrite !omap_app. simpl. rewrite !app_nil_r. apply I5.
  - intros k1 H1. rewrite delivered_other by done. apply I6. rewrite Hw in H1.
    destruct (decide (k1 = k)) as [->|Hne]; [|by rewrite list_lookup_insert_ne in H1].
    rewrite list_lookup_insert_eq in H1; [done|by eapply lookup_lt_Some].
Qed.

(** *** The connections *)

Lemma path_take ls w w' k c t w1 :
  tcp_inv ls w → tw_conns w !! k = Some c → tw_transports w !! c_from c = Some t →
  tcp_take k c t w = Some w' → w1 = w' → tcp_inv (ls ++ [TOther]) w1.
Proof.
  intros I Hk Ht Htake ->. unfold tcp_take in Htake. destruct (c_out c) eqn:Hout; [done|].
  destruct (t_send t) as [|m q] eqn:Hsend; [done|]. injection Htake as <-.
  pose proof (ti_send _ _ I (c_from c)) as Henc. rewrite (queue_of_at _ _ _ _ Ht), Hsend in Henc.
  inversion Henc as [|? ? Hm Hq]; subst.
  set (w' := tw_set_conn _ _ _).
  assert (∀ f j, queue_of f w' j = if decide (j = c_from c) then f (set_send q t) else queue_of f w j) as Hqueue.
  { intros f j. by apply (queue_of_set f w (c_from c) t). }
  eapply (tcp_inv_conn ls w w' k c); [done|done|done|done|by constructor|..].
  - intros i Hi. rewrite Hqueue. by rewrite decide_False.
  - rewrite Hqueue, decide_True by done. done.
  - intros j. rewrite Hqueue. case_decide; [|done]. subst. by rewrite (queue_of_at _ _ _ _ Ht).
  - intros (e0 & ms & e & bs & H1 & H2 & H3 & H4). exists e0, ms, e, bs. split_and!; [done..|].
    intros Ho. destruct H4 as (past & more & Hm' & Hpast & Hup); [eapply (only_set w w' k c); [exact Hk|reflexivity|reflexivity|exact Ho]|]. exists past, more.
    simpl. rewrite sent_other, delivered_other by done. split_and!; [done..|]. intros Hc.
    rewrite (Hup Hc), Hout, Hqueue, decide_True by done. by rewrite (queue_of_at _ _ _ _ Ht), Hsend.
Qed.

(** A step of the connection alone. *)
Lemma tcp_inv_own ls w k c c' :
  tcp_inv ls w → tw_conns w !! k = Some c → c_from c' = c_from c →
  Forall encodable (option_list (c_out c')) →
  (path ls w k c → (∀ w', only w' k c' → only w' k c) →
   path (ls ++ [TOther]) (tw_set_conn k c' w) k c') →
  tcp_inv (ls ++ [TOther]) (tw_set_conn k c' w).
Proof.
  intros I Hk Hc Hout Hp. eapply (tcp_inv_conn ls w _ k c c'); try done; [apply I|].
  intros Hpath. apply Hp; [done|]. intros w' Ho k1 c1 H1 Hf. apply (Ho k1 c1); [done|congruence].
Qed.

(** The path of a connection whose ends do not move. *)
Lemma path_own ls w k c c' e0 ms e bs :
  tw_conns w !! k = Some c → c_from c' = c_from c →
  synced e0 (c_dec c') → encodes e0 ms e (c_got c' ++ bs) →
  (if c_up c' then e = c_enc c' ∧ bs = c_sent c' else c_sent c' = []) →
  (only w k c → ∃ past more, tcp_sent (c_from c) ls = past ++ ms ++ more
     ∧ delivered k ls ++ option_list (c_hand c') = wire_form <$> past
     ∧ (c_up c' = true → more = option_list (c_out c') ++ queue_of t_send w (c_from c))) →
  path (ls ++ [TOther]) (tw_set_conn k c' w) k c'.
Proof.
  intros Hk Hc H1 H2 H3 H4. exists e0, ms, e, bs. split_and!; [done..|]. intros Ho.
  destruct H4 as (past & more & Hm & Hpast & Hup).
  - intros k1 c1 Hk1 Hf. eapply (only_set w (tw_set_conn k c' w) k c c' k c'); try done. congruence.
  - exists past, more. rewrite sent_other, delivered_other, Hc by done. done.
Qed.

Lemma inv_write ls w k c c' :
  tcp_inv ls w → tw_conns w !! k = Some c → tcp_write c = Some c' → tcp_inv (ls ++ [TOther]) (tw_set_conn k c' w).
Proof.
  intros I Hk Hw. unfold tcp_write in Hw. destruct (c_out c) as [m|] eqn:Hout; [|done]. simpl in Hw.
  pose proof (ti_out _ _ I k c Hk) as Hm. rewrite Hout in Hm. inversion Hm as [|? ? Hm' _]; subst.
  destruct (encode_ok (c_enc c) m Hm') as (e' & b & Hb). rewrite Hb in Hw. injection Hw as <-.
  apply (tcp_inv_own ls w k c); [done|done|done|constructor|].
  intros (e0 & ms & e & bs & H1 & H2 & H3 & H4) _. destruct (c_up c) eqn:Hup; simpl.
  - destruct H3 as [-> ->]. eapply (path_own _ _ _ c _ e0 (ms ++ [m]) e' (c_sent c ++ b)); simpl; rewrite ?Hup; try done.
    + rewrite app_assoc. by eapply encodes_snoc.
    + intros Ho. destruct (H4 Ho) as (past & more & Hm1 & Hpast & Hup1). exists past, (queue_of t_send w (c_from c)).
      split_and!; [|done|done]. rewrite Hm1, (Hup1 eq_refl), Hout. by rewrite <- !app_assoc.
  - eapply (path_own _ _ _ c _ e0 ms e bs); simpl; rewrite ?Hup; try done. intros Ho.
    destruct (H4 Ho) as (past & more & Hm1 & Hpast & _). by exists past, more.
Qed.

Lemma inv_arrive ls w n k c :
  tcp_inv ls w → tw_conns w !! k = Some c → tcp_inv (ls ++ [TOther]) (tw_set_conn k (tcp_arrive n c) w).
Proof.
  intros I Hk. apply (tcp_inv_own ls w k c); [done|done|done|by apply (ti_out _ _ I k c)|].
  intros (e0 & ms & e & bs & H1 & H2 & H3 & H4) _. destruct (c_up c) eqn:Hup.
  - destruct H3 as [-> ->]. eapply (path_own _ _ _ c _ e0 ms (c_enc c) (drop n (c_sent c))); simpl; rewrite ?Hup; try done.
    by rewrite <- app_assoc, take_drop.
  - eapply (path_own _ _ _ c _ e0 ms e bs); simpl; rewrite ?Hup, ?H3, ?take_nil, ?drop_nil, ?app_nil_r; done.
Qed.

Lemma inv_break ls w k c :
  tcp_inv ls w → tw_conns w !! k = Some c → tcp_inv (ls ++ [TOther]) (tw_set_conn k (tcp_break c) w).
Proof.
  intros I Hk. apply (tcp_inv_own ls w k c); [done|done|done|by apply (ti_out _ _ I k c)|].
  intros (e0 & ms & e & bs & H1 & H2 & H3 & H4) _.
  eapply (path_own _ _ _ c _ e0 ms e bs); simpl; try done. intros Ho. destruct (H4 Ho) as (past & more & ? & ? & _). by exists past, more.
Qed.

Lemma inv_finish ls w k c c' t :
  tcp_inv ls w → tw_conns w !! k = Some c → tcp_finish t c = Some c' → tcp_inv (ls ++ [TOther]) (tw_set_conn k c' w).
Proof.
  intros I Hk Hf. unfold tcp_finish in Hf. destruct (t_closed t), (t_send t), (c_out c) eqn:Hout; try done.
  injection Hf as <-. apply (tcp_inv_own ls w k c); [done|done|done|constructor|].
  intros (e0 & ms & e & bs & H1 & H2 & H3 & H4) _.
  eapply (path_own _ _ _ c _ e0 ms e bs); simpl; try done. by rewrite Hout in H4.
Qed.

(** The decoder of a connection never fails: it gets the next message or waits. *)
Lemma decode_next e0 d ms e got bs :
  synced e0 d → encodes e0 ms e (got ++ bs) →
  Decode d got = Need
  ∨ ∃ m ms' n d' e1, ms = m :: ms' ∧ Decode d got = Got (wire_form m) n d' ∧ synced e1 d' ∧ encodes e1 ms' e (drop n got ++ bs).
Proof.
  intros Hs. destruct ms as [|m ms]; simpl.
  - intros [_ Hnil]. apply app_eq_nil in Hnil as [-> _]. left. by eapply decode_empty.
  - intros (e1 & b1 & b2 & He & Hrest & Heq). destruct (decide (length b1 ≤ length got)%nat) as [Hle|Hlt].
    + assert (∃ r, got = b1 ++ r ∧ b2 = r ++ bs) as (r & -> & ->).
      { exists (drop (length b1) got). apply (f_equal (take (length b1))) in Heq as E1.
        apply (f_equal (drop (length b1))) in Heq as E2. rewrite take_app_le, take_app_length in E1 by done.
        rewrite drop_app_le, drop_app_length in E2 by done. split; [|done].
        rewrite <- E1 at 1. by rewrite take_drop. }
      right. destruct (decode_all e0 d m e1 b1 r Hs He) as (d' & Hd & Hs').
      exists m, ms, (length b1), d', e1. split_and!; [done..|]. by rewrite drop_app_length.
    + left. eapply (decode_part e0 d m e1 b1 got Hs He).
      * exists (drop (length got) b1). apply (f_equal (take (length b1))) in Heq.
        rewrite take_app_length, take_app_ge in Heq by lia. rewrite <- Heq. by rewrite drop_app_length.
      * intros ->. lia.
Qed.

Lemma inv_read ls w k c c' closed :
  tcp_inv ls w → tw_conns w !! k = Some c → tcp_read closed c = Some c' → tcp_inv (ls ++ [TOther]) (tw_set_conn k c' w).
Proof.
  intros I Hk Hr. unfold tcp_read in Hr. destruct (c_hand c) eqn:Hhand; [done|]. destruct (c_returned c); [done|].
  pose proof (ti_out _ _ I k c Hk) as Hout. destruct (ti_path _ _ I k c Hk) as (e0 & ms & e & bs & H1 & H2 & H3 & H4).
  rewrite Hhand in H4. destruct closed.
  - injection Hr as <-. apply (tcp_inv_own ls w k c); [done..|]. intros _ _.
    eapply (path_own _ _ _ c _ e0 ms e (c_got c ++ bs)); simpl; try done.
    intros Ho. destruct (H4 Ho) as (past & more & ? & ? & _). by exists past, more.
  - destruct (decode_next e0 (c_dec c) ms e (c_got c) bs H1 H2) as [Hd|(m & ms' & n & d & e1 & -> & Hd & Hs & He)];
      rewrite Hd in Hr.
    + destruct (_ && _); [done|]. injection Hr as <-. apply (tcp_inv_own ls w k c); [done..|]. intros _ _.
      eapply (path_own _ _ _ c _ e0 ms e bs); try done. by rewrite Hhand.
    + injection Hr as <-. apply (tcp_inv_own ls w k c); [done..|]. intros _ _.
      eapply (path_own _ _ _ c _ e1 ms' e bs); try done. intros Ho.
      destruct (H4 Ho) as (past & more & Hm & Hpast & Hup). exists (past ++ [m]), more.
      rewrite Hm, <- app_assoc, fmap_app, <- Hpast. simpl. by rewrite app_nil_r.
Qed.

Lemma inv_put ls w w' k c t m :
  tcp_inv ls w → tw_conns w !! k = Some c → tw_transports w !! c_to c = Some t → tcp_put k c t w = Some (m, w') →
  tcp_inv (ls ++ [TDeliver (c_to c) k m]) w'.
Proof.
  intros [I1 I2 I3 I4 I5 I6] Hk Ht Hp. unfold tcp_put in Hp. destruct (c_hand c) as [m0|] eqn:Hhand; [|done]. simpl in Hp.
  destruct (chan_send cap_transport m0 (t_recv t)) as [q|] eqn:Hq; [|done]. simpl in Hp. injection Hp as -> <-.
  apply chan_send_ok in Hq as ->. set (l := TDeliver (c_to c) k m). set (w' := tw_set_conn _ _ _).
  set (c' := MkConn _ _ _ _ _ _ _ _ _ _ _) in w'.
  assert (∀ f j, queue_of f w' j = if decide (j = c_to c) then f (set_recv (t_recv t ++ [m]) t) else queue_of f w j) as Hqueue.
  { intros f j. by apply (queue_of_set f w (c_to c) t). }
  assert (∀ i, queue_of t_send w' i = queue_of t_send w i) as Hsend.
  { intros i. rewrite Hqueue. case_decide; [|done]. subst. by rewrite (queue_of_at _ _ _ _ Ht). }
  assert (tw_conns w' !! k = Some c') as Hk' by (simpl; rewrite list_lookup_insert_eq; [done|by eapply lookup_lt_Some]).
  assert (∀ k1 c1, tw_conns w' !! k1 = Some c1 → k1 = k ∧ c1 = c' ∨ k1 ≠ k ∧ tw_conns w !! k1 = Some c1) as Hconns.
  { intros k1 c1 H1. destruct (decide (k1 = k)) as [->|Hne]; [left; split; [done|congruence]|right].
    split; [done|]. simpl in H1. by rewrite list_lookup_insert_ne in H1. }
  assert (∀ k0 c0, only w' k0 c0 → only w k0 c0) as Honly by (intros k0 c0; by eapply (only_set w w' k c c')).
  split.
  - intros k1 c1 H1. destruct (Hconns k1 c1 H1) as [[-> ->]|[Hne H1']].
    + destruct (I1 k c Hk) as (e0 & ms & e & bs & P1 & P2 & P3 & P4). exists e0, ms, e, bs. split_and!; [done..|].
      intros Ho. destruct (P4 (Honly k c' Ho)) as (past & more & Hm & Hpast & Hup). exists past, more. simpl.
      rewrite sent_other by done. rewrite Hhand in Hpast. unfold delivered in *. rewrite omap_app. simpl.
      rewrite decide_True by done. rewrite app_nil_r. split_and!; [done|done|]. by rewrite Hsend.
    + eapply path_frame; [by apply I1|]. intros Ho. split_and!; [by apply Honly| |].
      * apply delivered_other. intros j m'. unfold l. congruence.
      * exists []. rewrite !app_nil_r. split; [by apply sent_other|apply Hsend].
  - intros k1 c1 H1. destruct (Hconns k1 c1 H1) as [[-> ->]|[_ H1']]; [by apply (I2 k c)|by apply (I2 k1)].
  - intros i. rewrite Hsend. apply I3.
  - intros i Hi. rewrite sent_other, Hsend by done. apply I4. intros k1 c1 H1. destruct (decide (k1 = k)) as [->|Hne].
    + rewrite Hk in H1. injection H1 as <-. by apply (Hi k c').
    + apply (Hi k1 c1). simpl. by rewrite list_lookup_insert_ne.
  - intros j. rewrite Hqueue. unfold tcp_received, delivered_to. rewrite !omap_app. simpl. rewrite app_nil_r.
    specialize (I5 j). unfold tcp_received, delivered_to in I5. rewrite <- I5. destruct (decide (c_to c = j)) as [<-|Hne].
    + rewrite decide_True by done. by rewrite (queue_of_at _ _ _ _ Ht), <- app_assoc.
    + rewrite decide_False by congruence. by rewrite app_nil_r.
  - intros k1 H1. destruct (decide (k1 = k)) as [->|Hne]; [by rewrite Hk' in H1|].
    simpl in H1. rewrite list_lookup_insert_ne in H1 by done. rewrite delivered_other; [by apply I6|]. intros j m'. unfold l. congruence.
Qed.

Lemma inv_dial ls w w' reached i t r :
  tcp_inv ls w → tcp_Dial reached i t w = (w', r) → tcp_inv (ls ++ [TOther]) w'.
Proof.
  intros I Hd. assert (tcp_inv (ls ++ [TOther]) w) as Hsame.
  { apply (tcp_inv_ends ls TOther w); try done.
    - intros j. exists []. rewrite !app_nil_r. split_and!; [by apply sent_other|done|constructor].
    - intros j. unfold tcp_received. by rewrite omap_app, app_nil_r. }
  unfold tcp_Dial in Hd. destruct (tw_listening w !! t_host t) as [j|]; [|by injection Hd as <- <-].
  destruct reached; [|by injection Hd as <- <-]. injection Hd as <- <-. destruct Hsame as [I1 I2 I3 I4 I5 I6].
  set (c := MkConn i j _ _ _ _ _ _ _ _ _). set (w' := MkTcp _ _ _).
  assert (∀ k1 c1, tw_conns w' !! k1 = Some c1 → tw_conns w !! k1 = Some c1 ∨ k1 = length (tw_conns w) ∧ c1 = c) as Hconns.
  { intros k1 c1. simpl. rewrite lookup_app_Some, list_lookup_singleton_Some. intros [?|(? & ? & ->)]; [by left|right].
    split; [lia|done]. }
  assert (∀ k1 c1, tw_conns w !! k1 = Some c1 → tw_conns w' !! k1 = Some c1) as Hold.
  { intros k1 c1 H1. simpl. by apply lookup_app_l_Some. }
  assert (tw_conns w' !! length (tw_conns w) = Some c) as Hnew by (simpl; by apply list_lookup_middle).
  assert (∀ k0 c0, only w' k0 c0 → only w k0 c0) as Honly by (intros k0 c0 Ho k1 c1 H1; by apply (Ho k1 c1), Hold).
  split; try done.
  - intros k1 c1 H1. destruct (Hconns k1 c1 H1) as [Hk1|[-> ->]].
    + eapply path_frame; [by apply I1|]. intros Ho. split_and!; [by apply Honly|done|]. exists []. by rewrite !app_nil_r.
    + exists NewEncoder, [], NewEncoder, []. split_and!; [apply synced_new|done|done|]. intros Ho.
      exists [], (queue_of t_send w' i). simpl. rewrite I6 by (apply lookup_ge_None_2; done). split_and!; [|done|done].
      apply I4. intros k2 c2 H2 Hf. assert (k2 = length (tw_conns w)) as -> by (by apply (Ho k2 c2), Hf; apply Hold).
      apply lookup_lt_Some in H2. lia.
  - intros k1 c1 H1. destruct (Hconns k1 c1 H1) as [Hk1|[-> ->]]; [by apply (I2 k1)|constructor].
  - intros i1 Hi. apply I4. intros k1 c1 H1. by apply (Hi k1 c1), Hold.
  - intros k1 H1. apply I6. destruct (tw_conns w !! k1) eqn:E; [|done]. by rewrite (Hold _ _ E) in H1.
Qed.

(** The messages that were sent can be encoded. *)
Definition sends_encodable (l : tcp_label M) : Prop := match l with TSend _ m => encodable m | _ => True end.

Lemma inv_step ls l w w' : tcp_inv ls w → sends_encodable l → tcp_step l w w' → tcp_inv (ls ++ [l]) w'.
Proof.
  intros I Hl Hstep.
  assert (∀ j, tcp_received j (ls ++ [TOther]) = tcp_received j ls) as Hrecv
    by (intros j; unfold tcp_received; by rewrite omap_app, app_nil_r).
  destruct Hstep as [Sch addr t w Hnew|i m t t' w Ht Hs|j m t t' w Ht Hr|i t t' w Ht Hc|reached i t w w' r Ht Hd
    |i t w w' Ht Hd|k c t w w' Hk Ht Hs|k c c' w Hk Hs|k c c' t w Hk Ht Hs|n k c w Hk|k c w Hk|k c c' t w Hk Ht Hs
    |k c t m w w' Hk Ht Hs].
  - assert (∀ f, f t = [] → ∀ i, queue_of f (MkTcp (tw_transports w ++ [t]) (tw_listening w) (tw_conns w)) i = queue_of f w i) as Hf.
    { intros f E i. unfold queue_of. simpl. destruct (tw_transports w !! i) as [t1|] eqn:E1; [by rewrite (lookup_app_l_Some _ _ _ _ E1)|].
      rewrite lookup_app, E1. by destruct (i - length (tw_transports w))%nat. }
    assert (t_send t = [] ∧ t_recv t = []) as [E1 E2].
    { unfold NewTransport in Hnew. destruct (url_Parse _) as [[sc h]|]; [|done].
      destruct (decide _); [|done]. by injection Hnew as <-. }
    apply (tcp_inv_ends ls TOther w); try done.
    + intros i. exists []. rewrite !app_nil_r. split_and!; [by apply sent_other|by apply Hf|constructor].
    + intros j. by rewrite Hrecv, Hf.
  - unfold Send in Hs. destruct (t_closed t); [done|]. destruct (chan_send cap_transport m (t_send t)) as [q|] eqn:E; [|done].
    injection Hs as <-. apply chan_send_ok in E as ->. apply (tcp_inv_ends ls _ w); try done.
    + intros i'. rewrite (queue_of_set _ _ _ _ _ _ Ht). unfold tcp_sent. rewrite omap_app. simpl.
      destruct (decide (i' = i)) as [->|Hne]; [|exists []; rewrite !app_nil_r; by split_and!].
      exists [m]. rewrite (queue_of_at _ _ _ _ Ht). split_and!; [done..|by constructor].
    + intros j. rewrite (queue_of_set _ _ _ _ _ _ Ht). unfold tcp_received. rewrite omap_app, app_nil_r. f_equal.
      case_decide; [|done]. subst. by rewrite (queue_of_at _ _ _ _ Ht).
  - unfold Recv in Hr. destruct (t_recv t) as [|m' q] eqn:E; [done|]. injection Hr as -> <-.
    apply (tcp_inv_ends ls _ w); try done.
    + intros i. exists []. rewrite !app_nil_r. split_and!; [by apply sent_other| |constructor].
      rewrite (queue_of_set _ _ _ _ _ _ Ht). case_decide; [|done]. subst. by rewrite (queue_of_at _ _ _ _ Ht).
    + intros j'. rewrite (queue_of_set _ _ _ _ _ _ Ht). unfold tcp_received. rewrite omap_app. simpl.
      destruct (decide (j = j')) as [->|Hne].
      * rewrite decide_True by done. by rewrite (queue_of_at _ _ _ _ Ht), E, <- app_assoc.
      * rewrite decide_False by congruence. by rewrite app_nil_r.
  - unfold Close in Hc. destruct (t_closed t); [done|]. injection Hc as <-. apply (tcp_inv_ends ls _ w); try done.
    + intros i'. exists []. rewrite !app_nil_r. split_and!; [by apply sent_other| |constructor].
      rewrite (queue_of_set _ _ _ _ _ _ Ht). case_decide; [|done]. subst. by rewrite (queue_of_at _ _ _ _ Ht).
    + intros j. rewrite (queue_of_set _ _ _ _ _ _ Ht), Hrecv. case_decide; [|done]. subst. by rewrite (queue_of_at _ _ _ _ Ht).
  - by eapply inv_dial.
  - unfold tcp_Listen in Hd. destruct (tw_listening w !! _); [done|]. injection Hd as <-.
    apply (tcp_inv_ends ls _ w); try done; [|by intros j; rewrite Hrecv].
    intros i'. exists []. rewrite !app_nil_r. split_and!; [by apply sent_other|done|constructor].
  - by eapply path_take.
  - by eapply inv_write.
  - by eapply inv_finish.
  - by apply inv_arrive.
  - by apply inv_break.
  - by eapply inv_read.
  - by eapply inv_put.
Qed.

Lemma inv_run ls w : Forall sends_encodable ls → tcp_run ls w → tcp_inv ls w.
Proof.
  intros Hs Hrun. induction Hrun as [|ls l w w' Hrun IH Hstep].
  - split; unfold queue_of; simpl; done.
  - apply Forall_app in Hs as [Hs Hl]. inversion Hl; subst. eapply inv_step; [by apply IH|done|done].
Qed.
End tcp_fifo.

(** What decoding a stream of bytes to its end gives. *)
Inductive decodes {M : Type} `{Gob M} : decoder → list Z → list M → Prop :=
  | decodes_end d bs : Decode d bs = Need → decodes d bs []
  | decodes_next d bs m n d' ms : Decode d bs = Got m n d' → decodes d' (drop n bs) ms → decodes d bs (m :: ms).

Lemma encodes_decodes {M : Type} {GB : Gob M} {GL : GobLaws M} e0 d ms e bs :
  synced e0 d → encodes e0 ms e bs → decodes d bs (wire_form <$> ms).
Proof.
  revert e0 d bs. induction ms as [|m ms IH]; intros e0 d bs Hs; simpl.
  - intros [_ ->]. constructor. by eapply decode_empty.
  - intros (e1 & b1 & b2 & He & Hrest & ->). destruct (decode_all e0 d m e1 b1 b2 Hs He) as (d' & Hd & Hs').
    econstructor; [exact Hd|]. rewrite drop_app_length. by eapply IH.
Qed.

(** [C36] The TCP transport is a first-in-first-out connection, up to the end of what
    it delivers.  In every run of the program, the goroutines and the network, in
    which the messages that are sent can be encoded, let [c] be the only connection of
    its sender.  What was handed to the receiving transport from [c] is a prefix of what
    was sent, each message in the form it has on the wire (pointers replaced by what they
    point to, channels left out); while the connection is up, the rest is, in this order, in
    the hand of the reading goroutine, in the bytes under way, in the hand of the writing
    goroutine and in the channel of the sender.  And a receiver gets what was handed to it,
    in order. *)
Theorem tcp_fifo {M : Type} {GB : Gob M} {GL : GobLaws M} {UP : URLParser} ls (w : tcp_world M) k c t j tj :
  Forall sends_encodable ls → tcp_run ls w → tw_conns w !! k = Some c → only w k c →
  tw_transports w !! c_from c = Some t → tw_transports w !! j = Some tj →
  delivered k ls `prefix_of` (wire_form <$> tcp_sent (c_from c) ls)
  ∧ (c_up c = true → ∃ ms, decodes (c_dec c) (c_got c ++ c_sent c) (wire_form <$> ms)
      ∧ wire_form <$> tcp_sent (c_from c) ls
        = delivered k ls ++ option_list (c_hand c) ++ (wire_form <$> ms ++ option_list (c_out c) ++ t_send t))
  ∧ tcp_received j ls ++ t_recv tj = delivered_to j ls.
Proof.
  intros Hs Hrun Hk Ho Ht Htj. pose proof (inv_run ls w Hs Hrun) as I.
  destruct (ti_path _ _ I k c Hk) as (e0 & ms & e & bs & H1 & H2 & H3 & H4).
  destruct (H4 Ho) as (past & more & Hm & Hpast & Hup). split_and!.
  - rewrite Hm, fmap_app, <- Hpast, <- app_assoc. by eexists.
  - intros Hc. rewrite Hc in H3. destruct H3 as [-> ->]. exists ms. split; [by eapply encodes_decodes|].
    rewrite Hm, fmap_app, <- Hpast, (Hup Hc), (queue_of_at _ _ _ _ Ht). by rewrite <- app_assoc.
  - rewrite <- (queue_of_at t_recv _ _ _ Htj). apply I.
Qed.

(** A goroutine that reads from a connection that is down or at its end never
    returns as long as its own transport is open: it goes round for ever, and
    nothing is delivered. *)
Lemma tcp_reader_spins {M : Type} {GB : Gob M} (c : conn M) :
  c_hand c = None → c_returned c = false → Decode (c_dec c) (c_got c) = Need →
  (c_up c = false ∨ c_fin c = true ∧ c_sent c = []) → tcp_read false c = Some c.
Proof.
  intros Hh Hr Hd Hdown. unfold tcp_read. rewrite Hh, Hr, Hd.
  destruct Hdown as [->|[-> ->]]; [done|]. by rewrite bool_decide_eq_true_2, andb_false_r.
Qed.

(** ** UDP (lines 172-232) *)
Section udp.
Context {M : Type} {GB : Gob M}.

Definition packet_size : nat := Z.to_nat 1500.

(** Line 213. *)
Definition new_packet : list Z := replicate packet_size 0.

(** Lines 176-184: an address that does not resolve exits. *)
Definition udp_Dial (resolved : bool) (dialled : result ()) : outcome (result ()) :=
  if resolved then Ok dialled else Fault FatalExit.

(** Lines 203-213: an address that does not resolve or is in use exits; else the
    reading goroutine starts with an empty buffer. *)
Definition udp_Listen (resolved bound : bool) : outcome (list Z) :=
  if resolved && bound then Ok new_packet else Fault FatalExit.

(** Lines 190-196: a fresh encoder for every message.  Its error is not looked at:
    the datagram is whatever was written; [fits] is whether the network takes a
    datagram of this size. *)
Definition udp_write (fits : nat → bool) (m : M) : option (list Z) :=
  let '(_, bs, _) := Encode NewEncoder m in
  if fits (length bs) then Some bs else None.

(** Line 220: a datagram is copied over the front of the buffer, and cut. *)
Definition udp_fill (packet dgram : list Z) : list Z :=
  take packet_size dgram ++ drop (length (take packet_size dgram)) packet.

(** Lines 225-228: the whole buffer is decoded; an error leaves [nil]. *)
Definition udp_decode (nil : M) (packet : list Z) : M :=
  match Decode NewDecoder packet with Got m _ _ => m | _ => nil end.

(** One round of the loop of lines 215-230: the new buffer and the message. *)
Definition udp_read (nil : M) (packet dgram : list Z) : list Z * M :=
  let packet := udp_fill packet dgram in (packet, udp_decode nil packet).

(** The datagrams that are read, in the order in which the network delivers them. *)
Fixpoint udp_read_all (nil : M) (packet : list Z) (ds : list (list Z)) : list M :=
  match ds with
  | [] => []
  | d :: ds => let '(packet, m) := udp_read nil packet d in m :: udp_read_all nil packet ds
  end.

Lemma udp_fill_length packet d : length packet = packet_size → length (udp_fill packet d) = packet_size.
Proof. intros Hp. unfold udp_fill. rewrite length_app, length_drop, length_take. lia. Qed.
End udp.

Section udp_laws.
Context {M : Type} {GB : Gob M} {GL : GobLaws M} (nil : M).

(** A datagram that fits is decoded whatever the buffer held before. *)
Lemma udp_read_fits packet m e bs :
  Encode NewEncoder m = (e, bs, None) → (length bs ≤ packet_size)%nat → (udp_read nil packet bs).2 = wire_form m.
Proof.
  intros He Hle. unfold udp_read, udp_decode, udp_fill. simpl. rewrite take_ge by done.
  destruct (decode_all NewEncoder NewDecoder m e bs (drop (length bs) packet) synced_new He) as (d & -> & _). done.
Qed.

(** A longer one is cut and read as [nil]. *)
Lemma udp_read_cut packet m e bs :
  length packet = packet_size → Encode NewEncoder m = (e, bs, None) → (packet_size < length bs)%nat →
  (udp_read nil packet bs).2 = nil.
Proof.
  intros Hp He Hlt. unfold udp_read, udp_decode, udp_fill. simpl.
  rewrite length_take, Nat.min_l, drop_ge, app_nil_r by lia.
  rewrite (decode_part NewEncoder NewDecoder m e bs (take packet_size bs)); [done|apply synced_new|done| |].
  - exists (drop packet_size bs). by rewrite take_drop.
  - intros E. apply (f_equal length) in E. rewrite length_take in E. lia.
Qed.
End udp_laws.

(** What a message is received as. *)
Definition udp_image {M : Type} {GB : Gob M} {GL : GobLaws M} (nil m : M) : M :=
  let '(_, bs, _) := Encode NewEncoder m in
  if decide (length bs ≤ packet_size)%nat then wire_form m else nil.

Lemma udp_read_all_image {M : Type} {GB : Gob M} {GL : GobLaws M} (nil : M) fits ms ds packet :
  Forall encodable ms → length packet = packet_size → Forall2 (λ m d, udp_write fits m = Some d) ms ds →
  udp_read_all nil packet ds = udp_image nil <$> ms.
Proof.
  intros Hms Hp Hds. revert packet Hp Hms. induction Hds as [|m d ms ds Hd Hds IH]; intros packet Hp Hms; [done|].
  inversion Hms as [|? ? Hm Hms']; subst. destruct (encode_ok NewEncoder m Hm) as (e & bs & He).
  unfold udp_write in Hd. rewrite He in Hd. destruct (fits (length bs)); [|done]. injection Hd as <-.
  rewrite fmap_cons. unfold udp_read_all; fold (@udp_read_all M GB).
  change (udp_read nil packet bs) with (udp_fill packet bs, udp_decode nil (udp_fill packet bs)). cbn beta iota.
  f_equal; [|by apply IH; [apply udp_fill_length|]]. unfold udp_image. rewrite He. case_decide.
  - by apply (udp_read_fits nil packet m e bs).
  - apply (udp_read_cut nil packet m e bs); [done..|lia].
Qed.

(** UDP.  A transport listens and reads the datagrams [ds], written for the
    messages [ms] of registered types, in whatever order, with whatever losses and
    repetitions they arrive.  Each is received as the wire form of its message if its encoding fits into
    1500 bytes, although the buffer still holds the rest of an earlier datagram; and as
    [nil] if not. *)
Theorem udp_receives {M : Type} {GB : Gob M} {GL : GobLaws M} (nil : M) fits resolved bound packet ms ds :
  Forall encodable ms → udp_Listen resolved bound = Ok packet →
  Forall2 (λ m d, udp_write fits m = Some d) ms ds →
  udp_read_all nil packet ds = udp_image nil <$> ms.
Proof.
  intros Hms Hl. apply udp_read_all_image; [done|]. unfold udp_Listen in Hl.
  destruct (resolved && bound); [|done]. injection Hl as <-. apply length_replicate.
Qed.

(** A value that the encoder refuses before it has written anything is sent as an
    empty datagram, and the receiver takes the previous message once more. *)
Lemma udp_repeats {M : Type} {GB : Gob M} (nil : M) packet d m :
  (Encode NewEncoder m).1.2 = [] →
  (udp_read nil (udp_read nil packet d).1 (Encode NewEncoder m).1.2).2 = (udp_read nil packet d).2.
Proof. intros Hm. by rewrite Hm. Qed.

(** A node that receives the [nil] of a message that was cut stops with a panic. *)
Lemma cut_message_panics `{URLParser, GoRange} {R : Type} Strategy (n : node R) :
  n_isByz n = false → MessageChan n = [] →
  (recv Strategy ANil;; handle) n = Fault ExplicitPanic.
Proof.
  intros Hb Hc. unfold recv, handle. unfold mbind, prog_bind. simpl. rewrite Hb. simpl. rewrite Hc. simpl. done.
Qed.

(** ** A concrete encoding and a run

    A message is a list of numbers, encoded as the number of its bytes and its bytes;
    negative numbers stand for what the encoding leaves out. *)
Definition sample_form (m : list Z) : list Z := filter (λ x, 0 ≤ x) m.
#[local] Instance sample_gob : Gob (list Z) :=
  {| encoder := (); decoder := (); NewEncoder := (); NewDecoder := ();
     Encode _ m := ((), Z.of_nat (length (sample_form m)) :: sample_form m, None);
     Decode _ bs :=
       match bs with
       | [] => Need
       | n :: r => if decide (Z.to_nat n ≤ length r)%nat then Got (take (Z.to_nat n) r) (S (Z.to_nat n)) () else Need
       end |}.

#[local] Instance sample_gob_laws : GobLaws (list Z).
Proof.
  refine {| synced _ _ := True; encodable _ := True; wire_form := sample_form |}; try done.
  - intros e m _. by eexists _, _.
  - intros e d m e' bs rest _ [= <- <-]. exists (). simpl. rewrite Nat2Z.id. split; [|done].
    rewrite decide_True by (rewrite length_app; lia). by rewrite take_app_length.
  - intros e d m e' bs p _ [= <- <-] [r Hr] Hne. revert Hr Hne. generalize (sample_form m). intros l Hr Hne.
    destruct p as [|n p]; [done|]. simpl in Hr. injection Hr as <- ->. simpl.
    rewrite Nat2Z.id, decide_False; [done|]. rewrite length_app. intros Hle.
    destruct r as [|x r]; [rewrite app_nil_r in Hne; done|simpl in Hle; lia].
Defined.

#[local] Existing Instance sample_url.

(** The operations of the run, each with its label. *)
Inductive tcp_op :=
  | PNew | PListen (i : nat) | PDial (i : nat) | PSend (i : nat) (m : list Z) | PRecv (i : nat)
  | PTake (k : nat) | PWrite (k : nat) | PArrive (n k : nat) | PRead (k : nat) | PPut (k : nat).

Definition tcp_do (o : tcp_op) (w : tcp_world (list Z)) : option (tcp_label (list Z) * tcp_world (list Z)) :=
  match o with
  | PNew => match NewTransport "tcp" "tcp://h" with
            | Ok t => Some (TOther, MkTcp (tw_transports w ++ [t]) (tw_listening w) (tw_conns w))
            | Fault _ => None end
  | PListen i => t ← tw_transports w !! i; match tcp_Listen i t w with Ok w' => Some (TOther, w') | Fault _ => None end
  | PDial i => t ← tw_transports w !! i; Some (TOther, (tcp_Dial true i t w).1)
  | PSend i m => t ← tw_transports w !! i; o ← Send m t;
      match o with Ok t' => Some (TSend i m, tw_set i t' w) | Fault _ => None end
  | PRecv i => t ← tw_transports w !! i; '(m, t') ← Recv t; Some (TRecv i m, tw_set i t' w)
  | PTake k => c ← tw_conns w !! k; t ← tw_transports w !! c_from c; w' ← tcp_take k c t w; Some (TOther, w')
  | PWrite k => c ← tw_conns w !! k; c' ← tcp_write c; Some (TOther, tw_set_conn k c' w)
  | PArrive n k => c ← tw_conns w !! k; Some (TOther, tw_set_conn k (tcp_arrive n c) w)
  | PRead k => c ← tw_conns w !! k; t ← tw_transports w !! c_to c; c' ← tcp_read (t_closed t) c;
      Some (TOther, tw_set_conn k c' w)
  | PPut k => c ← tw_conns w !! k; t ← tw_transports w !! c_to c; '(m, w') ← tcp_put k c t w;
      Some (TDeliver (c_to c) k m, w')
  end.

Lemma tcp_do_step o w l w' : tcp_do o w = Some (l, w') → tcp_step l w w'.
Proof.
  destruct o as [|i|i|i m|i|k|k|n k|k|k]; simpl; intros Ho;
    repeat match goal with
    | H : (?x ≫= _) = Some _ |- _ => let E := fresh "E" in destruct x eqn:E; simpl in H; [|discriminate H]
    | H : (let '(_, _) := ?x in _) = Some _ |- _ => let E := fresh "E" in destruct x eqn:E
    | H : match ?x with Ok _ => _ | Fault _ => _ end = Some _ |- _ => let E := fresh "E" in destruct x eqn:E; [|discriminate H]
    end; try (injection Ho as <- <-).
  - by apply (ts_new "tcp" "tcp://h").
  - by eapply ts_listen.
  - eapply (ts_dial true i t w _ (tcp_Dial true i t w).2); [done|]. by destruct (tcp_Dial true i t w).
  - subst. by eapply ts_send.
  - by eapply ts_recv.
  - by eapply ts_take.
  - by eapply ts_write.
  - by eapply ts_arrive.
  - by eapply ts_read.
  - by eapply ts_put.
Qed.

Fixpoint tcp_exec (os : list tcp_op) (ls : list (tcp_label (list Z))) (w : tcp_world (list Z))
  : option (list (tcp_label (list Z)) * tcp_world (list Z)) :=
  match os with
  | [] => Some (ls, w)
  | o :: os => '(l, w) ← tcp_do o w; tcp_exec os (ls ++ [l]) w
  end.

Lemma tcp_exec_run os ls w ls' w' : tcp_run ls w → tcp_exec os ls w = Some (ls', w') → tcp_run ls' w'.
Proof.
  revert ls w. induction os as [|o os IH]; intros ls w Hrun; simpl; [by intros [= <- <-]|].
  destruct (tcp_do o w) as [[l w1]|] eqn:Ho; simpl; [|done]. apply IH. eapply tr_snoc; [done|].
  by apply tcp_do_step in Ho.
Qed.

(** Two messages, the second of which has arrived in part. *)
Definition tcp_ops : list tcp_op :=
  [PNew; PNew; PListen 0; PDial 1; PSend 1 [7; -2]; PSend 1 [8; -1; 9]; PTake 0; PWrite 0; PTake 0; PWrite 0;
   PArrive 4 0; PRead 0; PPut 0; PSend 1 [10]].
Definition tcp_sample : list (tcp_label (list Z)) * tcp_world (list Z) :=
  default ([], MkTcp [] ∅ []) (tcp_exec tcp_ops [] (MkTcp [] ∅ [])).

Lemma tcp_fifo_witness :
  tcp_sent 1 tcp_sample.1 = [[7; -2]; [8; -1; 9]; [10]] ∧ delivered 0 tcp_sample.1 = [[7]]
  ∧ delivered 0 tcp_sample.1 `prefix_of` (wire_form <$> tcp_sent 1 tcp_sample.1).
Proof.
  split; [by vm_compute|]. split; [by vm_compute|].
  destruct (tw_conns tcp_sample.2 !! 0%nat) as [c|] eqn:Hc; [|by vm_compute in Hc].
  destruct (tw_transports tcp_sample.2 !! 1%nat) as [t|] eqn:Ht; [|by vm_compute in Ht].
  assert (c_from c = 1%nat) as Hf by (vm_compute in Hc; by injection Hc as <-).
  rewrite <- Hf. refine (proj1 (tcp_fifo tcp_sample.1 tcp_sample.2 0 c t 1 t _ _ Hc _ _ Ht)).
  - vm_compute. repeat constructor.
  - apply (tcp_exec_run tcp_ops [] (MkTcp [] ∅ [])); [constructor|]. vm_compute. reflexivity.
  - intros k' c' Hk' _. destruct k' as [|k']; [done|]. by vm_compute in Hk'.
  - by rewrite Hf.
Defined.

Definition udp_messages : list (list Z) := [[1; 2; -1; 3]; replicate 2000 1; [4]; [4]].

Lemma udp_receives_witness :
  udp_read_all [] new_packet ((λ m, (Encode () m).1.2) <$> udp_messages) = [[1; 2; 3]; []; [4]; [4]].
Proof.
  etrans; [apply (udp_receives [] (λ _, true) true true new_packet udp_messages)|vm_compute; reflexivity];
    [repeat constructor|reflexivity|repeat constructor].
Defined.
