(* ===== verification/Protocols.v ===== *)
(** * The protocols behind a replica

    The constructor of a replica (replica.go, lines 70-120) chooses the election
    and one of five protocols.  Here each protocol is shown to keep the laws of
    file [Safety], so that the theorems of [ReplicaProps] hold for all of them,
    and the rule by which HotStuff commits is carried over to what a replica
    executes. *)
From S2P Require Import Prelude Identity Sha1 Election Db Crypto Types Quorum Forest BlockChain Pacemaker Mempool Chained Safety HotStuff HotStuffProps Tchs TchsProps Fhs Streamlet StreamletProps Lbft Replica ReplicaProps Node.

Local Open Scope Z_scope.

(** ** The laws *)

Section laws.
Context `{ReplicaEnv}.

Lemma advances_channels {RL : Rules} s s' :
  advances s s' →
  pm_reaches (pm s) (pm s') ∧ committedBlocks s `prefix_of` committedBlocks s'
  ∧ forkedBlocks s `prefix_of` forkedBlocks s'.
Proof.
  intros A. destruct (advances_mono _ _ A) as [Hp _ _ _ _ _ _].
  destruct (advances_logs _ _ A) as [h [_ _ Hc Hf _]].
  split_and!; [done|rewrite Hc; by eexists|rewrite Hf; by eexists].
Qed.

Lemma hs_block view payload s s' b :
  HotStuff.MakeProposal view payload s = Ok (s', b) →
  b_View b = view ∧ b_Proposer b = re_ID ∧ b_Payload b = payload.
Proof.
  unfold HotStuff.MakeProposal. intros Hb. invert_prog.
  match goal with Hm : MakeBlock _ _ _ _ _ _ = _ |- _ =>
    by apply MakeBlock_ok in Hm as (? & _ & _ & ? & ? & _) end.
Qed.

Lemma hs_pblock tries priori view s s' b :
  HotStuff.MakePProposal tries priori view s = Ok (s', b) →
  b_View b = view ∧ b_Proposer b = re_ID ∧ b_Payload b = [].
Proof.
  unfold HotStuff.MakePProposal. intros Hb. invert_prog.
  match goal with Hm : MakePBlock _ _ _ _ _ _ = _ |- _ =>
    by apply MakePBlock_ok in Hm as (? & _ & _ & ? & ? & _) end.
Qed.

Definition hs_laws (Hh : honest) : SafetyLaws chained (SF := hs_safety).
Proof.
  refine {| sf_inv := chained_inv |}.
  - intros cf fuel e s s' He I Hs.
    destruct (HotStuffProps.keeps_handle cf fuel e Hh He s s' () I Hs) as (I' & A & _).
    split; [done|]. destruct (advances_channels _ _ A) as (? & ? & ?). by split.
  - intros s I. apply I.
  - apply hs_block.
  - apply hs_pblock.
Defined.

Lemma tchs_block view payload s s' b :
  Tchs.MakeProposal view payload s = Ok (s', b) →
  b_View b = view ∧ b_Proposer b = re_ID ∧ b_Payload b = payload.
Proof.
  unfold Tchs.MakeProposal. intros Hb. invert_prog.
  match goal with Hm : MakeBlock _ _ _ _ _ _ = _ |- _ =>
    by apply MakeBlock_ok in Hm as (? & _ & _ & ? & ? & _) end.
Qed.

Lemma tchs_pblock tries priori view s s' b :
  Tchs.MakePProposal tries priori view s = Ok (s', b) →
  b_View b = view ∧ b_Proposer b = re_ID ∧ b_Payload b = [].
Proof.
  unfold Tchs.MakePProposal. intros Hb. invert_prog.
  match goal with Hm : MakePBlock _ _ _ _ _ _ = _ |- _ =>
    by apply MakePBlock_ok in Hm as (? & _ & _ & ? & ? & _) end.
Qed.

Definition tchs_laws : SafetyLaws chained (SF := tchs_safety).
Proof.
  refine {| sf_inv := chained_inv |}.
  - intros cf fuel e s s' He I Hs.
    destruct (tchs_handle cf fuel e He s s' () I Hs) as (I' & A & _).
    split; [done|]. destruct (advances_channels _ _ A) as (? & ? & ?). by split.
  - intros s I. apply I.
  - apply tchs_block.
  - apply tchs_pblock.
Defined.

Lemma sl_block view payload s s' b :
  Streamlet.MakeProposal view payload s = Ok (s', b) →
  b_View b = view ∧ b_Proposer b = re_ID ∧ b_Payload b = payload.
Proof.
  unfold Streamlet.MakeProposal. intros Hb. invert_prog.
  match goal with Hm : MakeBlock _ _ _ _ _ _ = _ |- _ =>
    by apply MakeBlock_ok in Hm as (? & _ & _ & ? & ? & _) end.
Qed.

Lemma sl_pblock tries priori view s s' b :
  Streamlet.MakePProposal tries priori view s = Ok (s', b) →
  b_View b = view ∧ b_Proposer b = re_ID ∧ b_Payload b = [].
Proof.
  unfold Streamlet.MakePProposal. intros Hb. invert_prog.
  match goal with Hm : MakePBlock _ _ _ _ _ _ = _ |- _ =>
    by apply MakePBlock_ok in Hm as (? & _ & _ & ? & ? & _) end.
Qed.

Lemma sl_advances_channels s s' :
  sl_advances s s' →
  pm_reaches (Streamlet.pm s) (Streamlet.pm s')
  ∧ Streamlet.committedBlocks s `prefix_of` Streamlet.committedBlocks s'
  ∧ Streamlet.forkedBlocks s `prefix_of` Streamlet.forkedBlocks s'.
Proof.
  intros A. destruct (sl_advances_logs _ _ A) as [h [_ _ Hc Hf _]].
  split_and!; [|rewrite Hc; by eexists|rewrite Hf; by eexists]. clear h Hc Hf.
  induction A as [|s1 s2 s3 [_ [Hp _]] _ IH]; [reflexivity|]. by etrans.
Qed.

Definition sl_laws : SafetyLaws Streamlet.Streamlet (SF := sl_safety).
Proof.
  refine {| sf_inv := sl_inv |}.
  - intros cf fuel e s s' He I Hs.
    destruct (sl_keeps_handle cf fuel e He s s' () I Hs) as (I' & A & _).
    split; [done|]. destruct (sl_advances_channels _ _ A) as (? & ? & ?). by split.
  - intros s I. apply I.
  - apply sl_block.
  - apply sl_pblock.
Defined.
End laws.

(** ** The choice of the protocol (replica.go, lines 76-80 and 105-118) *)

Inductive algorithm := AlgHotStuff | AlgTchs | AlgStreamlet | AlgLbft | AlgFhs.

Definition algorithm_of (alg : string) : algorithm :=
  if decide (alg = "hotstuff") then AlgHotStuff
  else if decide (alg = "tchs") then AlgTchs
  else if decide (alg = "streamlet") then AlgStreamlet
  else if decide (alg = "lbft") then AlgLbft
  else if decide (alg = "fasthotstuff") then AlgFhs
  else AlgHotStuff.

Definition NewElection (Master : string) (n : Z) : Election :=
  if decide (Master = "0") then Rotation.rotation_election (Rotation.NewRotation n)
  else Static.static_election (Static.NewStatic Master).

Definition state_of (a : algorithm) : Type :=
  match a with
  | AlgHotStuff | AlgTchs | AlgFhs => chained
  | AlgStreamlet | AlgLbft => Streamlet.Streamlet
  end.

Section choice.
Context `{ReplicaEnv}.

Definition fhs_safety : Safety chained :=
  {| sf_ProcessBlock := Fhs.ProcessBlock; sf_ProcessVote := λ _ _, Fhs.ProcessVote;
     sf_ProcessRemoteTmo := λ _ _, Fhs.ProcessRemoteTmo;
     sf_ProcessLocalTmo := λ _ _, Fhs.ProcessLocalTmo;
     sf_GetChainStatus := Fhs.GetChainStatus; sf_MakeProposal := Fhs.MakeProposal; sf_MakePProposal := Fhs.MakePProposal;
     sf_pm := pm; sf_set_pm := set_pm; sf_store := store; sf_set_store := set_store;
     sf_committed := committedBlocks; sf_forked := forkedBlocks; sf_goroutine := λ _, mret () |}.

Definition lbft_safety : Safety Streamlet.Streamlet :=
  {| sf_ProcessBlock := Lbft.ProcessBlock; sf_ProcessVote := Lbft.ProcessVote;
     sf_ProcessRemoteTmo := λ _ _, Lbft.ProcessRemoteTmo;
     sf_ProcessLocalTmo := λ _ _, Lbft.ProcessLocalTmo;
     sf_GetChainStatus := Lbft.GetChainStatus; sf_MakeProposal := Lbft.MakeProposal; sf_MakePProposal := Lbft.MakePProposal;
     sf_pm := Streamlet.pm; sf_set_pm := Streamlet.set_pm; sf_store := Streamlet.store;
     sf_set_store := Streamlet.set_store; sf_committed := Streamlet.committedBlocks;
     sf_forked := Streamlet.forkedBlocks; sf_goroutine := Streamlet.run_async |}.

#[global] Instance safety_of (a : algorithm) : Safety (state_of a) :=
  match a with
  | AlgHotStuff => hs_safety
  | AlgTchs => tchs_safety
  | AlgStreamlet => sl_safety
  | AlgLbft => lbft_safety
  | AlgFhs => fhs_safety
  end.

Definition new_state (a : algorithm) (pm : Pacemaker) : state_of a :=
  match a with
  | AlgHotStuff => HotStuff.NewHotStuff pm
  | AlgTchs => Tchs.NewTchs pm
  | AlgStreamlet => Streamlet.NewStreamlet pm
  | AlgLbft => Lbft.NewLbft pm
  | AlgFhs => Fhs.NewFhs pm
  end.

Definition NewReplica_for `{BitSet} (a : algorithm) (MemSize : Z) : Replica (state_of a) :=
  NewReplica MemSize (new_state a (NewPacemaker re_N)).

(** Every protocol keeps the laws, and starts in a state with the invariant. *)
Definition laws_of (Hh : honest) (a : algorithm) : SafetyLaws (state_of a) :=
  match a with
  | AlgHotStuff => hs_laws Hh
  | AlgTchs => tchs_laws
  | AlgStreamlet => sl_laws
  | AlgLbft => sl_laws
  | AlgFhs => tchs_laws
  end.

Lemma new_state_ok (Hh : honest) a :
  sf_inv (SafetyLaws := laws_of Hh a) (new_state a (NewPacemaker re_N))
  ∧ paced (sf_pm (new_state a (NewPacemaker re_N))).
Proof.
  destruct a; (split; [|first [apply paced_new|apply paced_advance; [done|apply paced_new]]]).
  - apply HotStuffProps.initial_inv.
  - apply tchs_initial_inv.
  - apply sl_initial_inv.
  - apply sl_initial_inv.
  - apply tchs_initial_inv.
Qed.

(** [C27] Whatever protocol is configured, a replica that does not run the forking
    attack proposes only as the leader; its proposals are in increasing views, so at
    most one in a view, unless its view has wrapped around past the largest 64-bit
    integer, which one accepted certificate of the largest view brings about and after
    which only the leadership is claimed; and it hands to Phalanx, in order and each once, the
    batches of the blocks that its protocol has committed. *)
Theorem any_replica_proposes_and_executes `{BitSet} alg MemSize BSize
    (r : Replica (state_of (algorithm_of alg))) :
  honest → rep_run BSize (NewReplica_for (algorithm_of alg) MemSize) r →
  Forall (λ b, b_Proposer b = re_ID ∧ IsLeader re_ID (b_View b) = Ok true) (sent r).*1
  ∧ (wrapped (sf_pm (safety r)) ∨ increasing (b_View <$> (sent r).*1))
  ∧ batches (phalanx r) = omap b_PBatch (take (committed_read r) (sf_committed (safety r))).
Proof.
  intros Hh Hrun. destruct (new_state_ok Hh (algorithm_of alg)) as [Hi Hp].
  destruct (rep_run_keeps (SL := laws_of Hh (algorithm_of alg)) BSize _ _
    (rep_inv_new MemSize _ Hi Hp) Hrun) as [[_ [_ _ Hord] _ Hv Hled (_ & _ & _ & Hb) _] _].
  split_and!; [done| |done]. destruct Hord as [Hw|[Hinc _]]; [by left|right].
  eapply increasing_sublist; [by eapply views_inv_sublist|done].
Qed.

(** [C26] What a HotStuff replica executes was committed by the three-chain rule.  In
    every run of an honest replica, each of its calls of the protocol being one step, the
    batches handed to Phalanx are, in order, those of the blocks read so far from the
    committed channel, which are a prefix of the recorded commits; and each recorded
    commit obeys the three-chain rule in the very state before it: an accepted
    certificate (one whose signatures verify, or that names the replica in its unsigned
    [Leader] field), the certified block, its parent and its grandparent in the forest
    with consecutive views, and the walk from the grandparent. *)
Theorem hotstuff_replica_executes_three_chains `{BitSet} MemSize BSize (r : Replica chained) :
  honest → rep_run (SF := hs_safety) BSize (NewReplica_for AlgHotStuff MemSize) r →
  batches (phalanx r)
    = omap b_PBatch (take (committed_read r) (concat (batches_in (deeds (safety r)))))
  ∧ ∀ sm qc carrier c f, (sm, Committed qc carrier c f) ∈ deeds (safety r) →
      chained_inv sm ∧ HotStuff.three_chain sm qc c.
Proof.
  intros Hh Hrun. destruct (new_state_ok Hh AlgHotStuff) as [Hi Hp].
  destruct (rep_run_keeps (SL := hs_laws Hh) BSize _ _ (rep_inv_new MemSize _ Hi Hp) Hrun)
    as [[_ _ _ _ _ (_ & _ & _ & Hb) _] Href].
  destruct (HotStuffProps.hs_run_logs _ Hh Href) as [_ _ E3 _ E5]. simpl in E3. rewrite <- E3.
  split; [exact Hb|]. intros sm qc w c f Hin. rewrite Forall_forall in E5.
  by destruct (E5 _ Hin) as [? [_ ?]].
Qed.
End choice.

(** ** Runs of the sample environment *)

Section sample.
Context (E : ReplicaEnv).

Definition sample_replica : Replica (H0 := sample_bitset) chained :=
  NewReplica_for (H0 := sample_bitset) AlgHotStuff 10.

Definition run_action (r : Replica (H0 := sample_bitset) chained) (a : action)
  : outcome (Replica (H0 := sample_bitset) chained) :=
  '(r', _) ← act (SF := hs_safety) 10 10 1 a r; mret r'.

Fixpoint run_actions (r : Replica (H0 := sample_bitset) chained) (l : list action)
  : option (Replica (H0 := sample_bitset) chained) :=
  match l with
  | [] => Some r
  | a :: l => match run_action r a with Ok r' => run_actions r' l | Fault _ => None end
  end.

Lemma run_actions_reachable r l r' :
  Forall typed_action l → run_actions r l = Some r' → rep_run (SF := hs_safety) 1 r r'.
Proof.
  intros Hl. revert r. induction Hl as [|a l Ha _ IH]; intros r Hr; simpl in Hr.
  - injection Hr as <-. apply rtc_refl.
  - destruct (run_action r a) as [r1|] eqn:E1; [|done]. eapply rtc_l; [|by apply IH].
    unfold run_action in E1. apply outcome_bind_ok in E1 as ([r2 []] & E1 & E2).
    injection E2 as <-. by exists 10%nat, 10%nat, a.
Qed.
End sample.

Lemma typed_actions l : bool_decide (Forall typed_action l) = true → Forall typed_action l.
Proof. apply bool_decide_eq_true_1. Qed.

(** Replica 1 of the sample environment follows the leader 2: it receives four
    blocks with batches, and reads the first committed one. *)
Definition batch_block (v : Z) : Block :=
  MkBlock v None "2" 0 [] (Z.to_N (v - 1)) (sample_sig (Z.to_N v)) (Z.to_N v) (Some (Z.to_N (100 + v))).
Definition follow (n : nat) : list action :=
  let v := Z.of_nat n in [Receive (MsgBlock (batch_block v) (Some (chain_qc (v - 1)))); LoopMsg 0].
Definition follower_actions : list action :=
  follow 1 ++ follow 2 ++ follow 3 ++ follow 4 ++ [ListenCommitted false].
Definition follower : Replica (H0 := sample_bitset) chained :=
  default (sample_replica sample_env) (run_actions sample_env (sample_replica sample_env) follower_actions).

(** Replica 1 leads every view: a transaction kicks it off, it proposes for view 1,
    two more votes certify the block, and it proposes for view 2 with a batch. *)
Definition leader_env : ReplicaEnv :=
  {| re_crypto := sample_crypto; re_range := canonical_range;
     re_election := NewElection "1" 4;
     re_ID := "1"; re_IsByz := false; re_Strategy := "silence"; re_N := 4 |}.
Definition first_id : Identifier :=
  match @HotStuff.MakeProposal leader_env 1 [] (@HotStuffProps.initial leader_env) with
  | Ok (_, b) => b_ID b
  | Fault _ => 0%N
  end.
Definition next_proposal (now : Z) : list action := [ListenView; LoopView 3 (λ _, Some 7%N) now].
Definition leader_vote (voter : NodeID) : list action :=
  [Receive (MsgVote (MkVote 1 voter first_id (sample_sig first_id))); LoopMsg 0].
Definition leader_actions : list action :=
  [Receive (MsgTxn (sample_tx "a"))] ++ next_proposal 5 ++ leader_vote "2" ++ leader_vote "3"
  ++ next_proposal 6.
Definition leader : Replica (H0 := sample_bitset) chained :=
  default (sample_replica leader_env) (run_actions leader_env (sample_replica leader_env) leader_actions).

Lemma follower_reachable :
  @rep_run sample_env sample_bitset chained (@hs_safety sample_env) 1 (sample_replica sample_env) follower.
Proof.
  apply (run_actions_reachable sample_env _ follower_actions).
  - apply typed_actions. vm_compute. reflexivity.
  - vm_compute. reflexivity.
Qed.

Lemma leader_reachable :
  @rep_run leader_env sample_bitset chained (@hs_safety leader_env) 1 (sample_replica leader_env) leader.
Proof.
  apply (run_actions_reachable leader_env _ leader_actions).
  - apply typed_actions. vm_compute. reflexivity.
  - vm_compute. reflexivity.
Qed.

Lemma leader_honest : @honest leader_env.
Proof. by left. Qed.

Lemma replica_refines_protocol_witness :
  curView_of (safety follower) = 4
  ∧ @HotStuffProps.hs_run sample_env (@HotStuffProps.initial sample_env) (safety follower).
Proof.
  split; [vm_compute; reflexivity|].
  exact (proj1 (@replica_refines_protocol sample_env sample_bitset chained (@hs_safety sample_env)
           (@hs_laws sample_env sample_honest) 1 10 (@HotStuffProps.initial sample_env)
           (@HotStuffProps.initial_inv sample_env) (paced_new 4) follower follower_reachable)).
Defined.

Lemma replica_proposals_increase_witness :
  b_View <$> (sent leader).*1 = [1; 2]
  ∧ (wrapped (@sf_pm _ (@hs_safety leader_env) (safety leader)) ∨ increasing (b_View <$> (sent leader).*1)).
Proof.
  split; [vm_compute; reflexivity|].
  exact (proj2 (@replica_proposals_increase leader_env sample_bitset chained (@hs_safety leader_env)
           (@hs_laws leader_env leader_honest) 1 10 (@HotStuffProps.initial leader_env)
           (@HotStuffProps.initial_inv leader_env) (paced_new 4) leader leader_reachable)).
Defined.

Lemma replica_executes_in_order_witness :
  batches (phalanx follower) = [101%N] ∧ length (committedBlocks (safety follower)) = 1%nat
  ∧ committedNo (counters follower)
    = int64 (Z.of_nat (length (take (committed_read follower) (committedBlocks (safety follower))))).
Proof.
  split; [vm_compute; reflexivity|]. split; [vm_compute; reflexivity|].
  exact (proj1 (proj2 (proj2 (@replica_executes_in_order sample_env sample_bitset chained (@hs_safety sample_env)
           (@hs_laws sample_env sample_honest) 1 10 (@HotStuffProps.initial sample_env)
           (@HotStuffProps.initial_inv sample_env) (paced_new 4) follower follower_reachable)))).
Defined.

(** Replica 1 leads view 2 and replica 2 the other views.  Replica 1 receives a block of
    its own for view 2, with a transaction, three timeout messages for that view, and a
    chain of blocks for the views 1, 3, 4, 5 and 6; the last of them commits the block of
    view 3, which makes the block of view 2 a fork, and the replica collects it. *)
Definition fork_turn (view : Z) : NodeID := if decide (view = 2) then "1" else "2".
Definition fork_env : ReplicaEnv :=
  {| re_crypto := sample_crypto; re_range := canonical_range;
     re_election := {| IsLeader := λ id view, Ok (bool_decide (id = fork_turn view));
                       FindLeaderFor := λ view, Ok (fork_turn view) |};
     re_ID := "1"; re_IsByz := false; re_Strategy := "silence"; re_N := 4 |}.
Definition fork_block (view prev : Z) (payload : list Transaction) : list action :=
  let id := Z.to_N view in
  [Receive (MsgBlock (MkBlock view None (fork_turn view) 0 payload (Z.to_N prev) (sample_sig id) id None)
              (Some (chain_qc prev))); LoopMsg 0].
Definition fork_tmo (id : NodeID) : list action := [Receive (MsgTmo 2 id (Some (chain_qc 1))); LoopMsg 0].
Definition fork_actions : list action :=
  fork_block 1 0 [] ++ fork_block 2 1 [sample_tx "a"] ++ fork_tmo "2" ++ fork_tmo "3" ++ fork_tmo "4"
  ++ fork_block 3 1 [] ++ fork_block 4 3 [] ++ fork_block 5 4 [] ++ fork_block 6 5 [] ++ [ListenForked].
Definition forker : Replica (H0 := sample_bitset) chained :=
  default (sample_replica fork_env) (run_actions fork_env (sample_replica fork_env) fork_actions).

Lemma forker_reachable :
  @rep_run fork_env sample_bitset chained (@hs_safety fork_env) 1 (sample_replica fork_env) forker.
Proof.
  apply (run_actions_reachable fork_env _ fork_actions).
  - apply typed_actions. vm_compute. reflexivity.
  - vm_compute. reflexivity.
Qed.

Lemma fork_honest : @honest fork_env.
Proof. by left. Qed.

Lemma replica_pool_conserved_witness :
  txns (H := sample_bitset) (pd forker) = [sample_tx "a"]
  ∧ b_ID <$> take (forked_read forker) (@sf_forked _ (@hs_safety fork_env) (safety forker)) = [2%N]
  ∧ concat (b_Payload <$> (sent forker).*1) ++ txns (H := sample_bitset) (pd forker)
    ≡ₚ concat (b_Payload <$> filter (λ b, b_Proposer b = @re_ID fork_env)
         (take (forked_read forker) (@sf_forked _ (@hs_safety fork_env) (safety forker)))).
Proof.
  split; [vm_compute; reflexivity|]. split; [vm_compute; reflexivity|].
  exact (@replica_pool_conserved fork_env sample_bitset chained (@hs_safety fork_env)
           (@hs_laws fork_env fork_honest) 1 10 (@HotStuffProps.initial fork_env)
           (@HotStuffProps.initial_inv fork_env) (paced_new 4) forker forker_reachable).
Defined.

Lemma any_replica_proposes_and_executes_witness :
  algorithm_of "hotstuff" = AlgHotStuff ∧ length (sent leader) = 2%nat
  ∧ Forall (λ b, b_Proposer b = @re_ID leader_env
              ∧ @IsLeader (@re_election leader_env) (@re_ID leader_env) (b_View b) = Ok true)
      (sent leader).*1.
Proof.
  split; [vm_compute; reflexivity|]. split; [vm_compute; reflexivity|].
  exact (proj1 (@any_replica_proposes_and_executes leader_env sample_bitset "hotstuff" 10 1 leader
           leader_honest leader_reachable)).
Defined.

Lemma hotstuff_replica_executes_three_chains_witness :
  batches (phalanx follower) = [101%N]
  ∧ fmap (M:=list) b_ID <$> batches_in (deeds (safety follower)) = [[1%N]]
  ∧ ∀ sm qc carrier c f, (sm, Committed qc carrier c f) ∈ deeds (safety follower) →
      @HotStuff.three_chain sample_env sm qc c.
Proof.
  split; [vm_compute; reflexivity|]. split; [vm_compute; reflexivity|]. intros sm qc carrier c f Hin.
  destruct (@hotstuff_replica_executes_three_chains sample_env sample_bitset 10 1 follower
              sample_honest follower_reachable) as [_ Hc]. apply (Hc sm qc carrier c f Hin).
Defined.

(** A vote that reaches a node over the wire, as a pointer, is handled by the
    replica. *)
Lemma node_delivers_to_replica_witness :
  ∃ n', @register_all sample_env sample_bitset _ (@hs_safety sample_env) (wire_node (@sample_replica sample_env)) = Ok (n', ())
    ∧ dispatch (gob (APointer (AVote wire_vote))) n'
      = on_handler (@receive sample_env sample_bitset _ (@hs_safety sample_env) (MsgVote wire_vote)) n'.
Proof.
  destruct (@node_delivers_to_replica sample_env sample_bitset _ (@hs_safety sample_env) (wire_node (@sample_replica sample_env))
              (MsgVote wire_vote) eq_refl) as (n' & H1 & _ & H2 & _).
  exists n'. split; [exact H1|exact H2].
Defined.
