(* ===== verification/Timed.v ===== *)
(** * The replica with its clock ([src/replica/replica.go])

    The replica of file [Replica], together with what it does with time: the timer
    of the view, the durations it adds up, and the report of [handleQuery].  The
    state is a node whose handler is the replica, and the fields that hold times.

    An action is given the values [clock 0], [clock 1], ... that [time.Now] returns
    during it, in nanoseconds.  The zero value of a Go time is [None].  A duration is
    a 64-bit integer: [Sub_time] saturates, sums wrap.

    The timer is that of the Go version the module is for (go.mod, 1.14): its channel
    holds one value, and [Reset] does not empty it. *)
From S2P Require Import Prelude Float64 Format Identity Sha1 Election Db Crypto Types Quorum Forest BlockChain Pacemaker Mempool Chained Safety Replica Node.
From Stdlib Require Import SpecFloat.

Local Open Scope Z_scope.

(** Where the listener of local events is: not yet started, before the [Reset] of
    line 273, or at the [select] of line 276. *)
Inductive listener := LOff | LReset | LSelect.
#[global] Instance listener_eq_dec : EqDecision listener.
Proof. solve_decision. Defined.

(** The fields of lines 41 and 47-57. *)
Record times := MkTimes {
  listening : listener;
  deadline : option Z;
  tick : bool;
  thrus : string;
  lastViewTime : option Z;
  startTime : option Z;
  voteStart : option Z;
  totalCreateDuration : Z;
  totalProcessDuration : Z;
  totalProposeDuration : Z;
  totalRoundTime : Z;
  totalVoteTime : Z
}.
Definition zero_times : times := MkTimes LOff None false "" None None None 0 0 0 0 0.

Definition set_listening (x : listener) (t : times) : times :=
  MkTimes x (deadline t) (tick t) (thrus t) (lastViewTime t) (startTime t) (voteStart t)
    (totalCreateDuration t) (totalProcessDuration t) (totalProposeDuration t) (totalRoundTime t) (totalVoteTime t).
Definition set_timer (d : option Z) (c : bool) (t : times) : times :=
  MkTimes (listening t) d c (thrus t) (lastViewTime t) (startTime t) (voteStart t)
    (totalCreateDuration t) (totalProcessDuration t) (totalProposeDuration t) (totalRoundTime t) (totalVoteTime t).
Definition add_thrus (x : string) (t : times) : times :=
  MkTimes (listening t) (deadline t) (tick t) (thrus t ++ x) (lastViewTime t) (startTime t) (voteStart t)
    (totalCreateDuration t) (totalProcessDuration t) (totalProposeDuration t) (totalRoundTime t) (totalVoteTime t).
Definition set_lastViewTime (x : Z) (t : times) : times :=
  MkTimes (listening t) (deadline t) (tick t) (thrus t) (Some x) (startTime t) (voteStart t)
    (totalCreateDuration t) (totalProcessDuration t) (totalProposeDuration t) (totalRoundTime t) (totalVoteTime t).
Definition set_startTime (x : Z) (t : times) : times :=
  MkTimes (listening t) (deadline t) (tick t) (thrus t) (lastViewTime t) (Some x) (voteStart t)
    (totalCreateDuration t) (totalProcessDuration t) (totalProposeDuration t) (totalRoundTime t) (totalVoteTime t).
Definition set_voteStart (x : Z) (t : times) : times :=
  MkTimes (listening t) (deadline t) (tick t) (thrus t) (lastViewTime t) (startTime t) (Some x)
    (totalCreateDuration t) (totalProcessDuration t) (totalProposeDuration t) (totalRoundTime t) (totalVoteTime t).
Definition add_create (d : Z) (t : times) : times :=
  MkTimes (listening t) (deadline t) (tick t) (thrus t) (lastViewTime t) (startTime t) (voteStart t)
    (int64 (totalCreateDuration t + d)) (totalProcessDuration t) (totalProposeDuration t) (totalRoundTime t) (totalVoteTime t).
Definition add_process (d : Z) (t : times) : times :=
  MkTimes (listening t) (deadline t) (tick t) (thrus t) (lastViewTime t) (startTime t) (voteStart t)
    (totalCreateDuration t) (int64 (totalProcessDuration t + d)) (totalProposeDuration t) (totalRoundTime t) (totalVoteTime t).
Definition add_propose (d : Z) (t : times) : times :=
  MkTimes (listening t) (deadline t) (tick t) (thrus t) (lastViewTime t) (startTime t) (voteStart t)
    (totalCreateDuration t) (totalProcessDuration t) (int64 (totalProposeDuration t + d)) (totalRoundTime t) (totalVoteTime t).
Definition add_round (d : Z) (t : times) : times :=
  MkTimes (listening t) (deadline t) (tick t) (thrus t) (lastViewTime t) (startTime t) (voteStart t)
    (totalCreateDuration t) (totalProcessDuration t) (totalProposeDuration t) (int64 (totalRoundTime t + d)) (totalVoteTime t).
Definition add_vote (d : Z) (t : times) : times :=
  MkTimes (listening t) (deadline t) (tick t) (thrus t) (lastViewTime t) (startTime t) (voteStart t)
    (totalCreateDuration t) (totalProcessDuration t) (totalProposeDuration t) (totalRoundTime t) (int64 (totalVoteTime t + d)).

Section timed.
Context `{ReplicaEnv} `{BitSet} {S : Type} {SF : Safety S}.

(** Lines 29-67: the replica is the handler of its node. *)
Record timed := MkTimed { t_node : node (Replica S); t_times : times }.
Definition core (t : timed) : Replica S := n_handler (t_node t).
Definition set_core (r : Replica S) (t : timed) : timed := MkTimed (set_handler r (t_node t)) (t_times t).
Definition set_t_node (n : node (Replica S)) (t : timed) : timed := MkTimed n (t_times t).

Definition on_core {A} (m : prog (Replica S) A) : prog timed A := zoom core set_core m.
Definition on_node {A} (m : prog (node (Replica S)) A) : prog timed A := zoom t_node set_t_node m.
Definition timing (f : times → times) : prog timed () :=
  modify (λ t, MkTimed (t_node t) (f (t_times t))).

(** Lines 310-318: the clock is read here and by the node. *)
Definition timed_startSignal (clock : nat → Z) : prog timed () :=
  started ← gets (isStarted ∘ core);
  if (started : bool) then mret ()
  else
    timing (set_startTime (clock 0%nat));;
    on_core (modify (λ r, set_isStarted r true));;
    on_node (Node.StartSignal (clock 1%nat)).

(** Lines 124-158 and 201-211. *)
Definition timed_receive (clock : nat → Z) (m : net_msg) : prog timed () :=
  match m with
  | MsgBlock b qc =>
      on_core (modify (λ r, count r count_received));; timed_startSignal clock;; on_core (send_event m)
  | MsgVote v =>
      curView ← gets (curView_r ∘ core);
      if decide (vote_View v < curView) then mret () else timed_startSignal clock;; on_core (send_event m)
  | MsgTmo view id qc => on_core (HandleTmo view id qc)
  | MsgTxn tx =>
      on_core (modify (λ r, call_phalanx r (ReceiveTransaction (cmd_Value (tx_Command tx)) (tx_Timestamp tx))));;
      timed_startSignal clock;;
      curView ← gets (curView_r ∘ core);
      kick ← (if decide (curView = 0) then lift (IsLeader re_ID 1) else mret false);
      if (kick : bool) then on_core (on_safety (modify (λ s, sf_set_pm s (advance 0 (sf_pm s))))) else mret ()
  | MsgConsensus _ | MsgCommand _ => timed_startSignal clock;; on_core (send_event m)
  end.

(** Lines 246-266. *)
Definition timed_proposeBlock (cf fuel tries : nat) (priori : nat → option N) (BSize : Z)
    (clock : nat → Z) (view : Z) : prog timed () :=
  open ← gets (openPhalanx ∘ core);
  block ← (if open && bool_decide (1 < view)
           then on_core (on_safety (sf_MakePProposal tries priori view))
           else payload ← on_core (on_pd (GeneratePayload BSize));
                payload ← lift (non_nil payload);
                on_core (on_safety (sf_MakeProposal view payload)));
  on_core (modify (λ r, count r (count_proposed (Z.of_nat (length (b_Payload block))))));;
  let createDuration := Sub_time (clock 1%nat) (Some (clock 0%nat)) in
  let block := with_Timestamp (clock 2%nat) block in
  timing (add_create createDuration);;
  on_core (modify (λ r, broadcast r block (b_QC block ≫= λ a, sf_store (safety r) !! a)));;
  on_core (on_safety (sf_ProcessBlock cf fuel block));;
  timing (set_voteStart (clock 3%nat)).

(** Lines 238-244. *)
Definition timed_processNewView (cf fuel tries : nat) (priori : nat → option N) (BSize : Z)
    (clock : nat → Z) (newView : Z) : prog timed () :=
  lift (FindLeaderFor newView);;
  isLeader ← lift (IsLeader re_ID newView);
  if negb isLeader then mret () else timed_proposeBlock cf fuel tries priori BSize clock newView.

(** Lines 333-345, and the other cases of the switch. *)
Definition timed_process_msg (cf fuel : nat) (clock : nat → Z) (m : net_msg) : prog timed () :=
  match m with
  | MsgBlock b qc =>
      timing (add_propose (Sub_time (clock 0%nat) (Some (b_Timestamp b))));;
      p ← on_core (on_safety (sf_decode qc));
      on_core (on_safety (sf_ProcessBlock cf fuel (with_QC b p)));;
      timing (add_process (Sub_time (clock 1%nat) (Some (clock 0%nat))));;
      timing (set_voteStart (clock 2%nat));;
      on_core (modify (λ r, count r count_processed))
  | MsgVote v =>
      on_core (on_safety (sf_ProcessVote cf fuel v));;
      timing (add_vote (Sub_time (clock 1%nat) (Some (clock 0%nat))));;
      on_core (modify (λ r, count r count_vote))
  | _ => on_core (process_msg cf fuel m)
  end.

(** ** The listener of local events *)

(** Lines 270-271. *)
Definition listen_start (Timeout : Z) (clock : nat → Z) : prog timed () := λ t,
  match listening (t_times t) with
  | LOff =>
      (timing (set_lastViewTime (clock 0%nat));;
       timing (set_timer (Some (clock 1%nat + GetTimerForView Timeout)) false);;
       timing (set_listening LReset)) t
  | _ => Ok (t, ())
  end.

(** Line 273, reached once the main loop has taken the last view.  A value that is
    in the channel of the timer stays there. *)
Definition listen_reset (Timeout : Z) (clock : nat → Z) : prog timed () := λ t,
  match listening (t_times t), entering (core t) with
  | LReset, None =>
      (timing (λ x, set_timer (Some (clock 0%nat + GetTimerForView Timeout)) (tick x) x);;
       timing (set_listening LSelect)) t
  | _, _ => Ok (t, ())
  end.

(** The timer expires: the send to its channel does not block. *)
Definition timer_fires (clock : nat → Z) : prog timed () := λ t,
  match deadline (t_times t) with
  | Some d => if decide (d ≤ clock 0%nat) then timing (set_timer None true) t else Ok (t, ())
  | None => Ok (t, ())
  end.

(** Lines 277-289, up to the send to the main loop. *)
Definition timed_listen_view (clock : nat → Z) : prog timed () := λ t,
  match listening (t_times t), entering (core t), newViewChan (sf_pm (safety (core t))) !! views_read (core t) with
  | LSelect, None, Some view =>
      ((if decide (2 ≤ view) then timing (λ x, add_vote (Sub_time (clock 0%nat) (voteStart x)) x) else mret ());;
       timing (λ x, add_round (Sub_time (clock 1%nat) (lastViewTime x)) x);;
       timing (set_lastViewTime (clock 1%nat));;
       timing (set_listening LReset);;
       on_core listen_view) t
  | _, _, _ => Ok (t, ())
  end.

(** Lines 290-292. *)
Definition timed_listen_timer (cf fuel : nat) : prog timed () := λ t,
  match listening (t_times t), tick (t_times t) with
  | LSelect, true =>
      (timing (λ x, set_timer (deadline x) false x);;
       on_core (listen_timer cf fuel);;
       timing (set_listening LReset)) t
  | _, _ => Ok (t, ())
  end.

(** ** The report (lines 161-199) *)
Definition average (total : Z) (n : Z) : f64 := f64_div (f64_of_Z (Milliseconds total)) (f64_of_Z n).
Definition requestRate (now : Z) (t : timed) : f64 :=
  f64_div (f64_of_Z (TotalReceivedTxNo (pd (core t)))) (Seconds (Sub_time now (startTime (t_times t)))).
Definition aveRoundTime (t : timed) : f64 := average (totalRoundTime (t_times t)) (roundNo (counters (core t))).
Definition aveVoteProcessTime (t : timed) : f64 := average (totalVoteTime (t_times t)) (voteNo (counters (core t))).
Definition aveProcessTime (t : timed) : f64 :=
  average (totalProcessDuration (t_times t)) (processedNo (counters (core t))).
Definition aveCreateDuration (t : timed) : f64 :=
  average (totalCreateDuration (t_times t)) (proposedNo (counters (core t))).

Definition handleQuery (clock : nat → Z) (hasC : bool) : prog timed QueryReply :=
  t ← gets id;
  nodeQuery ← on_node (QueryNode (clock 1%nat) (clock 2%nat));
  timing (add_thrus ("Time: " ++ fmt_v (Seconds (Sub_time (clock 3%nat) (startTime (t_times t))))
    ++ " s. Throughput: " ++ fmt_v (Throughput nodeQuery) ++ " txs/s, Latency: " ++ fmt_v (Latency nodeQuery) ++ nl));;
  thrus ← gets (thrus ∘ t_times);
  let status := ("chain status is: " ++ sf_GetChainStatus (safety (core t)) ++ nl
    ++ "Ave. block size is " ++ fmt_v (AveBlockSize nodeQuery) ++ "." ++ nl
    ++ "Ave. command size is " ++ fmt_v (AveCommandSize nodeQuery) ++ "." ++ nl
    ++ "Ave. creation time is " ++ fmt_f (aveCreateDuration t) ++ " ms." ++ nl
    ++ "Ave. processing time is " ++ fmt_v (aveProcessTime t) ++ " ms." ++ nl
    ++ "Ave. vote time is " ++ fmt_v (aveVoteProcessTime t) ++ " ms." ++ nl
    ++ "Request rate is " ++ fmt_f (requestRate (clock 0%nat) t) ++ " txs/s." ++ nl
    ++ "Ave. round time is " ++ fmt_f (aveRoundTime t) ++ " ms." ++ nl
    ++ "Latency is " ++ fmt_f (Latency nodeQuery) ++ " ms." ++ nl
    ++ "Throughput is: " ++ nl ++ thrus)%string in
  Query_Reply hasC (MkQueryReply status).

(** ** Actions *)
Inductive timed_action :=
  | TReceive (m : net_msg)
  | TListenStart
  | TListenReset
  | TTimer
  | TListenView
  | TListenTimer
  | TListenCommitted (err : bool)
  | TListenForked
  | TLoopView (tries : nat) (priori : nat → option N)
  | TLoopMsg (k : nat)
  | TBackground (k : nat)
  | TQuery (hasC : bool).

(** Lines 331-352. *)
Definition timed_loop_view (cf fuel tries : nat) (priori : nat → option N) (BSize : Z) (clock : nat → Z)
  : prog timed () := λ t,
  match entering (core t) with
  | None => Ok (t, ())
  | Some view =>
      timed_processNewView cf fuel tries priori BSize clock view
        (set_core (set_entering (core t) None (views_read (core t))) t)
  end.
Definition timed_loop_msg (cf fuel k : nat) (clock : nat → Z) : prog timed () := λ t,
  match pending (core t) !! k with
  | None => Ok (t, ())
  | Some m =>
      timed_process_msg cf fuel clock m (set_core (set_pending (core t) (delete k (pending (core t)))) t)
  end.

(** Messages and queries are handled from the beginning; the other goroutines run
    once the replica is started (lines 321-330). *)
Definition timed_act (cf fuel : nat) (BSize Timeout : Z) (clock : nat → Z) (a : timed_action)
  : prog timed () := λ t,
  match a with
  | TReceive m => timed_receive clock m t
  | TQuery hasC => (handleQuery clock hasC;; mret ()) t
  | _ =>
    if isStarted (core t) then
      match a with
      | TReceive _ | TQuery _ => Ok (t, ())
      | TListenStart => listen_start Timeout clock t
      | TListenReset => listen_reset Timeout clock t
      | TTimer => timer_fires clock t
      | TListenView => timed_listen_view clock t
      | TListenTimer => timed_listen_timer cf fuel t
      | TListenCommitted err => on_core (listen_committed err) t
      | TListenForked => on_core listen_forked t
      | TLoopView tries priori => timed_loop_view cf fuel tries priori BSize clock t
      | TLoopMsg k => timed_loop_msg cf fuel k clock t
      | TBackground k => on_core (on_safety (sf_goroutine k)) t
      end
    else Ok (t, ())
  end.

(** A run: actions, each with its clock. *)
Definition timed_exec (cf fuel : nat) (BSize Timeout : Z) (l : list ((nat → Z) * timed_action)) : prog timed () :=
  for_each l (λ ca, timed_act cf fuel BSize Timeout ca.1 ca.2).

(** The node and the replica at the start (lines 70-120). *)
Definition new_timed (n : node (Replica S)) : timed := MkTimed n zero_times.
End timed.
Arguments timed {_} S.
