(* ===== verification/TimedProps.v ===== *)
(** * Properties of the replica with its clock

    Forgetting the times gives the replica of file [Replica], so its theorems hold of
    the program with its clock; what the report says of rounds and requests; and how
    long after a [Reset] a view can time out. *)
From S2P Require Import Prelude Float64 Format Identity Sha1 Election Db Crypto Types Quorum Forest BlockChain Pacemaker Mempool Chained Safety HotStuff HotStuffProps Replica ReplicaProps Node Protocols Timed.
From Stdlib Require Import SpecFloat.

Local Open Scope Z_scope.

Section erasure.
Context `{ReplicaEnv} `{BitSet} {S : Type} {SF : Safety S}.
Implicit Types t : timed S.

(** [m] does to the replica what [m'] does, and returns or faults as it does. *)
Definition forget {A} (o : outcome (timed S * A)) : outcome (Replica S * A) :=
  match o with Ok (t, a) => Ok (core t, a) | Fault f => Fault f end.
Definition erases {A} (m : prog (timed S) A) (m' : prog (Replica S) A) : Prop :=
  ∀ t, forget (m t) = m' (core t).

Lemma core_set_core r t : core (set_core r t) = r.
Proof. done. Qed.

Lemma erases_core {A} (m : prog (Replica S) A) : erases (on_core m) m.
Proof. intros t. unfold on_core, zoom. by destruct (m (core t)) as [[r a]|f]. Qed.
Lemma erases_ret {A} (a : A) : erases (mret a) (mret a).
Proof. done. Qed.
Lemma erases_lift {A} (o : outcome A) : erases (lift o) (lift o).
Proof. intros t. by destruct o. Qed.
Lemma erases_gets {A} (f : Replica S → A) : erases (gets (f ∘ core)) (gets f).
Proof. done. Qed.
Lemma erases_bind {A B} (m : prog (timed S) A) m' (k : A → prog (timed S) B) k' :
  erases m m' → (∀ a, erases (k a) (k' a)) → erases (m ≫= k) (m' ≫= k').
Proof.
  intros Hm Hk t. unfold mbind, prog_bind. rewrite <- (Hm t).
  destruct (m t) as [[t' a]|f]; [apply Hk|done].
Qed.

(** What happens to the times alone is forgotten. *)
Lemma erases_timing {A} f (m : prog (timed S) A) m' : erases m m' → erases (timing f;; m) m'.
Proof. intros Hm t. apply (Hm (MkTimed (t_node t) (f (t_times t)))). Qed.
Lemma erases_timing_last f : erases (timing f) (mret ()).
Proof. done. Qed.
Lemma erases_start now : erases (on_node (Node.StartSignal now)) (mret ()).
Proof. done. Qed.
Lemma erases_last {A} (m : prog (timed S) A) (n : prog (timed S) ()) (m' : prog (Replica S) A) :
  erases m m' → erases n (mret ()) → ∀ t,
  forget ((m;; n) t) = match m' (core t) with Ok (r, _) => Ok (r, ()) | Fault f => Fault f end.
Proof.
  intros Hm Hn t. unfold mbind, prog_bind. rewrite <- (Hm t).
  destruct (m t) as [[t' a]|f]; [apply Hn|done].
Qed.

Lemma erases_startSignal clock : erases (timed_startSignal clock) startSignal.
Proof.
  apply erases_bind; [apply erases_gets|intros [|]; [apply erases_ret|]]. apply erases_timing.
  intros t. by rewrite (erases_last _ _ _ (erases_core _) (erases_start _)).
Qed.
End erasure.

Create HintDb erase discriminated.
#[export] Hint Resolve erases_core erases_ret erases_lift erases_timing erases_timing_last erases_start
  erases_startSignal : erase.
(** [erase] follows the two programs side by side. *)
Ltac erase_step :=
  match goal with
  | |- erases (timing _ ≫= _) _ => apply erases_timing
  | |- erases (gets _ ≫= _) (gets _ ≫= _) => apply erases_bind; [apply erases_gets|intros ?]
  | |- erases (_ ≫= _) (_ ≫= _) => apply erases_bind; [|intros ?]
  | |- erases (if ?b then _ else _) _ => destruct b
  | |- erases _ _ => solve [eauto with erase]
  end.
Ltac erase := repeat erase_step.

Section refinement.
Context `{ReplicaEnv} `{BitSet} {S : Type} {SF : Safety S}.
Implicit Types t : timed S.

Lemma erases_receive clock m : erases (timed_receive clock m) (receive (S := S) m).
Proof.
  destruct m as [b qc|v|view id qc|tx|c|c]; simpl; unfold HandleBlock, HandleVote, handleTxn,
    HandleConsensusMessage, HandleCommand; erase.
Qed.

Lemma erases_proposeBlock cf fuel tries priori BSize clock view :
  erases (timed_proposeBlock cf fuel tries priori BSize clock view)
    (proposeBlock (S := S) cf fuel tries priori BSize (clock 2%nat) view).
Proof.
  unfold timed_proposeBlock, proposeBlock. erase.
Qed.

Lemma erases_processNewView cf fuel tries priori BSize clock view :
  erases (timed_processNewView cf fuel tries priori BSize clock view)
    (processNewView (S := S) cf fuel tries priori BSize (clock 2%nat) view).
Proof. unfold timed_processNewView, processNewView. erase. apply erases_proposeBlock. Qed.

Lemma erases_process_msg cf fuel clock m :
  erases (timed_process_msg cf fuel clock m) (process_msg (S := S) cf fuel m).
Proof. destruct m as [b qc|v|view id qc|tx|c|c]; simpl; erase. Qed.

(** The action of the replica behind an action with a clock; the others are about
    the timer and the report. *)
Definition forget_action (clock : nat → Z) (a : timed_action) : option action :=
  match a with
  | TReceive m => Some (Receive m)
  | TListenView => Some ListenView
  | TListenTimer => Some ListenTimer
  | TListenCommitted err => Some (ListenCommitted err)
  | TListenForked => Some ListenForked
  | TLoopView tries priori => Some (LoopView tries priori (clock 2%nat))
  | TLoopMsg k => Some (LoopMsg k)
  | TBackground k => Some (Background k)
  | TListenStart | TListenReset | TTimer | TQuery _ => None
  end.

Lemma erases_listen_timer cf fuel t :
  timed_listen_timer cf fuel t = Ok (t, ())
  ∨ forget (timed_listen_timer cf fuel t) = listen_timer cf fuel (core t).
Proof.
  unfold timed_listen_timer. destruct (listening _); [by left|by left|]. destruct (tick _); [right|by left].
  set (t1 := MkTimed (t_node t) (set_timer (deadline (t_times t)) false (t_times t))).
  change (core t) with (core t1).
  change (forget ((on_core (listen_timer cf fuel);; timing (set_listening LReset)) t1) = listen_timer cf fuel (core t1)).
  rewrite (erases_last _ _ _ (erases_core _) (erases_timing_last _)).
  by destruct (listen_timer cf fuel (core t1)) as [[r []]|f].
Qed.

Lemma erases_listen_view clock t :
  timed_listen_view clock t = Ok (t, ()) ∨ forget (timed_listen_view clock t) = listen_view (core t).
Proof.
  unfold timed_listen_view. destruct (listening _); [by left|by left|].
  destruct (entering _); [by left|]. destruct (_ !! _) as [view|]; [right|by left].
  change (listen_view (core t)) with ((mret ();; listen_view : prog (Replica S) ()) (core t)).
  revert t. apply erases_bind; [by destruct (decide _)|intros _]. erase.
Qed.

(** An action does nothing, or to the replica what its action does; faults included. *)
Lemma timed_act_erases cf fuel BSize Timeout clock a a' t :
  forget_action clock a = Some a' →
  timed_act cf fuel BSize Timeout clock a t = Ok (t, ())
  ∨ forget (timed_act cf fuel BSize Timeout clock a t) = act cf fuel BSize a' (core t).
Proof.
  intros Ha. destruct a as [m| | | | | |err| |tries priori|k|k|hasC]; simplify_eq/=; unfold timed_act, act;
    try (destruct (isStarted (core t)) eqn:Hs; [|by left]).
  - right. apply erases_receive.
  - apply erases_listen_view.
  - apply erases_listen_timer.
  - right. apply erases_core.
  - right. apply erases_core.
  - right. unfold timed_loop_view, loop_view. destruct (entering (core t)) as [view|] eqn:E; [|done].
    apply (erases_processNewView cf fuel tries priori BSize clock view
             (set_core (set_entering (core t) None (views_read (core t))) t)).
  - right. unfold timed_loop_msg, loop_msg. destruct (pending (core t) !! k) as [m|] eqn:E; [|done].
    apply (erases_process_msg cf fuel clock m (set_core (set_pending (core t) (delete k (pending (core t)))) t)).
  - right. apply erases_core.
Qed.

Lemma timed_act_keeps_core cf fuel BSize Timeout clock a t t' :
  forget_action clock a = None → timed_act cf fuel BSize Timeout clock a t = Ok (t', ()) → core t' = core t.
Proof.
  intros Ha Ht. destruct a as [m| | | | | |err| |tries priori|k|k|hasC]; simplify_eq/=; unfold timed_act in Ht;
    try (destruct (isStarted (core t)) eqn:Hs; [|by injection Ht as <-]).
  - unfold listen_start, timing in Ht. destruct (listening _); by invert_prog.
  - unfold listen_reset, timing in Ht. destruct (listening _); [by invert_prog| |by invert_prog].
    destruct (entering (core t)); by invert_prog.
  - unfold timer_fires, timing in Ht. destruct (deadline _); [destruct (decide _)|]; by invert_prog.
  - destruct hasC; [by injection Ht as <-|discriminate Ht].
Qed.

Lemma timed_act_faults cf fuel BSize Timeout clock a t f :
  forget_action clock a = None → timed_act cf fuel BSize Timeout clock a t = Fault f → a = TQuery false ∧ f = Blocked.
Proof.
  intros Ha Ht. destruct a as [m| | | | | |err| |tries priori|k|k|hasC]; try discriminate Ha; unfold timed_act in Ht;
    try (destruct (isStarted (core t)) eqn:Hs; [|discriminate Ht]).
  - unfold listen_start in Ht. by destruct (listening _).
  - unfold listen_reset in Ht. destruct (listening _); try done. by destruct (entering (core t)).
  - unfold timer_fires in Ht. destruct (deadline _); [|done]. by destruct (decide _).
  - destruct hasC; [discriminate Ht|]. by injection Ht as <-.
Qed.

Definition typed_timed (a : timed_action) : Prop := match a with TReceive m => typed_msg m | _ => True end.

Lemma typed_forget clock a a' : typed_timed a → forget_action clock a = Some a' → typed_action a'.
Proof. destruct a; intros ? ?; by simplify_eq/=. Qed.

Lemma timed_act_run cf fuel BSize Timeout clock a t t' :
  typed_timed a → timed_act cf fuel BSize Timeout clock a t = Ok (t', ()) →
  rep_run BSize (core t) (core t').
Proof.
  intros Hty Ht. destruct (forget_action clock a) as [a'|] eqn:Ha.
  - destruct (timed_act_erases cf fuel BSize Timeout clock a a' t Ha) as [Hn|Hn].
    + rewrite Hn in Ht. injection Ht as <-. apply rtc_refl.
    + rewrite Ht in Hn. apply rtc_once. exists cf, fuel, a'. split; [by eapply typed_forget|done].
  - rewrite (timed_act_keeps_core _ _ _ _ _ _ _ _ Ha Ht). apply rtc_refl.
Qed.

(** The runs of the replica with its clock are runs of the replica without. *)
Lemma timed_exec_run cf fuel BSize Timeout l t t' :
  Forall (λ ca, typed_timed ca.2) l → timed_exec cf fuel BSize Timeout l t = Ok (t', ()) →
  rep_run BSize (core t) (core t').
Proof.
  intros Hl. revert t. induction Hl as [|[clock a] l Ha _ IH]; intros t Ht; simpl in Ht.
  - apply ret_ok in Ht as [-> _]. apply rtc_refl.
  - apply prog_bind_ok in Ht as (t1 & [] & H1 & H2). etrans; [by eapply timed_act_run|by apply IH].
Qed.
End refinement.

(** ** The tallies of the replica

    Nothing puts a transaction of a client into the pool, and the rounds are the views
    read. *)
Section tallies.
Context `{ReplicaEnv} `{BitSet} {S : Type} {SF : Safety S}.

Definition tallied (r : Replica S) : Prop :=
  totalReceived (pd r) = 0 ∧ roundNo (counters r) = int64 (Z.of_nat (views_read r)).
Abbreviation tallies m := (preserves tallied (λ _ _, True) anything m).
#[local] Instance true_preorder : PreOrder (λ _ _ : Replica S, True).
Proof. by split. Qed.

Lemma tallies_modify f :
  (∀ r, totalReceived (pd (f r)) = totalReceived (pd r) ∧ roundNo (counters (f r)) = roundNo (counters r)
     ∧ views_read (f r) = views_read r) → tallies (modify f).
Proof.
  intros Hf. apply preserves_modify. intros r [H1 H2]. destruct (Hf r) as (E1 & E2 & E3).
  split; [|done]. unfold tallied. by rewrite E1, E2, E3.
Qed.

Lemma tallies_safety {A} (m : prog S A) : tallies (on_safety m).
Proof. intros r r' a I (s' & _ & ->)%zoom_ok. done. Qed.

Lemma tallies_pd {A} (m : prog Backend A) :
  (∀ b b' a, m b = Ok (b', a) → totalReceived b' = totalReceived b) → tallies (on_pd m).
Proof. intros Hm r r' a [I1 I2] (b' & Hb & ->)%zoom_ok. split_and!; [|done..]. split; [simpl; rewrite (Hm _ _ _ Hb)|]; done. Qed.

Lemma tallies_payload BSize : tallies (on_pd (GeneratePayload BSize)).
Proof.
  apply tallies_pd. intros b b' l. rewrite GeneratePayload_spec. case_decide; intros; by simplify_eq.
Qed.
Lemma tallies_collect txs : tallies (on_pd (collect txs)).
Proof. apply tallies_pd. intros b b' []. rewrite collect_spec. intros; by simplify_eq. Qed.
Lemma tallies_startSignal : tallies startSignal.
Proof. unfold startSignal. preserve. by apply tallies_modify. Qed.
Lemma tallies_send m : tallies (send_event m).
Proof. by apply tallies_modify. Qed.
Hint Resolve tallies_safety tallies_payload tallies_collect tallies_startSignal tallies_send : go.
Hint Extern 1 (preserves tallied _ _ (modify _)) => by apply tallies_modify : go.

Lemma tallies_receive m : tallies (receive m).
Proof.
  destruct m; simpl; unfold HandleBlock, HandleVote, HandleTmo, handleTxn, HandleConsensusMessage, HandleCommand; preserve.
Qed.

Lemma tallies_process_msg cf fuel m : tallies (process_msg cf fuel m).
Proof. destruct m; simpl; preserve. Qed.

Lemma tallies_newView cf fuel tries priori BSize now view :
  tallies (processNewView cf fuel tries priori BSize now view).
Proof. unfold processNewView, proposeBlock. preserve. Qed.

Lemma tallies_listen_view : tallies listen_view.
Proof.
  intros r r' [] [I1 I2] Hr. unfold listen_view in Hr. destruct (entering r); [by simplify_eq|].
  destruct (_ !! _); simplify_eq/=; [|done].
  split_and!; [|done..]. split; [done|]. simpl. rewrite I2, int64_add_l. f_equal. lia.
Qed.

Lemma tallies_committed err block : tallies (processCommittedBlock err block).
Proof. unfold processCommittedBlock. preserve. Qed.

Lemma tallies_act cf fuel BSize a : tallies (act cf fuel BSize a).
Proof.
  intros r r' [] I Hr. destruct a as [m| | |err| |tries priori now|k|k]; unfold act in Hr;
    [by eapply tallies_receive|..]; (destruct (isStarted r) eqn:Hs; [|by simplify_eq]).
  - by eapply tallies_listen_view.
  - unfold listen_timer in Hr. destruct (entering r); [by simplify_eq|by eapply tallies_safety].
  - unfold listen_committed in Hr. destruct (_ !! _) as [b|]; [|by simplify_eq].
    by eapply tallies_committed in Hr.
  - unfold listen_forked in Hr. destruct (_ !! _) as [b|]; [|by simplify_eq].
    unfold processForkedBlock in Hr. destruct (decide _); [by eapply tallies_collect in Hr|by apply ret_ok in Hr as [-> _]].
  - unfold loop_view in Hr. destruct (entering r) as [view|]; [|by simplify_eq].
    by eapply tallies_newView in Hr.
  - unfold loop_msg in Hr. destruct (_ !! _) as [m|]; [|by simplify_eq]. by eapply tallies_process_msg in Hr.
  - by eapply tallies_safety.
Qed.

Lemma tallied_run BSize r r' : tallied r → rep_run BSize r r' → tallied r'.
Proof.
  intros I Hrun. induction Hrun as [|r1 r2 r3 (cf & fuel & a & _ & Ha) _ IH]; [done|].
  apply IH. by eapply tallies_act.
Qed.
End tallies.

(** ** The timer and the durations of the rounds *)
Section pace.
Context `{ReplicaEnv} `{BitSet} {S : Type} {SF : Safety S}.
Implicit Types t : timed S.

(** What only the listener and the timer change. *)
Definition pace (x : times) : listener * option Z * bool * option Z * Z :=
  (listening x, deadline x, tick x, lastViewTime x, totalRoundTime x).
Definition same_pace t t' : Prop := pace (t_times t') = pace (t_times t).
#[local] Instance same_pace_preorder : PreOrder same_pace.
Proof. split; [done|]. intros t1 t2 t3 E1 E2. unfold same_pace in *. congruence. Qed.
Abbreviation steady m := (preserves (λ _, True) same_pace anything m).

Lemma steady_core {A} (m : prog (Replica S) A) : steady (on_core m).
Proof. intros t t' a _ (r & _ & ->)%zoom_ok. done. Qed.
Lemma steady_node {A} (m : prog (node (Replica S)) A) : steady (on_node m).
Proof. intros t t' a _ (r & _ & ->)%zoom_ok. done. Qed.
Lemma steady_timing f : (∀ x, pace (f x) = pace x) → steady (timing f).
Proof. intros Hf. apply preserves_modify. intros t _. split; [done|]. apply (Hf (t_times t)). Qed.
Hint Resolve steady_core steady_node : go.
Hint Extern 1 (preserves _ same_pace _ (timing _)) => by apply steady_timing : go.

Lemma steady_startSignal clock : steady (timed_startSignal clock).
Proof. unfold timed_startSignal. preserve. Qed.
Hint Resolve steady_startSignal : go.
Lemma steady_receive clock m : steady (timed_receive clock m).
Proof. destruct m; simpl; preserve. Qed.
Lemma steady_process_msg cf fuel clock m : steady (timed_process_msg cf fuel clock m).
Proof. destruct m; simpl; preserve. Qed.
Lemma steady_newView cf fuel tries priori BSize clock view :
  steady (timed_processNewView cf fuel tries priori BSize clock view).
Proof. unfold timed_processNewView, timed_proposeBlock. preserve. Qed.
Lemma steady_query clock hasC : steady (handleQuery clock hasC).
Proof. unfold handleQuery, Query_Reply. preserve. Qed.

(** The actions of the listener and of the timer. *)
Definition pacing (a : timed_action) : bool :=
  match a with TListenStart | TListenReset | TTimer | TListenView | TListenTimer => true | _ => false end.

Lemma timed_act_steady cf fuel BSize Timeout clock a t t' :
  pacing a = false → timed_act cf fuel BSize Timeout clock a t = Ok (t', ()) → same_pace t t'.
Proof.
  intros Ha Ht. destruct a as [m| | | | | |err| |tries priori|k|k|hasC]; try discriminate Ha; unfold timed_act in Ht;
    try (destruct (isStarted (core t)) eqn:Hs; [|by simplify_eq]).
  - by eapply steady_receive.
  - by eapply steady_core in Ht as (_ & ? & _).
  - by eapply steady_core in Ht as (_ & ? & _).
  - unfold timed_loop_view in Ht. destruct (entering (core t)) as [view|]; [|by simplify_eq].
    by eapply steady_newView in Ht as (_ & ? & _).
  - unfold timed_loop_msg in Ht. destruct (_ !! _) as [m|]; [|by simplify_eq].
    by eapply steady_process_msg in Ht as (_ & ? & _).
  - by eapply steady_core in Ht as (_ & ? & _).
  - apply prog_bind_ok in Ht as (t1 & q & H1 & [-> _]%ret_ok). by eapply steady_query in H1 as (_ & ? & _).
Qed.

(** What the others do. *)
Definition pace_step (Timeout : Z) (clock : nat → Z) (a : timed_action) (p p' : listener * option Z * bool * option Z * Z) : Prop :=
  let '(li, d, c, lv, tot) := p in
  p' = p ∨
  match a with
  | TListenStart => li = LOff ∧ p' = (LReset, Some (clock 1%nat + GetTimerForView Timeout), false, Some (clock 0%nat), tot)
  | TListenReset => li = LReset ∧ p' = (LSelect, Some (clock 0%nat + GetTimerForView Timeout), c, lv, tot)
  | TTimer => ∃ x, d = Some x ∧ x ≤ clock 0%nat ∧ p' = (li, None, true, lv, tot)
  | TListenView => li = LSelect ∧ p' = (LReset, d, c, Some (clock 1%nat), int64 (tot + Sub_time (clock 1%nat) lv))
  | TListenTimer => li = LSelect ∧ c = true ∧ p' = (LReset, d, false, lv, tot)
  | _ => False
  end.

Lemma timed_act_pace cf fuel BSize Timeout clock a t t' :
  timed_act cf fuel BSize Timeout clock a t = Ok (t', ()) →
  pace_step Timeout clock a (pace (t_times t)) (pace (t_times t')).
Proof.
  intros Ht. destruct (pacing a) eqn:Ha; [|left; by eapply timed_act_steady].
  destruct a as [m| | | | | |err| |tries priori|k|k|hasC]; try discriminate Ha; unfold timed_act in Ht;
    (destruct (isStarted (core t)) eqn:Hs; [|left; by simplify_eq]).
  - unfold listen_start in Ht. destruct (listening (t_times t)) eqn:E; [|left; by simplify_eq..].
    injection Ht as <-. right. by rewrite E.
  - unfold listen_reset in Ht. destruct (listening (t_times t)) eqn:E; [left; by simplify_eq| |left; by simplify_eq].
    destruct (entering (core t)); [left; by simplify_eq|]. injection Ht as <-. right. by rewrite E.
  - unfold timer_fires in Ht. destruct (deadline (t_times t)) as [x|] eqn:E; [|left; by simplify_eq].
    destruct (decide _); [|left; by simplify_eq]. injection Ht as <-. right. by exists x.
  - unfold timed_listen_view in Ht. destruct (listening (t_times t)) eqn:E; [left; by simplify_eq..|].
    destruct (entering (core t)); [left; by simplify_eq|]. destruct (_ !! _) as [view|]; [|left; by simplify_eq].
    right. split; [by rewrite E|]. unfold timing, on_core in Ht. destruct (decide _); invert_prog; done.
  - unfold timed_listen_timer in Ht. destruct (listening (t_times t)) eqn:E; [left; by simplify_eq..|].
    destruct (tick (t_times t)) eqn:Et; [|left; by simplify_eq]. right. unfold timing, on_core in Ht. invert_prog.
    by rewrite E.
Qed.

(** An invariant of the pace that holds after every action of a run. *)
Lemma timed_exec_pace (I : listener * option Z * bool * option Z * Z → Prop) cf fuel BSize Timeout l t t' :
  (∀ clock a p p', (clock, a) ∈ l → pace_step Timeout clock a p p' → I p → I p') →
  timed_exec cf fuel BSize Timeout l t = Ok (t', ()) → I (pace (t_times t)) → I (pace (t_times t')).
Proof.
  revert t. induction l as [|[clock a] l IH]; intros t Hstep Ht HI; simpl in Ht.
  - by apply ret_ok in Ht as [-> _].
  - apply prog_bind_ok in Ht as (t1 & [] & H1 & H2). apply (IH t1); [|done|].
    + intros c b p p' Hin. apply Hstep. by right.
    + eapply Hstep; [by left|by eapply timed_act_pace|done].
Qed.

(** Readings of a clock between 1970 and 2116. *)
Definition sane (clock : nat → Z) : Prop := ∀ k, 0 ≤ clock k < 4611686018427387904.

(** The total of the rounds is the time from the start of the listener to the last
    view. *)
Definition rounds (l : list ((nat → Z) * timed_action)) (p : listener * option Z * bool * option Z * Z) : Prop :=
  let '(li, _, _, lv, tot) := p in
  match lv with
  | None => li = LOff ∧ tot = 0
  | Some last => li ≠ LOff ∧ 0 ≤ last < 4611686018427387904
      ∧ ∃ c0, (c0, TListenStart) ∈ l ∧ sane c0 ∧ tot = last - c0 0%nat
  end.

Lemma rounds_step l Timeout clock a p p' :
  (clock, a) ∈ l → sane clock → pace_step Timeout clock a p p' → rounds l p → rounds l p'.
Proof.
  intros Hin Hc. destruct p as [[[[li d] c] lv] tot]. intros [->|Hs] I; [done|].
  destruct a as [m| | | | | |err| |tries priori|k|k|hasC]; try done; simpl in I.
  - destruct Hs as [-> ->]. destruct lv as [last|]; [by destruct I|]. destruct I as [_ ->].
    split_and!; [done|apply Hc|apply Hc|]. exists clock. split_and!; [done..|lia].
  - destruct Hs as [-> ->]. destruct lv as [last|]; [|by destruct I as [? _]]. simpl. by destruct I as (_ & ? & ?).
  - destruct Hs as (x & -> & _ & ->). done.
  - destruct Hs as [-> ->]. destruct lv as [last|]; [|by destruct I as [? _]].
    destruct I as (_ & Hl & c0 & Hs0 & Hc0 & ->). specialize (Hc 1%nat). specialize (Hc0 0%nat) as Hz.
    split_and!; [done|lia|lia|]. exists c0. split_and!; [done..|].
    unfold Sub_time. rewrite int64_id by (unfold_ints; lia). unfold_ints. lia.
  - destruct Hs as (-> & -> & ->). destruct lv as [last|]; [|by destruct I as [? _]]. simpl. by destruct I as (_ & ? & ?).
Qed.

(** Until the next reset: the timer has the deadline [D], or it fired after it. *)
Definition awaiting (D : Z) (l : list ((nat → Z) * timed_action)) (p : listener * option Z * bool * option Z * Z) : Prop :=
  let '(li, d, c, _, _) := p in
  li ≠ LOff ∧ (d = Some D ∨ d = None) ∧ (c = true → ∃ clock, (clock, TTimer) ∈ l ∧ D ≤ clock 0%nat).

Lemma awaiting_step D l Timeout clock a p p' :
  (clock, a) ∈ l → a ≠ TListenReset → pace_step Timeout clock a p p' → awaiting D l p → awaiting D l p'.
Proof.
  intros Hin Ha. destruct p as [[[[li d] c] lv] tot]. intros [->|Hs] (I1 & I2 & I3); [done|].
  destruct a as [m| | | | | |err| |tries priori|k|k|hasC]; try done.
  - by destruct Hs as [-> _].
  - destruct Hs as (x & -> & Hx & ->). split_and!; [done|by right|intros _]. exists clock.
    destruct I2 as [[= ->]|]; [done|discriminate].
  - destruct Hs as [-> ->]. by split_and!.
  - destruct Hs as (-> & _ & ->). by split_and!.
Qed.

(** Zero divided by anything. *)
Lemma zero_div x : ∃ z, f64_div (f64_of_Z 0) x = z ∧ (z = S754_zero false ∨ z = S754_zero true ∨ z = S754_nan).
Proof. destruct x as [[]|[]| |[] m e]; eexists; (split; [reflexivity|auto]). Qed.
End pace.

Section theorems.
Context `{ReplicaEnv} `{BitSet} {S : Type} {SF : Safety S}.

(** The replica with its clock refines the replica without: in every interleaving
    of the goroutines, the timer and the queries, an action either changes nothing of
    the replica, or does to it exactly what an action of file [Replica] does, with the
    same fault if it faults; a query faults only for want of a reply channel.  So every
    run is a run of the replica, and what [ReplicaProps] and [Protocols] show of all
    runs holds of the program with its clock. *)
Theorem timed_refines_replica cf fuel BSize Timeout :
  (∀ clock a (t : timed S),
     (∃ t', timed_act cf fuel BSize Timeout clock a t = Ok (t', ()) ∧ core t' = core t)
     ∨ a = TQuery false ∧ timed_act cf fuel BSize Timeout clock a t = Fault Blocked
     ∨ ∃ a', forget_action clock a = Some a'
         ∧ forget (timed_act cf fuel BSize Timeout clock a t) = act cf fuel BSize a' (core t))
  ∧ ∀ l (t t' : timed S), Forall (λ ca, typed_timed ca.2) l →
      timed_exec cf fuel BSize Timeout l t = Ok (t', ()) → rep_run BSize (core t) (core t').
Proof.
  split; [|intros; by eapply timed_exec_run]. intros clock a t.
  destruct (forget_action clock a) as [a'|] eqn:Ha.
  - destruct (timed_act_erases cf fuel BSize Timeout clock a a' t Ha) as [Hn|Hn]; [left; by exists t|].
    right. right. by exists a'.
  - destruct (timed_act cf fuel BSize Timeout clock a t) as [[t' []]|f] eqn:Ht.
    + left. exists t'. split; [done|by eapply timed_act_keeps_core].
    + right. left. by destruct (timed_act_faults cf fuel BSize Timeout clock a t f Ha Ht) as [-> ->].
Qed.

(** [C25] What the report of a replica says of requests and rounds.  The request rate is
    zero, or not a number, whatever the clients send: transactions go to Phalanx and
    never to the pool whose count is divided.  The average round time is the time from
    the start of the listener to the last view it read, divided by the number of views
    read; nothing is lost in the sums. *)
Theorem timed_report cf fuel BSize Timeout MemSize s l n (t : timed S) :
  n_handler n = NewReplica MemSize s → Forall (λ ca, typed_timed ca.2) l → Forall (λ ca, sane ca.1) l →
  timed_exec cf fuel BSize Timeout l (new_timed n) = Ok (t, ()) →
  (∀ now, fmt_f (requestRate now t) ∈ ["0.000000"; "-0.000000"; "NaN"]%string)
  ∧ match lastViewTime (t_times t) with
    | None => aveRoundTime t = average 0 (int64 (Z.of_nat (views_read (core t))))
    | Some last => ∃ c0, (c0, TListenStart) ∈ l
        ∧ aveRoundTime t = average (last - c0 0%nat) (int64 (Z.of_nat (views_read (core t))))
    end.
Proof.
  intros Hn Hty Hsane Ht.
  assert (tallied (core t)) as [I1 I2].
  { apply (tallied_run BSize (core (new_timed n))); [|by eapply timed_exec_run]. unfold core. simpl. by rewrite Hn. }
  assert (rounds l (pace (t_times t))) as I3.
  { eapply timed_exec_pace; [|exact Ht|done]. intros clock a p p' Hin. apply rounds_step; [done|].
    by rewrite Forall_forall in Hsane; apply (Hsane _ Hin). }
  split.
  - intros now. unfold requestRate, TotalReceivedTxNo. rewrite I1.
    destruct (zero_div (Seconds (Sub_time now (startTime (t_times t))))) as (z & -> & Hz).
    destruct Hz as [->|[->| ->]]; by repeat constructor.
  - unfold aveRoundTime. rewrite I2. unfold rounds, pace in I3. destruct (lastViewTime (t_times t)) as [last|].
    + destruct I3 as (_ & _ & c0 & Hin & _ & Htot). exists c0. by rewrite Htot.
    + destruct I3 as [_ Htot]. by rewrite Htot.
Qed.

(** [C23] A view times out no sooner than the configured time after the timer was reset
    for it, provided that the channel of the timer was empty at the reset: whatever
    happens in between, when the timer makes the replica time out, the clock has passed
    the reset by [GetTimerForView]. *)
Theorem timeout_not_early cf fuel BSize Timeout reset c l (t0 t1 t2 t3 : timed S) :
  listening (t_times t0) = LReset → tick (t_times t0) = false →
  timed_act cf fuel BSize Timeout reset TListenReset t0 = Ok (t1, ()) → listening (t_times t1) = LSelect →
  Forall (λ ca, ca.2 ≠ TListenReset) l → timed_exec cf fuel BSize Timeout l t1 = Ok (t2, ()) →
  timed_act cf fuel BSize Timeout c TListenTimer t2 = Ok (t3, ()) → core t3 ≠ core t2 →
  ∃ clock, (clock, TTimer) ∈ l ∧ reset 0%nat + GetTimerForView Timeout ≤ clock 0%nat.
Proof.
  intros E0 Ec Hr E1 Hl Hexec Hlast Hcore. set (D := reset 0%nat + GetTimerForView Timeout).
  assert (awaiting D l (pace (t_times t1))) as I1.
  { destruct (timed_act_pace _ _ _ _ _ _ _ _ Hr) as [Hp|[_ Hp]].
    - unfold pace in Hp. congruence.
    - rewrite Hp, Ec. split_and!; [done|by left|done]. }
  assert (awaiting D l (pace (t_times t2))) as (_ & _ & I2).
  { eapply timed_exec_pace; [|exact Hexec|exact I1]. intros clock a p p' Hin. apply awaiting_step; [done|].
    rewrite Forall_forall in Hl. apply (Hl _ Hin). }
  apply I2. destruct (tick (t_times t2)) eqn:Et; [done|]. destruct Hcore.
  unfold timed_act, timed_listen_timer in Hlast. rewrite Et in Hlast.
  destruct (isStarted (core t2)), (listening (t_times t2)); by simplify_eq.
Qed.
End theorems.

(** ** Runs of a HotStuff replica *)

Ltac by_vm := vm_compute; reflexivity.

(** A clock that stands still, and one that moves on by a nanosecond. *)
Definition still (now : Z) : nat → Z := λ _, now.
Definition ticking (now : Z) : nat → Z := λ k, now + Z.of_nat k.

Definition timed_sample (E : ReplicaEnv) : timed (H0 := sample_bitset) chained :=
  new_timed (wire_node (sample_replica E)).
Definition timed_run (E : ReplicaEnv) (l : list ((nat → Z) * timed_action))
  (t : timed (H0 := sample_bitset) chained) : timed (H0 := sample_bitset) chained :=
  match timed_exec (SF := @hs_safety E) 10 10 1 1000 l t with Ok (t', _) => t' | Fault _ => t end.

(** The leader of every view, with a timeout of a second.  It enters view 1 and waits
    for the main loop until the second is over; the timer fires; then the main loop
    takes the view and the timer is reset. *)
Definition second : Z := 1000000000.
Definition busy_actions : list ((nat → Z) * timed_action) :=
  [(still 0, TReceive (MsgTxn (sample_tx "a"))); (still 0, TListenStart); (still 0, TListenReset);
   (still 1, TListenView); (still second, TTimer); (still second, TLoopView 3 (λ _, None));
   (still second, TListenReset)].
Definition busy : timed (H0 := sample_bitset) chained := timed_run leader_env busy_actions (timed_sample leader_env).
Definition busy_timed_out : timed (H0 := sample_bitset) chained :=
  timed_run leader_env [(still second, TListenTimer)] busy.

(** [C24] A view can time out at the moment its timer is reset.  The timer fired while the
    listener waited for the main loop to take the view; [Reset] does not empty its
    channel, so the [select] finds the old value: the replica gives up view 1 after one
    second although the timer has just been set to the end of the next. *)
Theorem stale_timeout :
  @timed_exec leader_env sample_bitset _ (@hs_safety leader_env) 10 10 1 1000 busy_actions (timed_sample leader_env) = Ok (busy, ())
  ∧ deadline (t_times busy) = Some (second + GetTimerForView 1000)
  ∧ curView_of (safety (core busy)) = 1
  ∧ @timed_act leader_env sample_bitset _ (@hs_safety leader_env) 10 10 1 1000 (still second) TListenTimer busy = Ok (busy_timed_out, ())
  ∧ curView_of (safety (core busy_timed_out)) = 2
  ∧ ∃ qc, BroadcastTmo 2 "1" qc ∈ network (safety (core busy_timed_out)).
Proof.
  split_and!; [by_vm..|]. eexists. apply list_elem_of_In. vm_compute. right. by left.
Qed.

(** A follower that is told of the timeouts of view 1 before it sees a block. *)
Definition tmo1 (id : NodeID) : net_msg := MsgTmo 1 id (Some (chain_qc 0)).
Definition skipped_actions : list ((nat → Z) * timed_action) :=
  [(still 0, TReceive (MsgTxn (sample_tx "a"))); (still 0, TListenStart); (still 0, TListenReset);
   (still 1, TReceive (tmo1 "2")); (still 1, TReceive (tmo1 "3")); (still 1, TReceive (tmo1 "4"));
   (still 1, TLoopMsg 0); (still 1, TLoopMsg 0); (still 1, TLoopMsg 0);
   (still 2, TListenView); (still 2, TLoopView 3 (λ _, None)); (still 2, TListenReset);
   (still 3, TListenView)].
Definition skipped : timed (H0 := sample_bitset) chained := timed_run sample_env skipped_actions (timed_sample sample_env).
Definition late_vote : list ((nat → Z) * timed_action) :=
  [(still 4, TReceive (MsgVote (MkVote 2 "3" 7 (sample_sig 7)))); (ticking 5, TLoopMsg 0)].
Definition skipped_voted : timed (H0 := sample_bitset) chained :=
  timed_run sample_env late_vote skipped.

(** The vote time overflows.  A replica that enters view 2 before it has handled a
    block subtracts the zero time, which saturates at the largest duration; the next
    nanosecond makes the total the smallest one, and the report shows a negative
    average of nine billion seconds. *)
Theorem vote_time_overflows :
  @timed_exec sample_env sample_bitset _ (@hs_safety sample_env) 10 10 1 1000 skipped_actions (timed_sample sample_env)
    = Ok (skipped, ())
  ∧ voteStart (t_times skipped) = None ∧ totalVoteTime (t_times skipped) = max_int64
  ∧ timed_run sample_env late_vote skipped = skipped_voted
  ∧ voteNo (counters (core skipped_voted)) = 1 ∧ totalVoteTime (t_times skipped_voted) = min_int64
  ∧ fmt_v (aveVoteProcessTime skipped_voted) = "-9.223372036854e+12"%string.
Proof. split_and!; by_vm. Qed.

(** ** Witnesses *)

Lemma timed_refines_replica_witness :
  curView_of (safety (core busy)) = 1
  ∧ @rep_run leader_env sample_bitset _ (@hs_safety leader_env) 1 (sample_replica leader_env) (core busy).
Proof.
  split; [by_vm|].
  apply (proj2 (@timed_refines_replica leader_env sample_bitset _ (@hs_safety leader_env) 10 10 1 1000)
           busy_actions (timed_sample leader_env) busy).
  - repeat constructor.
  - by_vm.
Defined.

Lemma timed_report_witness :
  lastViewTime (t_times busy) = Some 1 ∧ fmt_f (aveRoundTime busy) = "0.000000"%string
  ∧ ∃ c0, (c0, TListenStart) ∈ busy_actions
      ∧ aveRoundTime busy = average (1 - c0 0%nat) (int64 (Z.of_nat (views_read (core busy)))).
Proof.
  assert (lastViewTime (t_times busy) = Some 1) as E by by_vm.
  split; [exact E|]. split; [by_vm|].
  destruct (@timed_report leader_env sample_bitset _ (@hs_safety leader_env) 10 10 1 1000 10
    (@new_state leader_env AlgHotStuff (NewPacemaker 4)) busy_actions (wire_node (sample_replica leader_env)) busy)
    as [_ Hround].
  - reflexivity.
  - repeat constructor.
  - repeat constructor; done.
  - by_vm.
  - rewrite E in Hround. exact Hround.
Defined.

(** The timer of a replica that waits at the [select]. *)
Definition waiting0 : timed (H0 := sample_bitset) chained :=
  timed_run leader_env [(still 0, TReceive (MsgTxn (sample_tx "a"))); (still 0, TListenStart)] (timed_sample leader_env).
Definition waiting1 : timed (H0 := sample_bitset) chained := timed_run leader_env [(still 5, TListenReset)] waiting0.
Definition expired : list ((nat → Z) * timed_action) := [(still (second + 5), TTimer)].
Definition waiting2 : timed (H0 := sample_bitset) chained := timed_run leader_env expired waiting1.
Definition waiting3 : timed (H0 := sample_bitset) chained :=
  timed_run leader_env [(still (second + 5), TListenTimer)] waiting2.

Lemma timeout_not_early_witness :
  ∃ clock, (clock, TTimer) ∈ expired ∧ still 5 0%nat + GetTimerForView 1000 ≤ clock 0%nat.
Proof.
  apply (@timeout_not_early leader_env sample_bitset _ (@hs_safety leader_env) 10 10 1 1000 (still 5)
           (still (second + 5)) expired waiting0 waiting1 waiting2 waiting3);
    try by_vm.
  - by repeat constructor.
  - intros E. apply (f_equal (λ r, curView_of (safety r))) in E. vm_compute in E. discriminate E.
Defined.
