(* ===== verification/Config.v ===== *)
(** * The configuration ([src/config/config.go])

    The record of settings, its defaults and the loading of the addresses.  The
    parsed JSON file and the lines of [ips.txt] are arguments of [Load]; a Go map
    may be nil, [None], and then assigning to it panics. *)
From S2P Require Import Prelude Identity.
From Stdlib Require Import QArith.

Local Open Scope Z_scope.

(** Lines 66-84. *)
Record Bconfig := MkBconfig {
  bc_T : Z;
  bc_N : Z;
  bc_K : Z;
  bc_Throttle : Z;
  bc_Concurrency : Z;
  bc_Distribution : string;
  bc_Conflicts : Z;
  bc_Min : Z;
  bc_Mu : Q;
  bc_Sigma : Q;
  bc_Move : bool;
  bc_Speed : Z
}.

(** Lines 21-60. *)
Record Config := MkConfig {
  Addrs : option (gmap NodeID string);
  HTTPAddrs : option (gmap NodeID string);
  Policy : string;
  Threshold : Q;
  Thrifty : bool;
  BufferSize : Z;
  ChanBufferSize : Z;
  MultiVersion : bool;
  Timeout : Z;
  ByzNo : Z;
  BSize : Z;
  Fixed : bool;
  Benchmark : Bconfig;
  Delta : Z;
  Pprof : bool;
  MaxRound : Z;
  Strategy : string;
  PayloadSize : Z;
  Master : NodeID;
  Delay : Z;
  DErr : Z;
  MemSize : Z;
  SlowMax : Z;
  CrashTime : Z;
  hasher : string;
  signer : string;
  nodes_n : Z
}.

(** Lines 109-120. *)
Definition MakeDefaultConfig : Config :=
  {| Addrs := None; HTTPAddrs := None; Policy := "consecutive"; Threshold := 3; Thrifty := false;
     BufferSize := 1024; ChanBufferSize := 1024; MultiVersion := false; Timeout := 0; ByzNo := 0;
     BSize := 0; Fixed := false;
     Benchmark := MkBconfig 0 0 0 0 0 "" 0 0 0 0 false 0;
     Delta := 0; Pprof := false; MaxRound := 0; Strategy := ""; PayloadSize := 0; Master := "";
     Delay := 0; DErr := 0; MemSize := 0; SlowMax := 0; CrashTime := 0; hasher := "sha3_256";
     signer := "ECDSA_P256"; nodes_n := 0 |}.

Definition set_Addrs (a h : option (gmap NodeID string)) (n : Z) (c : Config) : Config :=
  MkConfig a h (Policy c) (Threshold c) (Thrifty c) (BufferSize c) (ChanBufferSize c) (MultiVersion c)
    (Timeout c) (ByzNo c) (BSize c) (Fixed c) (Benchmark c) (Delta c) (Pprof c) (MaxRound c) (Strategy c)
    (PayloadSize c) (Master c) (Delay c) (DErr c) (MemSize c) (SlowMax c) (CrashTime c) (hasher c)
    (signer c) n.

(** Lines 98-100; the result is in nanoseconds. *)
Definition GetTimer (c : Config) : Z := int64 (Timeout c * 1000000).

(** Lines 141-161. *)
Definition IDs `{GoRange} (c : Config) : list NodeID := (range (default ∅ (Addrs c))).*1.
Definition N (c : Config) : Z := nodes_n c.
Definition GetHashScheme (c : Config) : string := hasher c.
Definition GetSignatureScheme (c : Config) : string := signer c.

(** Lines 203-206. *)
Definition peer_address (i : Z) (ip : string) : string := ("tcp://" ++ ip ++ ":" ++ Itoa (3734 + i))%string.
Definition http_address (i : Z) (ip : string) : string := ("http://" ++ ip ++ ":" ++ Itoa (8069 + i))%string.

(** An assignment to an entry of a map, a panic if the map is nil. *)
Definition assign (m : option (gmap NodeID string)) (k : NodeID) (v : string)
  : outcome (option (gmap NodeID string)) :=
  match m with None => Fault ExplicitPanic | Some m => mret (Some (<[k := v]> m)) end.

(** Lines 200-210. *)
Fixpoint load_ips (ips : list string) (i : Z) (a h : option (gmap NodeID string))
  : outcome (option (gmap NodeID string) * option (gmap NodeID string)) :=
  match ips with
  | [] => mret (a, h)
  | ip :: ips =>
      let id := NewNodeID i in
      a ← assign a id (peer_address i ip);
      h ← assign h id (http_address i ip);
      load_ips ips (int64 (i + 1)) a h
  end.

(** Lines 181-217; [c] is the configuration that the decoder has filled in. *)
Definition Load (c : Config) (ips : list string) : outcome Config :=
  '(a, h) ← load_ips ips 1 (Addrs c) (HTTPAddrs c);
  mret (set_Addrs a h (Z.of_nat (base.size (default ∅ a))) c).

(** *** Files

    [encoding/json] on a configuration: the text of the exported fields, and the
    decoding of a text over the fields of a given configuration. *)
Class ConfigJSON := {
  cfg_Marshal : Config → result string;
  cfg_Decode : string → Config → result Config
}.

(** The fields that are not exported, [hasher], [signer] and [n], are not written and
    keep their values. *)
Definition exported (from into : Config) : Config :=
  MkConfig (Addrs from) (HTTPAddrs from) (Policy from) (Threshold from) (Thrifty from) (BufferSize from)
    (ChanBufferSize from) (MultiVersion from) (Timeout from) (ByzNo from) (BSize from) (Fixed from)
    (Benchmark from) (Delta from) (Pprof from) (MaxRound from) (Strategy from) (PayloadSize from)
    (Master from) (Delay from) (DErr from) (MemSize from) (SlowMax from) (CrashTime from) (hasher into)
    (signer into) (nodes_n into).

(** Lines 171-178. *)
Definition Config_String `{ConfigJSON} (c : Config) : string :=
  match cfg_Marshal c with Val s => s | Err _ => "" end.

(** Lines 220-227; [created] is whether the file can be created. *)
Definition Save `{ConfigJSON} (created : result ()) (c : Config) : result string :=
  match created with Err e => Err e | Val () => cfg_Marshal c end.

(** Lines 181-217 with the file: one that cannot be opened or decoded exits. *)
Definition LoadFile `{ConfigJSON} (file : result string) (ips : list string) (c : Config) : outcome Config :=
  match file with
  | Err _ => Fault FatalExit
  | Val text => match cfg_Decode text c with Err _ => Fault FatalExit | Val c => Load c ips end
  end.

(** What is saved is loaded: all exported fields, and the number of nodes anew. *)
Lemma Save_LoadFile `{ConfigJSON} c c0 text :
  (∀ c c0 text, cfg_Marshal c = Val text → cfg_Decode text c0 = Val (exported c c0)) →
  Save (Val ()) c = Val text →
  LoadFile (Val text) [] c0
  = Ok (set_Addrs (Addrs c) (HTTPAddrs c) (Z.of_nat (base.size (default ∅ (Addrs c)))) (exported c c0)).
Proof. intros Hjson Hs. simpl in Hs. unfold LoadFile. by rewrite (Hjson c c0 text Hs). Qed.

(** message.go, lines 101-105. *)
Record RegisterMsg := MkRegister { rg_Client : bool; rg_ID : NodeID; rg_Addr : string }.

(** utils.go, lines 100-117: registers with the master, whose answer is the
    configuration; no connection or no answer exits. *)
Definition ConnectToMaster (dialled : result ()) (answer : RegisterMsg → result Config) (client : bool) (id : NodeID)
  : outcome Config :=
  match dialled with
  | Err _ => Fault FatalExit
  | Val () => match answer (MkRegister client id "") with Err _ => Fault FatalExit | Val c => Ok c end
  end.

(** Lines 229-231. *)
Definition IsByzantine (c : Config) (id : NodeID) : bool := bool_decide (Node id ≤ ByzNo c).

(** ** The addresses after loading *)

Lemma load_ips_run ips i a h :
  0 < i → i + Z.of_nat (length ips) ≤ max_int64 →
  ∃ a' h', load_ips ips i (Some a) (Some h) = Ok (Some a', Some h')
    ∧ (∀ k ip, ips !! k = Some ip → a' !! NewNodeID (i + Z.of_nat k) = Some (peer_address (i + Z.of_nat k) ip)
         ∧ h' !! NewNodeID (i + Z.of_nat k) = Some (http_address (i + Z.of_nat k) ip))
    ∧ (∀ j, (∀ k, i ≤ k < i + Z.of_nat (length ips) → j ≠ NewNodeID k) → a' !! j = a !! j ∧ h' !! j = h !! j)
    ∧ dom a' = dom a ∪ list_to_set (NewNodeID <$> seqZ i (Z.of_nat (length ips))).
Proof.
  revert i a h. induction ips as [|ip ips IH]; intros i a h Hi Hmax; simpl.
  { exists a, h. split_and!; [done|done|done|]. simpl. set_solver. }
  simpl in Hmax. rewrite int64_id by (unfold_ints; lia).
  destruct (IH (i + 1) (<[NewNodeID i := peer_address i ip]> a) (<[NewNodeID i := http_address i ip]> h))
    as (a' & h' & H1 & H2 & H3 & H4); [lia..|].
  exists a', h'. split_and!; [done| | |].
  - intros [|k] ip' Hk; simpl in Hk.
    + injection Hk as ->. rewrite Z.add_0_r. destruct (H3 (NewNodeID i)) as [-> ->].
      * intros k Hk E%NewNodeID_inj; unfold_ints; lia.
      * by rewrite !lookup_insert_eq.
    + destruct (H2 k ip' Hk) as [Ha Hh]. replace (i + Z.of_nat (S k)) with (i + 1 + Z.of_nat k) by lia. done.
  - intros j Hj. destruct (H3 j) as [-> ->].
    + intros k Hk. apply Hj. lia.
    + assert (j ≠ NewNodeID i) by (apply Hj; lia). by rewrite !lookup_insert_ne.
  - rewrite H4, dom_insert_L. replace (Z.of_nat (S (length ips))) with (1 + Z.of_nat (length ips)) by lia.
    rewrite (seqZ_cons i) by lia. simpl. replace (Z.pred (1 + Z.of_nat (length ips))) with (Z.of_nat (length ips)) by lia.
    replace (Z.succ i) with (i + 1) by lia. set_solver.
Qed.

Lemma NewNodeID_seq_NoDup n : n ≤ max_int64 → NoDup (NewNodeID <$> seqZ 1 n).
Proof.
  intros Hn. apply NoDup_fmap_2_strong; [|apply NoDup_seqZ].
  intros x y Hx%elem_of_seqZ Hy%elem_of_seqZ E. apply NewNodeID_inj in E; unfold_ints; lia.
Qed.

(** [Load] gives node [i] the address of the [i]-th line, with a port of its
    own, keeps the other addresses of the file, and counts the nodes: if the file
    names none beyond the lines, they are as many as lines.  Without the two maps
    in the file, a line makes it panic. *)
Theorem Load_addresses c ips :
  Z.of_nat (length ips) < max_int64 →
  match Addrs c, HTTPAddrs c with
  | Some a, Some h => ∃ a' h', Load c ips = Ok (set_Addrs (Some a') (Some h') (Z.of_nat (base.size a')) c)
      ∧ (∀ i ip, ips !! i = Some ip →
           a' !! NewNodeID (Z.of_nat i + 1) = Some (peer_address (Z.of_nat i + 1) ip)
           ∧ h' !! NewNodeID (Z.of_nat i + 1) = Some (http_address (Z.of_nat i + 1) ip))
      ∧ (∀ j, (∀ k, 1 ≤ k ≤ Z.of_nat (length ips) → j ≠ NewNodeID k) → a' !! j = a !! j)
      ∧ ((∀ j, is_Some (a !! j) → ∃ k, 1 ≤ k ≤ Z.of_nat (length ips) ∧ j = NewNodeID k) →
         base.size a' = length ips)
  | _, _ => ips ≠ [] → Load c ips = Fault ExplicitPanic
  end.
Proof.
  intros Hlen. destruct (Addrs c) as [a|] eqn:Ea; [|intros Hne; unfold Load; rewrite Ea; by destruct ips].
  destruct (HTTPAddrs c) as [h|] eqn:Eh; [|intros Hne; unfold Load; rewrite Ea, Eh; by destruct ips].
  destruct (load_ips_run ips 1 a h) as (a' & h' & H1 & H2 & H3 & H4); [lia..|].
  exists a', h'. split_and!.
  - unfold Load. rewrite Ea, Eh. cbn [mbind outcome_bind]. by rewrite H1.
  - intros i ip Hi. rewrite (Z.add_comm (Z.of_nat i)). by apply H2.
  - intros j Hj. apply H3. intros k Hk. apply Hj. lia.
  - intros Hin. rewrite <- size_dom, H4.
    assert (dom a ∪ list_to_set (NewNodeID <$> seqZ 1 (Z.of_nat (length ips)))
            = list_to_set (C := gset NodeID) (NewNodeID <$> seqZ 1 (Z.of_nat (length ips)))) as ->.
    { apply subseteq_union_1_L. intros j Hj%elem_of_dom. apply elem_of_list_to_set, list_elem_of_fmap.
      destruct (Hin j Hj) as (k & Hk & ->). exists k. split; [done|]. apply elem_of_seqZ. lia. }
    rewrite size_list_to_set by (apply NewNodeID_seq_NoDup; lia).
    rewrite length_fmap, length_seqZ. lia.
Qed.

Definition sample_file : Config :=
  set_Addrs (Some {["1" := "tcp://127.0.0.1:3735"]}) (Some {["1" := "http://127.0.0.1:8070"]}) 0 MakeDefaultConfig.

Lemma Load_addresses_witness :
  ∃ a' h', Load sample_file ["10.0.0.1"; "10.0.0.2"] = Ok (set_Addrs (Some a') (Some h') (Z.of_nat (base.size a')) sample_file)
    ∧ base.size a' = 2%nat ∧ a' !! "2" = Some "tcp://10.0.0.2:3736".
Proof.
  destruct (Load_addresses sample_file ["10.0.0.1"; "10.0.0.2"]) as (a' & h' & H1 & H2 & H3 & H4); [by vm_compute|].
  exists a', h'. split; [exact H1|]. split.
  - apply H4. intros j [x Hx]. apply lookup_singleton_Some in Hx as [<- _]. exists 1.
    split; [simpl; lia|reflexivity].
  - destruct (H2 1%nat "10.0.0.2" eq_refl) as [H5 _]. exact H5.
Defined.

(** The Byzantine nodes are the first [ByzNo]: of [n] nodes with consecutive
    numbers, [ByzNo] are Byzantine, or all of them; and an identifier that is not a
    number counts as Byzantine unless [ByzNo] is negative. *)
Theorem IsByzantine_count c n :
  0 ≤ n ≤ max_int64 →
  Z.of_nat (length (filter (λ id, IsByzantine c id = true) (NewNodeID <$> seqZ 1 n)))
    = Z.min n (Z.max 0 (ByzNo c))
  ∧ ∀ id, ParseUint id = None → IsByzantine c id = bool_decide (0 ≤ ByzNo c).
Proof.
  intros Hn. split.
  - assert (∀ k s, 0 < s → s + Z.of_nat k ≤ max_int64 + 1 →
      Z.of_nat (length (filter (λ id, IsByzantine c id = true) (NewNodeID <$> seqZ s (Z.of_nat k))))
      = Z.min (Z.of_nat k) (Z.max 0 (ByzNo c - s + 1))) as Hgen.
    { induction k as [|k IH]; intros s Hs Hmax; [simpl; lia|]. rewrite seqZ_cons by lia.
      replace (Z.pred (Z.of_nat (S k))) with (Z.of_nat k) by lia. cbn [fmap list_fmap].
      specialize (IH (Z.succ s) ltac:(lia) ltac:(lia)).
      assert (IsByzantine c (NewNodeID s) = bool_decide (s ≤ ByzNo c)) as Eb.
      { unfold IsByzantine. rewrite Node_NewNodeID by lia. done. }
      destruct (decide (s ≤ ByzNo c)) as [Hb|Hb].
      - rewrite filter_cons_True by (rewrite Eb; by apply bool_decide_eq_true_2). cbn [length]. lia.
      - rewrite filter_cons_False by (rewrite Eb, bool_decide_eq_true; done). lia. }
    specialize (Hgen (Z.to_nat n) 1 ltac:(lia) ltac:(lia)). rewrite Z2Nat.id in Hgen by lia. lia.
  - intros id Hid. unfold IsByzantine, Node. by rewrite Hid.
Qed.

Lemma IsByzantine_count_witness :
  Z.of_nat (length (filter (λ id, IsByzantine MakeDefaultConfig id = true) (NewNodeID <$> seqZ 1 4))) = 0
  ∧ IsByzantine MakeDefaultConfig "" = true.
Proof.
  destruct (IsByzantine_count MakeDefaultConfig 4) as [H1 H2]; [by vm_compute|].
  split; [exact H1|]. exact (H2 "" eq_refl).
Defined.
