(* ===== verification/TimeCal.v ===== *)
(** * Latencies of commands ([src/timecal/time_cal.go])

    The times at which commands were received and finished, in nanoseconds.  A
    missing entry of a Go map of times reads as the zero time, two thousand years
    ago, from which every difference saturates. *)
From S2P Require Import Prelude.

Local Open Scope Z_scope.

Record timeCalculator := MkTimeCal {
  receivedTime : gmap string Z;
  finishedTime : gmap string Z
}.

Definition NewTimeCal : timeCalculator := MkTimeCal ∅ ∅.

Definition RecvTs (now : Z) (commandD : string) (tc : timeCalculator) : timeCalculator :=
  MkTimeCal (<[commandD := now]> (receivedTime tc)) (finishedTime tc).

(** [t.Sub(u)] on times of which [t] may be the zero time. *)
Definition Sub (t : option Z) (u : Z) : Z :=
  match t with
  | None => min_int64
  | Some t => Z.max min_int64 (Z.min max_int64 (t - u))
  end.

(** Lines 41-52, one round. *)
Definition done_round (commandD : string) (s : timeCalculator * list Z) (digest : string)
  : timeCalculator * list Z :=
  let '(tc, latencySet) := s in
  match receivedTime tc !! digest with
  | None => s
  | Some recv =>
      (MkTimeCal (delete digest (receivedTime tc)) (delete digest (finishedTime tc)),
       latencySet ++ [Sub (finishedTime tc !! commandD) recv])
  end.

(** Lines 33-55. *)
Definition DoneTs `{GoRange} (now : Z) (commandD : string) (tc : timeCalculator) : timeCalculator * list Z :=
  let tc := MkTimeCal (receivedTime tc) (<[commandD := now]> (finishedTime tc)) in
  foldl (done_round commandD) (tc, []) (range (finishedTime tc)).*1.

(** ** Commands that finish after they were received *)

Inductive tc_call := TRecv (now : Z) (d : string) | TDone (now : Z) (d : string).

Definition tc_step `{GoRange} (s : timeCalculator * list (list Z)) (c : tc_call)
  : timeCalculator * list (list Z) :=
  match c with
  | TRecv now d => (RecvTs now d s.1, s.2)
  | TDone now d => let '(tc, l) := DoneTs now d s.1 in (tc, s.2 ++ [l])
  end.

(** What a caller expects: the latency of a command since it was last received. *)
Definition tc_spec (s : gmap string Z * list (list Z)) (c : tc_call) : gmap string Z * list (list Z) :=
  match c with
  | TRecv now d => (<[d := now]> s.1, s.2)
  | TDone now d =>
      (delete d s.1, s.2 ++ [match s.1 !! d with Some r => [Sub (Some now) r] | None => [] end])
  end.

(** No command is received again, or late, once it was finished. *)
Fixpoint in_order (finished : gset string) (cs : list tc_call) : Prop :=
  match cs with
  | [] => True
  | TRecv _ d :: cs => (d ∉ finished) ∧ in_order finished cs
  | TDone _ d :: cs => in_order ({[d]} ∪ finished) cs
  end.

Lemma done_round_other `{GoRange} commandD tc ls l :
  (∀ d, d ∈ l → receivedTime tc !! d = None) → foldl (done_round commandD) (tc, ls) l = (tc, ls).
Proof.
  revert ls. induction l as [|d l IH]; intros ls Hl; simpl; [done|]. rewrite Hl by (by left).
  apply IH. intros d' Hd'. apply Hl. by right.
Qed.

Lemma DoneTs_ordered `{GoRange} now d tc :
  (∀ d', is_Some (finishedTime tc !! d') → receivedTime tc !! d' = None) →
  ∃ tc', DoneTs now d tc
      = (tc', match receivedTime tc !! d with Some r => [Sub (Some now) r] | None => [] end)
    ∧ receivedTime tc' = delete d (receivedTime tc)
    ∧ (∀ d', is_Some (finishedTime tc' !! d') → d' = d ∨ is_Some (finishedTime tc !! d')).
Proof.
  intros Hf. unfold DoneTs. set (tc1 := MkTimeCal _ _).
  assert (∀ d', d' ∈ (range (finishedTime tc1)).*1 → d' ≠ d → receivedTime tc1 !! d' = None) as Hother.
  { intros d' ([k v] & -> & Hin%elem_of_range)%list_elem_of_fmap Hne. apply Hf. simpl in *.
    rewrite lookup_insert_ne in Hin by done. by eexists. }
  assert (d ∈ (range (finishedTime tc1)).*1) as Hin.
  { apply list_elem_of_fmap. exists (d, now). split; [done|]. apply elem_of_range. simpl. apply lookup_insert_eq. }
  pose proof (NoDup_fst_range (finishedTime tc1)) as Hnd.
  assert (∀ d', is_Some (finishedTime tc1 !! d') → d' = d ∨ is_Some (finishedTime tc !! d')) as Hfin.
  { intros d' Hd'. destruct (decide (d' = d)); [by left|right]. simpl in Hd'. by rewrite lookup_insert_ne in Hd'. }
  apply list_elem_of_split in Hin as (l1 & l2 & E). rewrite E in *.
  apply NoDup_app in Hnd as (_ & Hd1 & Hd2). apply NoDup_cons in Hd2 as [Hd2 _].
  rewrite foldl_app. rewrite done_round_other.
  2:{ intros d' Hd'. apply Hother; [set_solver|]. intros ->. apply (Hd1 d Hd'). by left. }
  cbn [foldl].
  assert (done_round d (tc1, []) d = match receivedTime tc !! d with
    | None => (tc1, [])
    | Some r => (MkTimeCal (delete d (receivedTime tc)) (delete d (finishedTime tc1)), [Sub (Some now) r]) end) as ->.
  { simpl. destruct (receivedTime tc !! d); [|done]. by rewrite lookup_insert_eq. }
  destruct (receivedTime tc !! d) as [r|] eqn:Er; rewrite done_round_other.
  - eexists. split; [done|]. split; [done|].
    intros d' [x Hx]. apply Hfin. simpl in *. apply lookup_delete_Some in Hx as [_ Hx]. by eexists.
  - intros d' Hd'. simpl. assert (d' ≠ d) by (intros ->; done). rewrite lookup_delete_ne by done.
    apply Hother; [set_solver|done].
  - exists tc1. split; [done|]. split; [|done]. simpl. by rewrite delete_id.
  - intros d' Hd'. apply Hother; [set_solver|]. intros ->. done.
Qed.

(** If no command is received after it was finished, the calculator returns
    for every finished command its latency since it was last received, once, and
    nothing for a command that was not received. *)
Theorem latencies_exact `{GoRange} cs :
  in_order ∅ cs → (foldl tc_step (NewTimeCal, []) cs).2 = (foldl tc_spec (∅, []) cs).2.
Proof.
  assert (∀ finished tc m ls, in_order finished cs → receivedTime tc = m →
    (∀ d, is_Some (finishedTime tc !! d) → d ∈ finished) → (∀ d, d ∈ finished → m !! d = None) →
    (foldl tc_step (tc, ls) cs).2 = (foldl tc_spec (m, ls) cs).2) as Hgen.
  { induction cs as [|[now d|now d] cs IH]; intros finished tc m ls Ho Hm Hf Hn; simpl; [done| |]; simpl in Ho.
    - destruct Ho as [Hd Ho]. apply (IH finished); [done|by rewrite <- Hm|done|].
      intros d' Hd'. rewrite lookup_insert_ne by (intros ->; done). by apply Hn.
    - destruct (DoneTs_ordered now d tc) as (tc' & E & Hr & Hf'); [intros d' Hd'; rewrite Hm; by apply Hn, Hf|].
      rewrite E, Hm.
      apply (IH ({[d]} ∪ finished)); [done|by rewrite Hr, Hm| |].
      + intros d' [->|Hd']%Hf'; [set_solver|]. apply elem_of_union_r, Hf, Hd'.
      + intros d' [->%elem_of_singleton|Hd']%elem_of_union; [apply lookup_delete_eq|].
        apply lookup_delete_None. right. by apply Hn. }
  intros Ho. apply (Hgen ∅); [done|done| |set_solver]. intros d [x Hx]. simpl in Hx. done.
Qed.

Lemma latencies_exact_witness :
  (foldl (@tc_step canonical_range) (NewTimeCal, []) [TRecv 5 "a"; TRecv 6 "b"; TDone 9 "b"; TDone 10 "a"; TDone 11 "c"]).2
  = [[3]; [5]; []].
Proof.
  rewrite (@latencies_exact canonical_range); [reflexivity|].
  simpl. repeat split; set_solver.
Defined.

(** A command that is finished before it is received is reported with the next one
    to finish, with that one's time, or even with the zero time. *)
Example latency_of_another_command :
  (foldl (@tc_step canonical_range) (NewTimeCal, [])
     [TDone 1 "a"; TRecv 2 "a"; TRecv 90 "b"; TDone 100 "b"]).2 = [[]; [98; 10]]
  ∨ (foldl (@tc_step canonical_range) (NewTimeCal, [])
     [TDone 1 "a"; TRecv 2 "a"; TRecv 90 "b"; TDone 100 "b"]).2 = [[]; [10; min_int64]].
Proof. vm_compute. by (left + right). Qed.
