(* ===== verification/Stat.v ===== *)
(** * Statistics of latencies ([src/benchmark/stat.go])

    The sample is converted to milliseconds, sorted and read at the indices of the
    percentiles, all in [float64].  The theorem says that the indices are in range for
    every sample that is not empty, and in order. *)
From S2P Require Import Prelude Float64 Format Identity.
From stdpp Require Import sorting.
From Stdlib Require Import SpecFloat.

Local Open Scope Z_scope.

(** Lines 12-22. *)
Record Stat := MkStat {
  Data : list f64;
  Size : Z;
  Mean : f64;
  Min : f64;
  Max : f64;
  Median : f64;
  P95 : f64;
  P99 : f64;
  P999 : f64
}.

(** The constants 0.5, 0.95, 0.99 and 0.999 of lines 61-64, multiples of [2^-53]. *)
Definition m50 : positive := 4503599627370496.
Definition m95 : positive := 8556839292003942.
Definition m99 : positive := 8917127262193582.
Definition m999 : positive := 8998192055486251.
Definition fraction (m : positive) : f64 := S754_finite false m (-53).

(** The index of lines 61-64. *)
Definition percentile (m : positive) (size : Z) : Z := f64_to_int (f64_mul (fraction m) (f64_of_Z size)).

(** Lines 44-66. *)
Definition to_ms (l : Z) : f64 := f64_div (f64_of_Z l) (f64_of_Z 1000000).

Definition Statistic (latency : list Z) : outcome Stat :=
  let ms := merge_sort f64_le (to_ms <$> latency) in
  let sum := foldl f64_add (S754_zero false) ms in
  let size := Z.of_nat (length ms) in
  min ← index ms 0;
  max ← index ms (size - 1);
  median ← index ms (percentile m50 size);
  p95 ← index ms (percentile m95 size);
  p99 ← index ms (percentile m99 size);
  p999 ← index ms (percentile m999 size);
  mret (MkStat ms size (f64_div sum (f64_of_Z size)) min max median p95 p99 p999).

(** Lines 25-37: the lines written, one per latency, unless the file cannot be
    created. *)
Definition Stat_WriteFile (created : result ()) (s : Stat) : result (list string) :=
  match created with Err e => Err e | Val () => Val (fmt_v <$> Data s) end.

(** Lines 39-41. *)
Definition Stat_String (s : Stat) : string :=
  ("size = " ++ Itoa (Size s) ++ nl ++ "mean = " ++ fmt_f (Mean s) ++ nl ++ "min = " ++ fmt_f (Min s) ++ nl
  ++ "max = " ++ fmt_f (Max s) ++ nl ++ "median = " ++ fmt_f (Median s) ++ nl
  ++ "p95 = " ++ fmt_f (P95 s) ++ nl ++ "p99 = " ++ fmt_f (P99 s) ++ nl
  ++ "p999 = " ++ fmt_f (P999 s) ++ nl)%string.

(** ** The indices are in range and in order *)

Lemma percentile_range m z :
  m ∈ [m50; m95; m99; m999] → 0 < z < 2 ^ 53 → 0 ≤ percentile m z < z.
Proof.
  intros Hm Hz. rewrite !elem_of_cons, elem_of_nil in Hm.
  destruct Hm as [->|[->|[->|[->|[]]]]]; apply f64_index; done.
Qed.

Lemma percentile_order z :
  0 < z < 2 ^ 53 →
  percentile m50 z ≤ percentile m95 z ∧ percentile m95 z ≤ percentile m99 z ∧ percentile m99 z ≤ percentile m999 z.
Proof. intros Hz. split_and!; by apply f64_index_mono. Qed.

(** A sorted list by index. *)
Lemma sorted_index (l : list f64) (i j : nat) x y :
  StronglySorted f64_le l → l !! i = Some x → l !! j = Some y → (i ≤ j)%nat → f64_le x y.
Proof.
  intros Hl. revert i j. induction Hl as [|a l Hl IH Ha]; intros i j Hi Hj Hle; [done|].
  rewrite Forall_forall in Ha. destruct i as [|i], j as [|j]; simpl in *; [|..|lia|].
  - rewrite Hi in Hj. injection Hj as <-. destruct (total f64_le x x); done.
  - injection Hi as <-. apply Ha, list_elem_of_lookup. eauto.
  - apply (IH i j); [done..|lia].
Qed.

Lemma index_in_range {A} (l : list A) i : 0 ≤ i < Z.of_nat (length l) → ∃ x, index l i = Ok x ∧ l !! Z.to_nat i = Some x.
Proof.
  intros Hi. destruct (lookup_lt_is_Some_2 l (Z.to_nat i)) as [x Hx]; [lia|]. exists x. split; [|done].
  apply index_ok. split; [lia|done].
Qed.

(** [C37] The statistics of a sample of latencies.  An empty sample panics.  Every other
    sample (of less than [2^53] values) has its statistics: the data are the latencies
    in milliseconds, sorted, and smallest, median, 95, 99 and 99.9 percent and largest
    are values of the data in this order. *)
Theorem Statistic_ordered latency :
  Z.of_nat (length latency) < 2 ^ 53 →
  match Statistic latency with
  | Fault f => latency = [] ∧ f = IndexOutOfRange
  | Ok s => Data s ≡ₚ to_ms <$> latency ∧ Sorted f64_le (Data s) ∧ Size s = Z.of_nat (length latency)
      ∧ Forall (λ x, x ∈ to_ms <$> latency) [Min s; Median s; P95 s; P99 s; P999 s; Max s]
      ∧ Sorted f64_le [Min s; Median s; P95 s; P99 s; P999 s; Max s]
  end.
Proof.
  intros Hlen. destruct (decide (latency = [])) as [->|Hne]; [done|]. unfold Statistic.
  set (ms := merge_sort f64_le (to_ms <$> latency)).
  assert (ms ≡ₚ to_ms <$> latency) as Hperm by apply merge_sort_Permutation.
  assert (StronglySorted f64_le ms) as Hsort by (apply StronglySorted_merge_sort; apply _).
  assert (length ms = length latency) as El by (rewrite Hperm; apply length_fmap).
  rewrite El. set (size := Z.of_nat (length latency)).
  assert (0 < size < 2 ^ 53) as Hsize by (destruct latency; [done|]; unfold size in *; simpl in *; lia).
  destruct (percentile_order size Hsize) as (O1 & O2 & O3).
  destruct (percentile_range m50 size ltac:(set_solver) Hsize), (percentile_range m95 size ltac:(set_solver) Hsize),
    (percentile_range m99 size ltac:(set_solver) Hsize), (percentile_range m999 size ltac:(set_solver) Hsize).
  assert (Z.of_nat (length ms) = size) as Esize by (unfold size; lia).
  destruct (index_in_range ms 0) as (x0 & -> & L0); [lia|]. destruct (index_in_range ms (size - 1)) as (x5 & -> & L5); [lia|].
  destruct (index_in_range ms (percentile m50 size)) as (x1 & -> & L1); [lia|].
  destruct (index_in_range ms (percentile m95 size)) as (x2 & -> & L2); [lia|].
  destruct (index_in_range ms (percentile m99 size)) as (x3 & -> & L3); [lia|].
  destruct (index_in_range ms (percentile m999 size)) as (x4 & -> & L4); [lia|].
  cbn. split_and!; [done|by apply StronglySorted_Sorted|done| |].
  - repeat (apply Forall_cons; split); try apply Forall_nil_2; rewrite <- Hperm; apply list_elem_of_lookup; eauto.
  - repeat constructor; by eapply (sorted_index ms); [done|done|done|lia].
Qed.

Definition sample_latencies : list Z := [3000000; 1000000; 2500000; 2000000].

Lemma Statistic_ordered_witness :
  ∃ s, Statistic sample_latencies = Ok s ∧ Size s = 4 ∧ Median s = to_ms 2500000 ∧ P999 s = to_ms 3000000
    ∧ Sorted f64_le [Min s; Median s; P95 s; P99 s; P999 s; Max s].
Proof.
  pose proof (Statistic_ordered sample_latencies ltac:(vm_compute; reflexivity)) as H.
  destruct (Statistic sample_latencies) as [s|] eqn:E; [|destruct H; discriminate].
  exists s. split; [reflexivity|]. split; [apply H|].
  assert (match Statistic sample_latencies with
          | Ok s => (Median s, P999 s) | Fault _ => (S754_nan, S754_nan) end = (to_ms 2500000, to_ms 3000000)) as Hv
    by (vm_compute; reflexivity).
  rewrite E in Hv. injection Hv as H1 H2. split; [exact H1|]. split; [exact H2|]. apply H.
Defined.
