(* ===== verification/Bench.v ===== *)
(** * The benchmark ([src/benchmark])

    Operations and their order (operation.go), the history (history.go), the rate
    limiter (rate.go), and the workload generator with its workers
    (benchmark.go).  Times are nanoseconds given by the caller. *)
From S2P Require Import Prelude Identity Config Float64 Stat.
From stdpp Require Import sorting.
From Stdlib Require Import QArith.

Local Open Scope Z_scope.

(** ** Operations (operation.go) *)
Section operations.
Context {V : Type} `{EqDecision V}.

Record operation := MkOperation { op_input : V; op_output : V; op_start : Z; op_end : Z }.

Definition happenBefore (a b : operation) : bool := bool_decide (op_end a < op_start b).
Definition concurrent (a b : operation) : bool := negb (happenBefore a b) && negb (happenBefore b a).
Definition equal (a b : operation) : bool :=
  bool_decide (op_input a = op_input b) && bool_decide (op_output a = op_output b)
  && bool_decide (op_start a = op_start b) && bool_decide (op_end a = op_end b).

(** Line 34. *)
Definition byTime_Less (l : list operation) (i j : Z) : outcome bool :=
  a ← index l i; b ← index l j; mret (bool_decide (op_start a < op_start b)).

(** ** The history (history.go) *)
Record History := MkHistory { shard : gmap Z (list operation); operations : list operation }.

Definition NewHistory : History := MkHistory ∅ [].

(** Lines 44-52. *)
Definition AddOperation (key : Z) (o : operation) (h : History) : History :=
  let s := match shard h !! key with None => <[key := []]> (shard h) | Some _ => shard h end in
  MkHistory (<[key := default [] (s !! key) ++ [o]]> s) (operations h ++ [o]).

(** Lines 32-41. *)
Definition Add (key : Z) (input output : V) (start stop : Z) (h : History) : History :=
  AddOperation key (MkOperation input output start stop) h.
End operations.
Arguments operation : clear implicits.
Arguments History : clear implicits.

Section order.
Context {V : Type}.
Implicit Types (a b c d : operation V).

(** An operation that ended after it started. *)
Definition timed_op (o : operation V) : Prop := op_start o ≤ op_end o.

Lemma happenBefore_true a b : happenBefore a b = true ↔ op_end a < op_start b.
Proof. apply bool_decide_eq_true. Qed.

(** On such operations [happenBefore] is an interval order, and [concurrent] holds
    of the pairs it does not order. *)
Lemma happenBefore_irrefl a : timed_op a → happenBefore a a = false.
Proof. unfold timed_op. intros. apply not_true_is_false. rewrite happenBefore_true. lia. Qed.
Lemma happenBefore_trans a b c :
  timed_op b → happenBefore a b = true → happenBefore b c = true → happenBefore a c = true.
Proof. unfold timed_op. rewrite !happenBefore_true. lia. Qed.
Lemma happenBefore_cross a b c d :
  happenBefore a b = true → happenBefore c d = true → happenBefore a d = true ∨ happenBefore c b = true.
Proof. rewrite !happenBefore_true. lia. Qed.
Lemma concurrent_spec a b :
  concurrent a b = true ↔ happenBefore a b = false ∧ happenBefore b a = false.
Proof. unfold concurrent. by rewrite andb_true_iff, !negb_true_iff. Qed.
End order.

(** ** What the history holds *)
Section history.
Context {V : Type}.
Implicit Types (h : History V).

(** The history after a sequence of calls. *)
Definition add_all (l : list (Z * operation V)) (h : History V) : History V :=
  foldl (λ h ko, AddOperation ko.1 ko.2 h) h l.

Lemma AddOperation_spec k (o : operation V) h k' :
  default [] (shard (AddOperation k o h) !! k') = default [] (shard h !! k') ++ (if decide (k' = k) then [o] else [])
  ∧ operations (AddOperation k o h) = operations h ++ [o].
Proof.
  split; [|done]. unfold AddOperation. simpl. destruct (decide (k' = k)) as [->|Hne].
  - rewrite lookup_insert_eq. simpl. destruct (shard h !! k) as [l|] eqn:E; [by rewrite E|].
    by rewrite lookup_insert_eq.
  - rewrite lookup_insert_ne, app_nil_r by done. destruct (shard h !! k); [done|]. by rewrite lookup_insert_ne.
Qed.

(** A history keeps every operation: after any sequence of calls the list has
    the operations in the order of the calls, and the shard of a key has exactly
    those with that key, in the same order. *)
Theorem history_complete (l : list (Z * operation V)) :
  operations (add_all l NewHistory) = l.*2
  ∧ ∀ k, default [] (shard (add_all l NewHistory) !! k) = (filter (λ ko, ko.1 = k) l).*2.
Proof.
  assert (∀ h, operations (add_all l h) = operations h ++ l.*2
    ∧ ∀ k, default [] (shard (add_all l h) !! k) = default [] (shard h !! k) ++ (filter (λ ko, ko.1 = k) l).*2) as H.
  { induction l as [|[k o] l IH]; intros h; simpl; [split; [by rewrite app_nil_r|intros; by rewrite app_nil_r]|].
    destruct (IH (AddOperation k o h)) as [H1 H2]. unfold add_all in *. rewrite H1.
    split; [by rewrite (proj2 (AddOperation_spec k o h k)), <- app_assoc|].
    intros k'. rewrite H2, (proj1 (AddOperation_spec k o h k')), <- app_assoc. f_equal.
    destruct (decide (k' = k)) as [->|]; [by rewrite filter_cons_True|by rewrite filter_cons_False by naive_solver]. }
  destruct (H NewHistory) as [H1 H2]. split; [done|]. intros k. rewrite H2. done.
Qed.
End history.

(** *** Reading a history *)

(** *** Writing the history (history.go, lines 55-94) *)
Section write.
Context {V : Type}.
(** [sort.Sort] by [byTime]: not stable, so any sorted permutation. *)
Context (sort_byTime : list (operation V) → list (operation V)).

(** A line of the file: an operation with its times in seconds, or the mean latency in
    milliseconds and the number of operations of one second. *)
Inductive line := LOperation (o : operation V) (start stop : f64) | LPerSecond (ms : f64) (throughput : Z).

Definition in_seconds (ns : Z) : f64 := f64_div (f64_of_Z ns) (f64_of_Z 1000000000).

(** Lines 71-85. *)
Fixpoint write_operations (ops : list (operation V)) (latency : f64) (throughput : Z) (s : f64) : list line :=
  match ops with
  | [] => []
  | o :: ops =>
      let start := in_seconds (op_start o) in
      let stop := in_seconds (op_end o) in
      let latency := f64_add latency (f64_sub stop start) in
      let throughput := int64 (throughput + 1) in
      LOperation o start stop ::
      if f64_ltb s stop then
        LPerSecond (f64_mul (f64_div latency (f64_of_Z throughput)) (f64_of_Z 1000)) throughput
        :: write_operations ops (f64_of_Z 0) 0 (f64_add s (f64_of_Z 1))
      else write_operations ops latency throughput s
  end.

(** The file is created; the operations of the history are sorted in place. *)
Definition History_WriteFile (created : result ()) (h : History V) : History V * result (list line) :=
  match created with
  | Err e => (h, Err e)
  | Val () =>
      let ops := sort_byTime (operations h) in
      (MkHistory (shard h) ops, Val (write_operations ops (f64_of_Z 0) 0 (f64_of_Z 1)))
  end.

Definition written_operations (ls : list line) : list (operation V) :=
  omap (λ l, match l with LOperation o _ _ => Some o | LPerSecond _ _ => None end) ls.
Definition reported (ls : list line) : list Z :=
  omap (λ l, match l with LOperation _ _ _ => None | LPerSecond _ n => Some n end) ls.

Lemma write_operations_spec ops latency n s :
  0 ≤ n → n + Z.of_nat (length ops) ≤ max_int64 →
  let ls := write_operations ops latency n s in
  written_operations ls = ops ∧ Forall (λ k, 1 ≤ k) (reported ls)
  ∧ foldr Z.add 0 (reported ls) ≤ n + Z.of_nat (length ops).
Proof.
  revert latency n s.
  induction ops as [|o ops IH]; intros latency n s Hn Hmax; cbn [write_operations]; [split_and!; [done|constructor|simpl; lia]|].
  simpl in Hmax. rewrite int64_id by (unfold_ints; lia). destruct (f64_ltb s (in_seconds (op_end o))).
  - destruct (IH (f64_of_Z 0) 0 (f64_add s (f64_of_Z 1))) as (H1 & H2 & H3); [lia..|].
    split_and!; [by rewrite <- H1 at 2|constructor; [lia|done]|simpl in *; lia].
  - edestruct (IH (f64_add latency (f64_sub (in_seconds (op_end o)) (in_seconds (op_start o)))) (n + 1) s) as (H1 & H2 & H3); [lia..|].
    split_and!; [by rewrite <- H1 at 2|done|simpl in *; lia].
Qed.

(** The file has every operation once, in the order of the start times, and every
    report covers at least one operation and no operation is reported twice. *)
Theorem WriteFile_complete h :
  (∀ l, sort_byTime l ≡ₚ l ∧ Sorted (λ a b, op_start a ≤ op_start b) (sort_byTime l)) →
  Z.of_nat (length (operations h)) ≤ max_int64 →
  ∃ ls, (History_WriteFile (Val ()) h).2 = Val ls ∧ written_operations ls ≡ₚ operations h
    ∧ Sorted (λ a b, op_start a ≤ op_start b) (written_operations ls)
    ∧ Forall (λ k, 1 ≤ k) (reported ls) ∧ foldr Z.add 0 (reported ls) ≤ Z.of_nat (length (operations h)).
Proof.
  intros Hsort Hlen. destruct (Hsort (operations h)) as [Hp Hs]. eexists. split; [done|].
  destruct (write_operations_spec (sort_byTime (operations h)) (f64_of_Z 0) 0 (f64_of_Z 1)) as (H1 & H2 & H3);
    [lia|rewrite Hp; lia|].
  apply Permutation_length in Hp as El. rewrite H1. split_and!; [done..|]. lia.
Qed.
End write.

(** Lines 126-138: a field of a record; [nil] is written as null or left out. *)
Definition field_value (s : string) : option string :=
  if decide (s = "null" ∨ s = "") then None else Some s.

(** Lines 105-157; the records are what the reader returns up to the end of the
    file.  A key that does not parse is an error, a time that does not parse exits. *)
Fixpoint read_records (records : list (result (list string))) (h : History (option string))
  : outcome (History (option string) * result ()) :=
  match records with
  | [] => mret (h, Val ())
  | Err e :: _ => mret (h, Err e)
  | Val (f0 :: f1 :: f2 :: f3 :: f4 :: _) :: rest =>
      match ParseInt f0 with
      | None => mret (h, Err "invalid syntax")
      | Some id =>
          start ← of_option FatalExit (ParseInt f3);
          stop ← of_option FatalExit (ParseInt f4);
          read_records rest (AddOperation id (MkOperation (field_value f1) (field_value f2) start stop) h)
      end
  | Val _ :: _ => mret (h, Err "operation history file format error")
  end.

(** Lines 97-160: [file] is the opened file, [closed] the result of closing it. *)
Definition ReadFile (file : result (list (result (list string)))) (closed : result ())
  (h : History (option string)) : outcome (History (option string) * result ()) :=
  match file with
  | Err e => mret (h, Err e)
  | Val records =>
      '(h, r) ← read_records records h;
      match r with Err e => mret (h, Err e) | Val () => mret (h, closed) end
  end.

(** The record of an operation. *)
Definition record_of (e : Z * operation (option string)) : list string :=
  [Itoa e.1; default "null" (op_input e.2); default "null" (op_output e.2);
   Itoa (op_start e.2); Itoa (op_end e.2)].

(** The operations that have one: their strings are neither empty nor null. *)
Definition writable (e : Z * operation (option string)) : Prop :=
  is_int64 e.1 ∧ is_int64 (op_start e.2) ∧ is_int64 (op_end e.2)
  ∧ field_value (default "null" (op_input e.2)) = op_input e.2
  ∧ field_value (default "null" (op_output e.2)) = op_output e.2.

(** Reading the records of a list of operations adds exactly these operations to
    the history, each under its key. *)
Theorem ReadFile_roundtrip l closed h :
  Forall writable l →
  ReadFile (Val (Val ∘ record_of <$> l)) closed h = Ok (add_all l h, closed).
Proof.
  intros Hl. unfold ReadFile.
  assert (read_records (Val ∘ record_of <$> l) h = Ok (add_all l h, Val ())) as ->; [|done].
  revert h. induction Hl as [|[k [i o a b]] l (Hk & Ha & Hb & Hi & Ho) _ IH]; intros h; [done|].
  simpl in Hk, Ha, Hb, Hi, Ho. change ((Val ∘ record_of) <$> _) with (Val (record_of (k, MkOperation i o a b)) :: ((Val ∘ record_of) <$> l)).
  unfold record_of at 1. cbn [fst snd op_input op_output op_start op_end].
  cbn [read_records]. rewrite !ParseInt_Itoa by done. simpl. rewrite Hi, Ho. apply IH.
Qed.

Lemma ReadFile_roundtrip_witness :
  ReadFile (Val [Val ["3"; "x"; "null"; "-5"; "8"]]) (Val ()) (NewHistory (V:=option string))
  = Ok (MkHistory {[3 := [MkOperation (Some "x") None (-5) 8]]} [MkOperation (Some "x") None (-5) 8], Val ()).
Proof.
  refine (ReadFile_roundtrip [(3, MkOperation (Some "x") None (-5) 8)] (Val ()) NewHistory _).
  constructor; [|constructor]. unfold writable. unfold_ints. simpl. repeat split; done.
Defined.

(** The rows that [WriteFile] writes have four fields (line 74); reading one back
    is an error that leaves the history alone. *)
Lemma ReadFile_refuses_written a b c d rest closed h :
  ReadFile (Val (Val [a; b; c; d] :: rest)) closed h
  = Ok (h, Err "operation history file format error").
Proof. done. Qed.

(** ** The rate limiter (rate.go) *)

Record Limiter := MkLimiter {
  lm_last : option Z;
  lm_sleep : Z;
  lm_interval : Z;
  lm_slack : Z
}.

Definition second : Z := 1000000000.

(** Lines 18-23: division truncates, and by zero panics. *)
Definition NewLimiter (rate : Z) : outcome Limiter :=
  if decide (rate = 0) then Fault DivideByZero
  else mret (MkLimiter None 0 (Z.quot second rate) (Z.quot (-10 * second) rate)).

(** [now.Sub(last)] saturates. *)
Definition Sub (now last : Z) : Z := Z.max min_int64 (Z.min max_int64 (now - last)).

(** Lines 26-52: the new state and the time the call returns at. *)
Definition Wait (now : Z) (l : Limiter) : Limiter * Z :=
  match lm_last l with
  | None => (MkLimiter (Some now) (lm_sleep l) (lm_interval l) (lm_slack l), now)
  | Some last =>
      let sleep := int64 (lm_sleep l + int64 (lm_interval l - Sub now last)) in
      let sleep := if decide (sleep < lm_slack l) then lm_slack l else sleep in
      if decide (0 < sleep)
      then (MkLimiter (Some (now + sleep)) 0 (lm_interval l) (lm_slack l), now + sleep)
      else (MkLimiter (Some now) sleep (lm_interval l) (lm_slack l), now)
  end.

(** Calls at given times, with the times they return at. *)
Fixpoint waits (nows : list Z) (l : Limiter) : Limiter * list Z :=
  match nows with
  | [] => (l, [])
  | now :: nows => let '(l, r) := Wait now l in let '(l, rs) := waits nows l in (l, r :: rs)
  end.

(** A limiter in use: its bounds, and what it owes, [last + sleep]. *)
Record limited (rate : Z) (l : Limiter) (last : Z) : Prop := {
  li_last : lm_last l = Some last;
  li_interval : lm_interval l = Z.quot second rate;
  li_slack : lm_slack l = Z.quot (-10 * second) rate;
  li_sleep : Z.quot (-10 * second) rate ≤ lm_sleep l ≤ 0
}.

(** A call that comes after the last one returned, within a hundred years. *)
Definition prompt (last now : Z) : Prop := last ≤ now ≤ last + 3153600000 * second.

Lemma quot_bounds rate :
  0 < rate → 0 ≤ Z.quot second rate ≤ second ∧ -10 * second ≤ Z.quot (-10 * second) rate ≤ 0.
Proof.
  intros Hr. unfold second. rewrite Z.quot_div_nonneg by lia.
  replace (-10 * 1000000000) with (- (10000000000)) by lia. rewrite Z.quot_opp_l by lia.
  rewrite Z.quot_div_nonneg by lia.
  pose proof (Z.div_pos 1000000000 rate ltac:(lia) Hr). pose proof (Z.div_pos 10000000000 rate ltac:(lia) Hr).
  pose proof (Z.div_le_upper_bound 1000000000 rate 1000000000 Hr ltac:(nia)).
  pose proof (Z.div_le_upper_bound 10000000000 rate 10000000000 Hr ltac:(nia)). lia.
Qed.

(** One call pushes what the limiter owes on by at least one interval. *)
Lemma Wait_step rate l last now :
  0 < rate → limited rate l last → prompt last now →
  let '(l', r) := Wait now l in
  limited rate l' r ∧ now ≤ r ∧ last + lm_sleep l + Z.quot second rate ≤ r + lm_sleep l'
  ∧ r ≤ Z.max now (last + Z.quot second rate).
Proof.
  intros Hr [L1 L2 L3 L4] Hp. pose proof (quot_bounds rate Hr) as [B1 B2]. unfold prompt in Hp.
  unfold Wait. rewrite L1, L2, L3.
  assert (Sub now last = now - last) as -> by (unfold Sub, second in *; unfold_ints; lia).
  rewrite (int64_id (Z.quot second rate - (now - last))) by (unfold second in *; unfold_ints; lia).
  rewrite int64_id by (unfold second in *; unfold_ints; lia).
  destruct (decide (_ < Z.quot (-10 * second) rate)) as [Hs|Hs].
  - rewrite decide_False by lia. split_and!; [split; simpl; (done || lia)|lia|simpl; lia|lia].
  - destruct (decide (0 < _)) as [Hpos|Hpos]; (split_and!; [split; simpl; (done || lia)|lia|simpl; lia|lia]).
Qed.

(** Prompt calls: each comes after the one before has returned. *)
Fixpoint prompt_calls (last : Z) (nows rs : list Z) : Prop :=
  match nows, rs with
  | now :: nows, r :: rs => prompt last now ∧ prompt_calls r nows rs
  | _, _ => True
  end.

Lemma waits_spec rate nows : ∀ l last,
  0 < rate → limited rate l last → prompt_calls last nows (waits nows l).2 →
  length (waits nows l).2 = length nows
  ∧ (∀ j r, (waits nows l).2 !! j = Some r →
       last + lm_sleep l + Z.of_nat (S j) * Z.quot second rate ≤ r
       ∧ ∃ now, nows !! j = Some now ∧ now ≤ r
         ∧ r ≤ Z.max now (default last ((last :: (waits nows l).2) !! j) + Z.quot second rate)).
Proof.
  induction nows as [|now nows IH]; intros l last Hr L Hp; simpl; [done|]. simpl in Hp.
  pose proof (Wait_step rate l last now Hr L) as Hstep.
  destruct (Wait now l) as [l1 r1]. destruct (waits nows l1) as [l2 rs] eqn:E. simpl in *.
  destruct Hp as [Hp1 Hp2]. destruct (Hstep Hp1) as (L1 & Hn & Ho & Hb).
  specialize (IH l1 r1 Hr L1). rewrite E in IH. simpl in IH. destruct (IH Hp2) as [Hlen Hall].
  split; [lia|]. intros [|j] r Hj; simpl in Hj.
  - injection Hj as ->. pose proof (li_sleep _ _ _ L1). split; [lia|]. exists now. split_and!; [done|lia|simpl; lia].
  - destruct (Hall j r Hj) as (H1 & now' & H2 & H3 & H4). split; [lia|]. exists now'.
    split_and!; [done|lia|]. change ((last :: r1 :: rs) !! S j) with ((r1 :: rs) !! j).
    destruct ((r1 :: rs) !! j) eqn:E2; [exact H4|].
    apply lookup_ge_None in E2. apply lookup_lt_Some in Hj. simpl in E2. lia.
Qed.

(** The limiter keeps the rate.  With prompt calls, from the first one on, the
    [j]-th later call returns at least [j] intervals after the first; between any
    two calls that are [j] apart at least [j] intervals pass less a slack of ten
    intervals; and a call never waits for longer than one interval after the
    previous one returned. *)
Theorem Limiter_rate rate start nows :
  0 < rate →
  ∃ l l0, NewLimiter rate = Ok l ∧ Wait start l = (l0, start) ∧
    let rs := (waits nows l0).2 in
    prompt_calls start nows rs →
    length rs = length nows
    ∧ (∀ j r, rs !! j = Some r → start + Z.of_nat (S j) * Z.quot second rate ≤ r
         ∧ ∃ now, nows !! j = Some now
           ∧ now ≤ r ≤ Z.max now (default start ((start :: rs) !! j) + Z.quot second rate))
    ∧ (∀ i j ri rj, rs !! i = Some ri → rs !! (i + j)%nat = Some rj →
         Z.of_nat j * Z.quot second rate + Z.quot (-10 * second) rate ≤ rj - ri).
Proof.
  intros Hr. unfold NewLimiter. rewrite decide_False by lia. eexists _, _.
  split; [reflexivity|]. split; [reflexivity|]. simpl. set (l0 := MkLimiter (Some start) _ _ _).
  pose proof (quot_bounds rate Hr) as [B1 B2].
  assert (limited rate l0 start) as L0 by (split; simpl; (done || lia)).
  intros Hp. destruct (waits_spec rate nows l0 start Hr L0 Hp) as [Hlen Hall]. split; [done|]. split.
  - intros j r Hj. destruct (Hall j r Hj) as (H1 & now & H2 & H3 & H4). simpl in H1. split; [lia|]. by exists now.
  - clear Hall Hlen. generalize dependent l0. revert start.
    induction nows as [|now nows IH]; intros start l0 L0 Hp i j ri rj Hi Hj; [done|].
    simpl in Hp, Hi, Hj. pose proof (Wait_step rate l0 start now Hr L0) as Hstep.
    destruct (Wait now l0) as [l1 r1]. destruct (waits nows l1) as [l2 rs] eqn:E. simpl in *.
    destruct Hp as [Hp1 Hp2]. destruct (Hstep Hp1) as (L1 & _ & _ & _).
    assert (prompt_calls r1 nows (waits nows l1).2) as Hp3 by (by rewrite E).
    destruct i as [|i].
    + injection Hi as <-. destruct j as [|j]; simpl in Hj; [injection Hj as <-; lia|].
      destruct (waits_spec rate nows l1 r1 Hr L1 Hp3) as [_ Hall]. rewrite E in Hall. simpl in Hall.
      destruct (Hall j rj Hj) as (H1 & _). pose proof (li_sleep _ _ _ L1). lia.
    + refine (IH r1 l1 L1 Hp3 i j ri rj _ _); by rewrite E.
Qed.

(** A thousand operations per second: three calls at once are spread out. *)
Lemma Limiter_rate_witness :
  ∃ l l0, NewLimiter 1000 = Ok l ∧ Wait 5 l = (l0, 5)
    ∧ (waits [5; 1000005; 2000005] l0).2 = [1000005; 2000005; 3000005]
    ∧ 5 + 3 * 1000000 ≤ 3000005.
Proof.
  destruct (Limiter_rate 1000 5 [5; 1000005; 2000005]) as (l & l0 & H1 & H2 & H3); [lia|].
  exists l, l0. split; [exact H1|]. split; [exact H2|].
  injection H1 as <-. injection H2 as <-.
  assert ((waits [5; 1000005; 2000005] (MkLimiter (Some 5) 0 1000000 (-10000000))).2
          = [1000005; 2000005; 3000005]) as E by (vm_compute; reflexivity).
  split; [exact E|]. destruct H3 as (_ & H3 & _); [vm_compute; repeat split; discriminate|].
  exact (proj1 (H3 2%nat 3000005 ltac:(vm_compute; reflexivity))).
Defined.

(** ** The workload (benchmark.go) *)

(** Lines 32-43, with the channels of [Run], the keys that were written and the
    counter [count] of line 12. *)
Record Benchmark := MkBenchmark {
  b_config : Bconfig;
  b_rate : option Limiter;
  b_latency : list Z;
  b_wait : Z;
  b_keys : list Z;
  b_latencies : list Z;
  b_generated : list Z;
  b_written : list Z;
  b_count : Z
}.

(** Lines 46-55. *)
Definition NewBenchmark (c : Bconfig) : outcome Benchmark :=
  if decide (0 < bc_Throttle c) then
    l ← NewLimiter (bc_Throttle c);
    mret (MkBenchmark c (Some l) [] 0 [] [] [] [] 0)
  else mret (MkBenchmark c None [] 0 [] [] [] [] 0).

(** Lines 22-29. *)
Definition DefaultBConfig : Bconfig := MkBconfig 60 0 0 0 1 "" 0 0 0%Q 0%Q false 0.

(** Lines 146-161: the time the limiter lets the call return at is not data. *)
Definition next (N ByzNo now : Z) (b : Benchmark) : outcome (Benchmark * Z) :=
  if decide (bc_Distribution (b_config b) = "uniform") then
    let key := int64 (b_count b) in
    let count := uint64 (b_count b + uint64 (int64 (N - ByzNo))) in
    rate ← (if decide (0 < bc_Throttle (b_config b))
            then l ← of_option NilDereference (b_rate b); mret (Some (Wait now l).1)
            else mret (b_rate b));
    mret (MkBenchmark (b_config b) rate (b_latency b) (b_wait b) (b_keys b) (b_latencies b)
            (b_generated b) (b_written b) count, key)
  else Fault FatalExit.

(** Lines 82-87 and 93-94: a key is generated and sent to the workers, if the
    channel has room. *)
Definition generate (N ByzNo now : Z) (b : Benchmark) : outcome Benchmark :=
  if decide (Z.of_nat (length (b_keys b)) < bc_Concurrency (b_config b)) then
    let b := MkBenchmark (b_config b) (b_rate b) (b_latency b) (int64 (b_wait b + 1)) (b_keys b)
               (b_latencies b) (b_generated b) (b_written b) (b_count b) in
    '(b, k) ← next N ByzNo now b;
    mret (MkBenchmark (b_config b) (b_rate b) (b_latency b) (b_wait b) (b_keys b ++ [k])
            (b_latencies b) (b_generated b ++ [k]) (b_written b) (b_count b))
  else mret b.

(** Lines 115-143: a worker writes the next key and reports nothing. *)
Definition worker (b : Benchmark) : outcome Benchmark :=
  match b_keys b with
  | [] => mret b
  | k :: ks => mret (MkBenchmark (b_config b) (b_rate b) (b_latency b) (b_wait b) ks (b_latencies b)
                       (b_generated b) (b_written b ++ [k]) (b_count b))
  end.

(** Lines 163-168. *)
Definition collect (b : Benchmark) : outcome Benchmark :=
  match b_latencies b with
  | [] => mret b
  | t :: ts => mret (MkBenchmark (b_config b) (b_rate b) (b_latency b ++ [t]) (int64 (b_wait b - 1))
                       (b_keys b) ts (b_generated b) (b_written b) (b_count b))
  end.

Inductive bench_step := BGenerate (now : Z) | BWorker | BCollect.
Definition bench_do (N ByzNo : Z) (s : bench_step) (b : Benchmark) : outcome Benchmark :=
  match s with BGenerate now => generate N ByzNo now b | BWorker => worker b | BCollect => collect b end.
Fixpoint bench_run (N ByzNo : Z) (ss : list bench_step) (b : Benchmark) : outcome Benchmark :=
  match ss with [] => mret b | s :: ss => b ← bench_do N ByzNo s b; bench_run N ByzNo ss b end.

(** Lines 96-103: the end of [Run], after the time is up or [N] keys were sent; the
    latter waits for the counter of the wait group. *)
Definition finish (b : Benchmark) : outcome Stat :=
  if decide (0 < bc_T (b_config b)) then Statistic (b_latency b)
  else if decide (b_wait b = 0) then Statistic (b_latency b) else Fault Blocked.

(** Lines 97 and 107: the throughput, confirmed operations per second of the [t]
    nanoseconds of the run. *)
Definition throughput (t : Z) (b : Benchmark) : f64 :=
  f64_div (f64_of_Z (Z.of_nat (length (b_latency b)))) (Seconds t).

(** Lines 58-113: fresh channels, then the generator, the workers and the collector in
    the order of [ss], until the timer of [T] seconds has fired or [N] keys are
    generated; then the end.  A list of steps that is too short for a counted run is
    not a run. *)
Definition start_run (b : Benchmark) : Benchmark :=
  MkBenchmark (b_config b) (b_rate b) [] (b_wait b) [] [] [] [] (b_count b).
Definition Run (N ByzNo : Z) (ss : list bench_step) (b : Benchmark) : outcome Stat :=
  b ← bench_run N ByzNo ss (start_run b);
  if decide (0 < bc_T (b_config b) ∨ bc_N (b_config b) ≤ Z.of_nat (length (b_generated b)))
  then finish b else Fault FuelExhausted.

(** The [i]-th generated key. *)
Definition key_of (N ByzNo : Z) (i : nat) : Z := int64 (uint64 (Z.of_nat i * (N - ByzNo))).

Record benched (N ByzNo : Z) (c : Bconfig) (b : Benchmark) : Prop := {
  bn_config : b_config b = c;
  bn_latency : b_latency b = [];
  bn_latencies : b_latencies b = [];
  bn_order : b_written b ++ b_keys b = b_generated b;
  bn_keys : b_generated b = key_of N ByzNo <$> seq 0 (length (b_generated b));
  bn_count : b_count b = uint64 (Z.of_nat (length (b_generated b)) * (N - ByzNo));
  bn_wait : b_wait b = int64 (Z.of_nat (length (b_generated b)))
}.

Lemma uint64_add a b : uint64 (uint64 a + uint64 b) = uint64 (a + b).
Proof. unfold uint64. by rewrite <- Zplus_mod. Qed.

Lemma uint64_int64 z : uint64 (int64 z) = uint64 z.
Proof.
  unfold uint64, int64.
  replace ((z + 9223372036854775808) mod 18446744073709551616 - 9223372036854775808)
    with ((z + 9223372036854775808) mod 18446744073709551616 + (- 9223372036854775808)) by lia.
  rewrite Zplus_mod_idemp_l. f_equal. lia.
Qed.

Lemma benched_generate N ByzNo c now b b' :
  benched N ByzNo c b → generate N ByzNo now b = Ok b' → benched N ByzNo c b'.
Proof.
  intros [B1 B2 B3 B4 B5 B6 B7]. unfold generate. case_decide; [|by intros [= <-]].
  intros ([b1 k] & Hn & Hb)%outcome_bind_ok. injection Hb as <-. unfold next in Hn.
  destruct (decide (bc_Distribution _ = _)); [|done].
  apply outcome_bind_ok in Hn as (r & _ & Hn). injection Hn as <- <-. simpl.
  split; simpl; try done.
  - by rewrite app_assoc, B4.
  - rewrite length_app. simpl. rewrite seq_app, fmap_app, <- B5. simpl. f_equal. f_equal.
    unfold key_of. by rewrite B6.
  - rewrite length_app. simpl. rewrite B6, uint64_int64, uint64_add. f_equal. lia.
  - rewrite length_app. simpl. rewrite B7, int64_add_l. f_equal. lia.
Qed.

Lemma benched_run N ByzNo c ss b b' :
  benched N ByzNo c b → bench_run N ByzNo ss b = Ok b' → benched N ByzNo c b'.
Proof.
  revert b. induction ss as [|s ss IH]; intros b B; simpl; [by intros [= <-]|].
  intros (b1 & H1 & H2)%outcome_bind_ok. apply (IH b1); [|done]. destruct s as [now| |]; simpl in H1.
  - by eapply benched_generate.
  - unfold worker in H1. destruct (b_keys b) as [|k ks] eqn:E; injection H1 as <-; [done|].
    destruct B as [B1 B2 B3 B4 B5 B6 B7]. split; simpl; try done. by rewrite <- app_assoc, <- B4, E.
  - unfold collect in H1. rewrite (bn_latencies _ _ _ _ B) in H1. by injection H1 as <-.
Qed.

Lemma benched_new N ByzNo c b0 : NewBenchmark c = Ok b0 → benched N ByzNo c b0.
Proof.
  intros H0. unfold NewBenchmark in H0. destruct (decide (0 < bc_Throttle c)).
  - apply outcome_bind_ok in H0 as (lm & _ & H0). by injection H0 as <-.
  - by injection H0 as <-.
Qed.

(** In every interleaving of the generator, the workers and the collector, the
    keys written are the first ones generated, each once and in order, the [i]-th
    key being [i] times the number of honest nodes.  No worker ever reports a
    latency, so a timed run ends with a panic on the empty data, and a counted run
    waits for ever for the reports, unless it generated nothing. *)
Theorem benchmark_runs N ByzNo c ss b0 b :
  NewBenchmark c = Ok b0 → bench_run N ByzNo ss b0 = Ok b →
  b_generated b = key_of N ByzNo <$> seq 0 (length (b_generated b))
  ∧ b_written b `prefix_of` b_generated b
  ∧ (0 < bc_T c → finish b = Fault IndexOutOfRange)
  ∧ (bc_T c ≤ 0 → 0 < Z.of_nat (length (b_generated b)) ≤ max_int64 → finish b = Fault Blocked).
Proof.
  intros H0 Hrun. pose proof (benched_new N ByzNo _ _ H0) as B0.
  destruct (benched_run _ _ _ _ _ _ B0 Hrun) as [B1 B2 B3 B4 B5 B6 B7].
  split_and!; [exact B5| | |].
  - exists (b_keys b). by rewrite B4.
  - intros HT. unfold finish. rewrite B1, decide_True by done. by rewrite B2.
  - intros HT Hlen. unfold finish. rewrite B1, decide_False by lia. rewrite B7, decide_False; [done|].
    rewrite int64_id by (unfold_ints; lia). lia.
Qed.

Lemma bench_run_generated N ByzNo ss b b' :
  bench_run N ByzNo ss b = Ok b' → (length (b_generated b') ≤ length (b_generated b) + length ss)%nat.
Proof.
  revert b. induction ss as [|s ss IH]; intros b Hb; simpl in Hb; [injection Hb as <-; simpl; lia|].
  apply outcome_bind_ok in Hb as (b1 & H1 & H2). apply IH in H2. simpl.
  cut (length (b_generated b1) ≤ S (length (b_generated b)))%nat; [lia|].
  destruct s as [now| |]; simpl in H1; unfold generate, worker, collect in H1.
  - destruct (decide _); [|injection H1 as <-; lia]. apply outcome_bind_ok in H1 as ([b2 k] & H1 & [= <-]).
    unfold next in H1. simpl in H1. destruct (decide _); [|done].
    apply outcome_bind_ok in H1 as (rate & _ & [= <- _]). simpl. rewrite length_app. simpl. lia.
  - destruct (b_keys b); injection H1 as <-; simpl; lia.
  - destruct (b_latencies b); injection H1 as <-; simpl; lia.
Qed.

(** So [Run] never returns. *)
Lemma Run_never_returns N ByzNo c ss b0 stat :
  NewBenchmark c = Ok b0 → 0 < bc_T c ∨ 0 < bc_N c → Z.of_nat (length ss) ≤ max_int64 →
  Run N ByzNo ss b0 ≠ Ok stat.
Proof.
  intros H0 Hc Hss Hrun. apply outcome_bind_ok in Hrun as (b & Hb & Hf).
  assert (start_run b0 = b0 ∧ b_config b0 = c) as [Hs Hcfg].
  { unfold NewBenchmark in H0. destruct (decide (0 < bc_Throttle c)).
    - apply outcome_bind_ok in H0 as (lm & _ & H0). by injection H0 as <-.
    - by injection H0 as <-. }
  rewrite Hs in Hb. pose proof (bench_run_generated _ _ _ _ _ Hb) as Hlen.
  assert (b_generated b0 = []) as Hg by (by rewrite <- Hs).
  rewrite Hg in Hlen. simpl in Hlen.
  destruct (benchmark_runs N ByzNo c ss b0 b H0 Hb) as (_ & _ & HT & HN).
  assert (b_config b = c) as Ec.
  { apply (bn_config N ByzNo). eapply benched_run; [|exact Hb]. by eapply benched_new. }
  rewrite Ec in Hf. destruct (decide (0 < bc_T c)) as [Hpos|Hpos]; [by rewrite HT in Hf by done; destruct (decide _)|].
  destruct (decide _) as [[?|Hn]|]; [lia| |done]. rewrite HN in Hf; [done|lia|lia].
Qed.

Definition sample_bconfig (T : Z) : Bconfig := MkBconfig T 3 1000 0 4 "uniform" 0 0 0%Q 0%Q false 10.

Definition sample_steps : list bench_step := [BGenerate 0; BGenerate 0; BWorker; BGenerate 0; BWorker].
Definition sample_new : Benchmark := MkBenchmark (sample_bconfig 60) None [] 0 [] [] [] [] 0.
Definition sample_bench : Benchmark :=
  MkBenchmark (sample_bconfig 60) None [] 3 [6] [] [0; 3; 6] [0; 3] 9.

Lemma benchmark_runs_witness :
  b_generated sample_bench = [0; 3; 6] ∧ b_written sample_bench = [0; 3]
  ∧ finish sample_bench = Fault IndexOutOfRange.
Proof.
  split; [reflexivity|]. split; [reflexivity|].
  assert (NewBenchmark (sample_bconfig 60) = Ok sample_new) as H0 by (vm_compute; reflexivity).
  assert (bench_run 4 1 sample_steps sample_new = Ok sample_bench) as H1 by (vm_compute; reflexivity).
  exact (proj1 (proj2 (proj2 (benchmark_runs 4 1 (sample_bconfig 60) sample_steps sample_new sample_bench H0 H1)))
    ltac:(vm_compute; reflexivity)).
Defined.
