(* ===== verification/Client.v ===== *)
(** * The client ([src/client.go])

    The HTTP client of a cluster: writes go to every node it knows, and
    [Consensus] compares the histories that the nodes return.  The network is a
    parameter; for [Consensus] and the fault injections it is also the HTTP
    interface of file [Node], so that client and nodes are put together. *)
From S2P Require Import Prelude Identity Sha1 Election Db Crypto Types Quorum Forest BlockChain Pacemaker Mempool Chained Safety Transport Utils Socket Replica Node Config Bench.
From Stdlib Require Import QArith.

Local Open Scope Z_scope.

(** Lines 36-44. *)
Record HTTPClient := MkClient {
  c_Addrs : gmap NodeID string;
  c_HTTP : gmap NodeID string;
  c_ID : NodeID;
  c_N : Z;
  c_CID : Z
}.

(** Lines 57-61. *)
Definition remove_nodes (bzn : Z) (m : gmap NodeID string) : gmap NodeID string :=
  foldl (λ m i, delete (NewNodeID i) m) m (seqZ 1 bzn).

(** Lines 47-64: the maps of the client are those of the configuration, so the
    deletions change the configuration, too. *)
Definition NewHTTPClient (c : Config) : HTTPClient * Config :=
  let a := default ∅ (Addrs c) in
  let h := default ∅ (HTTPAddrs c) in
  let n := Z.of_nat (base.size a) in
  if decide (Strategy c = "silence") then
    let a' := remove_nodes (ByzNo c) a in
    let h' := remove_nodes (ByzNo c) h in
    (MkClient a' h' "" n 0,
     set_Addrs (const a' <$> Addrs c) (const h' <$> HTTPAddrs c) (nodes_n c) c)
  else (MkClient a h "" n 0, c).

Definition count_command (c : HTTPClient) : HTTPClient :=
  MkClient (c_Addrs c) (c_HTTP c) (c_ID c) (c_N c) (int64 (c_CID c + 1)).

(** Lines 68-73. *)
Definition Get (c : HTTPClient) : HTTPClient * (string * option string) := (count_command c, ("", None)).

(** Line 217: the address of the request for a key at a node. *)
Definition put_url (ip : string) (key : Z) (id : NodeID) : string :=
  (ip ++ "/" ++ Itoa (int64 (key + Node id)))%string.

Section put.
Context `{GoRange}.

(** A request and a response of the HTTP library; the body of a response may
    have been cut short, which [ReadAll] passes over. *)
Record http_message := MkHttp {
  hm_method : string;
  hm_url : string;
  hm_body : option (list Z);
  hm_header : gmap string string
}.
Record http_response := MkResponse { hr_Status : string; hr_StatusCode : Z; hr_body : list Z }.

(** The library: building a request fails for an address that does not parse, and
    the call may fail. *)
Context (NewRequest : http_message → result http_message) (Do : http_message → result http_response).

(** Lines 93-127: without a value it is a read. *)
Definition rest (c : HTTPClient) (url : string) (value : Value) : result () :=
  let '(method, body) := match value with Some v => ("PUT", Some v) | None => ("GET", None) end in
  match NewRequest (MkHttp method url body ∅) with
  | Err e => Err e
  | Val req =>
      let header := <["Connection" := "keep-alive"]>
        (<["Cid" := Itoa (c_CID c)]> (<["Id" := c_ID c]> (hm_header req))) in
      match Do (MkHttp (hm_method req) (hm_url req) (hm_body req) header) with
      | Err e => Err e
      | Val rep => if decide (hr_StatusCode rep = 200) then Val () else Err (hr_Status rep)
      end
  end.

(** Lines 139-172: the command goes to the node as JSON. *)
Definition json (marshal : Command → list Z) (c : HTTPClient) (id : NodeID) (key : Z) (value : Value)
  : result Value :=
  let url := default "" (c_HTTP c !! id) in
  let data := marshal (MkCommand key value (c_ID c) (c_CID c)) in
  match NewRequest (MkHttp "POST" url (Some data) {["Content-Type" := "json"]}) with
  | Err e => Err e
  | Val req =>
      match Do req with
      | Err e => Err e
      | Val res => if decide (hr_StatusCode res = 200) then Val (Some (hr_body res)) else Err (hr_Status res)
      end
  end.
Definition JSONGet marshal (c : HTTPClient) (key : Z) : result Value := json marshal c (c_ID c) key None.
Definition JSONPut marshal (c : HTTPClient) (key : Z) (value : Value) : result Value :=
  json marshal c (c_ID c) key value.

(** Lines 211-224: one goroutine per node; they all write [err], and the last one
    to finish wins.  [done] is the order in which they finish. *)
Definition AllPut_requests (c : HTTPClient) (key : Z) : list (NodeID * string) :=
  (λ e, (e.1, put_url e.2 key e.1)) <$> range (c_HTTP c).
Definition AllPut (c : HTTPClient) (done : list (NodeID * string)) (value : Value) : result () :=
  foldl (λ _ r, rest c r.2 value) (Val ()) done.

(** Lines 77-80 and 135-137. *)
Definition RESTPut (c : HTTPClient) (done : list (NodeID * string)) (value : Value) : result () :=
  AllPut c done value.
Definition Put (c : HTTPClient) (done : list (NodeID * string)) (value : Value) : HTTPClient * result () :=
  let c := count_command c in (c, RESTPut c done value).

(** The database of the benchmark (client/client.go, lines 10-26) is the client. *)
Definition Database_Init : result () := Val ().
Definition Database_Stop : result () := Val ().
Definition Database_Write (c : HTTPClient) (done : list (NodeID * string)) (value : list Z) : HTTPClient * result () :=
  Put c done (Some value).

(** A write reports the outcome of the request that finished last: it succeeds
    although others failed, and fails although others succeeded. *)
Lemma Put_last c done id url value :
  Put c (done ++ [(id, url)]) value = (count_command c, rest (count_command c) url value).
Proof. unfold Put, RESTPut, AllPut. by rewrite foldl_app. Qed.
End put.

(** ** The numbers of the requests *)

(** The path of the request to node [id] for the [i]-th key of the benchmark: it
    identifies the transaction ([handleRoot] of file [Node]). *)
Definition request_URI (c : Config) (i : nat) (id : NodeID) : string :=
  put_url "" (key_of (Config.N c) (ByzNo c) i) id.

Lemma request_URI_inj c i j id id' :
  request_URI c i id = request_URI c j id' →
  int64 (key_of (Config.N c) (ByzNo c) i + Node id) = int64 (key_of (Config.N c) (ByzNo c) j + Node id').
Proof.
  unfold request_URI, put_url. intros E.
  apply (f_equal (λ s, match s with String _ s => ParseInt s | EmptyString => None end)) in E.
  change (ParseInt (Itoa (int64 (key_of (Config.N c) (ByzNo c) i + Node id)))
          = ParseInt (Itoa (int64 (key_of (Config.N c) (ByzNo c) j + Node id')))) in E.
  rewrite !ParseInt_Itoa in E by apply int64_range. by injection E.
Qed.

Lemma remove_nodes_lookup bzn m j :
  remove_nodes bzn m !! j = if decide (j ∈ NewNodeID <$> seqZ 1 bzn) then None else m !! j.
Proof.
  unfold remove_nodes. generalize (seqZ 1 bzn) as l. intros l. revert m.
  induction l as [|x l IH]; intros m; [done|].
  cbn [foldl fmap list_fmap]. rewrite IH. destruct (decide (j = NewNodeID x)) as [->|Hne].
  - rewrite lookup_delete_eq. rewrite (decide_True (P := NewNodeID x ∈ _ :: _)) by set_solver.
    by destruct (decide _).
  - rewrite lookup_delete_ne by done. apply decide_ext. set_solver.
Qed.

(** A configuration of nodes with the numbers from 1 to [n]. *)
Definition numbered (c : Config) : Prop :=
  ∃ h, HTTPAddrs c = Some h ∧ 0 ≤ ByzNo c < Config.N c ∧ Config.N c ≤ max_int64
    ∧ ∀ j, is_Some (h !! j) ↔ ∃ k, 1 ≤ k ≤ Config.N c ∧ j = NewNodeID k.

Lemma client_nodes c j :
  numbered c → is_Some (c_HTTP (NewHTTPClient c).1 !! j) ↔
  ∃ k, (if decide (Strategy c = "silence") then ByzNo c else 0) < k ≤ Config.N c ∧ j = NewNodeID k.
Proof.
  intros (h & Hh & Hb & Hmax & Hn). unfold NewHTTPClient. rewrite Hh. destruct (decide (Strategy c = "silence")); simpl.
  - rewrite remove_nodes_lookup. destruct (decide _) as [(k & -> & Hk%elem_of_seqZ)%list_elem_of_fmap|Hno].
    + split; [by intros [? ?]|]. intros (k' & Hk' & E). apply NewNodeID_inj in E; lia.
    + rewrite Hn. split; intros (k & Hk & ->); exists k; (split; [|done]); [|lia].
      destruct (decide (k ≤ ByzNo c)); [|lia]. destruct Hno.
      apply list_elem_of_fmap. exists k. split; [done|]. apply elem_of_seqZ. lia.
  - rewrite Hn. split; intros (k & Hk & ->); exists k; (split; [lia|done]).
Qed.

Lemma key_of_small N ByzNo i :
  0 ≤ Z.of_nat i * (N - ByzNo) ≤ max_int64 → key_of N ByzNo i = Z.of_nat i * (N - ByzNo).
Proof. intros Hi. unfold key_of. rewrite uint64_id by (unfold_ints; lia). apply int64_id. unfold_ints. lia. Qed.

(** The benchmark numbers its requests apart exactly when every node it steps
    over is left out: if the Byzantine nodes are silent, or there are none, the
    requests of different keys or nodes have different numbers; if Byzantine nodes
    take part, the first two keys already have a number in common. *)
Theorem request_numbers_apart c :
  numbered c →
  ((Strategy c = "silence" ∨ ByzNo c = 0) →
   ∀ i j id id', is_Some (c_HTTP (NewHTTPClient c).1 !! id) → is_Some (c_HTTP (NewHTTPClient c).1 !! id') →
     (Z.of_nat (i `max` j) + 1) * Config.N c ≤ max_int64 →
     request_URI c i id = request_URI c j id' → i = j ∧ id = id')
  ∧ (Strategy c ≠ "silence" → 0 < ByzNo c → 2 * Config.N c ≤ max_int64 →
     ∃ id id', is_Some (c_HTTP (NewHTTPClient c).1 !! id) ∧ is_Some (c_HTTP (NewHTTPClient c).1 !! id')
       ∧ request_URI c 0 id = request_URI c 1 id').
Proof.
  intros Hc. pose proof (client_nodes c) as Hnodes. pose proof Hc as (h & Hh & Hb & HN0 & _). split.
  - intros Hs i j id id' (k & Hk & ->)%(Hnodes _ Hc) (k' & Hk' & ->)%(Hnodes _ Hc) Hmax.
    set (d := Config.N c - ByzNo c) in *.
    assert (∃ lo, (if decide (Strategy c = "silence") then ByzNo c else 0) = lo ∧ Config.N c = lo + d) as (lo & Hlo & HN).
    { destruct (decide (Strategy c = "silence")); [by exists (ByzNo c); split; [done|unfold d; lia]|].
      exists 0. split; [done|]. destruct Hs as [|E]; [done|]. unfold d. lia. }
    rewrite Hlo in Hk, Hk'. assert (0 < d ≤ Config.N c) as Hd by (unfold d; lia).
    assert (∀ x, (x ≤ i `max` j)%nat → 0 ≤ Z.of_nat x * d ∧ (Z.of_nat x + 1) * Config.N c ≤ max_int64
      ∧ Z.of_nat x * d ≤ Z.of_nat x * Config.N c) as Hx.
    { intros x Hx. split; [nia|]. split; [|nia]. assert (Z.of_nat x ≤ Z.of_nat (i `max` j)) by lia. nia. }
    destruct (Hx i ltac:(lia)) as (Hi1 & Hi2 & Hi3), (Hx j ltac:(lia)) as (Hj1 & Hj2 & Hj3).
    intros E%request_URI_inj. rewrite !key_of_small in E by (fold d; lia). fold d in E.
    rewrite !Node_NewNodeID, !int64_id in E by (unfold_ints; lia).
    assert (Z.of_nat i = Z.of_nat j) as Eij by nia. assert (k = k') by nia.
    split; [lia|by subst].
  - intros Hs Hpos Hmax. exists (NewNodeID (Config.N c - ByzNo c + 1)), (NewNodeID 1).
    rewrite !(Hnodes _ Hc), decide_False by done. split_and!.
    + exists (Config.N c - ByzNo c + 1). split; [lia|done].
    + exists 1. split; [lia|done].
    + unfold request_URI, put_url. rewrite !key_of_small, !Node_NewNodeID by lia. do 2 f_equal. f_equal. f_equal. lia.
Qed.

Definition sample_config (strategy : string) : Config :=
  let ids := (λ k, (NewNodeID k, http_address k "127.0.0.1")) <$> [1; 2; 3; 4] in
  MkConfig (Some (list_to_map ids)) (Some (list_to_map ids)) "" 0%Q false 0 0 false 0 1 0 false
    (sample_bconfig 60) 0 false 0 strategy 0 "" 0 0 0 0 0 "" "" 4.

Lemma sample_config_numbered strategy : numbered (sample_config strategy).
Proof.
  eexists. split; [reflexivity|]. split; [vm_compute; split; (reflexivity || discriminate)|].
  split; [vm_compute; discriminate|]. intros j. split.
  - intros [x Hx]. apply elem_of_list_to_map_2 in Hx. simpl in Hx.
    repeat (apply elem_of_cons in Hx as [Hx|Hx]; [injection Hx as -> _|]); [..|by apply elem_of_nil in Hx].
    + exists 1. split; [vm_compute; split; discriminate|reflexivity].
    + exists 2. split; [vm_compute; split; discriminate|reflexivity].
    + exists 3. split; [vm_compute; split; discriminate|reflexivity].
    + exists 4. split; [vm_compute; split; discriminate|reflexivity].
  - intros (k & Hk & ->). change (1 ≤ k ≤ 4) in Hk.
    assert (k = 1 ∨ k = 2 ∨ k = 3 ∨ k = 4) as [->|[->|[->| ->]]] by lia; eexists; vm_compute; reflexivity.
Qed.

Lemma request_numbers_apart_witness :
  request_URI (sample_config "silence") 0 "4" ≠ request_URI (sample_config "silence") 1 "2"
  ∧ ∃ id id', request_URI (sample_config "fork") 0 id = request_URI (sample_config "fork") 1 id'.
Proof.
  split.
  - destruct (request_numbers_apart (sample_config "silence") (sample_config_numbered _)) as [H _].
    intros E. destruct (H (or_introl eq_refl) 0%nat 1%nat "4" "2") as [H1 _];
      [vm_compute; eexists; reflexivity|vm_compute; eexists; reflexivity|vm_compute; discriminate|exact E|discriminate H1].
  - destruct (request_numbers_apart (sample_config "fork") (sample_config_numbered _)) as [_ H].
    destruct H as (id & id' & _ & _ & E); [discriminate|vm_compute; reflexivity|vm_compute; discriminate|].
    exists id, id'. exact E.
Defined.

(** ** Comparing histories (lines 227-268) *)
Section consensus.
Context `{GoRange}.

(** Lines 250-255. *)
Definition max_len (h : gmap NodeID (list (list Z))) : nat :=
  foldr (λ e n, max (length e.2) n) 0%nat (range h).

(** Lines 257-262: the values at position [i]. *)
Definition values_at (ids : list NodeID) (h : gmap NodeID (list (list Z))) (i : nat) : gset (list Z) :=
  list_to_set (omap (λ id, default [] (h !! id) !! i) ids).

(** Lines 256-266. *)
Definition same_histories (ids : list NodeID) (h : gmap NodeID (list (list Z))) : bool :=
  forallb (λ i, bool_decide (base.size (values_at ids h i) ≤ 1)%nat) (seq 0 (max_len h)).

(** Lines 227-268; [fetch] is the history a node returns, an error leaves it empty. *)
Definition histories (c : HTTPClient) (fetch : NodeID → result (list (list Z)))
  : gmap NodeID (list (list Z)) :=
  list_to_map ((λ id, (id, match fetch id with Val l => l | Err _ => [] end)) <$> (range (c_HTTP c)).*1).
Definition Consensus (c : HTTPClient) (fetch : NodeID → result (list (list Z))) : bool :=
  same_histories (range (c_HTTP c)).*1 (histories c fetch).

Lemma max_len_spec h id l : h !! id = Some l → (length l ≤ max_len h)%nat.
Proof.
  intros Hl%elem_of_range. unfold max_len. induction (range h) as [|e r IH]; simpl; [set_solver|].
  apply elem_of_cons in Hl as [<-|Hl]; simpl; [lia|]. specialize (IH Hl). lia.
Qed.

Lemma singleton_size (X : gset (list Z)) : (base.size X ≤ 1)%nat ↔ ∀ x y, x ∈ X → y ∈ X → x = y.
Proof.
  split.
  - intros Hs x y Hx Hy. destruct (decide (x = y)) as [|Hne]; [done|].
    assert (base.size ({[x; y]} : gset (list Z)) ≤ 1)%nat as Hle.
    { etrans; [|exact Hs]. apply subseteq_size. set_solver. }
    rewrite size_union, !size_singleton in Hle by set_solver. lia.
  - intros Hxy. destruct (decide (X = ∅)) as [->|Hne]; [rewrite size_empty; lia|].
    apply set_choose_L in Hne as [x Hx]. assert (X ⊆ {[x]}) as Hsub by (intros y Hy; apply elem_of_singleton; auto).
    apply subseteq_size in Hsub. by rewrite size_singleton in Hsub.
Qed.

(** Two lists that agree wherever both have a value. *)
Lemma agree_prefix (l1 l2 : list (list Z)) :
  (∀ i x y, l1 !! i = Some x → l2 !! i = Some y → x = y) ↔ l1 `prefix_of` l2 ∨ l2 `prefix_of` l1.
Proof.
  split.
  - revert l2. induction l1 as [|a l1 IH]; intros [|b l2] Hl; [left; apply prefix_nil..|right; apply prefix_nil|].
    assert (a = b) as -> by (by apply (Hl 0%nat)).
    destruct (IH l2) as [Hp|Hp]; [intros i x y; apply (Hl (S i))|left; by apply prefix_cons|right; by apply prefix_cons].
  - intros [[k ->]|[k ->]] i x y Hx Hy.
    + rewrite (lookup_app_l_Some _ _ _ _ Hx) in Hy. by injection Hy.
    + rewrite (lookup_app_l_Some _ _ _ _ Hy) in Hx. by injection Hx.
Qed.

Lemma histories_lookup c fetch id :
  histories c fetch !! id
  = if decide (is_Some (c_HTTP c !! id)) then Some (match fetch id with Val l => l | Err _ => [] end) else None.
Proof.
  unfold histories. set (g := λ id, match fetch id with Val l => l | Err _ => [] end).
  assert (∀ l, NoDup l → list_to_map (M := gmap NodeID (list (list Z))) ((λ id, (id, g id)) <$> l) !! id
    = if decide (id ∈ l) then Some (g id) else None) as Hl.
  { intros l Hnd. destruct (decide (id ∈ l)) as [Hin|Hin].
    - apply elem_of_list_to_map_1.
      + rewrite <- list_fmap_compose. simpl. by rewrite list_fmap_id.
      + apply list_elem_of_fmap. by exists id.
    - apply not_elem_of_list_to_map_1. rewrite <- list_fmap_compose. simpl. by rewrite list_fmap_id. }
  rewrite Hl by apply NoDup_fst_range. apply decide_ext. rewrite list_elem_of_fmap. split.
  - intros ([id' x] & -> & Hin%elem_of_range). by eexists.
  - intros [x Hx]. exists (id, x). split; [done|]. by apply elem_of_range.
Qed.

Lemma same_histories_spec ids h :
  (∀ id, id ∈ ids ↔ is_Some (h !! id)) →
  same_histories ids h = true ↔
  ∀ i id1 id2 l1 l2 x y, h !! id1 = Some l1 → h !! id2 = Some l2 →
    l1 !! i = Some x → l2 !! i = Some y → x = y.
Proof.
  intros Hids. unfold same_histories. rewrite forallb_forall.
  setoid_rewrite <- list_elem_of_In.
  assert (∀ i x, x ∈ values_at ids h i ↔ ∃ id l, h !! id = Some l ∧ l !! i = Some x) as Hval.
  { intros i x. unfold values_at. rewrite elem_of_list_to_set, list_elem_of_omap. split.
    - intros (id & Hid & Hx). apply Hids in Hid as [l Hl]. rewrite Hl in Hx. by exists id, l.
    - intros (id & l & Hl & Hx). exists id. split; [apply Hids; by eexists|]. by rewrite Hl. }
  split.
  - intros Hall i id1 id2 l1 l2 x y H1 H2 Hx Hy. specialize (Hall i).
    rewrite elem_of_seq, bool_decide_eq_true, singleton_size in Hall. apply Hall.
    + apply lookup_lt_Some in Hx as Hlt. pose proof (max_len_spec h id1 l1 H1). lia.
    + apply Hval. eauto.
    + apply Hval. eauto.
  - intros Hall i _. apply bool_decide_eq_true, singleton_size. intros x y (id1 & l1 & H1 & Hx)%Hval (id2 & l2 & H2 & Hy)%Hval.
    by apply (Hall i id1 id2 l1 l2).
Qed.
End consensus.

(** [Consensus] answers yes exactly when of any two histories the nodes
    returned one is a prefix of the other; a node that does not answer counts as
    having an empty one. *)
Theorem Consensus_prefixes `{GoRange} c fetch :
  Consensus c fetch = true ↔
  ∀ id1 id2 l1 l2, histories c fetch !! id1 = Some l1 → histories c fetch !! id2 = Some l2 →
    l1 `prefix_of` l2 ∨ l2 `prefix_of` l1.
Proof.
  unfold Consensus. rewrite same_histories_spec.
  - setoid_rewrite <- agree_prefix. naive_solver.
  - intros id. rewrite histories_lookup, list_elem_of_fmap. split.
    + intros ([id' x] & -> & Hin%elem_of_range). rewrite decide_True by (by eexists). by eexists.
    + destruct (decide _) as [[x Hx]|]; [|by intros [? ?]]. intros _. exists (id, x). split; [done|].
      by apply elem_of_range.
Qed.

(** ** Client and nodes together *)
Section cluster.
Context `{GoRange} {R : Type} (Intn : nat → Z → Z) (now CrashTime SlowMax : Z) (HTTPAddrs : gmap NodeID string).
(** [json.Unmarshal] into a list of values. *)
Context (unmarshal : string → option (list (list Z))).

Abbreviation cluster := (gmap NodeID (node R)).

(** A request to a node; a node that is not there gives an error. *)
Definition http_request (id : NodeID) (r : request) : prog cluster (result string) := λ cl,
  match cl !! id with
  | None => Ok (cl, Err "connection refused")
  | Some n =>
      '(n', resp) ← serve Intn now CrashTime SlowMax HTTPAddrs r n;
      Ok (<[id := n']> cl, match resp with Some s => Val s | None => Err "no response" end)
  end.

(** Lines 229-249. *)
Fixpoint fetch_histories (k : Z) (ids : list NodeID) (h : gmap NodeID (list (list Z)))
  : prog cluster (gmap NodeID (list (list Z))) :=
  match ids with
  | [] => mret h
  | id :: ids =>
      r ← http_request id (MkRequest "/history" ("/history?key=" ++ Itoa k) []);
      fetch_histories k ids
        (<[id := match r with Val body => default [] (unmarshal body) | Err _ => [] end]> h)
  end.

Definition Consensus_call (c : HTTPClient) (k : Z) : prog cluster bool :=
  h ← fetch_histories k (range (c_HTTP c)).*1 ∅;
  mret (same_histories (range (c_HTTP c)).*1 h).

(** Lines 272-291. *)
Definition client_Crash (id : NodeID) (t : Z) : prog cluster () :=
  http_request id (MkRequest "/crash" ("/crash?t=" ++ Itoa t) []);; mret ().
Definition client_Drop (from to : NodeID) (t : Z) : prog cluster () :=
  http_request from (MkRequest "/drop" ("/drop?id=" ++ to ++ "&t=" ++ Itoa t) []);; mret ().

(** The transaction without data that a request to an unknown path submits. *)
Definition empty_transaction (n : node R) (uri : string) : any :=
  ATransaction (MkTransaction (MkCommand 0 (Some []) "" 0) ∅ now (n_id n) uri) (Some (length (replies n))).

Definition submitted (uri : string) (n : node R) : node R :=
  set_TxChan (TxChan n ++ [empty_transaction n uri]) (set_replies (replies n ++ [[]]) n).

Lemma http_unknown_path id n path uri cl :
  cl !! id = Some n → mux path = RRoot →
  http_request id (MkRequest path uri []) cl = Ok (<[id := submitted uri n]> cl, Val "").
Proof. intros Hn Hp. unfold http_request. rewrite Hn. unfold serve. simpl. by rewrite Hp. Qed.

Lemma fetch_histories_run k ids h cl :
  unmarshal "" = None → NoDup ids → (∀ id, id ∈ ids → is_Some (cl !! id)) →
  ∃ cl' h', fetch_histories k ids h cl = Ok (cl', h')
    ∧ (∀ id, h' !! id = if decide (id ∈ ids) then Some [] else h !! id)
    ∧ ∀ id, cl' !! id = if decide (id ∈ ids) then submitted ("/history?key=" ++ Itoa k) <$> cl !! id else cl !! id.
Proof.
  intros Hun Hnd. revert h cl. induction Hnd as [|id ids Hid Hnd IH]; intros h cl Hcl.
  { exists cl, h. split; [done|]. split; intros id; by rewrite decide_False by set_solver. }
  destruct (Hcl id) as [n Hn]; [left|]. cbn [fetch_histories].
  rewrite (prog_bind_run _ _ _ _ _ (http_unknown_path id n "/history" ("/history?key=" ++ Itoa k) cl Hn eq_refl)).
  rewrite Hun. simpl default.
  destruct (IH (<[id := []]> h) (<[id := submitted ("/history?key=" ++ Itoa k) n]> cl)) as (cl' & h' & H1 & Hh & H2).
  { intros j Hj. destruct (decide (j = id)) as [->|]; [rewrite lookup_insert_eq; by eexists|].
    rewrite lookup_insert_ne by done. apply Hcl. by right. }
  exists cl', h'. split_and!; [done| |].
  - intros j. rewrite Hh. destruct (decide (j = id)) as [->|Hne].
    + rewrite decide_False by done. rewrite lookup_insert_eq, decide_True by (left). done.
    + rewrite lookup_insert_ne by done. apply decide_ext. set_solver.
  - intros j. rewrite H2. destruct (decide (j = id)) as [->|Hne].
    + rewrite decide_False by done. rewrite lookup_insert_eq, Hn, decide_True by (left). done.
    + rewrite lookup_insert_ne by done. apply decide_ext. set_solver.
Qed.

(** Against the nodes of this program [Consensus] answers yes whatever their
    states: they have no path for histories, so the request falls through to the
    one for transactions, whose response is empty and does not parse.  The only
    effect is one more transaction without data in the channel of every node. *)
Theorem Consensus_vacuous c k cl :
  unmarshal "" = None → (∀ id, is_Some (c_HTTP c !! id) → is_Some (cl !! id)) →
  ∃ cl', Consensus_call c k cl = Ok (cl', true)
    ∧ ∀ id, cl' !! id = if decide (is_Some (c_HTTP c !! id))
                        then submitted ("/history?key=" ++ Itoa k) <$> cl !! id else cl !! id.
Proof.
  intros Hun Hcl.
  assert (∀ id, id ∈ (range (c_HTTP c)).*1 ↔ is_Some (c_HTTP c !! id)) as Hids.
  { intros id. rewrite list_elem_of_fmap. split.
    - intros ([id' x] & -> & Hin%elem_of_range). by eexists.
    - intros [x Hx]. exists (id, x). split; [done|]. by apply elem_of_range. }
  destruct (fetch_histories_run k (range (c_HTTP c)).*1 ∅ cl Hun) as (cl' & h' & H1 & Hh & H2);
    [apply NoDup_fst_range|intros id Hid; by apply Hcl, Hids|].
  exists cl'. split.
  - unfold Consensus_call. rewrite (prog_bind_run _ _ _ _ _ H1). unfold mret, prog_ret. do 2 f_equal.
    apply same_histories_spec.
    + intros id. rewrite Hh. destruct (decide (id ∈ _)); [split; [by eexists|done]|].
      rewrite lookup_empty. split; [done|by intros [? ?]].
    + intros i id1 id2 l1 l2 x y E1 _ Hx _. rewrite Hh in E1. destruct (decide (id1 ∈ _)); [|done].
      injection E1 as <-. done.
  - intros id. rewrite H2. by rewrite (decide_ext _ _ _ _ (Hids id)).
Qed.

(** Neither is there a path for drops: the client's [Drop] leaves the sockets
    alone and submits a transaction; and its [Crash] crashes the node for the
    configured time, not for the time asked for. *)
Theorem client_faults_ignored id to t cl n :
  cl !! id = Some n →
  client_Drop id to t cl = Ok (<[id := submitted ("/drop?id=" ++ to ++ "&t=" ++ Itoa t) n]> cl, ())
  ∧ ∃ s', Socket.Crash CrashTime (n_socket n) = Ok (s', ())
      ∧ client_Crash id t cl = Ok (<[id := set_socket s' n]> cl, ()).
Proof.
  intros Hn. split.
  - unfold client_Drop. by rewrite (prog_bind_run _ _ _ _ _ (http_unknown_path id n "/drop" _ cl Hn eq_refl)).
  - destruct (Socket.Crash CrashTime (n_socket n)) as [[s' []]|f] eqn:E.
    2:{ unfold Socket.Crash, Socket.after, modify, mbind, prog_bind in E. by destruct (decide (0 < CrashTime)). }
    exists s'. split; [done|].
    assert (serve Intn now CrashTime SlowMax HTTPAddrs (MkRequest "/crash" ("/crash?t=" ++ Itoa t) []) n
            = Ok (set_socket s' n, Some "")) as Hs.
    { unfold serve. change (mux _) with RCrash. cbv iota.
      rewrite (prog_bind_run _ _ n (set_socket s' n) ()); [done|].
      unfold handleCrash, on_socket, zoom. by rewrite E. }
    unfold client_Crash. rewrite (prog_bind_run _ _ cl (<[id := set_socket s' n]> cl) (Val "")); [done|].
    unfold http_request. by rewrite Hn, Hs.
Qed.
End cluster.

(** *** Two nodes with different states *)
Definition sample_cnode (id : NodeID) (replies : list (list TransactionReply)) : node nat :=
  MkNode id false (Socket.MkSocket id ∅ ∅ false ∅ ∅ ∅ [] 0 0) [] [] ∅ ∅ replies zero_stats 0%nat.
Definition sample_cluster : gmap NodeID (node nat) :=
  list_to_map [("1", sample_cnode "1" []); ("2", sample_cnode "2" [[]])].
Definition sample_client : HTTPClient :=
  MkClient ∅ (list_to_map [("1", "http://a"); ("2", "http://b")]) "" 2 0.

Lemma Consensus_vacuous_witness :
  ∃ cl', @Consensus_call canonical_range nat (λ _ _, 0) 7 0 1 ∅ (λ _, None) sample_client 5 sample_cluster = Ok (cl', true)
    ∧ (length ∘ TxChan <$> cl' !! "1") = Some 1%nat.
Proof.
  destruct (@Consensus_vacuous canonical_range nat (λ _ _, 0) 7 0 1 ∅ (λ _, None) sample_client 5 sample_cluster eq_refl)
    as (cl' & H1 & H2).
  - intros id [x Hx]. apply elem_of_list_to_map_2 in Hx. simpl in Hx.
    repeat (apply elem_of_cons in Hx as [Hx|Hx]; [injection Hx as -> _; vm_compute; eexists; reflexivity|]).
    by apply elem_of_nil in Hx.
  - exists cl'. split; [exact H1|]. rewrite H2. vm_compute. reflexivity.
Defined.

Lemma client_faults_ignored_witness :
  ∃ s', @client_Crash canonical_range nat (λ _ _, 0) 7 20 1 ∅ "1" 3 sample_cluster
        = Ok (<["1" := set_socket s' (sample_cnode "1" [])]> sample_cluster, ())
    ∧ Socket.crash s' = true.
Proof.
  destruct (@client_faults_ignored canonical_range nat (λ _ _, 0) 7 20 1 ∅ "1" "2" 3 sample_cluster
              (sample_cnode "1" []) eq_refl) as [_ (s' & H1 & H2)].
  exists s'. split; [exact H2|]. vm_compute in H1. by injection H1 as <-.
Defined.
