(* ===== verification/Server.v ===== *)
(** * The server ([src/server/server.go], [src/server/debug.go], [src/init.go])

    The entry point: it loads the configuration, installs the keys, and starts one
    replica, or, in simulation mode, one for every address of the configuration.
    What is started is a value here; the replicas themselves are in file [Replica]
    and their transports in file [Transport].  Profiling is the list of the file
    operations and profiler calls it makes. *)
From S2P Require Import Prelude Identity Crypto Transport Config.
From Stdlib Require Import DecimalString.

Local Open Scope Z_scope.

(** The value [strconv.Atoi] returns next to its error: zero if the string is not a
    number, the nearest integer if it is out of range. *)
Definition Atoi (s : string) : Z :=
  let '(neg, digits) := split_sign s in
  match NilZero.uint_of_string digits with
  | None => 0
  | Some d =>
      let v := Z.of_N (N.of_uint d) in
      Z.max min_int64 (Z.min max_int64 (if (neg : bool) then - v else v))
  end.

Section server.
Context `{Ecdsa, GoRange}.

(** What [main] starts: the default scheme of addresses, the keys and the replicas,
    each with whether it is Byzantine. *)
Record launch := MkLaunch {
  ln_Scheme : string;
  ln_keys : list (PrivateKey * PublicKey);
  ln_replicas : list (NodeID * bool)
}.

(** config.go, lines 103-105. *)
Definition Simulation : string := "chan".

(** Lines 32-60; [Scheme], [simulation] and [id] are the flags, [file] is the
    decoded configuration and [ips] are the lines of the file of addresses. *)
Definition main (Scheme : string) (simulation : bool) (id : string) (file : Config) (ips : list string)
  : outcome launch :=
  c ← Load file ips;
  r ← SetKeys (GetSignatureScheme c) (Z.to_nat (Config.N c)) 0;
  match r with
  | Err _ => Fault FatalExit
  | Val keys =>
      if (simulation : bool) then
        mret (MkLaunch Simulation keys ((λ i, (i, bool_decide (Node i ≤ ByzNo c))) <$> IDs c))
      else mret (MkLaunch Scheme keys [(id, bool_decide (Atoi id ≤ ByzNo c))])
  end.

(** ** Profiling (debug.go) *)
Section profiling.
(** [time.Now().Format(...)] at the time [t]. *)
Context (Format : Z → string).

(** What [os.Stat] says of a path. *)
Inductive stat_result := StatFound | StatNotExist | StatError (e : string).

(** Lines 77-86. *)
Definition pathExists (st : stat_result) : bool * result () :=
  match st with
  | StatFound => (true, Val ())
  | StatNotExist => (false, Val ())
  | StatError e => (false, Err e)
  end.

(** The calls of [recordPProf]; creating a file may fail, which is ignored. *)
Inductive prof_call :=
  | Mkdir (dir : string)
  | Create (path : string)
  | StartCPUProfile (path : string)
  | StopCPUProfile
  | CloseFile (path : string)
  | WriteHeapProfile (path : string).

Definition cpu_path (t : Z) : string := ("./debug/cpu_" ++ Format t)%string.
Definition mem_path (t : Z) : string := ("./debug/mem_" ++ Format t)%string.

(** Lines 54-57 and 69-72. *)
Definition start_profile (t : Z) : list prof_call := [Create (cpu_path t); StartCPUProfile (cpu_path t)].

(** Lines 60-74: one round of the loop, [t] being the time of the last start; the heap
    is written when the period ends, under the name of its beginning. *)
Fixpoint profile_rounds (t : Z) (ticks : list Z) : list prof_call :=
  match ticks with
  | [] => []
  | t' :: ticks =>
      [StopCPUProfile; CloseFile (cpu_path t); Create (mem_path t); WriteHeapProfile (mem_path t); CloseFile (mem_path t)]
      ++ start_profile t' ++ profile_rounds t' ticks
  end.

(** Lines 35-75, up to the last of the [ticks]. *)
Definition recordPProf (st : stat_result) (made : bool) (t : Z) (ticks : list Z) : list prof_call :=
  match pathExists st with
  | (_, Err _) => []
  | (true, Val ()) => start_profile t ++ profile_rounds t ticks
  | (false, Val ()) => Mkdir "./debug" :: if made then start_profile t ++ profile_rounds t ticks else []
  end.

(** Lines 25-33: the address that is served, and whether profiles are recorded. *)
Definition setupDebug (c : Config) : option (string * Z) :=
  if Pprof c then Some ("0.0.0.0:10001", 5 * 1000000000) else None.

(** The file of the profile that is being recorded, [None] when a call is out of turn. *)
Definition prof_step (cur : option (option string)) (c : prof_call) : option (option string) :=
  match cur, c with
  | Some None, StartCPUProfile p => Some (Some p)
  | Some (Some _), StopCPUProfile => Some None
  | Some (Some _), StartCPUProfile _ | Some None, StopCPUProfile => None
  | cur, _ => cur
  end.

(** At any time at most one profile is recorded, to the file made for it last, and a
    profile is stopped before the next one starts. *)
Lemma recordPProf_alternates st made t ticks :
  recordPProf st made t ticks = [] ∨ recordPProf st made t ticks = [Mkdir "./debug"]
  ∨ foldl prof_step (Some None) (recordPProf st made t ticks) = Some (Some (cpu_path (foldl (λ _ t, t) t ticks))).
Proof.
  assert (∀ ticks t, foldl prof_step (Some (Some (cpu_path t))) (profile_rounds t ticks)
    = Some (Some (cpu_path (foldl (λ _ t, t) t ticks)))) as Hr.
  { clear. induction ticks as [|t' ticks IH]; intros t; [done|]. simpl. by rewrite IH. }
  destruct st as [| |e]; unfold recordPProf; simpl; [right; right|destruct made; [right; right|right; by left]|by left];
    simpl; apply Hr.
Qed.
End profiling.

(** ** Which replicas are Byzantine *)

Lemma Atoi_NewNodeID k : 0 ≤ k ≤ max_int64 → Atoi (NewNodeID k) = k.
Proof.
  intros Hk. unfold NewNodeID, Atoi. rewrite decide_False by lia.
  destruct k as [|p|p]; [done| |lia]. unfold Itoa. rewrite split_sign_digits, uint_of_string_of_pos.
  rewrite DecimalN.Unsigned.of_to. unfold_ints. lia.
Qed.

(** An address with a scheme is not changed by the default scheme. *)
Lemma NewTransport_loaded {M : Type} `{URLParser} Scheme Scheme' k ip :
  NewTransport (M := M) Scheme (peer_address k ip) = NewTransport Scheme' (peer_address k ip).
Proof.
  unfold NewTransport. assert (contains (peer_address k ip) "://" = true) as ->; [|done].
  unfold contains, peer_address. by destruct ip.
Qed.

(** In simulation mode the server starts one replica for every address, and in the
    other mode the one it was asked for; the replicas it calls Byzantine are those
    of [IsByzantine], provided the identifiers are numbers.  Simulation sets the
    default scheme to Go channels, but every address that [Load] takes from the
    file of addresses names TCP, so the transports are the same in both modes. *)
Theorem main_launches {M : Type} `{URLParser} Scheme simulation id file ips ln :
  main Scheme simulation id file ips = Ok ln →
  ∃ c, Load file ips = Ok c
    ∧ length (ln_keys ln) = Z.to_nat (Config.N c)
    ∧ (simulation = true →
         ∀ i byz, (i, byz) ∈ ln_replicas ln ↔ is_Some (default ∅ (Addrs c) !! i) ∧ byz = IsByzantine c i)
    ∧ (simulation = false → ∀ k, 0 ≤ k ≤ max_int64 → id = NewNodeID k →
         ln_replicas ln = [(id, IsByzantine c id)])
    ∧ ∀ k ip, NewTransport (M := M) (ln_Scheme ln) (peer_address k ip)
              = NewTransport Scheme (peer_address k ip).
Proof.
  unfold main. intros (c & Hc & Hln)%outcome_bind_ok. exists c. split; [done|].
  apply outcome_bind_ok in Hln as ([keys|e] & Hk & Hln); [|done].
  assert (length keys = Z.to_nat (Config.N c)) as Hlen by (by eapply SetKeys_length).
  destruct simulation; injection Hln as <-; (split; [done|]); split_and!; try done;
    try (intros; apply NewTransport_loaded); simpl.
  - intros _ i byz. rewrite list_elem_of_fmap. unfold IDs. setoid_rewrite list_elem_of_fmap. split.
    + intros (? & [= -> ->] & [? v] & -> & Hin%elem_of_range). split; [by eexists|done].
    + intros [[v Hv] ->]. exists i. split; [done|]. exists (i, v). split; [done|]. by apply elem_of_range.
  - intros _ k Hk0 ->. unfold IsByzantine. by rewrite Atoi_NewNodeID, Node_NewNodeID.
Qed.
End server.

(** A server without an identifier counts as Byzantine even if there are no
    Byzantine nodes. *)
Example empty_id_is_byzantine `{Ecdsa, GoRange} file ln :
  ByzNo file = 0 → main "tcp" false "" file [] = Ok ln → ln_replicas ln = [("", true)].
Proof.
  intros Hb (c & Hc & Hln)%outcome_bind_ok. injection Hc as <-.
  apply outcome_bind_ok in Hln as ([keys|e] & _ & Hln); [|done]. injection Hln as <-. simpl.
  by rewrite Hb.
Qed.
